(* ===== verification/_CoqProject ===== *)
-Q . S2P
Prelude.v
Crc32.v
KeySlot.v
Numbers.v
SipHash.v
SipHashTest.v
Dict.v
DictInv.v
DictRehash.v
DictSpec.v
DictProps.v
DictIter.v
DictIterProps.v
DictScan.v
SkipList.v
SkipListInv.v
SkipListSpec.v
SkipListProps.v
SkipListRange.v
SkipListUpdate.v
SkipListExamples.v
AdList.v
AdListInv.v
AdListProps.v
Slots.v
SlotsInv.v
SlotsProps.v
Events.v
EventsProps.v
Refinement.v
Accounts.v
RefinementExamples.v
Commands.v
CommandsProps.v
CommandsExamples.v
Statics.v
Prog.v
Server.v
ServerSpec.v
Busy.v
ConnCache.v
Glob.v
GlobProps.v
MemUnits.v
Floats.v
FloatsProps.v
DictStats.v
Migrate.v
MigrateProps.v
Sweep.v
MigratePool.v
MigrateSpec.v
TagKeys.v
TagKeysProps.v
MigrateExamples.v
SweepExamples.v
Restore.v
RestoreProps.v
Pools.v
DelSlots.v
DelSlotsProps.v
MgrtCommands.v
MgrtCommandsProps.v
SlotSession.v
RestoreExamples.v
PoolsExamples.v
SlotSessionExamples.v
Async.v
BusyProps.v
BusyExamples.v
TwoServers.v
TwoServersProps.v
TwoServersSpec.v
AsyncProps.v
TwoServersExamples.v
ModuleInit.v
LoadExamples.v
CpuAffinity.v
Locks.v
LockUse.v
