(* ===== verification/Prelude.v ===== *)
(** * RedisXSlot: a verification library

    RedisXSlot (src/) is a Redis module that keeps, beside Redis's keyspace, an
    index of the keys by slot, and moves keys between servers slot by slot.

    ** The program's parts

    - crc32.c is the checksum; [slots_num] of redisxslot.c turns a key into a
      slot with it (the whole key, or the tag between braces).
    - dep/dict.c (a hash table with incremental rehashing, hashed by
      dep/siphash.c), dep/skiplist.c and dep/list.c are the containers.
    - redisxslot.c keeps for each database one dict per slot, key name to
      checksum, and one skip list of the tagged names ordered by checksum
      ([Slots_Init], [Slots_Add], [Slots_Del], [Slots_Free]).
    - module.c keeps the index up to date from Redis's keyspace notifications,
      flush, shutdown and cron events, and answers commands from it.
    - redisxslot.c moves keys: [migrateKeys] dumps keys, sends them to another
      server with SLOTSRESTORE (in batches, pipelined or by a pool of threads)
      and deletes them once they are acknowledged; the other server restores
      them and notifies itself, which puts them in its index.  SLOTSDEL deletes
      the keys of slots.
    - module.c loads the module and runs commands in threads when it is told to;
      setcpuaffinity.c binds those threads to CPUs.

    ** Files

    - Prelude: machine integers, lists, hint databases.
    - Crc32, KeySlot, SipHash, Numbers: crc32.c, [slots_num] and [slots_tag],
      dep/siphash.c, the integer conversions of dep/util.c.  Theorems: the table
      driven checksum is the bit-serial one; which bytes of a key are hashed; the
      slot is a valid index; printing and parsing are inverse; the case
      insensitive hash is the hash of the lower-cased input.  SipHashTest: the
      test of dep/siphash.c; the code is SipHash with 1 and 2 rounds, and with 2
      and 4 it gives the reference vectors.
    - Dict (operations), DictInv (invariant, the map a dict stands for),
      DictRehash, DictSpec, DictProps, DictScan: dep/dict.c.  Every operation
      refines one on a finite map and calls the destructors once per entry
      dropped, in the middle of a rehashing too; a scan passes every entry
      present throughout, whatever the resizes between its calls.  DictIter,
      DictIterProps: the iterators, with which a client gets every entry once and
      may delete those it has got, and the sampling, which stays in its array.
    - SkipList (operations on an explicit memory of nodes), SkipListInv (the list
      of items a memory represents, every pointer and span at every level),
      SkipListSpec, SkipListProps, SkipListRange, SkipListUpdate,
      SkipListExamples: dep/skiplist.c.  Every operation refines one on a sorted
      list of items; no access leaves the memory and no [assert] fails.
    - AdList, AdListInv, AdListProps: dep/list.c on a heap of nodes.
    - Slots, SlotsInv, SlotsProps: the index.  [slots_repr st kss] says that the
      state represents the sets of names [kss], one per database.
    - Events, EventsProps: the event handlers and the cron loop of module.c.
    - Refinement, RefinementExamples: the handlers as one machine ([handle],
      [run]) and the keyspace as another ([spec_step], [spec_run]); every run of
      the first represents the run of the second, and no handler goes out of the
      tables and lists.  Accounts: how the references to strings add up over a run;
      a rename or a move gives the new value back once too often, which the values
      of the model, being immortal, do not show.
    - Commands, CommandsProps, CommandsExamples: SLOTSHASHKEY, SLOTSINFO and
      SLOTSSCAN; a client that iterates with SLOTSSCAN misses no name.

    - Glob, GlobProps: the pattern matching of dep/util.c against the meaning of
      a pattern ([parse], [glob]).  MemUnits: its amounts of memory.  Floats,
      FloatsProps: its floating-point conversions, with what [strtold] reads and
      [snprintf] prints; an integer of 52 bits is printed as one and read back,
      and a text without its last zeros stands for the same number.  DictStats:
      the statistics of dep/dict.c, what they count, and when they stay in their
      buffer.
    - Statics: what no event changes.
    - Prog: programs on a state, [ensures] (total) and [only] (partial).  Server:
      Redis and hiredis as classes of functions on a state each, the [world] of
      both with the module, and its trace.  ServerSpec: what the server promises
      ([RedisServerOk]: every change of the keyspace is notified), [runs] (total
      correctness with the trace), [delivered] (what the other server has
      acknowledged).
    - ConnCache: the cached connections.  Sweep, SweepExamples: the sweep of the
      idle ones, with the iterators of the server's dictionary as a class.  It
      closes no connection that is in use; what it does after the first one it
      closes rests on an iterator of a dictionary that has changed, of which
      nothing is known.  Migrate, MigrateProps, MigratePool, MigrateSpec: the ways
      to send and [migrateKeys].  Every way delivers each object once or reports an
      error; no key is deleted before all are acknowledged.  TagKeys, TagKeysProps: the choice of a key of a slot and of
      the keys with a tag.  Restore, RestoreProps: SLOTSRESTORE, and that it
      restores what was sent.  Pools, PoolsExamples: the pools of threads that dump
      and that restore, in any order of their tasks.  DelSlots, DelSlotsProps: SLOTSDEL, whose scan of a
      table that shrinks meanwhile ends and misses nothing.  MgrtCommands,
      MgrtCommandsProps: the commands.  SlotSession: SLOTSMGRTSLOT repeated
      empties a slot.  MigrateExamples, RestoreExamples, SlotSessionExamples: a
      concrete server and networks.
    - Async, AsyncProps: which handler runs a command, and the commands that
      block their client; an error is not reported to a sender by these.
    - Busy, BusyProps, BusyExamples: a thread beside other clients, which have a
      turn before and after each of its calls ([ASYNC_LOCK] of redisxslot.h).
      [busy_follows] says that the index is the keyspace; it is so after
      SLOTSMGRTONE and after SLOTSRESTORE, where [lags] says what holds between
      RESTORE and its notification.  A migration deletes nothing before all is
      acknowledged, but the value it sends may be an old one.  The keys are the
      thread's arguments, to which it holds references.
    - TwoServers, TwoServersProps, TwoServersSpec, TwoServersExamples: hiredis
      connected to a second server with the module.  A migration between the two,
      with any faults of the network (a command or a reply lost), leaves every key
      on one or the other, when the other server runs SLOTSRESTORE without a
      thread; with one (async) when no RESTORE there fails, since AsyncProps shows
      that the sender does not see that.
    - Locks, LockUse: which locks the stretches of the module's code take and what
      they touch, as programs of threads that interleave, with what is read, used
      or freed after a lock is given back: the strings of keys and members, and the
      connections.  What the locks protect never races and never blocks for good;
      what they do not protect is named.
    - ModuleInit, LoadExamples: loading; the loaded module starts the runs of
      Refinement.  CpuAffinity: the list of CPUs.

    ** How the code is modelled

    A C integer is a [Z] and each conversion wraps as its type does; a pointer is
    an index into an explicit memory wherever structures share nodes (skip list,
    linked list), and a value of the model elsewhere (the chains of a dict).
    [None] is undefined behaviour (an access out of bounds, a null pointer, a
    division by zero, a failed [assert]) or a run out of fuel, and the theorems
    exclude it.  Functions return the destructor calls and the reference counts
    they change as lists of events.  What the code asks of Redis (strings, the
    selected database, time, flags) and of [random] is a class or an argument;
    the laws used are the classes [RedisStringsOk], [StringOrder] and
    [DictTypeOk].  A floating-point number is a
    [spec_float] of the Standard Library, rounded to its C type.

    The server and the network are parameters: the code that calls them is a
    program on the [world], and a call delivers the notifications it causes to
    the module's own handlers before it returns.  The trace records calls,
    commands, replies, and the strings made and freed.  An array is the list of
    its elements, an element not written yet is [None] and to read it is
    undefined.  A pool of threads runs its tasks one after the other in any order
    on any threads.  A thread that serves a blocked client is a program too; on a
    [busy] server other clients run between its calls.

    Fuel: a loop that the code bounds by a size gets that size ([m_dictScan]'s
    inner loop the larger table, the loop over the chains the table, a skip list
    descent the number of nodes); the theorems show it is enough.  The loops that
    only chance or a clock ends ([m_zslRandomLevel], [m_dictGetRandomKey],
    [m_dictRehashMilliseconds]) are shown to end under the assumption on the
    draws or the clock that makes them.  SLOTSDEL's loop gets 2 ^ 64 rounds, the
    number of cursors, each of which occurs once at most.  A counter that C does not
    let overflow is undefined at its bound: the cron loop counts its turns in an
    [int].  Sizes are bounded where C's types bound
    them: fewer than [MAX_ENTRIES] names in a database, 1 to 65536 slots as the
    module accepts.

    ** Not modelled

    - Interleavings within a stretch of code that takes no lock of the server: the
      threads of Locks have the locks and the accesses of the code, not its state;
      in Busy the others run between the calls of a thread, not beside the rest of
      its code, and the handlers run one after the other.
    - How long a string of the index lives beside a thread that has taken it from
      there without a reference (redisxslot.c:1072, 1118-1126): strings are values.
      Locks counts such a use as an access to the strings of the keys, and Busy
      runs no command that makes one.  Reference counts are not among the areas of
      Locks, nor is the shutdown among its pieces.
    - The sweep of the connections in the turns of the other clients of Busy.
    - The benchmark of dict, a test program.
    - hiredis, the thread pool and redismodule.h are third-party code.
*)

From Stdlib Require Import ZArith Lia.
From Stdlib Require Export Strings.Byte.
From stdpp Require Export base list gmap option numbers strings.

#[export] Set Default Proof Using "Type".

(** ** Machine integers

    A C integer is a [Z]; each conversion of the source is written out with
    the wrapping function of its type. *)
Definition u8 (z : Z) : Z := z mod 2 ^ 8.
Definition u32 (z : Z) : Z := z mod 2 ^ 32.
Definition u64 (z : Z) : Z := z mod 2 ^ 64.
Definition signed (w z : Z) : Z :=
  let m := (z mod 2 ^ w)%Z in if (m <? 2 ^ (w - 1))%Z then m else (m - 2 ^ w)%Z.
Definition i8 (z : Z) : Z := signed 8 z.
Definition i32 (z : Z) : Z := signed 32 z.
Definition i64 (z : Z) : Z := signed 64 z.

Definition LONG_MAX : Z := (2 ^ 63 - 1)%Z.
Definition LLONG_MAX : Z := (2 ^ 63 - 1)%Z.
Definition LLONG_MIN : Z := (- 2 ^ 63)%Z.
Definition ULLONG_MAX : Z := (2 ^ 64 - 1)%Z.

(** A range predicate shared by every statement about a 64-bit value. *)
Definition is_u64 (z : Z) : Prop := (0 <= z < 2 ^ 64)%Z.
Definition is_u32 (z : Z) : Prop := (0 <= z < 2 ^ 32)%Z.
Definition is_i64 (z : Z) : Prop := (- 2 ^ 63 <= z < 2 ^ 63)%Z.

(** [lia] under the range predicates. *)
Ltac word_lia := unfold is_u64, is_u32, is_i64 in *; lia.

Create HintDb words.
Create Rewrite HintDb words.

Section words.
Local Open Scope Z_scope.

Lemma u64_range z : 0 <= u64 z < 2 ^ 64.
Proof. apply Z.mod_pos_bound. lia. Qed.

Lemma u32_range z : 0 <= u32 z < 2 ^ 32.
Proof. apply Z.mod_pos_bound. lia. Qed.

Lemma u64_small z : 0 <= z < 2 ^ 64 -> u64 z = z.
Proof. apply Z.mod_small. Qed.

Lemma u32_small z : 0 <= z < 2 ^ 32 -> u32 z = z.
Proof. apply Z.mod_small. Qed.

Lemma signed_range w z : 0 < w -> - 2 ^ (w - 1) <= signed w z < 2 ^ (w - 1).
Proof.
  intros Hw. unfold signed. pose proof (Z.mod_pos_bound z (2 ^ w) ltac:(lia)).
  assert (2 ^ w = 2 * 2 ^ (w - 1)) as Hp.
  { rewrite <- (Z.pow_succ_r 2) by lia. f_equal. lia. }
  destruct (Z.ltb_spec (z mod 2 ^ w) (2 ^ (w - 1))); lia.
Qed.

Lemma signed_small w z :
  0 < w -> - 2 ^ (w - 1) <= z < 2 ^ (w - 1) -> signed w z = z.
Proof.
  intros Hw Hz. unfold signed.
  assert (2 ^ w = 2 * 2 ^ (w - 1)) as Hp.
  { rewrite <- (Z.pow_succ_r 2) by lia. f_equal. lia. }
  destruct (decide (0 <= z)).
  - rewrite Z.mod_small by lia. destruct (Z.ltb_spec z (2 ^ (w - 1))); lia.
  - replace (z mod 2 ^ w) with (z + 2 ^ w).
    + destruct (Z.ltb_spec (z + 2 ^ w) (2 ^ (w - 1))); lia.
    + rewrite <- (Z.mod_small (z + 2 ^ w) (2 ^ w)) by lia.
      rewrite <- (Z.mul_1_l (2 ^ w)) at 1. by rewrite Z.mod_add by lia.
Qed.

Lemma i32_small z : - 2 ^ 31 <= z < 2 ^ 31 -> i32 z = z.
Proof. intros. by apply signed_small. Qed.

Lemma i64_small z : - 2 ^ 63 <= z < 2 ^ 63 -> i64 z = z.
Proof. intros. by apply signed_small. Qed.

Lemma signed_mod w z : 0 < w -> signed w z mod 2 ^ w = z mod 2 ^ w.
Proof.
  intros Hw. unfold signed. destruct (Z.ltb_spec (z mod 2 ^ w) (2 ^ (w - 1))).
  - by rewrite Z.mod_mod by lia.
  - rewrite <- (Z.mod_add (z mod 2 ^ w - 2 ^ w) 1) by lia.
    rewrite Z.mul_1_l, Z.sub_add. by rewrite Z.mod_mod by lia.
Qed.

(** A word survives a round trip through [long]. *)
Lemma u64_i64 z : is_u64 z -> u64 (i64 z) = z.
Proof. intros Hz. unfold u64, i64. rewrite signed_mod by lia. by apply Z.mod_small. Qed.

Lemma i64_zero z : is_u64 z -> i64 z = 0 <-> z = 0.
Proof. intros Hz. split; [|by intros ->]. intros E. rewrite <- (u64_i64 z Hz), E. done. Qed.

(** ** Bits *)
Lemma testbit_mod_pow2 z w i :
  0 <= w -> Z.testbit (z mod 2 ^ w) i = (i <? w) && Z.testbit z i.
Proof.
  intros Hw. destruct (Z.ltb_spec i w); simpl.
  - by apply Z.mod_pow2_bits_low.
  - by apply Z.mod_pow2_bits_high; lia.
Qed.

Lemma testbit_above z w i :
  0 <= z < 2 ^ w -> w <= i -> Z.testbit z i = false.
Proof.
  intros Hz Hi. destruct (decide (w < 0)).
  { rewrite Z.pow_neg_r in Hz by lia. lia. }
  rewrite <- (Z.mod_small z (2 ^ w)) by done.
  apply Z.mod_pow2_bits_high. lia.
Qed.

(** A number whose bits from [w] on are clear is below [2 ^ w]. *)
Lemma bits_bound z w :
  0 <= w -> 0 <= z -> (forall i, w <= i -> Z.testbit z i = false) -> z < 2 ^ w.
Proof.
  intros Hw Hz Hb.
  assert (z = z mod 2 ^ w) as ->.
  { apply Z.bits_inj'. intros i Hi. rewrite testbit_mod_pow2 by done.
    destruct (Z.ltb_spec i w); simpl; [done|]. by apply Hb. }
  apply Z.mod_pos_bound. lia.
Qed.

Lemma lxor_bound x y w :
  0 <= w -> 0 <= x < 2 ^ w -> 0 <= y < 2 ^ w -> 0 <= Z.lxor x y < 2 ^ w.
Proof.
  intros Hw Hx Hy. assert (0 <= Z.lxor x y) by (apply Z.lxor_nonneg; lia).
  split; [done|]. apply bits_bound; [done..|]. intros i Hi.
  by rewrite Z.lxor_spec, !(testbit_above _ w).
Qed.

Lemma lor_bound x y w :
  0 <= w -> 0 <= x < 2 ^ w -> 0 <= y < 2 ^ w -> 0 <= Z.lor x y < 2 ^ w.
Proof.
  intros Hw Hx Hy. assert (0 <= Z.lor x y) by (apply Z.lor_nonneg; lia).
  split; [done|]. apply bits_bound; [done..|]. intros i Hi.
  by rewrite Z.lor_spec, !(testbit_above _ w).
Qed.

Lemma land_le_l x y : 0 <= x -> 0 <= Z.land x y <= x.
Proof.
  intros Hx. split; [apply Z.land_nonneg; lia|].
  apply Z.ldiff_le; [done|]. apply Z.bits_inj'. intros i Hi.
  rewrite Z.ldiff_spec, Z.land_spec, Z.bits_0.
  by destruct (Z.testbit x i), (Z.testbit y i).
Qed.

Lemma land_le_r x y : 0 <= y -> 0 <= Z.land x y <= y.
Proof. rewrite Z.land_comm. apply land_le_l. Qed.

Lemma shiftr_bound x n w : 0 <= n -> 0 <= x < w -> 0 <= Z.shiftr x n < w.
Proof.
  intros Hn Hx. rewrite Z.shiftr_div_pow2 by done.
  assert (0 < 2 ^ n) by lia. split; [apply Z.div_pos; lia|].
  apply Z.le_lt_trans with x; [|lia].
  apply Z.div_le_upper_bound; [done|]. nia.
Qed.
End words.

#[export] Hint Resolve u64_range u32_range lxor_bound lor_bound shiftr_bound : words.
#[export] Hint Rewrite u64_small u32_small i32_small i64_small using lia : words.

(** ** Bytes and C strings *)
Definition bval (b : byte) : Z := Z.of_N (Byte.to_N b).

(** The bytes of a Rocq string literal. *)
Definition bytes_of (s : string) : list byte := String.list_byte_of_string s.

#[export] Instance byte_eq_dec : EqDecision byte := Byte.byte_eq_dec.

#[export] Program Instance byte_countable : Countable byte := {|
  encode b := encode (Byte.to_N b);
  decode p := decode p ≫= Byte.of_N
|}.
Next Obligation.
  intros b. cbv beta. rewrite (decode_encode (Byte.to_N b)). simpl.
  apply Byte.of_to_N.
Qed.

Lemma bval_range b : (0 <= bval b < 2 ^ 8)%Z.
Proof. unfold bval. pose proof (Byte.to_N_bounded b). lia. Qed.

Lemma bval_inj b1 b2 : bval b1 = bval b2 -> b1 = b2.
Proof.
  unfold bval. intros H%N2Z.inj.
  pose proof (Byte.of_to_N b1) as H1. pose proof (Byte.of_to_N b2) as H2.
  rewrite H in H1. congruence.
Qed.

(** What a [const char *] shows of a buffer: the bytes before the first NUL. *)
Fixpoint c_str (s : list byte) : list byte :=
  match s with
  | [] => []
  | b :: s' => if decide (b = x00) then [] else b :: c_str s'
  end.

Lemma c_str_no_nul s : x00 ∉ s -> c_str s = s.
Proof.
  induction s as [|b s IH]; intros Hn; [done|]. apply not_elem_of_cons in Hn as [Hb Hs]. cbn [c_str].
  rewrite decide_False by done. by rewrite IH.
Qed.

Lemma c_str_app_nul s r : x00 ∉ s -> c_str (s ++ x00 :: r) = s.
Proof.
  induction s as [|b s IH]; intros Hn; cbn [app c_str].
  - by rewrite decide_True.
  - apply not_elem_of_cons in Hn as [Hb Hs]. rewrite decide_False by done. by rewrite IH.
Qed.
