(* ===== verification/Crc32.v ===== *)
(** * Crc32: the CRC-32 of crc32.c

    The table [crc32tab] filled by [crc32_tabinit], the table-driven update
    and checksum, and their equivalence with the bit-at-a-time CRC over the
    reflected IEEE polynomial.  The table is a global of the C file, zero until
    [crc32_init] runs, so the functions take it as an argument. *)

From Stdlib Require Import Btauto.
From S2P Require Import Prelude.
Local Open Scope Z_scope.

Definition IEEE_POLY : Z := 0xedb88320.

(** One round of the inner loop of [crc32_tabinit]. *)
Definition crc32_round (poly crc : Z) : Z :=
  if decide (Z.land crc 1 ≠ 0)
  then Z.lxor (Z.shiftr crc 1) poly
  else Z.shiftr crc 1.

Fixpoint crc32_rounds (n : nat) (poly crc : Z) : Z :=
  match n with
  | O => crc
  | S n' => crc32_rounds n' poly (crc32_round poly crc)
  end.

(** [for (i = 0; i < 256; i++)]: the entries the table is filled with. *)
Definition crc32_tabinit (poly : Z) : list Z :=
  map (λ i, crc32_rounds 8 poly (Z.of_nat i)) (seq 0 256).

(** The static array before and after [crc32_init]. *)
Definition crc32tab_bss : list Z := replicate 256 0.
Definition crc32_init (crc32tab : list Z) : list Z := crc32_tabinit IEEE_POLY.

(** [crc = crc32tab[(uint8_t)((char)crc ^ buf[i])] ^ (crc >> 8)] with the
    [char] operands sign-extended to [int] and the index truncated to 8 bits,
    so that it is always inside the 256 entries. *)
Definition crc32_step (crc32tab : list Z) (crc : Z) (b : byte) : Z :=
  Z.lxor (crc32tab !!! Z.to_nat (u8 (Z.lxor (i8 crc) (i8 (bval b)))))
         (Z.shiftr crc 8).

Definition crc32_update (crc32tab : list Z) (crc : Z) (buf : list byte) : Z :=
  u32 (Z.lnot (foldl (crc32_step crc32tab) (u32 (Z.lnot crc)) buf)).

Definition crc32_checksum (crc32tab : list Z) (buf : list byte) : Z :=
  crc32_update crc32tab 0 buf.

(** ** Reference: the CRC register fed one byte at a time, bit by bit *)
Definition crc_feed (poly crc : Z) (b : byte) : Z :=
  crc32_rounds 8 poly (Z.lxor crc (bval b)).

Definition crc_ref (poly : Z) (buf : list byte) : Z :=
  Z.lxor (foldl (crc_feed poly) (2 ^ 32 - 1) buf) (2 ^ 32 - 1).

(** ** Lemmas *)

(** The two shapes of a round: the branch on the low bit is a conditional
    exclusive-or. *)
Lemma crc32_round_alt poly x :
  crc32_round poly x =
  Z.lxor (Z.shiftr x 1) (if Z.testbit x 0 then poly else 0).
Proof.
  unfold crc32_round. replace (Z.land x 1) with (Z.land x (Z.ones 1)) by done.
  rewrite (Z.land_ones x 1) by lia. pose proof (Z.bit0_mod x) as Hb.
  change (2 ^ 1) with 2. rewrite <- Hb.
  destruct (Z.testbit x 0); simpl; [done|]. by rewrite Z.lxor_0_r.
Qed.

Lemma crc32_round_lxor poly x y :
  crc32_round poly (Z.lxor x y) = Z.lxor (crc32_round poly x) (crc32_round poly y).
Proof.
  rewrite !crc32_round_alt, Z.shiftr_lxor, Z.lxor_spec.
  apply Z.bits_inj'. intros i Hi. rewrite !Z.lxor_spec.
  destruct (Z.testbit x 0), (Z.testbit y 0); simpl; rewrite ?Z.bits_0; btauto.
Qed.

Lemma crc32_rounds_lxor n poly x y :
  crc32_rounds n poly (Z.lxor x y) =
  Z.lxor (crc32_rounds n poly x) (crc32_rounds n poly y).
Proof.
  revert x y. induction n as [|n IH]; intros x y; simpl; [done|].
  by rewrite crc32_round_lxor, IH.
Qed.

Lemma crc32_rounds_shiftl n poly y :
  crc32_rounds n poly (Z.shiftl y (Z.of_nat n)) = y.
Proof.
  revert y. induction n as [|n IH]; intros y; [by rewrite Z.shiftl_0_r|].
  cbn [crc32_rounds]. rewrite crc32_round_alt.
  rewrite Z.shiftl_spec_low by lia.
  rewrite Z.lxor_0_r, Z.shiftr_shiftl_l by lia.
  replace (Z.of_nat (S n) - 1) with (Z.of_nat n) by lia. apply IH.
Qed.

Lemma split_byte x : x = Z.lxor (Z.land x 255) (Z.shiftl (Z.shiftr x 8) 8).
Proof.
  apply Z.bits_inj'. intros i Hi. rewrite Z.lxor_spec, Z.land_spec.
  change 255 with (Z.ones 8). rewrite Z.testbit_ones_nonneg by lia.
  rewrite Z.shiftl_spec by done. destruct (Z.ltb_spec i 8).
  - rewrite (Z.testbit_neg_r _ (i - 8)) by lia. btauto.
  - rewrite Z.shiftr_spec by lia. replace (i - 8 + 8) with i by lia. btauto.
Qed.

(** Eight rounds consume the low byte through one table entry. *)
Lemma crc32_rounds_8 poly x :
  crc32_rounds 8 poly x =
  Z.lxor (crc32_rounds 8 poly (Z.land x 255)) (Z.shiftr x 8).
Proof.
  rewrite (split_byte x) at 1. rewrite crc32_rounds_lxor.
  f_equal. apply (crc32_rounds_shiftl 8).
Qed.

Lemma crc32_tabinit_lookup poly i :
  0 <= i < 256 -> crc32_tabinit poly !!! Z.to_nat i = crc32_rounds 8 poly i.
Proof.
  intros Hi. apply list_lookup_total_correct. unfold crc32_tabinit.
  rewrite list_lookup_fmap, lookup_seq_lt by lia. simpl.
  by rewrite Z2Nat.id by lia.
Qed.

Lemma crc32_index_eq crc b :
  u8 (Z.lxor (i8 crc) (i8 (bval b))) = Z.land (Z.lxor crc (bval b)) 255.
Proof.
  unfold u8, i8. change 255 with (Z.ones 8). rewrite Z.land_ones by lia.
  apply Z.bits_inj'. intros i Hi. rewrite !testbit_mod_pow2 by lia.
  destruct (Z.ltb_spec i 8); simpl; [|done]. rewrite !Z.lxor_spec.
  rewrite <- !(Z.mod_pow2_bits_low (signed 8 _) 8 i) by lia.
  by rewrite !signed_mod, !Z.mod_pow2_bits_low by lia.
Qed.

Lemma bval_shiftr_8 b : Z.shiftr (bval b) 8 = 0.
Proof. rewrite Z.shiftr_div_pow2 by lia. apply Z.div_small. apply bval_range. Qed.

Lemma crc32_step_feed poly crc b :
  crc32_step (crc32_tabinit poly) crc b = crc_feed poly crc b.
Proof.
  unfold crc32_step, crc_feed. rewrite crc32_index_eq, crc32_rounds_8.
  rewrite crc32_tabinit_lookup.
  - by rewrite Z.shiftr_lxor, bval_shiftr_8, Z.lxor_0_r.
  - change 255 with (Z.ones 8). rewrite Z.land_ones by lia.
    apply Z.mod_pos_bound. lia.
Qed.

Lemma crc32_round_bound poly x : is_u32 poly -> is_u32 x -> is_u32 (crc32_round poly x).
Proof.
  unfold is_u32. intros Hp Hx. rewrite crc32_round_alt.
  apply lxor_bound; [lia|by apply shiftr_bound; lia|].
  by destruct (Z.testbit x 0).
Qed.

Lemma crc32_rounds_bound n poly x :
  is_u32 poly -> is_u32 x -> is_u32 (crc32_rounds n poly x).
Proof.
  intros Hp. revert x. induction n as [|n IH]; intros x Hx; simpl; [done|].
  by apply IH, crc32_round_bound.
Qed.

Lemma crc_feed_bound poly crc b :
  is_u32 poly -> is_u32 crc -> is_u32 (crc_feed poly crc b).
Proof.
  intros Hp Hc. apply crc32_rounds_bound; [done|].
  apply lxor_bound; [lia|done|]. pose proof (bval_range b). lia.
Qed.

Lemma crc_fold_bound poly buf : is_u32 poly ->
  forall crc, is_u32 crc -> is_u32 (foldl (crc_feed poly) crc buf).
Proof.
  intros Hp. induction buf as [|b buf IH]; intros crc Hc; simpl; [done|].
  by apply IH, crc_feed_bound.
Qed.

(** [~crc] on a 32-bit value is the exclusive-or with all ones. *)
Lemma u32_lnot x : is_u32 x -> u32 (Z.lnot x) = Z.lxor x (2 ^ 32 - 1).
Proof.
  intros Hx. unfold u32. change (2 ^ 32 - 1) with (Z.ones 32).
  apply Z.bits_inj'. intros i Hi.
  rewrite testbit_mod_pow2, Z.lxor_spec, Z.lnot_spec, Z.testbit_ones_nonneg by lia.
  destruct (Z.ltb_spec i 32); simpl; [by destruct (Z.testbit x i)|].
  by rewrite (testbit_above x 32) by word_lia.
Qed.

Lemma u32_lnot_involutive x : is_u32 x -> u32 (Z.lnot (u32 (Z.lnot x))) = x.
Proof.
  intros Hx. rewrite (u32_lnot x) by done. rewrite u32_lnot.
  - by rewrite Z.lxor_assoc, Z.lxor_nilpotent, Z.lxor_0_r.
  - by apply lxor_bound.
Qed.

Lemma crc32_fold_feed poly buf crc :
  foldl (crc32_step (crc32_tabinit poly)) crc buf = foldl (crc_feed poly) crc buf.
Proof.
  revert crc. induction buf as [|b buf IH]; intros crc; simpl; [done|].
  by rewrite crc32_step_feed, IH.
Qed.

Lemma IEEE_POLY_u32 : is_u32 IEEE_POLY.
Proof. done. Qed.

(** Lengths of the table, so that an 8-bit index never leaves it. *)
Lemma crc32_tabinit_length poly : length (crc32_tabinit poly) = 256%nat.
Proof. unfold crc32_tabinit. by rewrite length_map, length_seq. Qed.

(** ** Properties *)

(** C24. After [crc32_init], the table-driven [crc32_checksum] of any buffer is
    the bit-by-bit CRC of the buffer over the reflected IEEE polynomial, with
    initial and final complement. *)
Theorem crc32_checksum_ref tab0 buf :
  crc32_checksum (crc32_init tab0) buf = crc_ref IEEE_POLY buf.
Proof.
  unfold crc32_checksum, crc32_update, crc32_init, crc_ref.
  rewrite crc32_fold_feed. apply u32_lnot, crc_fold_bound; done.
Qed.

(** The update is incremental: feeding a buffer in two pieces, the second
    call starting from the checksum the first returned, gives the checksum of
    the whole. *)
Theorem crc32_update_app tab0 crc buf1 buf2 :
  is_u32 crc ->
  crc32_update (crc32_init tab0) (crc32_update (crc32_init tab0) crc buf1) buf2 =
  crc32_update (crc32_init tab0) crc (buf1 ++ buf2).
Proof.
  intros Hc. unfold crc32_update. rewrite foldl_app, u32_lnot_involutive; [done|].
  unfold crc32_init. rewrite crc32_fold_feed.
  apply crc_fold_bound; [done|]. apply u32_range.
Qed.

Lemma crc32_checksum_u32 tab0 buf : is_u32 (crc32_checksum (crc32_init tab0) buf).
Proof. apply u32_range. Qed.

(** The standard check value of this CRC. *)
Example crc32_check_value :
  crc32_checksum (crc32_init crc32tab_bss) (bytes_of "123456789") = 0xcbf43926.
Proof. vm_compute. reflexivity. Qed.

Lemma crc32_update_app_witness :
  is_u32 0 ∧
  crc32_update (crc32_init []) (crc32_update (crc32_init []) 0 (bytes_of "1234")) (bytes_of "56789")
  = crc32_update (crc32_init []) 0 (bytes_of "1234" ++ bytes_of "56789").
Proof. split; [done|]. apply (crc32_update_app [] 0). done. Defined.
