(* ===== verification/KeySlot.v ===== *)
(** * KeySlot: from a key to its hash tag, checksum and slot

    [slots_tag] and [slots_num] of redisxslot.c.  Both work on the C string the
    key's buffer shows ([strlen] stops at a NUL), the checksum is the one of
    crc32.c, and the slot is the checksum masked with [hash_slots_size - 1]. *)

From S2P Require Import Prelude Crc32.
Local Open Scope Z_scope.

(** The two [for] loops of [slots_tag]: how many bytes stand before the first
    [c] (all of them when there is none). *)
Fixpoint scan_to (c : byte) (s : list byte) : nat :=
  match s with
  | [] => O
  | b :: s' => if decide (b = c) then O else S (scan_to c s')
  end.

(** [slots_tag s plen]: the offset of the tag inside [s] and its length [*plen],
    or [None] for the NULL pointer.  [s] is the C string, so [n = strlen(s)] is
    its length. *)
Definition slots_tag (s : list byte) : option (nat * nat) :=
  let n := length s in
  let i := scan_to "{" s in
  if decide (i = n) then None
  else
    let i := S i in
    let j := (i + scan_to "}" (drop i s))%nat in
    if decide (j = n) then None
    else Some (i, (j - i)%nat).

(** The three results of [slots_num]: the slot, [*pcrc] and [*phastag]. *)
Record slot_info := { si_slot : Z; si_crc : Z; si_hastag : bool }.

Definition slots_num (crc32tab : list Z) (hash_slots_size : Z) (s : list byte) : slot_info :=
  let s := c_str s in
  let '(tag, hastag) :=
    match slots_tag s with
    | None => (s, false)
    | Some (i, taglen) => (take taglen (drop i s), true)
    end in
  let crc := crc32_checksum crc32tab tag in
  {| si_slot := Z.land crc (u32 (hash_slots_size - 1));
     si_crc := crc;
     si_hastag := hastag |}.

(** ** Lemmas *)
Lemma scan_to_spec c s :
  (scan_to c s = length s ∧ c ∉ s) ∨
  (∃ pre post, s = (pre ++ c :: post) ∧ (c ∉ pre) ∧ scan_to c s = length pre).
Proof.
  induction s as [|b s IH]; simpl.
  - left. split; [done|]. by apply not_elem_of_nil.
  - case_decide as Hb.
    + subst. right. exists [], s. split_and!; [done|by apply not_elem_of_nil|done].
    + destruct IH as [[-> Hn]|(pre & post & -> & Hn & ->)].
      * left. split; [done|]. by rewrite not_elem_of_cons.
      * right. exists (b :: pre), post. rewrite not_elem_of_cons. by split_and!.
Qed.

Lemma scan_to_split c pre post :
  c ∉ pre -> scan_to c (pre ++ c :: post) = length pre.
Proof.
  induction pre as [|b pre IH]; simpl; [by case_decide|].
  rewrite not_elem_of_cons. intros [Hb Hn]. case_decide; [done|]. by rewrite IH.
Qed.

Lemma scan_to_none c s : c ∉ s -> scan_to c s = length s.
Proof.
  induction s as [|b s IH]; simpl; [done|].
  rewrite not_elem_of_cons. intros [Hb Hn]. case_decide; [done|]. by rewrite IH.
Qed.

Lemma drop_S_app_cons {A} (pre : list A) c post :
  drop (S (length pre)) (pre ++ c :: post) = post.
Proof. induction pre; simpl; [by rewrite drop_0|done]. Qed.

(** A key of the shape [pre{tag}post], [{tag}] being its first brace group. *)
Definition tagged_as (s tag : list byte) : Prop :=
  ∃ pre post, s = (pre ++ ["{"%byte] ++ tag ++ ["}"%byte] ++ post) ∧ ("{"%byte ∉ pre) ∧ ("}"%byte ∉ tag).

Lemma slots_tag_tagged pre tag post :
  "{"%byte ∉ pre -> "}"%byte ∉ tag ->
  slots_tag (pre ++ ["{"%byte] ++ tag ++ ["}"%byte] ++ post) = Some (S (length pre), length tag).
Proof.
  intros Hp Ht. unfold slots_tag. simpl. rewrite scan_to_split by done.
  rewrite !length_app. simpl. rewrite length_app. simpl.
  case_decide; [lia|].
  rewrite drop_S_app_cons, scan_to_split by done. case_decide; [lia|]. do 2 f_equal. lia.
Qed.

Lemma slots_tag_None s :
  slots_tag s = None -> ∀ tag, ¬ tagged_as s tag.
Proof.
  intros H tag (pre & post & -> & Hp & Ht). by rewrite slots_tag_tagged in H.
Qed.

Lemma slots_tag_Some s i len :
  slots_tag s = Some (i, len) -> tagged_as s (take len (drop i s)).
Proof.
  unfold slots_tag. destruct (scan_to_spec "{"%byte s) as [[-> _]|(pre & rest & -> & Hp & ->)].
  { by case_decide. }
  case_decide; [done|].
  rewrite drop_S_app_cons, length_app. simpl.
  destruct (scan_to_spec "}"%byte rest) as [[-> _]|(tag & post & -> & Ht & ->)].
  { case_decide; [done|]. lia. }
  case_decide; [done|]. intros [= <- <-].
  rewrite drop_S_app_cons, take_app_length' by lia. by exists pre, post.
Qed.

(** The tag of a key is unique: the first brace group decides. *)
Lemma tagged_as_unique s tag1 tag2 : tagged_as s tag1 -> tagged_as s tag2 -> tag1 = tag2.
Proof.
  intros (pre1 & post1 & -> & Hp1 & Ht1) (pre2 & post2 & E & Hp2 & Ht2).
  assert (length pre1 = length pre2 ∧ length tag1 = length tag2) as [El Et].
  { pose proof (slots_tag_tagged pre1 tag1 post1 Hp1 Ht1) as H1.
    rewrite E, slots_tag_tagged in H1 by done. simplify_eq. done. }
  apply app_inj_1 in E as [-> E]; [|done]. simplify_eq/=.
  apply app_inj_1 in E as [-> _]; done.
Qed.

Definition pow2 (n : Z) : Prop := ∃ k, 0 <= k ∧ n = 2 ^ k.

(** A clear bit below the top of a mask that is not all ones. *)
Lemma clear_bit_below m :
  0 <= m -> ¬ pow2 (m + 1) -> ∃ i, 0 <= i ∧ 2 ^ i <= m ∧ Z.testbit m i = false.
Proof.
  intros Hm Hp. destruct (decide (m = 0)) as [->|Hm0].
  { exfalso. apply Hp. by exists 0. }
  pose proof (Z.log2_spec m) as Hl. pose proof (Z.log2_nonneg m) as Hn.
  destruct (decide (Forall (λ i, Z.testbit m (Z.of_nat i) = true)
                           (seq 0 (Z.to_nat (Z.log2 m + 1))))) as [Hall|Hex].
  - exfalso. apply Hp. exists (Z.log2 m + 1). split; [lia|].
    assert (m = Z.ones (Z.log2 m + 1)) as Hones; [|rewrite Z.ones_equiv in Hones; lia].
    apply Z.bits_inj'. intros i Hi. rewrite Z.testbit_ones_nonneg by lia.
    destruct (Z.ltb_spec i (Z.log2 m + 1)).
    + rewrite Forall_forall in Hall. rewrite <- (Z2Nat.id i) by lia.
      apply Hall, elem_of_seq. lia.
    + apply Z.bits_above_log2; lia.
  - apply not_Forall_Exists in Hex; [|apply _].
    apply Exists_exists in Hex as (i & Hi%elem_of_seq & Hb).
    exists (Z.of_nat i). split; [lia|]. split; [|by apply not_true_is_false].
    apply Z.le_trans with (2 ^ Z.log2 m); [apply Z.pow_le_mono_r; lia|lia].
Qed.

(** What is hashed, on both branches of [slots_num]. *)
Lemma slots_num_cases tab size key :
  (∀ tag, tagged_as (c_str key) tag ->
     slots_num tab size key =
     {| si_slot := Z.land (crc32_checksum tab tag) (u32 (size - 1));
        si_crc := crc32_checksum tab tag; si_hastag := true |}) ∧
  ((∀ tag, ¬ tagged_as (c_str key) tag) ->
     slots_num tab size key =
     {| si_slot := Z.land (crc32_checksum tab (c_str key)) (u32 (size - 1));
        si_crc := crc32_checksum tab (c_str key); si_hastag := false |}).
Proof.
  unfold slots_num. split.
  - intros tag Htag. destruct (slots_tag (c_str key)) as [[i len]|] eqn:E.
    + apply slots_tag_Some in E. by rewrite (tagged_as_unique _ _ _ E Htag).
    + by destruct (slots_tag_None _ E tag).
  - intros Hn. destruct (slots_tag (c_str key)) as [[i len]|] eqn:E; [|done].
    apply slots_tag_Some in E. by destruct (Hn _ E).
Qed.

(** ** Properties *)

(** C23. [slots_num] on every branch: when the C string of the key contains a
    brace group, the first one, [{tag}], is what is hashed and [*phastag] is 1;
    otherwise the whole string is hashed and [*phastag] is 0.  The slot is the
    checksum masked with [hash_slots_size - 1]. *)
Theorem slots_num_spec tab size key :
  (∀ tag, tagged_as (c_str key) tag ->
     slots_num tab size key =
     {| si_slot := Z.land (crc32_checksum tab tag) (u32 (size - 1));
        si_crc := crc32_checksum tab tag; si_hastag := true |}) ∧
  ((∀ tag, ¬ tagged_as (c_str key) tag) ->
     slots_num tab size key =
     {| si_slot := Z.land (crc32_checksum tab (c_str key)) (u32 (size - 1));
        si_crc := crc32_checksum tab (c_str key); si_hastag := false |}).
Proof. apply slots_num_cases. Qed.

(** Keys with the same hash tag land in the same slot, with the same
    checksum: what lets [SLOTSMGRTTAGSLOT] move them together. *)
Theorem slots_num_same_tag tab size key1 key2 tag :
  tagged_as (c_str key1) tag -> tagged_as (c_str key2) tag ->
  slots_num tab size key1 = slots_num tab size key2.
Proof.
  intros H1 H2. rewrite (proj1 (slots_num_cases tab size key1) tag H1).
  by rewrite (proj1 (slots_num_cases tab size key2) tag H2).
Qed.

Lemma slots_num_slot tab size key :
  si_slot (slots_num tab size key) =
  Z.land (si_crc (slots_num tab size key)) (u32 (size - 1)).
Proof. unfold slots_num. by destruct (slots_tag _) as [[]|]. Qed.

Lemma slot_range tab size key :
  1 <= size <= 65536 -> 0 <= si_slot (slots_num tab size key) < size.
Proof.
  intros Hs. rewrite slots_num_slot, u32_small by lia.
  pose proof (land_le_r (si_crc (slots_num tab size key)) (size - 1)). lia.
Qed.

(** For every slot count the module accepts, the slot of a key is a valid
    index of the per-database tables. *)
Theorem slots_num_range tab size key :
  1 <= size <= 65536 -> 0 <= si_slot (slots_num tab size key) < size.
Proof. apply slot_range. Qed.

(** A slot count that is not a power of two leaves slots that no key can
    ever reach, whatever the table and the key. *)
Theorem slots_num_unreachable size :
  1 <= size <= 65536 -> ¬ pow2 size ->
  ∃ slot, 0 <= slot < size ∧ ∀ tab key, si_slot (slots_num tab size key) ≠ slot.
Proof.
  intros Hs Hp. destruct (clear_bit_below (size - 1)) as (i & Hi & Hle & Hbit).
  { lia. } { by rewrite Z.sub_add. }
  exists (2 ^ i). split; [lia|]. intros tab key Hslot.
  rewrite slots_num_slot, u32_small in Hslot by lia.
  apply (f_equal (λ z, Z.testbit z i)) in Hslot.
  rewrite Z.land_spec, Hbit, andb_false_r, Z.pow2_bits_true in Hslot; done.
Qed.

(** With a power of two the mask is the remainder, so all slots are in use. *)
Lemma slots_num_pow2 tab k key :
  0 <= k <= 16 ->
  si_slot (slots_num tab (2 ^ k) key) = si_crc (slots_num tab (2 ^ k) key) mod 2 ^ k.
Proof.
  intros Hk. assert (0 < 2 ^ k <= 2 ^ 16).
  { split; [lia|]. apply Z.pow_le_mono_r; lia. }
  rewrite slots_num_slot, u32_small by lia.
  replace (2 ^ k - 1) with (Z.ones k) by (rewrite Z.ones_equiv; lia).
  apply Z.land_ones. lia.
Qed.

(** ** Witnesses *)

(** The example of the README: [123{tag}] is in slot 899 of 1024. *)
Example slots_num_readme :
  slots_num (crc32_init []) 1024 (bytes_of "123{tag}") =
  {| si_slot := 899; si_crc := crc32_checksum (crc32_init []) (bytes_of "tag");
     si_hastag := true |}.
Proof. vm_compute. reflexivity. Qed.

Lemma tagged_as_intro pre tag post :
  ("{"%byte ∉ pre) -> ("}"%byte ∉ tag) ->
  tagged_as (pre ++ ["{"%byte] ++ tag ++ ["}"%byte] ++ post) tag.
Proof. by exists pre, post. Qed.

Lemma slots_num_same_tag_witness :
  slots_num (crc32_init []) 1024 (bytes_of "1{tag}") =
  slots_num (crc32_init []) 1024 (bytes_of "1235{tag}x").
Proof.
  apply (slots_num_same_tag _ _ _ _ (bytes_of "tag")).
  - apply (tagged_as_intro (bytes_of "1") (bytes_of "tag") []);
      by apply (bool_decide_unpack _); vm_compute.
  - apply (tagged_as_intro (bytes_of "1235") (bytes_of "tag") (bytes_of "x"));
      by apply (bool_decide_unpack _); vm_compute.
Defined.

Lemma slots_num_range_witness :
  0 <= si_slot (slots_num (crc32_init []) 1000 (bytes_of "foo")) < 1000.
Proof. apply slots_num_range. lia. Defined.

Lemma not_pow2_1000 : ¬ pow2 1000.
Proof.
  intros (k & Hk & E). destruct (decide (k < 10)).
  - assert (2 ^ k <= 2 ^ 9) by (apply Z.pow_le_mono_r; lia). lia.
  - assert (2 ^ 10 <= 2 ^ k) by (apply Z.pow_le_mono_r; lia). lia.
Qed.

Lemma slots_num_unreachable_witness :
  ∃ slot, 0 <= slot < 1000 ∧ ∀ tab key, si_slot (slots_num tab 1000 key) ≠ slot.
Proof. apply (slots_num_unreachable 1000); [lia|apply not_pow2_1000]. Defined.
