(* ===== verification/Numbers.v ===== *)
(** * Numbers: the integer/string conversions of dep/util.c

    [m_digits10], [m_sdigits10], [m_ll2string], [m_string2ll] and
    [m_string2l].  The module prints TTLs and cursors with the first group and
    parses the TTLs of SLOTSRESTORE with the second, so the two must be
    inverses.  [None] is an undefined access where a function writes memory,
    and the C return value 0 where it parses. *)

From S2P Require Import Prelude.
Local Open Scope Z_scope.

(** [m_digits10]; the recursion divides by 10^12, so two levels cover a
    [uint64_t] and the fuel of three is never used up. *)
Fixpoint m_digits10_go (fuel : nat) (v : Z) : option Z :=
  match fuel with
  | O => None
  | S fuel =>
    if v <? 10 then Some 1
    else if v <? 100 then Some 2
    else if v <? 1000 then Some 3
    else if v <? 1000000000000 then
      if v <? 100000000 then
        if v <? 1000000 then
          if v <? 10000 then Some 4
          else Some (5 + Z.b2z (100000 <=? v))
        else Some (7 + Z.b2z (10000000 <=? v))
      else if v <? 10000000000 then Some (9 + Z.b2z (1000000000 <=? v))
      else Some (11 + Z.b2z (100000000000 <=? v))
    else n ← m_digits10_go fuel (v / 1000000000000); Some (12 + n)
  end.

Definition m_digits10 (v : Z) : option Z := m_digits10_go 3 v.

(** The absolute value as an [unsigned long long], [LLONG_MIN] apart. *)
Definition abs_u64 (v : Z) : Z :=
  if decide (v ≠ LLONG_MIN) then u64 (- v) else u64 (LLONG_MAX + 1).

Definition m_sdigits10 (v : Z) : option Z :=
  if v <? 0 then n ← m_digits10 (abs_u64 v); Some (n + 1)
  else m_digits10 v.

(** [dst[i] = b]: a store outside the buffer is undefined. *)
Definition store (dst : list byte) (i : Z) (b : byte) : option (list byte) :=
  if decide (0 <= i < Z.of_nat (length dst)) then Some (<[Z.to_nat i := b]> dst)
  else None.

(** The static array [digits] (without its NUL, which is never read). *)
Definition digits : list byte := bytes_of
  "0001020304050607080910111213141516171819202122232425262728293031323334353637383940414243444546474849505152535455565758596061626364656667686970717273747576777879808182838485868788899091929394959697989900".

(** [while (value >= 100)]: returns the buffer, [value] and [next]. *)
Fixpoint ll2string_loop (fuel : nat) (dst : list byte) (value next : Z) :
    option (list byte * Z * Z) :=
  if 100 <=? value then
    match fuel with
    | O => None
    | S fuel =>
      let i := (value mod 100) * 2 in
      c1 ← digits !! Z.to_nat (i + 1);
      dst ← store dst next c1;
      c0 ← digits !! Z.to_nat i;
      dst ← store dst (u32 (next - 1)) c0;
      ll2string_loop fuel dst (value / 100) (u32 (next - 2))
    end
  else Some (dst, value, next).

(** "Handle last 1-2 digits". *)
Definition ll2string_last (dst : list byte) (value next : Z) : option (list byte) :=
  if value <? 10 then
    c ← Byte.of_N (Z.to_N (48 + value));
    store dst next c
  else
    let i := value * 2 in
    c1 ← digits !! Z.to_nat (i + 1);
    dst ← store dst next c1;
    c0 ← digits !! Z.to_nat i;
    store dst (u32 (next - 1)) c0.

(** "Bytes needed for long -> str". *)
Definition REDIS_LONGSTR_SIZE : nat := 42.

(** [m_ll2string dst dstlen svalue] with [dstlen] the length of [dst]: the
    returned count and the buffer. *)
Definition m_ll2string (dst : list byte) (svalue : Z) : option (Z * list byte) :=
  let '(value, negative) :=
    if svalue <? 0 then (abs_u64 svalue, 1) else (svalue, 0) in
  n ← m_digits10 value;
  let length := u32 (n + negative) in
  if Z.of_nat (base.length dst) <=? length then Some (0, dst)
  else
    dst ← store dst length x00;
    '(dst, value, next) ← ll2string_loop 10 dst value (u32 (length - 1));
    dst ← ll2string_last dst value next;
    dst ← (if decide (negative ≠ 0) then store dst 0 "-"%byte else Some dst);
    Some (length, dst).

Definition isdigit (b : byte) : bool := (48 <=? bval b) && (bval b <=? 57).

(** The digit loop of [m_string2ll]: the value and the bytes not consumed, or
    [None] on overflow. *)
Fixpoint string2ll_digits (v : Z) (p : list byte) : option (Z * list byte) :=
  match p with
  | b :: p' =>
    if isdigit b then
      if ULLONG_MAX / 10 <? v then None
      else
        let v := u64 (v * 10) in
        if u64 (ULLONG_MAX - (bval b - 48)) <? v then None
        else string2ll_digits (u64 (v + (bval b - 48))) p'
    else Some (v, p)
  | [] => Some (v, [])
  end.

(** The unsigned part of [m_string2ll], after the optional sign: a first digit
    1-9, the other digits, and no byte left over. *)
Definition string2ll_magnitude (p : list byte) : option Z :=
  match p with
  | [] => None
  | d :: p =>
    if (49 <=? bval d) && (bval d <=? 57) then
      '(v, rest) ← string2ll_digits (bval d - 48) p;
      match rest with [] => Some v | _ :: _ => None end
    else None
  end.

(** [m_string2ll]: [Some v] when it returns 1 and sets [*value] to [v]. *)
Definition m_string2ll (s : list byte) : option Z :=
  match s with
  | [] => None
  | c :: rest =>
    if decide (rest = [] ∧ c = "0"%byte) then Some 0
    else if decide (c = "-"%byte) then
      v ← string2ll_magnitude rest;
      if u64 (u64 (- (LLONG_MIN + 1)) + 1) <? v then None
      else Some (i64 (u64 (- v)))
    else
      v ← string2ll_magnitude s;
      if LLONG_MAX <? v then None else Some v
  end.

(** [m_string2l]; on the 64-bit targets of the module [long] is [long long],
    so the second range check never fires. *)
Definition m_string2l (s : list byte) : option Z :=
  llval ← m_string2ll s;
  if (llval <? - 2 ^ 63) || (LONG_MAX <? llval) then None else Some llval.

(** ** Specification: canonical decimal strings *)
Definition udec_value_from (v : Z) (s : list byte) : Z :=
  foldl (λ v b, 10 * v + (bval b - 48)) v s.
Definition udec_value (s : list byte) : Z := udec_value_from 0 s.

(** Digits only, at least one, and no leading zero but in ["0"]. *)
Definition ucanonical (s : list byte) : Prop :=
  match s with
  | [] => False
  | [d] => isdigit d = true
  | d :: s' => isdigit d = true ∧ d ≠ "0"%byte ∧ Forall (λ b, isdigit b = true) s'
  end.

Definition canonical (s : list byte) : Prop :=
  match s with
  | c :: s' =>
    if decide (c = "-"%byte) then ucanonical s' ∧ s' ≠ ["0"%byte] else ucanonical s
  | [] => False
  end.

Definition dec_value (s : list byte) : Z :=
  match s with
  | c :: s' => if decide (c = "-"%byte) then - udec_value s' else udec_value s
  | [] => 0
  end.

Example ll2string_ex :
  m_ll2string (replicate 42 x41) (-1203) = Some (5, bytes_of "-1203" ++ x00 :: replicate 36 x41).
Proof. vm_compute. reflexivity. Qed.
Example string2ll_ex : m_string2ll (bytes_of "-9223372036854775808") = Some LLONG_MIN.
Proof. vm_compute. reflexivity. Qed.
Example string2ll_ex2 : m_string2ll (bytes_of "9223372036854775808") = None.
Proof. vm_compute. reflexivity. Qed.
Example string2ll_ex3 : m_string2ll (bytes_of "007") = None.
Proof. vm_compute. reflexivity. Qed.

(** ** Lemmas: digits *)
Definition digit (d : Z) : byte := default x00 (Byte.of_N (Z.to_N (48 + d))).

(** The [n] low decimal digits of [v], most significant first. *)
Fixpoint wdigits (n : nat) (v : Z) : list byte :=
  match n with
  | O => []
  | S n => wdigits n (v / 10) ++ [digit (v mod 10)]
  end.

Lemma digit_spec d :
  0 <= d < 10 ->
  Byte.of_N (Z.to_N (48 + d)) = Some (digit d) ∧ bval (digit d) = 48 + d ∧
  isdigit (digit d) = true.
Proof.
  intros Hd. assert (d ∈ seqZ 0 10) as Hin by (apply elem_of_seqZ; lia).
  clear Hd. revert d Hin. apply Forall_forall. by apply (bool_decide_unpack _); vm_compute.
Qed.

Lemma isdigit_digit b : isdigit b = true -> 0 <= bval b - 48 < 10 ∧ digit (bval b - 48) = b.
Proof.
  unfold isdigit. intros [Hl Hu]%andb_prop. split; [lia|].
  apply bval_inj. destruct (digit_spec (bval b - 48)) as (_ & -> & _); lia.
Qed.

(** The two-digit table holds the two digits of each number below 100. *)
Lemma digits_lookup k :
  0 <= k < 100 ->
  digits !! Z.to_nat (k * 2) = Some (digit (k / 10)) ∧
  digits !! Z.to_nat (k * 2 + 1) = Some (digit (k mod 10)).
Proof.
  intros Hk. assert (k ∈ seqZ 0 100) as Hin by (apply elem_of_seqZ; lia).
  clear Hk. revert k Hin. apply Forall_forall. by apply (bool_decide_unpack _); vm_compute.
Qed.

Lemma length_wdigits n v : length (wdigits n v) = n.
Proof.
  revert v. induction n as [|n IH]; intros v; simpl; [done|].
  rewrite length_app, IH. simpl. lia.
Qed.

Lemma wdigits_SS n v :
  wdigits (S (S n)) v =
  wdigits n (v / 100) ++ [digit (v mod 100 / 10); digit (v mod 100 mod 10)].
Proof.
  simpl. rewrite <- app_assoc. simpl. rewrite Z.div_div by lia.
  do 2 f_equal; [|do 2 f_equal].
  - change 100 with (10 * 10). rewrite Z.rem_mul_r by lia.
    rewrite (Z.add_comm (v mod 10)), (Z.mul_comm 10), Z.div_add_l by lia.
    rewrite (Z.div_small (v mod 10)) by (apply Z.mod_pos_bound; lia). f_equal. lia.
  - change 100 with (10 * 10). rewrite Z.rem_mul_r by lia.
    rewrite Z.mul_comm, Z.mod_add, Z.mod_mod by lia. done.
Qed.

Lemma wdigits_isdigit n v : Forall (λ b, isdigit b = true) (wdigits n v).
Proof.
  revert v. induction n as [|n IH]; intros v; simpl; [done|].
  apply Forall_app_2; [done|]. apply Forall_singleton.
  apply digit_spec, Z.mod_pos_bound. lia.
Qed.

Lemma udec_value_from_app v s1 s2 :
  udec_value_from v (s1 ++ s2) = udec_value_from (udec_value_from v s1) s2.
Proof. apply foldl_app. Qed.

Lemma udec_value_wdigits n v : udec_value (wdigits n v) = v mod 10 ^ Z.of_nat n.
Proof.
  revert v. unfold udec_value. induction n as [|n IH]; intros v.
  { simpl. by rewrite Z.mod_1_r. }
  cbn [wdigits]. rewrite udec_value_from_app, IH. cbn [udec_value_from foldl].
  destruct (digit_spec (v mod 10)) as (_ & -> & _); [apply Z.mod_pos_bound; lia|].
  rewrite Nat2Z.inj_succ, Z.pow_succ_r by lia.
  rewrite (Z.rem_mul_r v 10) by lia. lia.
Qed.

(** Appending digits to a value: bounds of the Horner sum. *)
Lemma udec_value_from_bound s : Forall (λ b, isdigit b = true) s -> ∀ v, 0 <= v ->
  v * 10 ^ Z.of_nat (length s) <= udec_value_from v s < (v + 1) * 10 ^ Z.of_nat (length s).
Proof.
  unfold udec_value_from.
  induction 1 as [|b s Hb Hs IH]; intros v Hv; cbn [foldl length]; [simpl; lia|].
  apply isdigit_digit in Hb as [Hb _].
  specialize (IH (10 * v + (bval b - 48)) ltac:(lia)).
  rewrite Nat2Z.inj_succ, Z.pow_succ_r by lia. nia.
Qed.

Lemma udec_value_from_lin v s :
  udec_value_from v s = v * 10 ^ Z.of_nat (length s) + udec_value s.
Proof.
  unfold udec_value, udec_value_from. revert v.
  induction s as [|b s IH]; intros v; cbn [foldl length]; [simpl; lia|].
  rewrite IH, (IH (10 * 0 + _)), Nat2Z.inj_succ, Z.pow_succ_r by lia. lia.
Qed.

(** Digits are recovered from the value. *)
Lemma wdigits_udec_value s :
  Forall (λ b, isdigit b = true) s -> wdigits (length s) (udec_value s) = s.
Proof.
  induction s as [|b s IH] using rev_ind; [done|].
  intros [Hs [Hb _]%Forall_cons]%Forall_app.
  rewrite length_app, Nat.add_1_r. cbn [wdigits].
  unfold udec_value. rewrite udec_value_from_app. cbn [udec_value_from foldl].
  destruct (isdigit_digit b Hb) as [Hr Hd].
  fold (udec_value s). rewrite (Z.mul_comm 10), Z.div_add_l by lia.
  rewrite (Z.div_small (bval b - 48)), Z.add_0_r, IH by done.
  by rewrite Z.add_comm, Z.mod_add, Z.mod_small, Hd by lia.
Qed.

(** ** Lemmas: counting digits *)
Definition ndigits (v n : Z) : Prop := 1 <= n ∧ v < 10 ^ n ∧ (n = 1 ∨ 10 ^ (n - 1) <= v).

Lemma m_digits10_small fuel v :
  0 <= v < 10 ^ 12 -> ∃ n, m_digits10_go (S fuel) v = Some n ∧ ndigits v n ∧ n <= 12.
Proof.
  intros Hv. cbn [m_digits10_go]. unfold ndigits.
  repeat match goal with
  | |- context [if ?x <? ?y then _ else _] => destruct (Z.ltb_spec x y)
  | |- context [Z.b2z (?x <=? ?y)] => destruct (Z.leb_spec x y); cbn [Z.b2z]
  end; try lia; eexists; (split; [reflexivity|]); simpl; lia.
Qed.

Lemma m_digits10_large fuel v :
  10 ^ 12 <= v ->
  m_digits10_go (S fuel) v = (n ← m_digits10_go fuel (v / 10 ^ 12); Some (12 + n)).
Proof.
  intros Hv. cbn [m_digits10_go].
  repeat match goal with
  | |- context [if ?x <? ?y then _ else _] => destruct (Z.ltb_spec x y); [lia|]
  end. done.
Qed.

Lemma m_digits10_ndigits v :
  is_u64 v -> ∃ n, m_digits10 v = Some n ∧ ndigits v n ∧ n <= 20.
Proof.
  intros Hv. destruct (decide (v < 10 ^ 12)) as [Hs|Hs].
  { destruct (m_digits10_small 2 v) as (n & ? & ? & ?); [word_lia|]. exists n. split_and!; auto; lia. }
  assert (1 <= v / 10 ^ 12 < 10 ^ 8) as Hq.
  { split; [apply Z.div_le_lower_bound; lia|apply Z.div_lt_upper_bound; word_lia]. }
  destruct (m_digits10_small 1 (v / 10 ^ 12)) as (n & E & (Hn & Hu & Hl) & Hle); [lia|].
  assert (n <= 8).
  { destruct Hl as [->|Hl]; [lia|].
    destruct (decide (n <= 8)); [done|].
    assert (10 ^ 8 <= 10 ^ (n - 1)) by (apply Z.pow_le_mono_r; lia). lia. }
  exists (12 + n). split; [|split; [|lia]].
  - unfold m_digits10. rewrite m_digits10_large, E by lia. done.
  - assert (v = 10 ^ 12 * (v / 10 ^ 12) + v mod 10 ^ 12) by (apply Z.div_mod; lia).
    pose proof (Z.mod_pos_bound v (10 ^ 12) ltac:(lia)).
    split; [lia|]. split.
    + rewrite Z.pow_add_r by lia. nia.
    + right. replace (12 + n - 1) with (12 + (n - 1)) by lia.
      rewrite Z.pow_add_r by lia. destruct Hl as [->|Hl]; [simpl; lia|nia].
Qed.

(** ** Lemmas: writing *)
Lemma store_app pre a post i b :
  i = Z.of_nat (length pre) ->
  store (pre ++ a :: post) i b = Some (pre ++ b :: post).
Proof.
  intros ->. unfold store. rewrite decide_True.
  - by rewrite Nat2Z.id, insert_app_r_alt, Nat.sub_diag by lia.
  - rewrite length_app. simpl. lia.
Qed.

Lemma store_app2 pre a a' post i b :
  i = Z.of_nat (length pre) + 1 ->
  store (pre ++ a :: a' :: post) i b = Some (pre ++ a :: b :: post).
Proof.
  intros ->. change (a :: a' :: post) with ([a] ++ a' :: post).
  rewrite app_assoc, store_app by (rewrite length_app; simpl; lia).
  by rewrite <- app_assoc.
Qed.

(** The last one or two digits, given the cells they go to. *)
Lemma ll2string_last_spec n pre mid post value :
  length mid = n -> 0 <= value < 100 -> ndigits value (Z.of_nat n) ->
  Z.of_nat (length pre + n) < 2 ^ 32 ->
  ll2string_last (pre ++ mid ++ post) value (Z.of_nat (length pre + n) - 1) =
  Some (pre ++ wdigits n value ++ post).
Proof.
  intros Hm Hv (Hn & Hu & Hl) Hlen. unfold ll2string_last.
  destruct (Z.ltb_spec value 10) as [Hs|Hs].
  - assert (n = 1%nat) as ->.
    { destruct Hl as [|Hl]; [lia|]. destruct (decide (n = 1%nat)); [done|].
      assert (10 ^ 1 <= 10 ^ (Z.of_nat n - 1)) by (apply Z.pow_le_mono_r; lia). lia. }
    destruct mid as [|a []]; simplify_eq/=.
    destruct (digit_spec value) as (-> & _); [lia|]. simpl.
    rewrite store_app by lia. by rewrite Z.mod_small by lia.
  - assert (n = 2%nat) as ->.
    { destruct (decide (n <= 1)%nat).
      { assert (n = 1%nat) as -> by lia. lia. }
      destruct (decide (n = 2%nat)); [done|]. destruct Hl as [|Hl]; [lia|].
      assert (10 ^ 2 <= 10 ^ (Z.of_nat n - 1)) by (apply Z.pow_le_mono_r; lia). lia. }
    destruct mid as [|a [|a' []]]; simplify_eq/=.
    destruct (digits_lookup value Hv) as [-> ->]. simpl.
    rewrite store_app2 by lia. simpl. rewrite u32_small, store_app by lia.
    simpl. by rewrite (Z.mod_small (value / 10)) by (split; [apply Z.div_pos|apply Z.div_lt_upper_bound]; lia).
Qed.

(** The loop followed by the last digits fills exactly the [n] cells. *)
Lemma ll2string_loop_spec fuel n pre mid post value :
  (n <= 2 * fuel + 2)%nat -> length mid = n -> 0 <= value -> ndigits value (Z.of_nat n) ->
  Z.of_nat (length pre + n) < 2 ^ 32 ->
  ('(dst, value, next) ←
     ll2string_loop fuel (pre ++ mid ++ post) value (Z.of_nat (length pre + n) - 1);
   ll2string_last dst value next) = Some (pre ++ wdigits n value ++ post).
Proof.
  revert n mid post value. induction fuel as [|fuel IH];
    intros n mid post value Hf Hm Hv Hd Hlen; cbn [ll2string_loop];
    destruct (Z.leb_spec 100 value) as [Hb|Hb];
    try (simpl; apply ll2string_last_spec; [done|lia|done|done]).
  { exfalso. destruct Hd as (_ & Hu & _).
    assert (10 ^ Z.of_nat n <= 10 ^ 2) by (apply Z.pow_le_mono_r; lia). lia. }
  assert (3 <= n)%nat.
  { destruct Hd as (_ & Hu & _). destruct (decide (3 <= n)%nat); [done|].
    assert (10 ^ Z.of_nat n <= 10 ^ 2) by (apply Z.pow_le_mono_r; lia). lia. }
  destruct n as [|[|n]]; [lia..|].
  assert (∃ mid' a a', mid = mid' ++ [a; a']) as (mid' & a & a' & ->).
  { destruct (rev mid) as [|a' [|a r]] eqn:E; apply (f_equal length) in E as El;
      rewrite length_rev in El; simpl in El; [lia..|].
    exists (rev r), a, a'. rewrite <- (rev_involutive mid), E. simpl.
    by rewrite <- app_assoc. }
  rewrite length_app in Hm. simpl in Hm.
  destruct (digits_lookup (value mod 100)) as [E0 E1]; [apply Z.mod_pos_bound; lia|].
  rewrite E1. cbn [mbind option_bind].
  rewrite <- (app_assoc mid'), (app_assoc pre mid'). cbn [app].
  rewrite store_app2 by (rewrite length_app; lia). cbn [mbind option_bind].
  rewrite E0. cbn [mbind option_bind].
  rewrite (u32_small (_ - 1 - 1)) by lia. rewrite store_app by (rewrite length_app; lia). cbn [mbind option_bind].
  rewrite <- app_assoc.
  rewrite ?u32_small by lia.
  replace (Z.of_nat (length pre + S (S n)) - 1 - 2) with (Z.of_nat (length pre + n) - 1) by lia.
  rewrite IH; [by rewrite wdigits_SS, <- (app_assoc (wdigits n _))|lia|lia|apply Z.div_pos; lia| |lia].
  destruct Hd as (_ & Hu & Hl). split; [lia|]. split.
  - apply Z.div_lt_upper_bound; [lia|].
    replace (Z.of_nat (S (S n))) with (2 + Z.of_nat n) in Hu by lia.
    by rewrite Z.pow_add_r in Hu by lia.
  - destruct (decide (n = 1%nat)) as [->|]; [by left|right].
    destruct Hl as [Hl|Hl]; [lia|]. apply Z.div_le_lower_bound; [lia|].
    change 100 with (10 ^ 2). rewrite <- Z.pow_add_r by lia.
    by replace (2 + (Z.of_nat n - 1)) with (Z.of_nat (S (S n)) - 1) by lia.
Qed.

(** ** Lemmas: canonical strings *)
Lemma isdigit_not_minus b : isdigit b = true -> b ≠ "-"%byte.
Proof. by intros H ->. Qed.

Lemma ucanonical_digits s : ucanonical s -> Forall (λ b, isdigit b = true) s ∧ s ≠ [].
Proof.
  destruct s as [|d [|d' s]]; simpl; [done| |].
  - intros H. by repeat constructor.
  - intros (H & _ & Hs). split; [by constructor|done].
Qed.

(** A canonical string has the number of digits of its value. *)
Lemma ucanonical_ndigits s :
  ucanonical s -> ndigits (udec_value s) (Z.of_nat (length s)) ∧ 0 <= udec_value s.
Proof.
  intros Hc. destruct (ucanonical_digits s Hc) as [Hd Hne].
  pose proof (udec_value_from_bound s Hd 0 ltac:(lia)) as Hb. fold (udec_value s) in Hb.
  split; [|lia]. split; [destruct s; [done|simpl; lia]|]. split; [lia|].
  destruct s as [|d [|d' s]]; [done|by left|]. right. destruct Hc as (Hdd & Hd0 & Hs).
  replace (Z.of_nat (length (d :: d' :: s)) - 1) with (Z.of_nat (length (d' :: s)))
    by (simpl; lia).
  destruct (isdigit_digit d Hdd) as [Hr Hdig].
  pose proof (udec_value_from_bound (d' :: s) Hs (bval d - 48) ltac:(lia)) as Hb'.
  assert (bval d - 48 ≠ 0).
  { intros E. apply Hd0, bval_inj. change (bval "0"%byte) with 48. lia. }
  change (udec_value (d :: d' :: s)) with (udec_value_from (bval d - 48) (d' :: s)).
  nia.
Qed.

Lemma ndigits_unique v n1 n2 : ndigits v n1 -> ndigits v n2 -> n1 = n2.
Proof.
  assert (∀ n1 n2, ndigits v n1 -> ndigits v n2 -> n1 <= n2) as Hle.
  { clear. intros n1 n2 (H1 & U1 & L1) (H2 & U2 & L2). destruct L1 as [|L1]; [lia|].
    destruct (decide (n1 <= n2)); [done|].
    assert (10 ^ n2 <= 10 ^ (n1 - 1)) by (apply Z.pow_le_mono_r; lia). lia. }
  intros. apply Z.le_antisymm; auto.
Qed.

Lemma ucanonical_unique s1 s2 :
  ucanonical s1 -> ucanonical s2 -> udec_value s1 = udec_value s2 -> s1 = s2.
Proof.
  intros H1 H2 E.
  pose proof (proj1 (ucanonical_ndigits _ H1)) as D1.
  pose proof (proj1 (ucanonical_ndigits _ H2)) as D2.
  rewrite E in D1. pose proof (ndigits_unique _ _ _ D1 D2) as El%Nat2Z.inj.
  rewrite <- (wdigits_udec_value s1), <- (wdigits_udec_value s2), El, E
    by (by apply ucanonical_digits). done.
Qed.

Lemma ucanonical_wdigits n v :
  0 <= v -> ndigits v (Z.of_nat n) ->
  ucanonical (wdigits n v) ∧ udec_value (wdigits n v) = v.
Proof.
  intros Hv (Hn & Hu & Hl).
  assert (udec_value (wdigits n v) = v) as Hval.
  { rewrite udec_value_wdigits. by apply Z.mod_small. }
  split; [|done]. pose proof (wdigits_isdigit n v) as Hd.
  pose proof (length_wdigits n v) as Hlen.
  destruct (wdigits n v) as [|d [|d' s]]; simpl in Hlen; [lia|by inversion Hd|].
  apply Forall_cons in Hd as [Hdd Hs]. split_and!; [done| |done].
  intros ->. destruct Hl as [|Hl]; [lia|].
  pose proof (udec_value_from_bound (d' :: s) Hs 0 ltac:(lia)) as Hb.
  change (udec_value_from 0 (d' :: s)) with (udec_value ("0"%byte :: d' :: s)) in Hb.
  replace (Z.of_nat n - 1) with (Z.of_nat (length (d' :: s))) in Hl by (simpl; lia). lia.
Qed.

Lemma canonical_unsigned s :
  ucanonical s -> canonical s ∧ dec_value s = udec_value s.
Proof.
  destruct s as [|d s]; [done|]. intros Hc.
  destruct (ucanonical_digits _ Hc) as [[Hd _]%Forall_cons _].
  unfold canonical, dec_value. by rewrite !decide_False by (by apply isdigit_not_minus).
Qed.

Lemma canonical_unique s1 s2 :
  canonical s1 -> canonical s2 -> dec_value s1 = dec_value s2 -> s1 = s2.
Proof.
  assert (∀ s, ucanonical s -> s ≠ ["0"%byte] -> 0 < udec_value s) as Hpos.
  { intros s Hc Hz. destruct (ucanonical_ndigits s Hc) as [_ Hnn].
    destruct (decide (udec_value s = 0)) as [E|]; [|lia]. destruct Hz.
    by apply ucanonical_unique. }
  destruct s1 as [|c1 s1]; [done|]. destruct s2 as [|c2 s2]; [done|].
  unfold canonical, dec_value. do 2 case_decide.
  - subst. intros [H1 _] [H2 _] E. f_equal. apply ucanonical_unique; [done..|lia].
  - intros [H1 Hz] H2 E. pose proof (Hpos _ H1 Hz).
    pose proof (proj2 (ucanonical_ndigits _ H2)). lia.
  - intros H1 [H2 Hz] E. pose proof (Hpos _ H2 Hz).
    pose proof (proj2 (ucanonical_ndigits _ H1)). lia.
  - apply ucanonical_unique.
Qed.

(** ** Lemmas: parsing *)
Lemma string2ll_digits_spec p : ∀ v v', 0 <= v < 2 ^ 64 ->
  string2ll_digits v p = Some (v', []) <->
  Forall (λ b, isdigit b = true) p ∧ v' = udec_value_from v p ∧ v' < 2 ^ 64.
Proof.
  unfold ULLONG_MAX.
  induction p as [|b p IH]; intros v v' Hv; cbn [string2ll_digits].
  { split; [intros [= ->]; split_and!; [done|done|lia]|by intros (_ & -> & _)]. }
  destruct (isdigit b) eqn:Hb.
  2:{ split; [done|]. intros (Hd & _). apply Forall_cons in Hd as [Hd _]. congruence. }
  destruct (isdigit_digit b Hb) as [Hr _]. unfold ULLONG_MAX.
  assert (∀ r, Forall (λ b, isdigit b = true) p -> r = udec_value_from v (b :: p) ->
               10 * v + (bval b - 48) <= r) as Hmono.
  { intros r Hp ->. unfold udec_value_from. cbn [foldl].
    pose proof (udec_value_from_bound p Hp (10 * v + (bval b - 48)) ltac:(lia)) as Hb'.
    unfold udec_value_from in Hb'.
    assert (0 < 10 ^ Z.of_nat (length p)) by lia. nia. }
  change ((2 ^ 64 - 1) / 10) with 1844674407370955161.
  destruct (Z.ltb_spec 1844674407370955161 v) as [Hov|Hov].
  { split; [done|]. intros (Hd & E & Hu). apply Forall_cons in Hd as [_ Hp].
    specialize (Hmono _ Hp E). lia. }
  rewrite (u64_small (v * 10)), (u64_small (_ - _)) by lia.
  destruct (Z.ltb_spec (2 ^ 64 - 1 - (bval b - 48)) (v * 10)) as [Hov2|Hov2].
  { split; [done|]. intros (Hd & E & Hu). apply Forall_cons in Hd as [_ Hp].
    specialize (Hmono _ Hp E). lia. }
  rewrite u64_small, IH, Forall_cons by lia.
  change (udec_value_from v (b :: p)) with (udec_value_from (10 * v + (bval b - 48)) p).
  rewrite (Z.mul_comm v 10). tauto.
Qed.

(** The leading digit of a number that is not ["0"]. *)
Lemma leading_digit d :
  (49 <=? bval d) && (bval d <=? 57) = true ->
  isdigit d = true ∧ d ≠ "0"%byte.
Proof.
  intros [Hl Hu]%andb_prop. split; [unfold isdigit; apply andb_true_intro; lia|].
  intros ->. done.
Qed.

Lemma ucanonical_leading d p :
  d :: p ≠ ["0"%byte] ->
  ucanonical (d :: p) <->
  (49 <=? bval d) && (bval d <=? 57) = true ∧ Forall (λ b, isdigit b = true) p.
Proof.
  intros Hz. split.
  - intros Hc. assert (isdigit d = true ∧ d ≠ "0"%byte ∧ Forall (λ b, isdigit b = true) p)
      as (Hd & H0 & Hp).
    { destruct p as [|d' p]; [|done]. split_and!; [done|congruence|done]. }
    split; [|done]. destruct (isdigit_digit d Hd) as [Hr _].
    assert (bval d ≠ 48) by (intros E; apply H0, bval_inj; done).
    apply andb_true_intro. lia.
  - intros [Hd Hp]. apply leading_digit in Hd as [Hd H0].
    destruct p as [|d' p]; [done|]. simpl. by split_and!.
Qed.

Lemma string2ll_magnitude_spec p v :
  p ≠ ["0"%byte] ->
  string2ll_magnitude p = Some v <-> ucanonical p ∧ v = udec_value p ∧ v < 2 ^ 64.
Proof.
  intros Hz. destruct p as [|d p]; [split; [done|by intros []]|].
  rewrite ucanonical_leading by done. unfold string2ll_magnitude.
  change (udec_value (d :: p)) with (udec_value_from (10 * 0 + (bval d - 48)) p).
  rewrite Z.mul_0_r, Z.add_0_l. pose proof (bval_range d).
  destruct (_ && _) eqn:Hd; [apply leading_digit in Hd as [Hd _]|split; [done|intros [[] _]; done]].
  destruct (isdigit_digit d Hd) as [Hr _].
  pose proof (λ v', string2ll_digits_spec p (bval d - 48) v' ltac:(lia)) as Hu.
  destruct (string2ll_digits _ p) as [[v' [|]]|] eqn:E; simpl.
  - destruct (proj1 (Hu v') eq_refl) as (Hp & -> & Hb).
    split; [by intros [= <-]|by intros (_ & -> & _)].
  - split; [done|]. intros ([_ Hp] & Hv & Hb). discriminate (proj2 (Hu v) (conj Hp (conj Hv Hb))).
  - split; [done|]. intros ([_ Hp] & Hv & Hb). discriminate (proj2 (Hu v) (conj Hp (conj Hv Hb))).
Qed.

Lemma i64_opp_u64 v : 0 <= v <= 2 ^ 63 -> i64 (u64 (- v)) = - v.
Proof.
  intros Hv. rewrite <- (i64_small (- v)) at 2 by lia.
  unfold i64, signed, u64. by rewrite Z.mod_mod by lia.
Qed.

Lemma m_digits10_abs v :
  is_i64 v -> ∃ n, ndigits (Z.abs v) (Z.of_nat n) ∧ (n <= 19)%nat ∧
                   m_digits10 (Z.abs v) = Some (Z.of_nat n).
Proof.
  intros Hv. destruct (m_digits10_ndigits (Z.abs v)) as (n & E & Hn & _); [word_lia|].
  exists (Z.to_nat n). destruct Hn as (H1 & Hu & Hl).
  rewrite Z2Nat.id by lia. split_and!; [by split_and!| |done].
  destruct (decide (n <= 19)); [lia|]. destruct Hl as [|Hl]; [lia|].
  assert (10 ^ 19 <= 10 ^ (n - 1)) by (apply Z.pow_le_mono_r; lia). word_lia.
Qed.

(** The unsigned [value] and [negative] of [m_ll2string]. *)
Lemma abs_sign_pair v :
  is_i64 v ->
  (if v <? 0 then (abs_u64 v, 1) else (v, 0)) = (Z.abs v, if decide (v < 0) then 1 else 0).
Proof.
  intros Hv. unfold abs_u64, LLONG_MIN, LLONG_MAX.
  destruct (Z.ltb_spec v 0) as [Hneg|Hpos].
  - rewrite (decide_True (P := v < 0)) by done. f_equal.
    case_decide; rewrite u64_small by word_lia; word_lia.
  - rewrite (decide_False (P := v < 0)) by lia. f_equal. lia.
Qed.

(** A buffer with room for [k + n] bytes and one more. *)
Lemma split_buffer (dst : list byte) k n :
  (k + n < length dst)%nat ->
  ∃ pre mid x post, dst = pre ++ mid ++ x :: post ∧ length pre = k ∧ length mid = n ∧
    drop (S (n + k)) dst = post.
Proof.
  intros Hl. destruct (lookup_lt_is_Some_2 dst (k + n) Hl) as [x Hx].
  exists (take k dst), (take n (drop k dst)), x, (drop (S (k + n)) dst).
  rewrite <- (drop_S _ _ _ Hx), <- drop_drop, !take_drop.
  rewrite !length_take, length_drop. split_and!; [done|lia|lia|by rewrite (Nat.add_comm n)].
Qed.

(** ** Lemmas: the two functions *)
Lemma m_string2ll_iff s v :
  m_string2ll s = Some v <-> canonical s ∧ dec_value s = v ∧ is_i64 v.
Proof.
  unfold m_string2ll, canonical, dec_value, is_i64. destruct s as [|c rest]; [split; [done|by intros []]|].
  case_decide as H0.
  { destruct H0 as [-> ->]. split; [by intros [= <-]|by intros (_ & <- & _)]. }
  case_decide as Hm.
  - change (u64 (u64 (- (LLONG_MIN + 1)) + 1)) with (2 ^ 63).
    destruct (decide (rest = ["0"%byte])) as [->|Hz]; [split; [done|by intros [[_ []] _]]|].
    pose proof (λ v, string2ll_magnitude_spec rest v Hz) as Hu.
    destruct (string2ll_magnitude rest) as [v'|] eqn:E; simpl.
    + destruct (proj1 (Hu v') eq_refl) as (Hc & -> & Hb).
      pose proof (proj2 (ucanonical_ndigits _ Hc)) as Hnn.
      destruct (Z.ltb_spec (2 ^ 63) (udec_value rest)).
      { split; [done|]. intros (_ & Hv & Hr). lia. }
      rewrite i64_opp_u64 by lia.
      split; [intros [= <-]; split_and!; [done..|lia|lia]|by intros (_ & -> & _)].
    + split; [done|]. intros ([Hc _] & Hv & Hr).
      assert (None = Some (udec_value rest)) by (apply Hu; split_and!; [done|done|lia]). done.
  - assert (c :: rest ≠ ["0"%byte]) as Hz by (intros [= -> ->]; naive_solver).
    pose proof (λ v, string2ll_magnitude_spec (c :: rest) v Hz) as Hu.
    destruct (string2ll_magnitude (c :: rest)) as [v'|] eqn:E; cbn [mbind option_bind].
    + destruct (proj1 (Hu v') eq_refl) as (Hc & -> & Hb).
      pose proof (proj2 (ucanonical_ndigits _ Hc)) as Hnn. unfold LLONG_MAX.
      destruct (Z.ltb_spec (2 ^ 63 - 1) (udec_value (c :: rest))).
      { split; [done|]. intros (_ & Hv & Hr). lia. }
      split; [intros [= <-]; split_and!; [done..|lia|lia]|by intros (_ & -> & _)].
    + split; [done|]. intros (Hc & Hv & Hr).
      assert (None = Some (udec_value (c :: rest))) by (apply Hu; split_and!; [done|done|lia]). done.
Qed.

Lemma m_ll2string_writes dst v :
  is_i64 v ->
  ∃ s, canonical s ∧ dec_value s = v ∧ (length s <= 20)%nat ∧
    m_ll2string dst v = Some
      (if decide (length s < length dst)%nat
       then (Z.of_nat (length s), s ++ x00 :: drop (S (length s)) dst)
       else (0, dst)).
Proof.
  intros Hv. destruct (m_digits10_abs v Hv) as (n & Hn & Hn19 & En).
  destruct (ucanonical_wdigits n (Z.abs v) ltac:(lia) Hn) as [Hc Hval].
  pose proof (length_wdigits n (Z.abs v)) as Hlen.
  set (sign := if decide (v < 0) then ["-"%byte] else []).
  exists (sign ++ wdigits n (Z.abs v)).
  assert (Z.of_nat (length sign) = if decide (v < 0) then 1 else 0) as Hsign.
  { unfold sign. by case_decide. }
  split_and!.
  - unfold sign. case_decide; [|by apply canonical_unsigned].
    simpl. split; [done|]. intros E. rewrite E in Hval. change (udec_value _) with 0 in Hval. lia.
  - unfold sign. case_decide; [simpl; lia|]. cbn [app]. rewrite (proj2 (canonical_unsigned _ Hc)). lia.
  - rewrite length_app, Hlen. unfold sign. case_decide; simpl; lia.
  - unfold m_ll2string.
    rewrite abs_sign_pair by done.
    rewrite En. cbn [mbind option_bind]. rewrite <- Hsign.
    rewrite length_app, Hlen.
    assert (length sign <= 1)%nat by (unfold sign; case_decide; simpl; lia).
    rewrite u32_small by lia.
    destruct (Z.leb_spec (Z.of_nat (length dst)) (Z.of_nat n + Z.of_nat (length sign))).
    { by rewrite decide_False by lia. }
    rewrite decide_True by lia.
    destruct (split_buffer dst (length sign) n) as (pre & mid & x & post & -> & Hpre & Hmid & Hdrop);
      [lia|].
    rewrite (app_assoc pre), store_app by (rewrite length_app; lia). cbn [mbind option_bind].
    pose proof (proj1 Hn). rewrite u32_small, <- app_assoc by lia.
    replace (Z.of_nat n + Z.of_nat (length sign) - 1)
      with (Z.of_nat (length pre + n) - 1) by lia.
    pose proof (ll2string_loop_spec 10 n pre mid (x00 :: post) (Z.abs v)
                  ltac:(lia) Hmid ltac:(lia) Hn ltac:(lia)) as Hloop.
    destruct (ll2string_loop 10 _ _ _) as [[[d' v'] n']|]; [|done].
    cbn [mbind option_bind] in *. rewrite Hloop. cbn [mbind option_bind].
    rewrite (Nat.add_comm (length sign)), <- (app_assoc pre mid (x :: post)), Hdrop.
    unfold sign in *. case_decide; simpl in Hsign, Hpre.
    + destruct pre as [|p []]; simplify_eq/=.
      do 2 f_equal. lia.
    + destruct pre; simplify_eq/=. do 2 f_equal. lia.
Qed.

(** ** Properties *)

(** C27. [m_string2ll] accepts exactly the canonical decimal strings whose value
    is a [long long], and returns that value: no spaces, no leading zeroes, no
    ["-0"], no overflow. *)
Theorem m_string2ll_spec s v :
  m_string2ll s = Some v <-> canonical s ∧ dec_value s = v ∧ is_i64 v.
Proof. apply m_string2ll_iff. Qed.

(** [m_ll2string] writes the canonical decimal string of any [long long],
    NUL-terminated, leaves the rest of the buffer alone and returns the length;
    when the buffer cannot hold the string and the NUL it returns 0 and writes
    nothing.  No access leaves the buffer. *)
Theorem m_ll2string_spec dst v :
  is_i64 v ->
  ∃ s, canonical s ∧ dec_value s = v ∧ (length s <= 20)%nat ∧
    m_ll2string dst v = Some
      (if decide (length s < length dst)%nat
       then (Z.of_nat (length s), s ++ x00 :: drop (S (length s)) dst)
       else (0, dst)).
Proof. apply m_ll2string_writes. Qed.

(** C28. Round trip: the text [m_ll2string] puts in a [REDIS_LONGSTR_SIZE]
    buffer, the way TTLs travel in SLOTSRESTORE, parses back to the number. *)
Theorem m_ll2string_string2ll dst v :
  is_i64 v -> (42 <= length dst)%nat ->
  ∃ n dst', m_ll2string dst v = Some (Z.of_nat n, dst') ∧
            m_string2ll (take n dst') = Some v.
Proof.
  intros Hv Hl. destruct (m_ll2string_writes dst v Hv) as (s & Hc & Hval & Hlen & ->).
  rewrite decide_True by lia. eexists _, _. split; [done|].
  rewrite take_app_length. by apply m_string2ll_iff.
Qed.

(** The strictness the comment of [m_string2ll] promises: a string is
    recovered from the number it parses to, so two different strings never
    parse to the same number. *)
Theorem m_string2ll_inj s1 s2 v :
  m_string2ll s1 = Some v -> m_string2ll s2 = Some v -> s1 = s2.
Proof.
  intros (H1 & E1 & _)%m_string2ll_iff (H2 & E2 & _)%m_string2ll_iff.
  apply canonical_unique; congruence.
Qed.

(** [m_string2l] agrees with [m_string2ll] where [long] has 64 bits. *)
Lemma m_string2l_spec s : m_string2l s = m_string2ll s.
Proof.
  unfold m_string2l. destruct (m_string2ll s) as [v|] eqn:E; simpl; [|done].
  apply m_string2ll_iff in E as (_ & _ & Hv). unfold is_i64, LONG_MAX in *.
  destruct (Z.ltb_spec v (- 2 ^ 63)), (Z.ltb_spec (2 ^ 63 - 1) v); simpl; done || lia.
Qed.

(** ** Witnesses *)
Lemma m_ll2string_spec_witness :
  ∃ s, canonical s ∧ dec_value s = -1203 ∧ (length s <= 20)%nat ∧
    m_ll2string (replicate 8 x00) (-1203) = Some
      (if decide (length s < length (replicate 8 x00))%nat
       then (Z.of_nat (length s), s ++ x00 :: drop (S (length s)) (replicate 8 x00))
       else (0, replicate 8 x00)).
Proof. apply m_ll2string_spec. unfold is_i64. lia. Defined.

Lemma m_ll2string_string2ll_witness :
  ∃ n dst', m_ll2string (replicate 42 x00) LLONG_MIN = Some (Z.of_nat n, dst') ∧
            m_string2ll (take n dst') = Some LLONG_MIN.
Proof. apply m_ll2string_string2ll; [unfold is_i64, LLONG_MIN; lia|vm_compute; lia]. Defined.

Lemma m_string2ll_inj_witness : bytes_of "-42" = bytes_of "-42".
Proof. apply (m_string2ll_inj _ _ (-42)); vm_compute; reflexivity. Defined.
