(* ===== verification/SipHash.v ===== *)
(** * SipHash: the hash of dep/siphash.c

    [siphash] and [siphash_nocase], SipHash 1-2 on 64-bit words, with the
    little-endian loads and stores written as the portable macros write them.
    The hash table takes its buckets from [siphash] through
    [m_dictGenHashFunction]. *)

From S2P Require Import Prelude.
Local Open Scope Z_scope.

(** [siptlw]: A-Z to a-z. *)
Definition siptlw (c : Z) : Z :=
  if (65 <=? c) && (c <=? 90) then c + (97 - 65) else c.

Definition ROTL (x b : Z) : Z := Z.lor (u64 (Z.shiftl x b)) (Z.shiftr x (64 - b)).

(** The four words of the state. *)
Record sip := { v0 : Z; v1 : Z; v2 : Z; v3 : Z }.

(** [SIPROUND], statement by statement. *)
Definition SIPROUND (s : sip) : sip :=
  let '{| v0 := v0; v1 := v1; v2 := v2; v3 := v3 |} := s in
  let v0 := u64 (v0 + v1) in
  let v1 := ROTL v1 13 in
  let v1 := Z.lxor v1 v0 in
  let v0 := ROTL v0 32 in
  let v2 := u64 (v2 + v3) in
  let v3 := ROTL v3 16 in
  let v3 := Z.lxor v3 v2 in
  let v0 := u64 (v0 + v3) in
  let v3 := ROTL v3 21 in
  let v3 := Z.lxor v3 v0 in
  let v2 := u64 (v2 + v1) in
  let v1 := ROTL v1 17 in
  let v1 := Z.lxor v1 v2 in
  let v2 := ROTL v2 32 in
  {| v0 := v0; v1 := v1; v2 := v2; v3 := v3 |}.

(** [U8TO64_LE]: the portable form, bytes shifted into place and or-ed. *)
Definition U8TO64_LE (p0 p1 p2 p3 p4 p5 p6 p7 : Z) : Z :=
  Z.lor p0 (Z.lor (Z.shiftl p1 8) (Z.lor (Z.shiftl p2 16) (Z.lor (Z.shiftl p3 24)
  (Z.lor (Z.shiftl p4 32) (Z.lor (Z.shiftl p5 40) (Z.lor (Z.shiftl p6 48)
  (Z.shiftl p7 56))))))).

(** [U8TO64_LE_NOCASE]. *)
Definition U8TO64_LE_NOCASE (p0 p1 p2 p3 p4 p5 p6 p7 : Z) : Z :=
  U8TO64_LE (siptlw p0) (siptlw p1) (siptlw p2) (siptlw p3)
            (siptlw p4) (siptlw p5) (siptlw p6) (siptlw p7).

(** [U64TO8_LE(p, v)]: the eight bytes stored. *)
Definition U64TO8_LE (v : Z) : list Z :=
  [u8 v; u8 (Z.shiftr v 8); u8 (Z.shiftr v 16); u8 (Z.shiftr v 24);
   u8 (Z.shiftr v 32); u8 (Z.shiftr v 40); u8 (Z.shiftr v 48); u8 (Z.shiftr v 56)].

(** The body of the two functions' [for] loop. *)
Definition sip_block (m : Z) (s : sip) : sip :=
  let s := {| v0 := v0 s; v1 := v1 s; v2 := v2 s; v3 := Z.lxor (v3 s) m |} in
  let s := SIPROUND s in
  {| v0 := Z.lxor (v0 s) m; v1 := v1 s; v2 := v2 s; v3 := v3 s |}.

(** [for (; in != end; in += 8)]: all whole blocks; returns the state and the
    [inlen & 7] bytes [in] is left pointing at. *)
Fixpoint sip_loop (load : Z -> Z -> Z -> Z -> Z -> Z -> Z -> Z -> Z)
    (inp : list Z) (s : sip) : sip * list Z :=
  match inp with
  | p0 :: p1 :: p2 :: p3 :: p4 :: p5 :: p6 :: p7 :: inp' =>
    sip_loop load inp' (sip_block (load p0 p1 p2 p3 p4 p5 p6 p7) s)
  | _ => (s, inp)
  end.

(** [switch (left)] with its fall-through: from the last of the [left] bytes
    down to the first, byte [j] is or-ed in at bit [8 * j]. *)
Fixpoint sip_tail (j : Z) (inp : list Z) (b : Z) : Z :=
  match inp with
  | [] => b
  | x :: inp => Z.lor (sip_tail (j + 1) inp b) (u64 (Z.shiftl x (8 * j)))
  end.

Definition load_key (k : list byte) : option (Z * Z) :=
  match map bval k with
  | [b0; b1; b2; b3; b4; b5; b6; b7; c0; c1; c2; c3; c4; c5; c6; c7] =>
    Some (U8TO64_LE b0 b1 b2 b3 b4 b5 b6 b7, U8TO64_LE c0 c1 c2 c3 c4 c5 c6 c7)
  | _ => None
  end.

Definition sip_init (k0 k1 : Z) : sip :=
  {| v0 := Z.lxor 0x736f6d6570736575 k0; v1 := Z.lxor 0x646f72616e646f6d k1;
     v2 := Z.lxor 0x6c7967656e657261 k0; v3 := Z.lxor 0x7465646279746573 k1 |}.

(** After the loop: the last block, and the two final rounds. *)
Definition sip_finish (b : Z) (s : sip) : Z :=
  let s := sip_block b s in
  let s := {| v0 := v0 s; v1 := v1 s; v2 := Z.lxor (v2 s) 255; v3 := v3 s |} in
  let s := SIPROUND (SIPROUND s) in
  Z.lxor (Z.lxor (Z.lxor (v0 s) (v1 s)) (v2 s)) (v3 s).

(** [None]: the key is not 16 bytes. *)
Definition siphash (inp k : list byte) : option Z :=
  '(k0, k1) ← load_key k;
  let b := u64 (Z.shiftl (Z.of_nat (length inp)) 56) in
  let '(s, rest) := sip_loop U8TO64_LE (map bval inp) (sip_init k0 k1) in
  Some (sip_finish (sip_tail 0 rest b) s).

Definition siphash_nocase (inp k : list byte) : option Z :=
  '(k0, k1) ← load_key k;
  let b := u64 (Z.shiftl (Z.of_nat (length inp)) 56) in
  let '(s, rest) := sip_loop U8TO64_LE_NOCASE (map bval inp) (sip_init k0 k1) in
  Some (sip_finish (sip_tail 0 (map siptlw rest) b) s).

(** The three checks of [siphash_test] on the case-insensitive variant. *)
Definition test_key : list byte := bytes_of "1234567812345678".
Example siphash_test_1 :
  siphash (bytes_of "hello world") test_key = siphash_nocase (bytes_of "hello world") test_key.
Proof. vm_compute. reflexivity. Qed.
Example siphash_test_2 :
  siphash (bytes_of "hello world") test_key = siphash_nocase (bytes_of "HELLO world") test_key.
Proof. vm_compute. reflexivity. Qed.
Example siphash_test_3 :
  siphash (bytes_of "HELLO world") test_key ≠ siphash_nocase (bytes_of "HELLO world") test_key.
Proof. vm_compute. congruence. Qed.

(** ** Lemmas: ranges *)
Definition sip_ok (s : sip) : Prop :=
  is_u64 (v0 s) ∧ is_u64 (v1 s) ∧ is_u64 (v2 s) ∧ is_u64 (v3 s).

Lemma ROTL_u64 x b : 0 <= b <= 64 -> is_u64 x -> is_u64 (ROTL x b).
Proof.
  intros Hb Hx. apply lor_bound; [lia|apply u64_range|]. by apply shiftr_bound; [lia|].
Qed.

Lemma lxor_u64 x y : is_u64 x -> is_u64 y -> is_u64 (Z.lxor x y).
Proof. intros. by apply lxor_bound. Qed.

Lemma is_u64_u64 x : is_u64 (u64 x).
Proof. apply u64_range. Qed.

#[local] Hint Resolve lxor_u64 is_u64_u64 : words.

Lemma SIPROUND_ok s : sip_ok s -> sip_ok (SIPROUND s).
Proof.
  destruct s as [w0 w1 w2 w3]. intros (H0 & H1 & H2 & H3). simpl in *.
  unfold SIPROUND, sip_ok. cbn [v0 v1 v2 v3].
  split_and!; repeat (apply lxor_u64 || apply ROTL_u64 || apply is_u64_u64 || lia || assumption).
Qed.

Lemma sip_block_ok m s : is_u64 m -> sip_ok s -> sip_ok (sip_block m s).
Proof.
  intros Hm (H0 & H1 & H2 & H3). unfold sip_block.
  match goal with |- context [SIPROUND ?s'] =>
    assert (sip_ok (SIPROUND s')) as (K0 & K1 & K2 & K3)
      by (apply SIPROUND_ok; unfold sip_ok; cbn; auto with words) end.
  unfold sip_ok. cbn [v0 v1 v2 v3]. auto with words.
Qed.

Definition is_u8 (x : Z) : Prop := 0 <= x < 2 ^ 8.

Lemma shiftl_u8 p n : is_u8 p -> 0 <= n <= 56 -> is_u64 (Z.shiftl p n).
Proof.
  unfold is_u8, is_u64. intros Hp Hn. rewrite Z.shiftl_mul_pow2 by lia.
  assert (0 < 2 ^ n <= 2 ^ 56) by (split; [lia|apply Z.pow_le_mono_r; lia]).
  change (2 ^ 64) with (2 ^ 8 * 2 ^ 56). nia.
Qed.

Lemma U8TO64_LE_u64 p0 p1 p2 p3 p4 p5 p6 p7 :
  Forall is_u8 [p0; p1; p2; p3; p4; p5; p6; p7] ->
  is_u64 (U8TO64_LE p0 p1 p2 p3 p4 p5 p6 p7).
Proof.
  intros H. repeat (apply Forall_cons in H as [? H]). unfold U8TO64_LE, is_u64.
  unfold is_u8 in *.
  repeat (apply lor_bound; [lia| |]); try (apply shiftl_u8; done || lia). lia.
Qed.

Lemma siptlw_u8 c : is_u8 c -> is_u8 (siptlw c).
Proof. unfold is_u8, siptlw. destruct (Z.leb_spec 65 c), (Z.leb_spec c 90); simpl; lia. Qed.

(** What both loads promise to [sip_loop]. *)
Definition load_ok (load : Z -> Z -> Z -> Z -> Z -> Z -> Z -> Z -> Z) : Prop :=
  ∀ p0 p1 p2 p3 p4 p5 p6 p7, Forall is_u8 [p0; p1; p2; p3; p4; p5; p6; p7] ->
    is_u64 (load p0 p1 p2 p3 p4 p5 p6 p7).

(** Induction over the blocks of the input. *)
Lemma blocks_ind (P : list Z -> Prop) :
  (∀ l, (length l < 8)%nat -> P l) ->
  (∀ p0 p1 p2 p3 p4 p5 p6 p7 l, P l -> P (p0 :: p1 :: p2 :: p3 :: p4 :: p5 :: p6 :: p7 :: l)) ->
  ∀ l, P l.
Proof.
  intros Hs Hb l. induction l as [l IH] using (induction_ltof1 _ (@length Z)).
  unfold ltof in IH.
  do 8 (destruct l as [|? l]; [apply Hs; simpl; lia|]).
  apply Hb, IH. simpl. lia.
Qed.

Lemma sip_loop_short load l s : (length l < 8)%nat -> sip_loop load l s = (s, l).
Proof. intros Hl. do 8 (destruct l as [|? l]; [done|]). simpl in Hl. lia. Qed.

Lemma sip_loop_ok load inp : load_ok load -> Forall is_u8 inp ->
  ∀ s, sip_ok s ->
    sip_ok (sip_loop load inp s).1 ∧ Forall is_u8 (sip_loop load inp s).2 ∧
    (length (sip_loop load inp s).2 < 8)%nat.
Proof.
  intros Hload. induction inp as [l Hl|p0 p1 p2 p3 p4 p5 p6 p7 l IH] using blocks_ind;
    intros Hin s Hs.
  - by rewrite sip_loop_short.
  - cbn [sip_loop]. do 8 apply Forall_cons in Hin as [? Hin].
    apply IH; [done|]. apply sip_block_ok; [|done]. apply Hload. by repeat apply Forall_cons_2.
Qed.

Lemma sip_tail_u64 inp : Forall is_u8 inp -> ∀ j b, is_u64 b -> is_u64 (sip_tail j inp b).
Proof.
  induction 1 as [|x inp Hx Hi IH]; intros j b Hb; simpl; [done|].
  apply lor_bound; [lia|by apply IH|apply u64_range].
Qed.

Lemma sip_finish_u64 b s : is_u64 b -> sip_ok s -> is_u64 (sip_finish b s).
Proof.
  intros Hb Hs. unfold sip_finish.
  pose proof (sip_block_ok b s Hb Hs) as (H0 & H1 & H2 & H3).
  match goal with |- context [SIPROUND (SIPROUND ?s')] =>
    assert (sip_ok (SIPROUND (SIPROUND s'))) as (K0 & K1 & K2 & K3) end.
  { do 2 apply SIPROUND_ok. unfold sip_ok. cbn [v0 v1 v2 v3]. split_and!; [done..| |done].
    apply lxor_u64; [done|]. word_lia. }
  auto with words.
Qed.

Lemma bval_is_u8 l : Forall is_u8 (map bval l).
Proof. induction l; simpl; constructor; [apply bval_range|done]. Qed.

Lemma load_key_ok k k0 k1 : load_key k = Some (k0, k1) -> is_u64 k0 ∧ is_u64 k1.
Proof.
  unfold load_key. generalize (bval_is_u8 k). generalize (map bval k). intros l Hl E.
  do 16 (destruct l as [|? l]; [done|]). destruct l; [|done]. simplify_eq.
  do 16 apply Forall_cons in Hl as [? Hl].
  split; apply U8TO64_LE_u64; by repeat apply Forall_cons_2.
Qed.

Lemma sip_init_ok k0 k1 : is_u64 k0 -> is_u64 k1 -> sip_ok (sip_init k0 k1).
Proof. intros. unfold sip_ok. cbn. split_and!; apply lxor_u64; done. Qed.

(** ** Lemmas: letter case *)

(** [siptlw] on a byte, the byte a key holds. *)
Definition byte_lower (b : byte) : byte := default b (Byte.of_N (Z.to_N (siptlw (bval b)))).

Lemma bval_byte_lower b : bval (byte_lower b) = siptlw (bval b).
Proof. by destruct b. Qed.

Lemma map_byte_lower l : map bval (map byte_lower l) = map siptlw (map bval l).
Proof. rewrite !map_map. apply map_ext, bval_byte_lower. Qed.

Lemma sip_loop_nocase inp s :
  sip_loop U8TO64_LE (map siptlw inp) s =
  prod_map id (map siptlw) (sip_loop U8TO64_LE_NOCASE inp s).
Proof.
  revert s. induction inp as [l Hl|p0 p1 p2 p3 p4 p5 p6 p7 l IH] using blocks_ind; intros s.
  - rewrite !sip_loop_short by (rewrite ?length_map; done). done.
  - cbn [map sip_loop]. by rewrite IH.
Qed.

(** ** Lemmas: byte order *)

(** The value of eight bytes in little-endian memory, which is what the
    unaligned 64-bit load of an x86 build reads. *)
Definition le64 (p : list Z) : Z := foldr (λ x acc, x + 256 * acc) 0 p.

Lemma lor_shiftl_add a b n : 0 <= n -> 0 <= a < 2 ^ n -> Z.lor a (Z.shiftl b n) = a + b * 2 ^ n.
Proof.
  intros Hn Ha. rewrite <- Z.shiftl_mul_pow2 by done. symmetry. apply Z.add_nocarry_lor.
  apply Z.bits_inj'. intros i Hi. rewrite Z.land_spec, Z.bits_0.
  destruct (decide (i < n)).
  - rewrite (Z.shiftl_spec_low b) by done. by rewrite andb_false_r.
  - by rewrite (testbit_above a n) by lia.
Qed.

Lemma lor_shiftl_horner p q n m :
  0 <= n -> m = n + 8 -> is_u8 p ->
  Z.lor (Z.shiftl p n) (Z.shiftl q m) = Z.shiftl (p + 256 * q) n.
Proof.
  intros Hn -> Hp. rewrite (Z.add_comm n 8), <- Z.shiftl_shiftl by lia.
  rewrite <- Z.shiftl_lor. f_equal. rewrite lor_shiftl_add; [lia|lia|done].
Qed.

(** The portable load reads the little-endian value. *)
Lemma U8TO64_LE_horner p0 p1 p2 p3 p4 p5 p6 p7 :
  Forall is_u8 [p0; p1; p2; p3; p4; p5; p6; p7] ->
  U8TO64_LE p0 p1 p2 p3 p4 p5 p6 p7 = le64 [p0; p1; p2; p3; p4; p5; p6; p7].
Proof.
  intros H. repeat (apply Forall_cons in H as [? H]). unfold U8TO64_LE, le64. cbn [foldr].
  rewrite (lor_shiftl_horner p6 p7 48 56), (lor_shiftl_horner p5 _ 40 48),
    (lor_shiftl_horner p4 _ 32 40), (lor_shiftl_horner p3 _ 24 32),
    (lor_shiftl_horner p2 _ 16 24), (lor_shiftl_horner p1 _ 8 16) by (lia || done).
  rewrite lor_shiftl_add; [lia|lia|done].
Qed.

Lemma U64TO8_LE_bytes v : Forall is_u8 (U64TO8_LE v).
Proof. unfold U64TO8_LE, u8. repeat apply Forall_cons_2; try apply Forall_nil_2;
  apply Z.mod_pos_bound; lia. Qed.

(** ** Properties *)

Lemma siphash_is_u64 inp k h : siphash inp k = Some h -> is_u64 h.
Proof.
  unfold siphash. destruct (load_key k) as [[k0 k1]|] eqn:Ek; [|done]. cbn [mbind option_bind].
  apply load_key_ok in Ek as [H0 H1].
  pose proof (sip_loop_ok U8TO64_LE (map bval inp) U8TO64_LE_u64 (bval_is_u8 inp)
    (sip_init k0 k1) (sip_init_ok k0 k1 H0 H1)) as (Hs & Hr & _).
  destruct (sip_loop _ _ _) as [s rest]. intros [= <-].
  apply sip_finish_u64; [|done]. by apply sip_tail_u64; [|apply u64_range].
Qed.

(** Every hash is a [uint64_t]. *)
Theorem siphash_u64 inp k h : siphash inp k = Some h -> is_u64 h.
Proof. apply siphash_is_u64. Qed.

(** [siphash_nocase] is [siphash] of the input with the letters A-Z in
    lower case, so two inputs that differ in case only have the same hash. *)
Theorem siphash_nocase_lower inp k :
  siphash_nocase inp k = siphash (map byte_lower inp) k.
Proof.
  unfold siphash, siphash_nocase. destruct (load_key k) as [[k0 k1]|]; [|done].
  cbn [mbind option_bind]. rewrite length_map, map_byte_lower, sip_loop_nocase.
  by destruct (sip_loop U8TO64_LE_NOCASE _ _) as [s rest].
Qed.

(** The portable loads and stores compute what the unaligned ones of an
    x86 build compute: [U8TO64_LE] reads eight bytes as a little-endian word,
    and [U64TO8_LE] stores the bytes that read back as the word. *)
Theorem U64TO8_LE_load v :
  is_u64 v ->
  le64 (U64TO8_LE v) = v ∧
  ∃ p0 p1 p2 p3 p4 p5 p6 p7,
    U64TO8_LE v = [p0; p1; p2; p3; p4; p5; p6; p7] ∧ U8TO64_LE p0 p1 p2 p3 p4 p5 p6 p7 = v.
Proof.
  intros Hv. assert (le64 (U64TO8_LE v) = v) as Hle.
  { unfold le64, U64TO8_LE, u8, is_u64 in *. cbn [foldr].
    rewrite !Z.shiftr_div_pow2 by lia. Z.to_euclidean_division_equations. lia. }
  split; [done|]. do 8 eexists. split; [done|].
  rewrite U8TO64_LE_horner; [exact Hle|]. exact (U64TO8_LE_bytes v).
Qed.

(** ** Witnesses *)
Lemma siphash_u64_witness : ∃ h, siphash (bytes_of "foo") test_key = Some h ∧ is_u64 h.
Proof.
  eexists. split; [vm_compute; reflexivity|].
  apply (siphash_u64 (bytes_of "foo") test_key). vm_compute. reflexivity.
Defined.

Lemma U64TO8_LE_load_witness : le64 (U64TO8_LE 0x736f6d6570736575) = 0x736f6d6570736575.
Proof. apply (U64TO8_LE_load 0x736f6d6570736575). unfold is_u64. lia. Defined.
