(* ===== verification/SipHashTest.v ===== *)
(** * SipHashTest: the test program of dep/siphash.c

    [siphash_test] compares the hash with the vectors of SipHash-2-4 although the
    function has 1 and 2 rounds; its comment says so.  With the numbers of rounds
    as a parameter the code passes them all at 2 and 4: it is SipHash. *)

From S2P Require Import Prelude.
From S2P Require Import SipHash.
Local Open Scope Z_scope.

(** ** The hash with any number of rounds *)
Fixpoint sip_rounds (n : nat) (s : sip) : sip := match n with O => s | S n => sip_rounds n (SIPROUND s) end.

Definition sip_block_rounds (c : nat) (m : Z) (s : sip) : sip :=
  let s := {| v0 := v0 s; v1 := v1 s; v2 := v2 s; v3 := Z.lxor (v3 s) m |} in
  let s := sip_rounds c s in
  {| v0 := Z.lxor (v0 s) m; v1 := v1 s; v2 := v2 s; v3 := v3 s |}.

Fixpoint sip_loop_rounds (c : nat) (load : Z -> Z -> Z -> Z -> Z -> Z -> Z -> Z -> Z) (inp : list Z) (s : sip) :
    sip * list Z :=
  match inp with
  | p0 :: p1 :: p2 :: p3 :: p4 :: p5 :: p6 :: p7 :: inp' =>
    sip_loop_rounds c load inp' (sip_block_rounds c (load p0 p1 p2 p3 p4 p5 p6 p7) s)
  | _ => (s, inp)
  end.

Definition sip_finish_rounds (c d : nat) (b : Z) (s : sip) : Z :=
  let s := sip_block_rounds c b s in
  let s := sip_rounds d {| v0 := v0 s; v1 := v1 s; v2 := Z.lxor (v2 s) 255; v3 := v3 s |} in
  Z.lxor (Z.lxor (Z.lxor (v0 s) (v1 s)) (v2 s)) (v3 s).

(** SipHash-c-d, with the case of the letters or without. *)
Definition siphash_rounds (c d : nat) (nocase : bool) (inp k : list byte) : option Z :=
  '(k0, k1) ← load_key k;
  let b := u64 (Z.shiftl (Z.of_nat (length inp)) 56) in
  let '(s, rest) := sip_loop_rounds c (if nocase then U8TO64_LE_NOCASE else U8TO64_LE) (map bval inp) (sip_init k0 k1) in
  Some (sip_finish_rounds c d (sip_tail 0 (if nocase then map siptlw rest else rest) b) s).

Lemma sip_loop_one load inp s : sip_loop_rounds 1 load inp s = sip_loop load inp s.
Proof.
  remember (length inp) as n eqn:Hn. revert inp s Hn. induction (lt_wf n) as [n _ IH]. intros inp s ->.
  do 8 (destruct inp as [|? inp]; [done|]). cbn [sip_loop_rounds sip_loop]. apply (IH (length inp)); [cbn; lia|done].
Qed.

Lemma sip_finish_one b s : sip_finish b s = sip_finish_rounds 1 2 b s.
Proof. unfold sip_finish_rounds, sip_block_rounds. cbn [sip_rounds]. unfold sip_finish, sip_block. reflexivity. Qed.

(** The functions of the source are SipHash-1-2. *)
Lemma siphash_one_two inp k :
  siphash inp k = siphash_rounds 1 2 false inp k ∧ siphash_nocase inp k = siphash_rounds 1 2 true inp k.
Proof.
  unfold siphash, siphash_nocase, siphash_rounds. destruct (load_key k) as [[k0 k1]|]; [|done]. cbn [mbind option_bind].
  rewrite !sip_loop_one. split.
  - destruct (sip_loop U8TO64_LE _ _) as [s rest]. rewrite sip_finish_one. reflexivity.
  - destruct (sip_loop U8TO64_LE_NOCASE _ _) as [s rest]. rewrite sip_finish_one. reflexivity.
Qed.

(** ** The vectors *)
Definition vectors_sip64 : list (list Z) :=
  [[0x31; 0x0e; 0x0e; 0xdd; 0x47; 0xdb; 0x6f; 0x72]; [0xfd; 0x67; 0xdc; 0x93; 0xc5; 0x39; 0xf8; 0x74];
   [0x5a; 0x4f; 0xa9; 0xd9; 0x09; 0x80; 0x6c; 0x0d]; [0x2d; 0x7e; 0xfb; 0xd7; 0x96; 0x66; 0x67; 0x85];
   [0xb7; 0x87; 0x71; 0x27; 0xe0; 0x94; 0x27; 0xcf]; [0x8d; 0xa6; 0x99; 0xcd; 0x64; 0x55; 0x76; 0x18];
   [0xce; 0xe3; 0xfe; 0x58; 0x6e; 0x46; 0xc9; 0xcb]; [0x37; 0xd1; 0x01; 0x8b; 0xf5; 0x00; 0x02; 0xab];
   [0x62; 0x24; 0x93; 0x9a; 0x79; 0xf5; 0xf5; 0x93]; [0xb0; 0xe4; 0xa9; 0x0b; 0xdf; 0x82; 0x00; 0x9e];
   [0xf3; 0xb9; 0xdd; 0x94; 0xc5; 0xbb; 0x5d; 0x7a]; [0xa7; 0xad; 0x6b; 0x22; 0x46; 0x2f; 0xb3; 0xf4];
   [0xfb; 0xe5; 0x0e; 0x86; 0xbc; 0x8f; 0x1e; 0x75]; [0x90; 0x3d; 0x84; 0xc0; 0x27; 0x56; 0xea; 0x14];
   [0xee; 0xf2; 0x7a; 0x8e; 0x90; 0xca; 0x23; 0xf7]; [0xe5; 0x45; 0xbe; 0x49; 0x61; 0xca; 0x29; 0xa1];
   [0xdb; 0x9b; 0xc2; 0x57; 0x7f; 0xcc; 0x2a; 0x3f]; [0x94; 0x47; 0xbe; 0x2c; 0xf5; 0xe9; 0x9a; 0x69];
   [0x9c; 0xd3; 0x8d; 0x96; 0xf0; 0xb3; 0xc1; 0x4b]; [0xbd; 0x61; 0x79; 0xa7; 0x1d; 0xc9; 0x6d; 0xbb];
   [0x98; 0xee; 0xa2; 0x1a; 0xf2; 0x5c; 0xd6; 0xbe]; [0xc7; 0x67; 0x3b; 0x2e; 0xb0; 0xcb; 0xf2; 0xd0];
   [0x88; 0x3e; 0xa3; 0xe3; 0x95; 0x67; 0x53; 0x93]; [0xc8; 0xce; 0x5c; 0xcd; 0x8c; 0x03; 0x0c; 0xa8];
   [0x94; 0xaf; 0x49; 0xf6; 0xc6; 0x50; 0xad; 0xb8]; [0xea; 0xb8; 0x85; 0x8a; 0xde; 0x92; 0xe1; 0xbc];
   [0xf3; 0x15; 0xbb; 0x5b; 0xb8; 0x35; 0xd8; 0x17]; [0xad; 0xcf; 0x6b; 0x07; 0x63; 0x61; 0x2e; 0x2f];
   [0xa5; 0xc9; 0x1d; 0xa7; 0xac; 0xaa; 0x4d; 0xde]; [0x71; 0x65; 0x95; 0x87; 0x66; 0x50; 0xa2; 0xa6];
   [0x28; 0xef; 0x49; 0x5c; 0x53; 0xa3; 0x87; 0xad]; [0x42; 0xc3; 0x41; 0xd8; 0xfa; 0x92; 0xd8; 0x32];
   [0xce; 0x7c; 0xf2; 0x72; 0x2f; 0x51; 0x27; 0x71]; [0xe3; 0x78; 0x59; 0xf9; 0x46; 0x23; 0xf3; 0xa7];
   [0x38; 0x12; 0x05; 0xbb; 0x1a; 0xb0; 0xe0; 0x12]; [0xae; 0x97; 0xa1; 0x0f; 0xd4; 0x34; 0xe0; 0x15];
   [0xb4; 0xa3; 0x15; 0x08; 0xbe; 0xff; 0x4d; 0x31]; [0x81; 0x39; 0x62; 0x29; 0xf0; 0x90; 0x79; 0x02];
   [0x4d; 0x0c; 0xf4; 0x9e; 0xe5; 0xd4; 0xdc; 0xca]; [0x5c; 0x73; 0x33; 0x6a; 0x76; 0xd8; 0xbf; 0x9a];
   [0xd0; 0xa7; 0x04; 0x53; 0x6b; 0xa9; 0x3e; 0x0e]; [0x92; 0x59; 0x58; 0xfc; 0xd6; 0x42; 0x0c; 0xad];
   [0xa9; 0x15; 0xc2; 0x9b; 0xc8; 0x06; 0x73; 0x18]; [0x95; 0x2b; 0x79; 0xf3; 0xbc; 0x0a; 0xa6; 0xd4];
   [0xf2; 0x1d; 0xf2; 0xe4; 0x1d; 0x45; 0x35; 0xf9]; [0x87; 0x57; 0x75; 0x19; 0x04; 0x8f; 0x53; 0xa9];
   [0x10; 0xa5; 0x6c; 0xf5; 0xdf; 0xcd; 0x9a; 0xdb]; [0xeb; 0x75; 0x09; 0x5c; 0xcd; 0x98; 0x6c; 0xd0];
   [0x51; 0xa9; 0xcb; 0x9e; 0xcb; 0xa3; 0x12; 0xe6]; [0x96; 0xaf; 0xad; 0xfc; 0x2c; 0xe6; 0x66; 0xc7];
   [0x72; 0xfe; 0x52; 0x97; 0x5a; 0x43; 0x64; 0xee]; [0x5a; 0x16; 0x45; 0xb2; 0x76; 0xd5; 0x92; 0xa1];
   [0xb2; 0x74; 0xcb; 0x8e; 0xbf; 0x87; 0x87; 0x0a]; [0x6f; 0x9b; 0xb4; 0x20; 0x3d; 0xe7; 0xb3; 0x81];
   [0xea; 0xec; 0xb2; 0xa3; 0x0b; 0x22; 0xa8; 0x7f]; [0x99; 0x24; 0xa4; 0x3c; 0xc1; 0x31; 0x57; 0x24];
   [0xbd; 0x83; 0x8d; 0x3a; 0xaf; 0xbf; 0x8d; 0xb7]; [0x0b; 0x1a; 0x2a; 0x32; 0x65; 0xd5; 0x1a; 0xea];
   [0x13; 0x50; 0x79; 0xa3; 0x23; 0x1c; 0xe6; 0x60]; [0x93; 0x2b; 0x28; 0x46; 0xe4; 0xd7; 0x06; 0x66];
   [0xe1; 0x91; 0x5f; 0x5c; 0xb1; 0xec; 0xa4; 0x6c]; [0xf3; 0x25; 0x96; 0x5c; 0xa1; 0x6d; 0x62; 0x9f];
   [0x57; 0x5f; 0xf2; 0x8e; 0x60; 0x38; 0x1b; 0xe5]; [0x72; 0x45; 0x06; 0xeb; 0x4c; 0x32; 0x8a; 0x95]].

(** ** The test *)

(** The keys and inputs that count from 0. *)
Definition counting (n : nat) : list byte := (λ i, default x00 (Byte.of_N (N.of_nat i))) <$> seq 0 n.

(** The loop over the vectors: the failures. *)
Definition vector_fails (hash : list byte -> list byte -> option Z) : option nat :=
  hashes ← mapM (λ i, hash (counting i) (counting 16)) (seq 0 64);
  Some (length (filter (λ x, U64TO8_LE x.1 ≠ x.2) (zip hashes vectors_sip64))).

(** A case-insensitive test: whether the two hashes are the same. *)
Definition same_hash (hash hash_nocase : list byte -> list byte -> option Z) (a b : string) : option bool :=
  h1 ← hash (bytes_of a) test_key;
  h2 ← hash_nocase (bytes_of b) test_key;
  Some (bool_decide (h1 = h2)).

Definition siphash_test (hash hash_nocase : list byte -> list byte -> option Z) : option Z :=
  fails ← vector_fails hash;
  s1 ← same_hash hash hash_nocase "hello world" "hello world";
  s2 ← same_hash hash hash_nocase "hello world" "HELLO world";
  s3 ← same_hash hash hash_nocase "HELLO world" "HELLO world";
  let fails := (fails + (if s1 : bool then 0 else 1) + (if s2 : bool then 0 else 1) + (if s3 : bool then 1 else 0))%nat in
  Some (if decide (fails = 0%nat) then 0 else 1).

(** C33. [siphash] and [siphash_nocase] are SipHash-1-2; the same code with 2 and
    4 rounds gives the 64 reference vectors of SipHash-2-4 and passes the
    program's test, which the functions as they are fail. *)
Theorem siphash_reference :
  (∀ inp k, siphash inp k = siphash_rounds 1 2 false inp k ∧ siphash_nocase inp k = siphash_rounds 1 2 true inp k) ∧
  vector_fails (siphash_rounds 2 4 false) = Some 0%nat ∧
  siphash_test (siphash_rounds 2 4 false) (siphash_rounds 2 4 true) = Some 0 ∧
  siphash_test siphash siphash_nocase = Some 1.
Proof. split; [apply siphash_one_two|]. by vm_compute. Qed.
