(* ===== verification/Dict.v ===== *)
(** * Dict: the chained hash table of dep/dict.c

    The data of dep/dict.h and every operation of the table but the iterators:
    creation, incremental rehashing, insertion, replacement, deletion, lookup,
    clearing, random sampling.  A chain is the list of its entries, a table the
    list of its chains, [NULL] the empty list.  [None] is undefined behaviour:
    an index outside a table, a failed [assert], an allocation whose size wraps.
    A destructor call is an event in the list an operation returns.

    The [privdata] a dict passes to the functions of its type never changes,
    so those functions are taken applied to it. *)

From S2P Require Import Prelude.
From S2P Require Import SipHash.
Local Open Scope Z_scope.

Definition DICT_HT_INITIAL_SIZE : Z := 4.
Definition dict_force_resize_ratio : Z := 5.

Inductive dict_status := DICT_OK | DICT_ERR.

#[export] Instance dict_status_eq_dec : EqDecision dict_status.
Proof. solve_decision. Defined.

(** [seed] is the static [dict_hash_function_seed]. *)
Definition m_dictGenHashFunction (seed key : list byte) : option Z := siphash key seed.
Definition m_dictGenCaseHashFunction (seed buf : list byte) : option Z :=
  siphash_nocase buf seed.

(** A value field is [None] between [m_dictAddRaw] and the caller's store. *)
Record m_dictEntry (K V : Type) := Entry { de_key : K; de_val : option V }.
Arguments Entry {K V} _ _.
Arguments de_key {K V} _.
Arguments de_val {K V} _.

Record m_dictType (K V : Type) := DictType {
  hashFunction : K -> Z;
  keyDup : option (K -> K);
  valDup : option (V -> V);
  keyCompare : option (K -> K -> bool);
  keyDestructor : bool; (* not NULL *)
  valDestructor : bool  (* not NULL *)
}.
Arguments DictType {K V} _ _ _ _ _ _.
Arguments hashFunction {K V} _ _.
Arguments keyDup {K V} _.
Arguments valDup {K V} _.
Arguments keyCompare {K V} _.
Arguments keyDestructor {K V} _.
Arguments valDestructor {K V} _.

Record dictht (K V : Type) := DictHt {
  ht_table : list (list (m_dictEntry K V));
  ht_size : Z;
  ht_sizemask : Z;
  ht_used : Z
}.
Arguments DictHt {K V} _ _ _ _.
Arguments ht_table {K V} _.
Arguments ht_size {K V} _.
Arguments ht_sizemask {K V} _.
Arguments ht_used {K V} _.

Record dict (K V : Type) := Dict {
  d_type : m_dictType K V;
  ht0 : dictht K V;
  ht1 : dictht K V;
  rehashidx : Z; (* -1: not rehashing *)
  iterators : Z
}.
Arguments Dict {K V} _ _ _ _ _.
Arguments d_type {K V} _.
Arguments ht0 {K V} _.
Arguments ht1 {K V} _.
Arguments rehashidx {K V} _.
Arguments iterators {K V} _.

(** What the callbacks of a dict are called with. *)
Inductive dict_event (K V : Type) :=
  | FreeKey (k : K)
  | FreeVal (v : option V)
  | Callback.
Arguments FreeKey {K V} _.
Arguments FreeVal {K V} _.
Arguments Callback {K V}.

(** An entry's place: the table, the bucket, the position in the chain. *)
Record entry_loc := Loc { loc_table : nat; loc_idx : Z; loc_pos : nat }.

Section dict.
Context {K V : Type} `{EqDecision K}.
Implicit Types (T : m_dictType K V) (d : dict K V) (ht : dictht K V) (e : m_dictEntry K V).

(** ** The macros of dict.h *)
Definition dictIsRehashing d : bool := bool_decide (rehashidx d ≠ -1).
Definition dictSize d : Z := u64 (ht_used (ht0 d) + ht_used (ht1 d)).
Definition dictSlots d : Z := u64 (ht_size (ht0 d) + ht_size (ht1 d)).

Definition dictFreeVal T e : list (dict_event K V) :=
  if valDestructor T then [FreeVal (de_val e)] else [].
Definition dictFreeKey T e : list (dict_event K V) :=
  if keyDestructor T then [FreeKey (de_key e)] else [].

(** The [key] that [dictSetKey] stores, the value that [dictSetVal] stores. *)
Definition dictSetKey T (k : K) : K :=
  match keyDup T with Some dup => dup k | None => k end.
Definition dictSetVal T (v : V) : V :=
  match valDup T with Some dup => dup v | None => v end.

Definition dictCompareKeys T (key1 key2 : K) : bool :=
  match keyCompare T with
  | Some cmp => cmp key1 key2
  | None => bool_decide (key1 = key2)
  end.

(** ** Table accesses *)

(** [ht->table[idx]]. *)
Definition bucket ht (idx : Z) : option (list (m_dictEntry K V)) :=
  if decide (0 <= idx) then ht_table ht !! Z.to_nat idx else None.

Definition set_bucket ht (idx : Z) (b : list (m_dictEntry K V)) : dictht K V :=
  DictHt (<[Z.to_nat idx := b]> (ht_table ht)) (ht_size ht) (ht_sizemask ht) (ht_used ht).

Definition set_used ht (used : Z) : dictht K V :=
  DictHt (ht_table ht) (ht_size ht) (ht_sizemask ht) used.

Definition ht_at d (table : nat) : dictht K V := match table with O => ht0 d | _ => ht1 d end.

Definition set_ht d (table : nat) ht : dict K V :=
  match table with
  | O => Dict (d_type d) ht (ht1 d) (rehashidx d) (iterators d)
  | _ => Dict (d_type d) (ht0 d) ht (rehashidx d) (iterators d)
  end.

(** ** Creation and resizing *)
Definition _dictReset : dictht K V := DictHt [] 0 0 0.

Definition _dictInit T : dict K V := Dict T _dictReset _dictReset (-1) 0.

Definition m_dictCreate T : dict K V := _dictInit T.

(** [while (1) { if (i >= size) return i; i *= 2; }]: sixty doublings of 4
    reach every [size] below [LONG_MAX]. *)
Fixpoint next_power_loop (fuel : nat) (i size : Z) : option Z :=
  if size <=? i then Some i
  else match fuel with
       | O => None
       | S fuel => next_power_loop fuel (u64 (i * 2)) size
       end.

Definition _dictNextPower (size : Z) : option Z :=
  if LONG_MAX <=? size then Some (2 ^ 63)
  else next_power_loop 61 DICT_HT_INITIAL_SIZE size.

(** [zcalloc(realsize * sizeof(m_dictEntry * ))]. *)
Definition alloc_table (realsize : Z) : option (list (list (m_dictEntry K V))) :=
  if realsize * 8 <? 2 ^ 64 then Some (replicate (Z.to_nat realsize) []) else None.

Definition m_dictExpand d (size : Z) : option (dict_status * dict K V) :=
  if dictIsRehashing d || (size <? ht_used (ht0 d)) then Some (DICT_ERR, d)
  else
    realsize ← _dictNextPower size;
    if decide (realsize = ht_size (ht0 d)) then Some (DICT_ERR, d)
    else
      table ← alloc_table realsize;
      let n := DictHt table realsize (realsize - 1) 0 in
      match ht_table (ht0 d) with
      | [] => Some (DICT_OK, Dict (d_type d) n (ht1 d) (rehashidx d) (iterators d))
      | _ => Some (DICT_OK, Dict (d_type d) (ht0 d) n 0 (iterators d))
      end.

Definition m_dictResize (dict_can_resize : bool) d : option (dict_status * dict K V) :=
  if negb dict_can_resize || dictIsRehashing d then Some (DICT_ERR, d)
  else
    let minimal := i32 (ht_used (ht0 d)) in
    let minimal := if minimal <? DICT_HT_INITIAL_SIZE then DICT_HT_INITIAL_SIZE else minimal in
    m_dictExpand d (u64 minimal).

(** ** Incremental rehashing *)

(** "Move all the keys in this bucket from the old to the new hash HT". *)
Fixpoint rehash_chain T (de : list (m_dictEntry K V)) (t0 t1 : dictht K V) :
    option (dictht K V * dictht K V) :=
  match de with
  | [] => Some (t0, t1)
  | e :: nextde =>
    let h := Z.land (hashFunction T (de_key e)) (ht_sizemask t1) in
    b ← bucket t1 h;
    let t1 := set_bucket t1 h (e :: b) in
    let t0 := set_used t0 (u64 (ht_used t0 - 1)) in
    let t1 := set_used t1 (u64 (ht_used t1 + 1)) in
    rehash_chain T nextde t0 t1
  end.

(** The loop over empty buckets: the index it stops at, and the chain there
    with the empty visits left, or [None] when they ran out ([return 1]). *)
Fixpoint rehash_skip (empty_visits : nat) (t0 : dictht K V) (idx : Z) :
    option (Z * option (nat * list (m_dictEntry K V))) :=
  b ← bucket t0 idx;
  match b with
  | [] =>
    match empty_visits with
    | O => None
    | S O => Some (idx + 1, None)
    | S ev => rehash_skip ev t0 (idx + 1)
    end
  | _ => Some (idx, Some (empty_visits, b))
  end.

(** [while (n-- && d->ht[0].used != 0)]: the dict, and whether the empty
    visits ran out. *)
Fixpoint rehash_loop (n empty_visits : nat) d : option (dict K V * bool) :=
  match n with
  | O => Some (d, false)
  | S n =>
    if decide (ht_used (ht0 d) = 0) then Some (d, false)
    else if negb (rehashidx d <? ht_size (ht0 d)) then None (* assert *)
    else
      '(idx, r) ← rehash_skip empty_visits (ht0 d) (rehashidx d);
      match r with
      | None => Some (Dict (d_type d) (ht0 d) (ht1 d) idx (iterators d), true)
      | Some (ev, de) =>
        '(t0, t1) ← rehash_chain (d_type d) de (ht0 d) (ht1 d);
        let t0 := set_bucket t0 idx [] in
        rehash_loop n ev (Dict (d_type d) t0 t1 (idx + 1) (iterators d))
      end
  end.

(** The C return value and the dict. *)
Definition m_dictRehash d (n : nat) : option (Z * dict K V) :=
  if negb (dictIsRehashing d) then Some (0, d)
  else
    '(d, out_of_visits) ← rehash_loop n (n * 10) d;
    if (out_of_visits : bool) then Some (1, d)
    else if decide (ht_used (ht0 d) = 0)
    then Some (0, Dict (d_type d) (ht1 d) _dictReset (-1) (iterators d))
    else Some (1, d).

(** [clock i] is the [i]-th reading of [timeInMilliseconds]. *)
Fixpoint rehash_ms_loop (fuel : nat) d (ms : Z) (start : Z) (clock : nat -> Z) (i : nat)
    (rehashes : Z) : option (Z * dict K V) :=
  match fuel with
  | O => None
  | S fuel =>
    '(more, d) ← m_dictRehash d 100;
    if decide (more = 0) then Some (rehashes, d)
    else
      let rehashes := i32 (rehashes + 100) in
      if ms <? clock i - start then Some (rehashes, d)
      else rehash_ms_loop fuel d ms start clock (S i) rehashes
  end.

(** Each call of [m_dictRehash] passes one bucket at least, so one more round
    than there are buckets is enough. *)
Definition m_dictRehashMilliseconds d (ms : Z) (clock : nat -> Z) : option (Z * dict K V) :=
  rehash_ms_loop (S (length (ht_table (ht0 d)))) d ms (clock 0%nat) clock 1 0.

Definition _dictRehashStep d : option (dict K V) :=
  if decide (iterators d = 0) then snd <$> m_dictRehash d 1 else Some d.

(** [if (dictIsRehashing(d)) _dictRehashStep(d);] *)
Definition rehash_step_if d : option (dict K V) :=
  if dictIsRehashing d then _dictRehashStep d else Some d.

(** ** Searching *)

(** [key == he->key || dictCompareKeys(d, key, he->key)]. *)
Definition key_matches T (k : K) e : bool :=
  bool_decide (k = de_key e) || dictCompareKeys T k (de_key e).

(** One round of [for (table = 0; table <= 1; table++)]: the first entry of
    the chain that matches. *)
Definition find_in_table d (P : m_dictEntry K V -> bool) (h : Z) (table : nat) :
    option (option (entry_loc * m_dictEntry K V)) :=
  let idx := Z.land h (ht_sizemask (ht_at d table)) in
  b ← bucket (ht_at d table) idx;
  Some ('(pos, e) ← list_find (λ e, P e = true) b; Some (Loc table idx pos, e)).

(** The loop over the two tables that [m_dictFind], [dictGenericDelete],
    [_dictKeyIndex] and [m_dictFindEntryRefByPtrAndHash] share. *)
Definition find_in_tables d (P : m_dictEntry K V -> bool) (h : Z) :
    option (option (entry_loc * m_dictEntry K V)) :=
  r ← find_in_table d P h 0;
  match r with
  | Some _ => Some r
  | None => if dictIsRehashing d then find_in_table d P h 1 else Some None
  end.

Definition m_dictFind d (k : K) : option (option (m_dictEntry K V) * dict K V) :=
  if decide (u64 (ht_used (ht0 d) + ht_used (ht1 d)) = 0) then Some (None, d)
  else
    d ← rehash_step_if d;
    r ← find_in_tables d (key_matches (d_type d) k) (hashFunction (d_type d) k);
    Some (match r with Some (_, he) => Some he | None => None end, d).

(** [None] inside: [NULL]. *)
Definition m_dictFetchValue d (k : K) : option (option V * dict K V) :=
  '(he, d) ← m_dictFind d k;
  Some (he ≫= de_val, d).

Definition m_dictGetHash d (k : K) : Z := hashFunction (d_type d) k.

Definition m_dictFindEntryRefByPtrAndHash d (oldptr : K) (hash : Z) : option (option entry_loc) :=
  if decide (u64 (ht_used (ht0 d) + ht_used (ht1 d)) = 0) then Some None
  else
    r ← find_in_tables d (λ e, bool_decide (oldptr = de_key e)) hash;
    Some (match r with Some (heref, _) => Some heref | None => None end).

(** ** Insertion *)
Definition _dictExpandIfNeeded (dict_can_resize : bool) d : option (dict_status * dict K V) :=
  if dictIsRehashing d then Some (DICT_OK, d)
  else if decide (ht_size (ht0 d) = 0) then m_dictExpand d DICT_HT_INITIAL_SIZE
  else if (ht_size (ht0 d) <=? ht_used (ht0 d)) &&
          (dict_can_resize ||
           (dict_force_resize_ratio <? ht_used (ht0 d) / ht_size (ht0 d)))
  then m_dictExpand d (u64 (ht_used (ht0 d) * 2))
  else Some (DICT_OK, d).

(** The returned index, [*existing], and the dict. *)
Definition _dictKeyIndex (dict_can_resize : bool) d (k : K) (hash : Z) :
    option (Z * option entry_loc * dict K V) :=
  '(st, d) ← _dictExpandIfNeeded dict_can_resize d;
  if decide (st = DICT_ERR) then Some (-1, None, d)
  else
    r ← find_in_tables d (key_matches (d_type d) k) hash;
    match r with
    | Some (l, _) => Some (-1, Some l, d)
    | None =>
      let ht := if dictIsRehashing d then ht1 d else ht0 d in
      Some (i64 (Z.land hash (ht_sizemask ht)), None, d)
    end.

(** The entry added ([NULL] as [None]), [*existing], and the dict. *)
Definition m_dictAddRaw (dict_can_resize : bool) d (k : K) :
    option (option entry_loc * option entry_loc * dict K V) :=
  d ← rehash_step_if d;
  '(index, existing, d) ← _dictKeyIndex dict_can_resize d k (hashFunction (d_type d) k);
  if decide (index = -1) then Some (None, existing, d)
  else
    let table := if dictIsRehashing d then 1%nat else 0%nat in
    let ht := ht_at d table in
    b ← bucket ht index;
    let entry := Entry (dictSetKey (d_type d) k) None in
    let ht := set_bucket ht index (entry :: b) in
    let ht := set_used ht (u64 (ht_used ht + 1)) in
    Some (Some (Loc table index 0), existing, set_ht d table ht).

Definition entry_at d (l : entry_loc) : option (m_dictEntry K V) :=
  b ← bucket (ht_at d (loc_table l)) (loc_idx l); b !! loc_pos l.

(** [dictSetVal(d, entry, val)]: the store into the entry at [l]. *)
Definition store_val d (l : entry_loc) (v : V) : option (dict K V) :=
  let ht := ht_at d (loc_table l) in
  b ← bucket ht (loc_idx l);
  e ← b !! loc_pos l;
  let e := Entry (de_key e) (Some (dictSetVal (d_type d) v)) in
  Some (set_ht d (loc_table l) (set_bucket ht (loc_idx l) (<[loc_pos l := e]> b))).

Definition m_dictAdd (dict_can_resize : bool) d (k : K) (v : V) :
    option (dict_status * dict K V) :=
  '(entry, _, d) ← m_dictAddRaw dict_can_resize d k;
  match entry with
  | None => Some (DICT_ERR, d)
  | Some l => d ← store_val d l v; Some (DICT_OK, d)
  end.

(** 1 for a new key, 0 for an update, with what the update frees.  An
    [existing] that is NULL would be dereferenced: [None]. *)
Definition m_dictReplace (dict_can_resize : bool) d (k : K) (v : V) :
    option (Z * list (dict_event K V) * dict K V) :=
  '(entry, existing, d) ← m_dictAddRaw dict_can_resize d k;
  match entry with
  | Some l => d ← store_val d l v; Some (1, [], d)
  | None =>
    l ← existing;
    auxentry ← entry_at d l;
    d ← store_val d l v;
    Some (0, dictFreeVal (d_type d) auxentry, d)
  end.

Definition m_dictAddOrFind (dict_can_resize : bool) d (k : K) :
    option (option entry_loc * dict K V) :=
  '(entry, existing, d) ← m_dictAddRaw dict_can_resize d k;
  Some (match entry with Some l => Some l | None => existing end, d).

(** ** Deletion *)
Definition dictGenericDelete d (k : K) (nofree : bool) :
    option (option (m_dictEntry K V) * list (dict_event K V) * dict K V) :=
  if decide (ht_used (ht0 d) = 0 ∧ ht_used (ht1 d) = 0) then Some (None, [], d)
  else
    d ← rehash_step_if d;
    r ← find_in_tables d (key_matches (d_type d) k) (hashFunction (d_type d) k);
    match r with
    | Some (l, he) =>
      let ht := ht_at d (loc_table l) in
      b ← bucket ht (loc_idx l);
      let ht := set_bucket ht (loc_idx l) (delete (loc_pos l) b) in
      let freed :=
        if nofree then [] else dictFreeKey (d_type d) he ++ dictFreeVal (d_type d) he in
      let ht := set_used ht (u64 (ht_used ht - 1)) in
      Some (Some he, freed, set_ht d (loc_table l) ht)
    | None => Some (None, [], d)
    end.

Definition m_dictDelete d (k : K) : option (dict_status * list (dict_event K V) * dict K V) :=
  '(he, freed, d) ← dictGenericDelete d k false;
  Some (if he is Some _ then DICT_OK else DICT_ERR, freed, d).

Definition m_dictUnlink d (k : K) : option (option (m_dictEntry K V) * dict K V) :=
  '(he, _, d) ← dictGenericDelete d k true;
  Some (he, d).

Definition m_dictFreeUnlinkedEntry d (he : option (m_dictEntry K V)) : list (dict_event K V) :=
  match he with
  | None => []
  | Some he => dictFreeKey (d_type d) he ++ dictFreeVal (d_type d) he
  end.

(** The chain loop of [_dictClear]. *)
Fixpoint clear_chain T (he : list (m_dictEntry K V)) (used : Z) : list (dict_event K V) * Z :=
  match he with
  | [] => ([], used)
  | e :: nextHe =>
    let '(freed, used) := clear_chain T nextHe (u64 (used - 1)) in
    (dictFreeKey T e ++ dictFreeVal T e ++ freed, used)
  end.

(** [for (i = 0; i < ht->size && ht->used > 0; i++)], [n] rounds to go. *)
Fixpoint clear_loop T (callback : bool) (n : nat) (i : Z) ht : option (list (dict_event K V)) :=
  match n with
  | O => Some []
  | S n =>
    if negb (0 <? ht_used ht) then Some []
    else
      let cb := if callback && bool_decide (Z.land i 65535 = 0) then [Callback] else [] in
      he ← bucket ht i;
      let '(freed, used) := clear_chain T he (ht_used ht) in
      rest ← clear_loop T callback n (i + 1) (set_used ht used);
      Some (cb ++ freed ++ rest)
  end.

Definition _dictClear d ht (callback : bool) : option (list (dict_event K V) * dictht K V) :=
  freed ← clear_loop (d_type d) callback (Z.to_nat (ht_size ht)) 0 ht;
  Some (freed, _dictReset).

Definition m_dictRelease d : option (list (dict_event K V)) :=
  '(freed0, _) ← _dictClear d (ht0 d) false;
  '(freed1, _) ← _dictClear d (ht1 d) false;
  Some (freed0 ++ freed1).

Definition m_dictEmpty d (callback : bool) : option (list (dict_event K V) * dict K V) :=
  '(freed0, t0) ← _dictClear d (ht0 d) callback;
  '(freed1, t1) ← _dictClear d (ht1 d) callback;
  Some (freed0 ++ freed1, Dict (d_type d) t0 t1 (-1) 0).

(** ** Random sampling

    [random i] is the [i]-th value [random()] returns; the functions return
    the number of values drawn. *)
Fixpoint pick_bucket (fuel : nat) d (random : nat -> Z) (i : nat) :
    option (list (m_dictEntry K V) * nat) :=
  match fuel with
  | O => None
  | S fuel =>
    he ← (if dictIsRehashing d then
            let h := u64 (rehashidx d +
              random i mod u64 (ht_size (ht0 d) + ht_size (ht1 d) - rehashidx d)) in
            if ht_size (ht0 d) <=? h then bucket (ht1 d) (h - ht_size (ht0 d))
            else bucket (ht0 d) h
          else bucket (ht0 d) (Z.land (random i) (ht_sizemask (ht0 d))));
    match he with
    | [] => pick_bucket fuel d random (S i)
    | _ => Some (he, S i)
    end
  end.

Definition m_dictGetRandomKey (fuel : nat) d (random : nat -> Z) :
    option (option (m_dictEntry K V) * dict K V) :=
  if decide (dictSize d = 0) then Some (None, d)
  else
    d ← rehash_step_if d;
    '(he, i) ← pick_bucket fuel d random 0;
    let listlen := Z.of_nat (length he) in
    let listele := random i mod listlen in
    e ← he !! Z.to_nat listele;
    Some (Some e, d).
End dict.
