(* ===== verification/DictInv.v ===== *)
(** * DictInv: the invariant of a dict and the map it represents

    [dict_wf] states when a dict is well formed, [dict_map] the finite map it
    stands for, keyed by what [keyCompare] tells apart.  The lemmas say how
    the table accesses act on both; [DictSpec] proves the operations on top. *)

From S2P Require Import Prelude.
From S2P Require Import Dict.
Local Open Scope Z_scope.

(** What the client of a dict promises of its callbacks: two keys are equal
    for [keyCompare] exactly when they have the same identity, equal keys have
    equal hashes, and a duplicate is equal to its original. *)
Class DictTypeOk {K V I : Type} `{EqDecision K} (T : m_dictType K V) (key_id : K -> I) : Prop := {
  hash_u64 k : is_u64 (hashFunction T k);
  hash_id k1 k2 : key_id k1 = key_id k2 -> hashFunction T k1 = hashFunction T k2;
  compare_id k1 k2 : dictCompareKeys T k1 k2 = true <-> key_id k1 = key_id k2;
  dup_id k : key_id (dictSetKey T k) = key_id k
}.

(** No table ever holds more entries: each takes 24 bytes of a 64-bit memory. *)
Definition MAX_ENTRIES : Z := 2 ^ 59.

Section inv.
Context {K V I : Type} `{EqDecision K} `{Countable I} (key_id : K -> I).
Implicit Types (T : m_dictType K V) (d : dict K V) (ht : dictht K V) (e : m_dictEntry K V).

Definition ht_entries ht : list (m_dictEntry K V) := concat (ht_table ht).
Definition entries d : list (m_dictEntry K V) := ht_entries (ht0 d) ++ ht_entries (ht1 d).

Definition entry_id e : I := key_id (de_key e).
Definition entry_kv e : I * (K * option V) := (entry_id e, (de_key e, de_val e)).

(** The map a dict stands for. *)
Definition dict_map d : gmap I (K * option V) := list_to_map (entry_kv <$> entries d).

(** A table is unallocated, or its size is a power of two from 4 on. *)
Definition ht_shape ht : Prop :=
  (ht_table ht = [] ∧ ht_sizemask ht = 0) ∨
  (∃ k, 2 <= k <= 60 ∧ Z.of_nat (length (ht_table ht)) = 2 ^ k ∧ ht_sizemask ht = 2 ^ k - 1).

(** Each entry is in the bucket its hash selects. *)
Definition ht_placed T ht : Prop :=
  ∀ i b e, ht_table ht !! i = Some b -> e ∈ b ->
    Z.land (hashFunction T (de_key e)) (ht_sizemask ht) = Z.of_nat i.

Record ht_wf T ht : Prop := {
  wf_size : ht_size ht = Z.of_nat (length (ht_table ht));
  wf_shape : ht_shape ht;
  wf_placed : ht_placed T ht;
  wf_used : ht_used ht = Z.of_nat (length (ht_entries ht))
}.

(** Not rehashing, or rehashing with the buckets before [rehashidx] moved. *)
Definition rehash_wf d : Prop :=
  (rehashidx d = -1 ∧ ht_table (ht1 d) = []) ∨
  (0 <= rehashidx d <= ht_size (ht0 d) ∧ ht_table (ht0 d) ≠ [] ∧ ht_table (ht1 d) ≠ [] ∧
   ∀ i, Z.of_nat i < rehashidx d -> ht_table (ht0 d) !! i = Some []).

Record dict_wf d : Prop := {
  wf_type : DictTypeOk (d_type d) key_id;
  wf_ht0 : ht_wf (d_type d) (ht0 d);
  wf_ht1 : ht_wf (d_type d) (ht1 d);
  wf_rehash : rehash_wf d;
  wf_nodup : NoDup (entry_id <$> entries d);
  wf_small : Z.of_nat (length (entries d)) < MAX_ENTRIES;
  wf_iterators : 0 <= iterators d
}.

(** ** Lists of chains *)
Lemma concat_insert_perm {A} (l : list (list A)) i b b' :
  l !! i = Some b -> concat (<[i := b']> l) ++ b ≡ₚ concat l ++ b'.
Proof.
  revert i. induction l as [|c l IH]; intros [|i] Hl; simplify_eq/=.
  - rewrite (Permutation_app_comm _ b), <- app_assoc. f_equiv. apply Permutation_app_comm.
  - rewrite <- !app_assoc. by rewrite IH.
Qed.

Lemma concat_nil_lookup {A} (l : list (list A)) i b :
  concat l = [] -> l !! i = Some b -> b = [].
Proof.
  revert i. induction l as [|c l IH]; intros [|i] Hc Hi; simplify_eq/=;
    apply app_eq_nil in Hc as [Hc Hl]; eauto.
Qed.

Lemma concat_all_nil {A} (l : list (list A)) :
  (∀ i b, l !! i = Some b -> b = []) -> concat l = [].
Proof.
  induction l as [|c l IH]; intros Hl; simpl; [done|].
  rewrite (Hl 0%nat c eq_refl). simpl. apply IH. intros i. apply (Hl (S i)).
Qed.

Lemma elem_of_concat {A} (l : list (list A)) x :
  x ∈ concat l <-> ∃ i b, l !! i = Some b ∧ x ∈ b.
Proof.
  rewrite list_elem_of_In, in_concat. split.
  - intros (b & [i Hi]%list_elem_of_In%list_elem_of_lookup & Hx%list_elem_of_In). eauto.
  - intros (i & b & Hi & Hx%list_elem_of_In). exists b. split; [|done].
    apply list_elem_of_In. by eapply list_elem_of_lookup_2.
Qed.

(** ** One table *)
Lemma bucket_Some ht idx b :
  bucket ht idx = Some b <-> 0 <= idx ∧ ht_table ht !! Z.to_nat idx = Some b.
Proof. unfold bucket. case_decide; [by split; [|intros []]|by split; [|intros []]]. Qed.

Lemma ht_wf_reset T : ht_wf T _dictReset.
Proof. split; [done|by left|by intros i b e|done]. Qed.

Lemma ht_wf_alloc T table k :
  2 <= k <= 60 -> alloc_table (2 ^ k) = Some table ->
  ht_wf T (DictHt table (2 ^ k) (2 ^ k - 1) 0) ∧ table ≠ [] ∧ concat table = [].
Proof.
  intros Hk. assert (4 <= 2 ^ k) by (change 4 with (2 ^ 2); apply Z.pow_le_mono_r; lia).
  unfold alloc_table. destruct (_ <? _); [|done]. intros [= <-].
  assert (concat (replicate (Z.to_nat (2 ^ k)) ([] : list (m_dictEntry K V))) = []) as Hc.
  { apply concat_all_nil. intros i b [-> _]%lookup_replicate_1. done. }
  split_and!; [|destruct (Z.to_nat (2 ^ k)) eqn:E; [lia|done]|done].
  split; cbn [ht_size ht_table ht_used ht_sizemask].
  - rewrite length_replicate. lia.
  - right. exists k. cbn. rewrite length_replicate. lia.
  - intros i b e [-> _]%lookup_replicate_1 He. by apply elem_of_nil in He.
  - unfold ht_entries. cbn [ht_table]. by rewrite Hc.
Qed.

Lemma mask_range ht h :
  ht_shape ht -> ht_table ht ≠ [] -> 0 <= h ->
  0 <= Z.land h (ht_sizemask ht) < Z.of_nat (length (ht_table ht)).
Proof.
  intros [[? _]|(k & Hk & -> & ->)] Ht Hh; [done|].
  assert (0 < 2 ^ k) by lia. pose proof (land_le_r h (2 ^ k - 1)). lia.
Qed.

(** The hash of a key always selects a bucket of an allocated table. *)
Lemma bucket_hash ht h :
  ht_shape ht -> ht_table ht ≠ [] -> 0 <= h ->
  ∃ b, bucket ht (Z.land h (ht_sizemask ht)) = Some b.
Proof.
  intros Hs Ht Hh. pose proof (mask_range ht h Hs Ht Hh) as Hr.
  destruct (lookup_lt_is_Some_2 (ht_table ht) (Z.to_nat (Z.land h (ht_sizemask ht)))) as [b Hb];
    [lia|]. exists b. apply bucket_Some. by split; [lia|].
Qed.

(** Replacing one chain: all the updates of a table are of this form. *)
Lemma ht_update T ht idx b b' used' :
  ht_wf T ht -> bucket ht idx = Some b ->
  (∀ e, e ∈ b' -> Z.land (hashFunction T (de_key e)) (ht_sizemask ht) = idx) ->
  used' = ht_used ht - Z.of_nat (length b) + Z.of_nat (length b') ->
  ht_wf T (set_used (set_bucket ht idx b') used') ∧
  ht_entries (set_used (set_bucket ht idx b') used') ++ b ≡ₚ ht_entries ht ++ b'.
Proof.
  intros [Hsz Hsh Hpl Hus] [Hi Hb]%bucket_Some Hb' ->.
  pose proof (concat_insert_perm _ _ _ b' Hb) as Hp.
  unfold ht_entries in *. cbn [set_used set_bucket ht_table] in *.
  split; [split; cbn [set_used set_bucket ht_table ht_size ht_sizemask ht_used]|done].
  - by rewrite length_insert.
  - unfold ht_shape in *. cbn. rewrite length_insert.
    destruct Hsh as [[E _]|Hsh]; [by rewrite E in Hb|by right].
  - intros i c e Hc He. cbn in Hc |- *. destruct (decide (i = Z.to_nat idx)) as [->|Hne].
    + rewrite list_lookup_insert_eq in Hc by eauto using lookup_lt_Some.
      simplify_eq. rewrite (Hb' e He). lia.
    + rewrite list_lookup_insert_ne in Hc by done. by eapply Hpl.
  - apply Permutation_length in Hp. rewrite !length_app in Hp.
    unfold ht_entries. cbn. lia.
Qed.

(** Adding an entry at the head of its chain. *)
Lemma ht_push T ht e b :
  let idx := Z.land (hashFunction T (de_key e)) (ht_sizemask ht) in
  ht_wf T ht -> ht_used ht < MAX_ENTRIES -> bucket ht idx = Some b ->
  ht_wf T (set_used (set_bucket ht idx (e :: b)) (u64 (ht_used ht + 1))) ∧
  ht_entries (set_used (set_bucket ht idx (e :: b)) (u64 (ht_used ht + 1))) ≡ₚ
    e :: ht_entries ht.
Proof.
  intros idx Hwf Hu Hb. unfold MAX_ENTRIES in *.
  assert (0 <= ht_used ht) by (rewrite (wf_used _ _ Hwf); lia).
  rewrite u64_small by lia.
  destruct (ht_update T ht idx b (e :: b) (ht_used ht + 1) Hwf Hb) as [Hwf' Hp].
  - intros e' [->|He']%elem_of_cons; [done|].
    apply bucket_Some in Hb as [Hi Hb]. rewrite (wf_placed _ _ Hwf _ _ _ Hb He'). lia.
  - simpl. lia.
  - split; [done|]. apply (Permutation_app_inv_r b). rewrite Hp.
    symmetry. apply (Permutation_middle (ht_entries ht) b e).
Qed.

Lemma ht_table_update ht idx b used :
  length (ht_table (set_used (set_bucket ht idx b) used)) = length (ht_table ht).
Proof. cbn. apply length_insert. Qed.

Lemma not_nil_length {A} (l l' : list A) : length l' = length l -> l ≠ [] -> l' ≠ [].
Proof. by destruct l, l'. Qed.

(** ** The map *)
Lemma entry_kv_fst l : (entry_kv <$> l).*1 = entry_id <$> l.
Proof. rewrite <- list_fmap_compose. done. Qed.

Lemma dict_map_perm d1 d2 :
  NoDup (entry_id <$> entries d1) -> entries d1 ≡ₚ entries d2 -> dict_map d1 = dict_map d2.
Proof.
  intros Hnd Hp. unfold dict_map. apply list_to_map_proper; [by rewrite entry_kv_fst|].
  by rewrite Hp.
Qed.

Lemma dict_map_lookup d i kv :
  NoDup (entry_id <$> entries d) ->
  dict_map d !! i = Some kv <-> ∃ e, e ∈ entries d ∧ entry_kv e = (i, kv).
Proof.
  intros Hnd. unfold dict_map.
  rewrite <- elem_of_list_to_map by (by rewrite entry_kv_fst).
  rewrite list_elem_of_fmap. by split; intros (e & ? & ?); exists e.
Qed.

Lemma dict_map_lookup_None d i :
  dict_map d !! i = None <-> ∀ e, e ∈ entries d -> entry_id e ≠ i.
Proof.
  unfold dict_map. rewrite <- not_elem_of_list_to_map, entry_kv_fst, list_elem_of_fmap.
  split; [intros Hn e He <-; apply Hn; eauto|intros Hn (e & -> & He); by apply (Hn e)].
Qed.

(** The map has one binding per entry. *)
Lemma dict_map_size d :
  NoDup (entry_id <$> entries d) -> size (dict_map d) = length (entries d).
Proof.
  intros Hnd. unfold dict_map.
  rewrite <- length_map_to_list, map_to_list_to_map by (by rewrite entry_kv_fst).
  apply length_fmap.
Qed.

Lemma dict_map_cons d d' e :
  NoDup (entry_id <$> entries d') -> entries d' ≡ₚ e :: entries d ->
  dict_map d' = <[entry_id e := (de_key e, de_val e)]> (dict_map d).
Proof.
  intros Hnd Hp. unfold dict_map.
  rewrite (list_to_map_proper _ (entry_kv <$> e :: entries d)).
  - done.
  - by rewrite entry_kv_fst.
  - by rewrite Hp.
Qed.

Lemma dict_map_uncons d d' e :
  NoDup (entry_id <$> entries d) -> entries d ≡ₚ e :: entries d' ->
  dict_map d' = delete (entry_id e) (dict_map d).
Proof.
  intros Hnd Hp. rewrite (dict_map_cons d' d e Hnd Hp). rewrite delete_insert_id; [done|].
  apply dict_map_lookup_None. intros e' He' E.
  rewrite Hp in Hnd. cbn in Hnd. apply NoDup_cons in Hnd as [Hnot _].
  apply Hnot, list_elem_of_fmap. by exists e'.
Qed.

(** ** Parts of the invariant *)
Lemma rehashing_tables d :
  dict_wf d -> dictIsRehashing d = true ->
  ht_table (ht0 d) ≠ [] ∧ ht_table (ht1 d) ≠ [] ∧ 0 <= rehashidx d <= ht_size (ht0 d) ∧
  ∀ i, Z.of_nat i < rehashidx d -> ht_table (ht0 d) !! i = Some [].
Proof.
  intros Hwf Hr%bool_decide_eq_true. destruct (wf_rehash _ Hwf) as [[? _]|(? & ? & ? & ?)]; [done|].
  split_and!; done || lia.
Qed.

Lemma not_rehashing_tables d :
  dict_wf d -> dictIsRehashing d = false ->
  rehashidx d = -1 ∧ ht_table (ht1 d) = [] ∧ entries d = ht_entries (ht0 d) ∧ ht_used (ht1 d) = 0.
Proof.
  intros Hwf Hr%bool_decide_eq_false.
  destruct (wf_rehash _ Hwf) as [[? E]|(? & _)]; [|lia].
  pose proof (wf_used _ _ (wf_ht1 _ Hwf)) as Hu. unfold entries, ht_entries in *.
  rewrite E in *. simpl in *. by rewrite app_nil_r.
Qed.

Lemma length_entries d :
  dict_wf d -> Z.of_nat (length (entries d)) = ht_used (ht0 d) + ht_used (ht1 d).
Proof.
  intros Hwf. unfold entries. rewrite length_app.
  rewrite (wf_used _ _ (wf_ht0 _ Hwf)), (wf_used _ _ (wf_ht1 _ Hwf)). lia.
Qed.

Lemma used_range d :
  dict_wf d -> 0 <= ht_used (ht0 d) ∧ 0 <= ht_used (ht1 d) ∧
               ht_used (ht0 d) + ht_used (ht1 d) < MAX_ENTRIES.
Proof.
  intros Hwf. pose proof (length_entries d Hwf). pose proof (wf_small _ Hwf).
  rewrite (wf_used _ _ (wf_ht0 _ Hwf)), (wf_used _ _ (wf_ht1 _ Hwf)) in *. lia.
Qed.

Lemma dictSize_entries d : dict_wf d -> dictSize d = Z.of_nat (length (entries d)).
Proof.
  intros Hwf. pose proof (used_range d Hwf) as (? & ? & ?). unfold MAX_ENTRIES in *.
  unfold dictSize. rewrite u64_small by lia. by rewrite length_entries.
Qed.

Lemma ht_used_nil T ht : ht_wf T ht -> ht_used ht = 0 -> ht_entries ht = [].
Proof. intros Hwf. rewrite (wf_used _ _ Hwf). destruct (ht_entries ht); [done|simpl; lia]. Qed.

(** A dict that holds an entry has its first table allocated. *)
Lemma entries_ht0 d : dict_wf d -> entries d ≠ [] -> ht_table (ht0 d) ≠ [].
Proof.
  intros Hwf He. destruct (wf_rehash _ Hwf) as [[_ E]|(_ & ? & _)]; [|done].
  intros E0. apply He. unfold entries, ht_entries. by rewrite E0, E.
Qed.

(** Rearranging the entries keeps what does not depend on the order. *)
Lemma dict_wf_perm d d' :
  dict_wf d -> entries d' ≡ₚ entries d -> d_type d' = d_type d -> iterators d' = iterators d ->
  ht_wf (d_type d) (ht0 d') -> ht_wf (d_type d) (ht1 d') -> rehash_wf d' -> dict_wf d'.
Proof.
  intros [] Hp ET EI H0 H1 Hr. split; rewrite ?ET, ?EI, ?Hp; done.
Qed.
End inv.

Arguments dict_wf {K V I EqDecision0} key_id d.
