(* ===== verification/DictRehash.v ===== *)
(** * DictRehash: resizing and incremental rehashing of a dict

    [_dictNextPower], [m_dictExpand], [m_dictResize], [m_dictRehash],
    [_dictRehashStep] and [m_dictRehashMilliseconds]: none of them has
    undefined behaviour on a well-formed dict, each keeps it well formed and
    keeps the map it stands for, and rehashing always comes to an end. *)

From S2P Require Import Prelude.
From S2P Require Import Dict.
From S2P Require Import DictInv.
Local Open Scope Z_scope.

(** ** Sizes *)
Lemma next_power_loop_spec fuel i k size :
  0 <= k -> i = 2 ^ k -> size < 2 ^ 63 -> k + Z.of_nat fuel = 63 ->
  (∀ j, 2 <= j < k -> 2 ^ j < size) ->
  ∃ m, k <= m <= 63 ∧ next_power_loop fuel i size = Some (2 ^ m) ∧ size <= 2 ^ m ∧
    ∀ j, 2 <= j < m -> 2 ^ j < size.
Proof.
  revert i k. induction fuel as [|fuel IH]; intros i k Hk -> Hs Hf Hj; simpl.
  - exists k. replace k with 63 in * by lia. destruct (Z.leb_spec size (2 ^ 63)); [|lia].
    by split_and!; try lia.
  - destruct (Z.leb_spec size (2 ^ k)).
    { exists k. by split_and!; try lia. }
    assert (2 ^ (k + 1) = 2 ^ k * 2) as E by (rewrite Z.pow_add_r; lia).
    assert (2 ^ (k + 1) <= 2 ^ 63) by (apply Z.pow_le_mono_r; lia).
    assert (0 < 2 ^ k) by lia.
    rewrite u64_small by lia.
    destruct (IH (2 ^ k * 2) (k + 1)) as (m & Hm & Hl & Hle & Hmin); [lia|lia|lia|lia| |].
    { intros j Hj'. destruct (decide (j = k)) as [->|]; [lia|]. apply Hj. lia. }
    exists m. by split_and!; try lia.
Qed.

(** The power of two that [_dictNextPower] finds. *)
Lemma next_power_spec size :
  0 <= size < LONG_MAX ->
  ∃ m, 2 <= m <= 63 ∧ _dictNextPower size = Some (2 ^ m) ∧ size <= 2 ^ m ∧
    ∀ j, 2 <= j -> size <= 2 ^ j -> m <= j.
Proof.
  intros Hs. unfold _dictNextPower, LONG_MAX in *.
  destruct (Z.leb_spec (2 ^ 63 - 1) size); [lia|].
  destruct (next_power_loop_spec 61 4 2 size) as (m & Hm & E & Hle & Hmin);
    [lia|done|lia|done|lia|].
  exists m. split_and!; try done; [lia..|]. intros j Hj Hle'.
  destruct (decide (m <= j)); [done|]. specialize (Hmin j). lia.
Qed.

Section rehash.
Context {K V I : Type} `{EqDecision K} `{Countable I} (key_id : K -> I).
Implicit Types (T : m_dictType K V) (d : dict K V) (ht : dictht K V) (e : m_dictEntry K V).
Local Notation wf := (dict_wf key_id).

(** ** Expanding *)
Definition same_content d d' : Prop :=
  entries d' ≡ₚ entries d ∧ d_type d' = d_type d ∧ iterators d' = iterators d.

Lemma same_content_refl d : same_content d d.
Proof. done. Qed.

Lemma same_content_trans d1 d2 d3 :
  same_content d1 d2 -> same_content d2 d3 -> same_content d1 d3.
Proof. intros (Hp & ? & ?) (Hp' & ? & ?). split_and!; [by rewrite Hp'|congruence..]. Qed.

Lemma same_content_map d d' :
  wf d -> same_content d d' -> dict_map key_id d' = dict_map key_id d.
Proof.
  intros Hwf (Hp & _). symmetry. by apply dict_map_perm; [apply (wf_nodup _ _ Hwf)|].
Qed.

(** [m_dictExpand] when it does expand. *)
Lemma expand_ok d size :
  wf d -> dictIsRehashing d = false -> ht_used (ht0 d) <= size <= 2 ^ 60 ->
  ∃ st d' m, m_dictExpand d size = Some (st, d') ∧ wf d' ∧ same_content d d' ∧
    2 <= m ∧ size <= 2 ^ m ∧ (∀ j, 2 <= j -> size <= 2 ^ j -> m <= j) ∧
    ht_table (ht0 d') ≠ [] ∧
    (st = DICT_ERR ∧ d' = d ∧ ht_size (ht0 d) = 2 ^ m ∨
     st = DICT_OK ∧ ht_size (ht0 d) ≠ 2 ^ m ∧
     (ht_table (ht0 d) = [] ∧ dictIsRehashing d' = false ∧ ht_size (ht0 d') = 2 ^ m ∨
      ht_table (ht0 d) ≠ [] ∧ rehashidx d' = 0 ∧ ht0 d' = ht0 d ∧ ht_size (ht1 d') = 2 ^ m)).
Proof.
  intros Hwf Hr Hs. destruct (not_rehashing_tables _ d Hwf Hr) as (Eidx & E1 & Ee & Eu1).
  pose proof (used_range _ d Hwf) as (Hu0 & _ & _).
  destruct (next_power_spec size) as (m & Hm & Epow & Hle & Hmin); [unfold LONG_MAX; lia|].
  assert (m <= 60) by (apply Hmin; lia).
  assert (2 ^ m <= 2 ^ 60) by (apply Z.pow_le_mono_r; lia).
  unfold m_dictExpand. rewrite Hr. destruct (Z.ltb_spec size (ht_used (ht0 d))); [lia|]. cbn [orb].
  rewrite Epow. cbn [mbind option_bind]. case_decide as Esz.
  { exists DICT_ERR, d, m. split_and!; try done; try lia.
    - intros E0. pose proof (wf_size _ _ (wf_ht0 _ _ Hwf)) as Hz. rewrite E0 in Hz. simpl in Hz.
      assert (0 < 2 ^ m) by lia. lia.
    - by left. }
  destruct (alloc_table (2 ^ m)) as [table|] eqn:Ea; cycle 1.
  { unfold alloc_table in Ea. destruct (Z.ltb_spec (2 ^ m * 8) (2 ^ 64)); [done|lia]. }
  cbn [mbind option_bind].
  destruct (ht_wf_alloc (d_type d) table m ltac:(lia) Ea) as (Hwf' & Ht & Hc).
  destruct (ht_table (ht0 d)) as [|b0 t0] eqn:E0.
  - exists DICT_OK, (Dict (d_type d) (DictHt table (2 ^ m) (2 ^ m - 1) 0) (ht1 d) (rehashidx d) (iterators d)), m.
    assert (entries d = []) as Hnil by (rewrite Ee; unfold ht_entries; by rewrite E0).
    assert (entries (Dict (d_type d) (DictHt table (2 ^ m) (2 ^ m - 1) 0) (ht1 d)
              (rehashidx d) (iterators d)) = []) as Hnil'.
    { unfold entries, ht_entries. cbn. by rewrite Hc, E1. }
    split_and!; try done; try lia.
    + eapply dict_wf_perm; [done|by rewrite Hnil, Hnil'|done|done|done|apply (wf_ht1 _ _ Hwf)|].
      left. done.
    + by split_and!; [rewrite Hnil, Hnil'| |].
    + right. split_and!; [done..|]. left. by split_and!.
  - exists DICT_OK, (Dict (d_type d) (ht0 d) (DictHt table (2 ^ m) (2 ^ m - 1) 0) 0 (iterators d)), m.
    assert (entries (Dict (d_type d) (ht0 d) (DictHt table (2 ^ m) (2 ^ m - 1) 0) 0 (iterators d))
            = entries d) as Hp.
    { rewrite Ee. unfold entries, ht_entries. cbn. by rewrite Hc, app_nil_r. }
    split_and!; try done; try lia.
    + eapply dict_wf_perm; [done|by rewrite Hp|done|done|apply (wf_ht0 _ _ Hwf)|done|].
      right. cbn. split_and!; [lia| |by rewrite E0|done|lia].
      rewrite (wf_size _ _ (wf_ht0 _ _ Hwf)). lia.
    + by split_and!; [rewrite Hp| |].
    + cbn. by rewrite E0.
    + right. split_and!; [done..|]. right. by split_and!.
Qed.

(** ** One bucket *)
Lemma rehash_chain_spec T de t0 t1 :
  (∀ k, is_u64 (hashFunction T k)) ->
  ht_wf T t1 -> ht_table t1 ≠ [] ->
  Z.of_nat (length de) <= ht_used t0 < 2 ^ 64 -> ht_used t1 + Z.of_nat (length de) < MAX_ENTRIES ->
  ∃ t1', rehash_chain T de t0 t1 = Some (set_used t0 (ht_used t0 - Z.of_nat (length de)), t1') ∧
    ht_wf T t1' ∧ ht_table t1' ≠ [] ∧ ht_entries t1' ≡ₚ de ++ ht_entries t1.
Proof.
  intros Hh. revert t0 t1. induction de as [|e de IH]; intros t0 t1 Hwf Ht Hu0 Hu1; simpl.
  - exists t1. rewrite Z.sub_0_r. by destruct t0.
  - simpl in Hu0, Hu1. destruct (bucket_hash t1 (hashFunction T (de_key e))) as [b Hb];
      [apply (wf_shape _ _ Hwf)|done|apply Hh|].
    rewrite Hb. cbn [mbind option_bind]. rewrite (u64_small (ht_used t0 - 1)) by lia.
    destruct (ht_push T t1 e b Hwf ltac:(lia) Hb) as [Hwf' Hp].
    assert (ht_used (set_used (set_bucket t1 (Z.land (hashFunction T (de_key e)) (ht_sizemask t1))
              (e :: b)) (u64 (ht_used t1 + 1))) = ht_used t1 + 1) as Eu.
    { rewrite (wf_used _ _ Hwf'), (wf_used _ _ Hwf), Hp. cbn [length]. lia. }
    destruct (IH (set_used t0 (ht_used t0 - 1)) _ Hwf') as (t1' & E & Hwf1 & Ht1 & Hp1).
    + eapply not_nil_length; [apply ht_table_update|done].
    + cbn. lia.
    + rewrite Eu. lia.
    + exists t1'. cbn [set_used ht_table ht_size ht_sizemask ht_used set_bucket] in E.
      cbn [set_used ht_table ht_size ht_sizemask ht_used set_bucket]. rewrite E.
      split_and!; [|done..|].
      * do 2 f_equal. unfold set_used. cbn [ht_table ht_size ht_sizemask ht_used]. f_equal. lia.
      * rewrite Hp1, Hp. symmetry. apply Permutation_middle.
Qed.

(** The loop over empty buckets stops at the next chain, or runs out of visits
    before it. *)
Lemma rehash_skip_spec ht ev idx j b :
  (1 <= ev)%nat -> 0 <= idx <= Z.of_nat j -> ht_table ht !! j = Some b -> b ≠ [] ->
  (∃ idx', rehash_skip ev ht idx = Some (idx', None) ∧ idx' = idx + Z.of_nat ev ∧
     idx' <= Z.of_nat j ∧
     ∀ i, idx <= Z.of_nat i < idx' -> ht_table ht !! i = Some []) ∨
  (∃ idx' ev' de, rehash_skip ev ht idx = Some (idx', Some (ev', de)) ∧
     Z.of_nat ev' = Z.of_nat ev - (idx' - idx) ∧ (1 <= ev')%nat ∧ idx <= idx' <= Z.of_nat j ∧
     bucket ht idx' = Some de ∧ de ≠ [] ∧
     ∀ i, idx <= Z.of_nat i < idx' -> ht_table ht !! i = Some []).
Proof.
  revert idx. induction ev as [|ev IH]; intros idx Hev Hidx Hj Hb; [lia|].
  destruct (lookup_lt_is_Some_2 (ht_table ht) (Z.to_nat idx)) as [c Hc].
  { apply lookup_lt_Some in Hj. lia. }
  assert (bucket ht idx = Some c) as Hbk by (apply bucket_Some; split; [lia|done]).
  cbn [rehash_skip]. rewrite Hbk. cbn [mbind option_bind].
  destruct c as [|e c]; cycle 1.
  { right. exists idx, (S ev), (e :: c). split_and!; try done; try lia. }
  assert (∀ idx', (∀ i, idx + 1 <= Z.of_nat i < idx' -> ht_table ht !! i = Some []) ->
            ∀ i, idx <= Z.of_nat i < idx' -> ht_table ht !! i = Some []) as Hext.
  { intros idx' Hx i Hi. destruct (decide (Z.of_nat i = idx)) as [<-|]; [|apply Hx; lia].
    by rewrite Nat2Z.id in Hc. }
  assert (idx ≠ Z.of_nat j) as Hne by (intros ->; rewrite Nat2Z.id in Hc; congruence).
  destruct ev as [|ev].
  { left. exists (idx + 1). split_and!; [done|lia|lia|]. apply Hext. lia. }
  destruct (IH (idx + 1)) as [(idx' & -> & -> & Hle & Hx)|
                              (idx' & ev' & de & -> & Hev' & H1 & Hle & Hd & Hne' & Hx)];
    [lia|lia|done|done| |].
  - left. eexists. split; [done|]. split_and!; [lia|lia|by apply Hext].
  - right. exists idx', ev', de. split_and!; try done; try lia. by apply Hext.
Qed.

(** Some bucket from [rehashidx] on holds a key, as long as [ht[0].used] is
    not 0: why [rehashidx] cannot overflow. *)
Lemma rehash_next_chain d :
  wf d -> dictIsRehashing d = true -> ht_used (ht0 d) ≠ 0 ->
  ∃ j b, ht_table (ht0 d) !! j = Some b ∧ b ≠ [] ∧ rehashidx d <= Z.of_nat j ∧
    rehashidx d < ht_size (ht0 d).
Proof.
  intros Hwf Hr Hu. destruct (rehashing_tables _ d Hwf Hr) as (H0 & H1 & Hidx & Hnil).
  rewrite (wf_used _ _ (wf_ht0 _ _ Hwf)) in Hu.
  destruct (ht_entries (ht0 d)) as [|e l] eqn:Ee; [by simpl in Hu|].
  assert (e ∈ ht_entries (ht0 d)) as He by (rewrite Ee; by left).
  apply elem_of_concat in He as (j & b & Hj & He).
  exists j, b. split_and!; [done|intros ->; by apply elem_of_nil in He| |].
  - destruct (decide (rehashidx d <= Z.of_nat j)); [done|].
    rewrite Hnil in Hj by lia. simplify_eq. by apply elem_of_nil in He.
  - apply lookup_lt_Some in Hj as Hlt.
    destruct (decide (rehashidx d <= Z.of_nat j)).
    + rewrite (wf_size _ _ (wf_ht0 _ _ Hwf)). lia.
    + rewrite Hnil in Hj by lia. simplify_eq. by apply elem_of_nil in He.
Qed.

(** Moving one chain keeps the dict well formed. *)
Lemma rehash_one_bucket d idx de :
  wf d -> dictIsRehashing d = true -> rehashidx d <= idx ->
  (∀ i, rehashidx d <= Z.of_nat i < idx -> ht_table (ht0 d) !! i = Some []) ->
  bucket (ht0 d) idx = Some de ->
  ∃ t1, rehash_chain (d_type d) de (ht0 d) (ht1 d) =
          Some (set_used (ht0 d) (ht_used (ht0 d) - Z.of_nat (length de)), t1) ∧
    let d' := Dict (d_type d)
      (set_bucket (set_used (ht0 d) (ht_used (ht0 d) - Z.of_nat (length de))) idx [])
      t1 (idx + 1) (iterators d) in
    wf d' ∧ same_content d d'.
Proof.
  intros Hwf Hr Hidx Hnil Hde. destruct (rehashing_tables _ d Hwf Hr) as (H0 & H1 & Hrh & Hmoved).
  pose proof (used_range _ d Hwf) as (Hu0 & Hu1 & Hu). unfold MAX_ENTRIES in Hu.
  destruct (ht_update (d_type d) (ht0 d) idx de [] (ht_used (ht0 d) - Z.of_nat (length de))
              (wf_ht0 _ _ Hwf) Hde) as [Hwf0 Hp0]; [by intros e ?%elem_of_nil|simpl; lia|].
  rewrite app_nil_r in Hp0.
  pose proof (wf_used _ _ Hwf0) as Hu0'. cbn [set_used ht_used] in Hu0'.
  destruct (rehash_chain_spec (d_type d) de (ht0 d) (ht1 d)) as (t1 & E & Hwf1 & Ht1 & Hp1);
    [apply (wf_type _ _ Hwf)|apply (wf_ht1 _ _ Hwf)|done|lia|unfold MAX_ENTRIES; lia|].
  exists t1. split; [done|]. intros d'.
  assert (same_content d d') as Hsc.
  { split_and!; [|done..]. unfold entries, d'. cbn [ht0 ht1]. rewrite Hp1, app_assoc.
    by f_equiv. }
  split; [|done]. eapply dict_wf_perm; [done|apply Hsc|done|done|done|done|].
  apply bucket_Some in Hde as [Hge Hde]. pose proof (lookup_lt_Some _ _ _ Hde) as Hlt.
  right. unfold d'. cbn [rehashidx ht0 ht1 set_bucket set_used ht_size ht_table].
  rewrite (wf_size _ _ (wf_ht0 _ _ Hwf)). split_and!; [lia|lia| |done|].
  - eapply not_nil_length; [apply length_insert|done].
  - intros i Hi. destruct (decide (i = Z.to_nat idx)) as [->|].
    + by rewrite list_lookup_insert_eq.
    + rewrite list_lookup_insert_ne by done.
      destruct (decide (Z.of_nat i < rehashidx d)); [by apply Hmoved|apply Hnil; lia].
Qed.

(** ** [m_dictRehash] *)
Lemma rehash_loop_spec n ev d :
  wf d -> dictIsRehashing d = true -> (n = 0 ∨ 1 <= ev)%nat ->
  ∃ d' early, rehash_loop n ev d = Some (d', early) ∧ wf d' ∧ same_content d d' ∧
    dictIsRehashing d' = true ∧ ht_size (ht0 d') = ht_size (ht0 d) ∧
    (early = true -> ht_used (ht0 d') ≠ 0) ∧
    (ht_used (ht0 d') = 0 ∨ rehashidx d + Z.of_nat (Nat.min n ev) <= rehashidx d').
Proof.
  revert ev d. induction n as [|n IH]; intros ev d Hwf Hr Hev; cbn [rehash_loop].
  { exists d, false. split_and!; try done. right. simpl. lia. }
  case_decide as Hu. { exists d, false. split_and!; try done. by left. }
  destruct (rehash_next_chain d Hwf Hr Hu) as (j & b & Hj & Hb & Hidx & Hlt).
  destruct (rehashing_tables _ d Hwf Hr) as (H0 & H1 & Hrh & Hmoved).
  destruct (Z.ltb_spec (rehashidx d) (ht_size (ht0 d))); [|lia]. cbn [negb].
  destruct (rehash_skip_spec (ht0 d) ev (rehashidx d) j b)
    as [(idx' & -> & -> & Hle & Hx)|(idx' & ev' & de & -> & Hev' & H1' & Hle & Hde & Hne & Hx)];
    [lia|lia|done|done| |]; cbn [mbind option_bind].
  - exists (Dict (d_type d) (ht0 d) (ht1 d) (rehashidx d + Z.of_nat ev) (iterators d)), true.
    assert (dictIsRehashing (Dict (d_type d) (ht0 d) (ht1 d) (rehashidx d + Z.of_nat ev)
              (iterators d)) = true) by (apply bool_decide_eq_true; cbn; lia).
    split_and!; try done; [|right; cbn [rehashidx]; lia].
    eapply dict_wf_perm; [done|done|done|done|apply (wf_ht0 _ _ Hwf)|apply (wf_ht1 _ _ Hwf)|].
    right. cbn. apply lookup_lt_Some in Hj.
    rewrite (wf_size _ _ (wf_ht0 _ _ Hwf)). split_and!; [lia|lia|done|done|].
    intros i Hi. destruct (decide (Z.of_nat i < rehashidx d)); [by apply Hmoved|apply Hx; lia].
  - destruct (rehash_one_bucket d idx' de Hwf Hr ltac:(lia) Hx Hde) as (t1 & E & Hwf' & Hsc).
    rewrite E. cbn [mbind option_bind].
    destruct (IH ev' _ Hwf') as (d' & early & E' & Hwf2 & Hsc2 & Hr2 & Hs2 & He2 & Hp2);
      [apply bool_decide_eq_true; cbn; lia|by right|].
    exists d', early. split_and!; try done.
    + by eapply same_content_trans.
    + destruct Hp2 as [?|Hp2]; [by left|right]. cbn [rehashidx] in Hp2. lia.
Qed.

(** What [m_dictRehash] does: the map and the invariant are kept; it returns 0
    exactly when no rehashing is in progress any more; when it returns 1 it has
    passed [n] buckets at least. *)
Lemma rehash_ok d n :
  wf d -> ∃ r d', m_dictRehash d n = Some (r, d') ∧ wf d' ∧ same_content d d' ∧
    (ht_table (ht0 d) ≠ [] -> ht_table (ht0 d') ≠ []) ∧
    (r = 0 ∧ dictIsRehashing d' = false ∨
     r = 1 ∧ dictIsRehashing d' = true ∧ ht_size (ht0 d') = ht_size (ht0 d) ∧
       rehashidx d + Z.of_nat n <= rehashidx d' < ht_size (ht0 d)).
Proof.
  intros Hwf. unfold m_dictRehash. destruct (dictIsRehashing d) eqn:Hr; cbn [negb]; cycle 1.
  { exists 0, d. split_and!; try done. by left. }
  destruct (rehash_loop_spec n (n * 10) d Hwf Hr ltac:(lia))
    as (d1 & early & -> & Hwf1 & Hsc1 & Hr1 & Hs1 & He1 & Hp1). cbn [mbind option_bind].
  destruct (rehashing_tables _ d1 Hwf1 Hr1) as (H0 & H1 & Hrh & Hmoved).
  destruct (decide (ht_used (ht0 d1) = 0)) as [Hu|Hu]; cycle 1.
  { exists 1, d1. destruct Hp1 as [|Hp1]; [done|].
    destruct (rehash_next_chain d1 Hwf1 Hr1 Hu) as (_ & _ & _ & _ & _ & Hlt).
    destruct early; [|rewrite ?decide_False by done]; split_and!; try done; right;
      split_and!; try done; lia. }
  destruct early; [by destruct He1|].
  eexists 0, _. split; [done|].
  pose proof (ht_used_nil _ _ (wf_ht0 _ _ Hwf1) Hu) as Hnil.
  match goal with |- wf ?d' ∧ _ => assert (same_content d1 d') as Hsc2 end.
  { split_and!; [|done..]. unfold entries. cbn [ht0 ht1]. rewrite Hnil, app_nil_r. done. }
  split_and!; [|by eapply same_content_trans|done|by left].
  eapply dict_wf_perm; [done|apply Hsc2|done|done|apply (wf_ht1 _ _ Hwf1)| |by left].
  apply ht_wf_reset.
Qed.

Lemma rehash_step_ok d :
  wf d -> ∃ d', rehash_step_if d = Some d' ∧ wf d' ∧ same_content d d' ∧
    (ht_table (ht0 d) ≠ [] -> ht_table (ht0 d') ≠ []).
Proof.
  intros Hwf. unfold rehash_step_if, _dictRehashStep.
  destruct (dictIsRehashing d); [|by exists d]. case_decide; [|by exists d].
  destruct (rehash_ok d 1 Hwf) as (r & d' & -> & Hwf' & Hsc & Ht & _). by exists d'.
Qed.

Lemma rehash_ms_loop_ok fuel d ms start clock i acc :
  wf d -> 0 <= rehashidx d -> ht_size (ht0 d) - rehashidx d < Z.of_nat fuel ->
  ∃ rehashes d', rehash_ms_loop fuel d ms start clock i acc = Some (rehashes, d') ∧
    wf d' ∧ same_content d d'.
Proof.
  revert d i acc. induction fuel as [|fuel IH]; intros d i acc Hwf Hidx Hf.
  { destruct (dictIsRehashing d) eqn:Hr.
    - destruct (rehashing_tables _ d Hwf Hr) as (_ & _ & ? & _). lia.
    - destruct (not_rehashing_tables _ d Hwf Hr) as (? & _). lia. }
  cbn [rehash_ms_loop].
  destruct (rehash_ok d 100 Hwf) as (r & d1 & -> & Hwf1 & Hsc1 & _ & Hcase).
  cbn [mbind option_bind]. case_decide; [by eauto|]. destruct (_ <? _); [by eauto|].
  destruct Hcase as [[-> _]|(_ & Hr1 & Hs1 & Hp1)]; [done|].
  destruct (IH d1 (S i) (i32 (acc + 100)) Hwf1) as (rs & d' & E & Hwf' & Hsc'); [lia|lia|].
  exists rs, d'. split_and!; [done..|by eapply same_content_trans].
Qed.
End rehash.
