(* ===== verification/DictSpec.v ===== *)
(** * DictSpec: the operations of a dict against the map it stands for

    Each operation of [Dict] on a well-formed dict: it has no undefined
    behaviour, keeps the invariant, and acts on [dict_map] as the map operation
    it implements, on every branch.  The properties of the rehashing functions
    are stated here too, from the lemmas of [DictRehash]. *)

From S2P Require Import Prelude.
From S2P Require Import SipHash.
From S2P Require Import Dict.
From S2P Require Import DictInv.
From S2P Require Import DictRehash.
Local Open Scope Z_scope.

Section spec.
Context {K V I : Type} `{EqDecision K} `{Countable I} (key_id : K -> I).
Implicit Types (T : m_dictType K V) (d : dict K V) (ht : dictht K V) (e : m_dictEntry K V).
Local Notation wf := (dict_wf key_id).
Local Notation eid := (entry_id key_id).

(** ** Entries and their places *)
Lemma ht_at_wf d t : wf d -> ht_wf (d_type d) (ht_at d t).
Proof. intros []. by destruct t. Qed.

Lemma entries_ht_at d t e : e ∈ ht_entries (ht_at d t) -> e ∈ entries d.
Proof. unfold entries. rewrite elem_of_app. destruct t; simpl; auto. Qed.

Lemma entry_at_bucket d l e :
  entry_at d l = Some e ->
  ∃ b, bucket (ht_at d (loc_table l)) (loc_idx l) = Some b ∧ b !! loc_pos l = Some e.
Proof. unfold entry_at. destruct (bucket _ _) as [b|]; [|done]. intros E. by exists b. Qed.

Lemma entry_at_elem d l e : entry_at d l = Some e -> e ∈ entries d.
Proof.
  intros (b & [_ Hb]%bucket_Some & He)%entry_at_bucket. apply (entries_ht_at d (loc_table l)).
  apply elem_of_concat. exists (Z.to_nat (loc_idx l)), b. split; [done|].
  by eapply list_elem_of_lookup_2.
Qed.

Lemma entry_at_map d l e :
  wf d -> entry_at d l = Some e -> dict_map key_id d !! eid e = Some (de_key e, de_val e).
Proof.
  intros Hwf He%entry_at_elem. apply dict_map_lookup; [apply (wf_nodup _ _ Hwf)|].
  by exists e.
Qed.

(** Exchanging one chain of a dict. *)
Lemma chain_update d t idx b b' used' :
  wf d -> bucket (ht_at d t) idx = Some b ->
  (t = 0%nat -> dictIsRehashing d = true -> b ≠ []) ->
  (∀ e, e ∈ b' -> Z.land (hashFunction (d_type d) (de_key e)) (ht_sizemask (ht_at d t)) = idx) ->
  used' = ht_used (ht_at d t) - Z.of_nat (length b) + Z.of_nat (length b') ->
  let d' := set_ht d t (set_used (set_bucket (ht_at d t) idx b') used') in
  entries d' ++ b ≡ₚ entries d ++ b' ∧
  (NoDup (eid <$> entries d') -> Z.of_nat (length (entries d')) < MAX_ENTRIES -> wf d').
Proof.
  intros Hwf Hb Hne Hpl Hu d'.
  destruct (ht_update _ _ _ _ b' used' (ht_at_wf d t Hwf) Hb Hpl Hu) as [Hwf' Hp].
  apply bucket_Some in Hb as [Hi Hb]. split.
  { unfold entries, d'. destruct t as [|t]; cbn [set_ht ht_at ht0 ht1] in *.
    - rewrite <- !app_assoc, (Permutation_app_comm (ht_entries (ht1 d))), !app_assoc, Hp.
      by rewrite <- !app_assoc, (Permutation_app_comm b').
    - by rewrite <- !app_assoc, Hp. }
  intros Hnd Hsm. pose proof Hwf as []. split; try done; unfold d' in *.
  - by destruct t.
  - by destruct t.
  - by destruct t.
  - clear Hnd Hsm Hp. destruct wf_rehash as [[E E1]|(Hr & H0 & H1 & Hmv)].
    + left. destruct t; [done|]. cbn in *. by rewrite E1 in Hb.
    + right. destruct t as [|t]; cbn in *.
      * split_and!; [lia|lia| |done|].
        { eapply not_nil_length; [apply length_insert|done]. }
        intros i Hlt. destruct (decide (i = Z.to_nat idx)) as [->|].
        { rewrite Hmv in Hb by done. simplify_eq.
          destruct Hne; [done| |done]. apply bool_decide_eq_true. lia. }
        by rewrite list_lookup_insert_ne by done; auto.
      * split_and!; [lia|lia|done| |done].
        eapply not_nil_length; [apply length_insert|done].
  - by destruct t.
Qed.

Lemma placed_bucket d t idx b e :
  wf d -> bucket (ht_at d t) idx = Some b -> e ∈ b ->
  Z.land (hashFunction (d_type d) (de_key e)) (ht_sizemask (ht_at d t)) = idx.
Proof.
  intros Hwf [Hi Hb]%bucket_Some He.
  rewrite (wf_placed _ _ (ht_at_wf d t Hwf) _ _ _ Hb He). lia.
Qed.

Lemma wf_nodup_cons d d' e :
  wf d -> entries d' ≡ₚ e :: entries d -> dict_map key_id d !! eid e = None ->
  NoDup (eid <$> entries d').
Proof.
  intros Hwf Hp Hn. rewrite Hp. cbn. apply NoDup_cons. split; [|apply (wf_nodup _ _ Hwf)].
  rewrite list_elem_of_fmap. intros (e' & E & He').
  rewrite dict_map_lookup_None in Hn. by apply (Hn e').
Qed.

(** A chain around one of its entries. *)
Lemma chain_split {A} (b : list A) (pos : nat) (x : A) :
  b !! pos = Some x ->
  ∃ pre post, b = pre ++ x :: post ∧ delete pos b = pre ++ post ∧
    ∀ y, <[pos := y]> b = pre ++ y :: post.
Proof.
  intros Hpos. pose proof (lookup_lt_Some _ _ _ Hpos).
  exists (take pos b), (drop (S pos) b). split_and!.
  - by rewrite take_drop_middle.
  - apply delete_take_drop.
  - intros y. by apply insert_take_drop.
Qed.

Lemma perm_exchange {A} (l r pre post : list A) (x y : A) :
  l ++ pre ++ x :: post ≡ₚ (x :: r) ++ pre ++ y :: post -> l ≡ₚ y :: r.
Proof.
  intros Hp. apply (Permutation_app_inv_r (pre ++ x :: post)). rewrite Hp.
  rewrite <- (Permutation_middle pre post x), <- (Permutation_middle pre post y). cbn [app].
  rewrite <- (Permutation_middle r (pre ++ post) x), <- (Permutation_middle r (pre ++ post) y).
  apply Permutation_swap.
Qed.

Lemma perm_remove {A} (l r pre post : list A) (x : A) :
  l ++ pre ++ x :: post ≡ₚ r ++ pre ++ post -> r ≡ₚ x :: l.
Proof.
  intros Hp. apply (Permutation_app_inv_r (pre ++ post)). rewrite <- Hp.
  rewrite <- (Permutation_middle pre post x). cbn [app].
  symmetry. apply Permutation_middle.
Qed.

(** Overwriting the value of an entry. *)
Lemma store_val_ok d l e v :
  wf d -> entry_at d l = Some e ->
  ∃ d' rest, store_val d l v = Some d' ∧ wf d' ∧ d_type d' = d_type d ∧
    iterators d' = iterators d ∧
    entries d ≡ₚ e :: rest ∧
    entries d' ≡ₚ Entry (de_key e) (Some (dictSetVal (d_type d) v)) :: rest.
Proof.
  intros Hwf He. destruct (entry_at_bucket d l e He) as (b & Hb & Hpos).
  unfold store_val. rewrite Hb. cbn [mbind option_bind]. rewrite Hpos. cbn [mbind option_bind].
  set (e' := Entry (de_key e) (Some (dictSetVal (d_type d) v))).
  destruct (chain_split b _ e Hpos) as (pre & post & -> & _ & ->).
  destruct (chain_update d (loc_table l) (loc_idx l) _ (pre ++ e' :: post)
              (ht_used (ht_at d (loc_table l))) Hwf Hb) as [Hp Hwf'].
  { intros _ _. by destruct pre. }
  { pose proof (λ e1, placed_bucket d (loc_table l) _ _ e1 Hwf Hb) as Hpl.
    intros e1 [?|[->|?]%elem_of_cons]%elem_of_app; [|apply (Hpl e)|]; try apply Hpl; set_solver. }
  { rewrite !length_app. simpl. lia. }
  apply entry_at_elem, elem_of_Permutation in He as [rest Hrest].
  rewrite Hrest in Hp. apply perm_exchange in Hp.
  eexists _, rest. split; [reflexivity|]. split_and!; [|by destruct l as [[]]..|done|done].
  apply Hwf'; rewrite Hp.
  - pose proof (wf_nodup _ _ Hwf) as Hnd. by rewrite Hrest in Hnd.
  - pose proof (wf_small _ _ Hwf) as Hsm. by rewrite Hrest in Hsm.
Qed.

(** Unlinking an entry. *)
Lemma chain_unlink_ok d l e b :
  wf d -> entry_at d l = Some e -> bucket (ht_at d (loc_table l)) (loc_idx l) = Some b ->
  let ht := ht_at d (loc_table l) in
  let d' := set_ht d (loc_table l)
    (set_used (set_bucket ht (loc_idx l) (delete (loc_pos l) b)) (u64 (ht_used ht - 1))) in
  wf d' ∧ d_type d' = d_type d ∧ iterators d' = iterators d ∧ entries d ≡ₚ e :: entries d'.
Proof.
  intros Hwf He Hb ht d'. destruct (entry_at_bucket d l e He) as (b' & Hb' & Hpos).
  rewrite Hb in Hb'. injection Hb' as <-.
  assert (0 <= ht_used ht - 1 < 2 ^ 64) as Hu.
  { assert (e ∈ ht_entries ht) as Hin.
    { apply bucket_Some in Hb as [_ Hb]. apply elem_of_concat.
      exists (Z.to_nat (loc_idx l)), b. split; [done|]. by eapply list_elem_of_lookup_2. }
    pose proof (used_range _ d Hwf) as (? & ? & ?). unfold MAX_ENTRIES in *.
    pose proof (wf_used _ _ (ht_at_wf d (loc_table l) Hwf)) as E. fold ht in E.
    destruct (ht_entries ht); [by apply elem_of_nil in Hin|]. simpl in E.
    unfold ht in *. destruct (loc_table l); cbn [ht_at] in *; lia. }
  unfold d'. rewrite u64_small by done.
  destruct (chain_split b _ e Hpos) as (pre & post & -> & -> & _).
  destruct (chain_update d (loc_table l) (loc_idx l) _ (pre ++ post) (ht_used ht - 1) Hwf Hb)
    as [Hp Hwf'].
  { intros _ _. by destruct pre. }
  { intros e1 [?|?]%elem_of_app; eapply placed_bucket; eauto; apply elem_of_app; auto.
    right. by right. }
  { unfold ht. rewrite !length_app. simpl. lia. }
  apply perm_remove in Hp. fold ht in Hp. split_and!; [|by destruct l as [[]]..|done].
  apply Hwf'; fold ht.
  - pose proof (wf_nodup _ _ Hwf) as Hnd. rewrite Hp in Hnd. by apply NoDup_cons in Hnd as [_ ?].
  - pose proof (wf_small _ _ Hwf) as Hsm. rewrite Hp in Hsm. simpl in Hsm. lia.
Qed.

(** ** Searching *)
Lemma find_in_table_ok d P h t :
  wf d -> ht_table (ht_at d t) ≠ [] -> is_u64 h ->
  ∃ r, find_in_table d P h t = Some r ∧
    match r with
    | Some (l, e) => loc_table l = t ∧ entry_at d l = Some e ∧ P e = true
    | None => ∀ e, e ∈ ht_entries (ht_at d t) -> hashFunction (d_type d) (de_key e) = h ->
        P e = false
    end.
Proof.
  intros Hwf Ht [Hh _]. destruct (bucket_hash _ h (wf_shape _ _ (ht_at_wf d t Hwf)) Ht Hh) as [b Hb].
  unfold find_in_table. rewrite Hb. cbn [mbind option_bind].
  destruct (list_find (λ e, P e = true) b) as [[pos e]|] eqn:E; cbn [mbind option_bind].
  - eexists. split; [done|]. apply list_find_Some in E as (Hpos & He & _).
    split_and!; [done| |done]. unfold entry_at. cbn [loc_table loc_idx loc_pos]. by rewrite Hb.
  - eexists. split; [done|]. intros e He Hhe. apply list_find_None in E.
    apply elem_of_concat in He as (i & b' & Hi & He).
    pose proof (wf_placed _ _ (ht_at_wf d t Hwf) i b' e Hi He) as Hpl. rewrite Hhe in Hpl.
    rewrite Hpl in Hb. apply bucket_Some in Hb as [_ Hb]. rewrite Nat2Z.id, Hi in Hb.
    injection Hb as ->. rewrite Forall_forall in E. by apply not_true_is_false, E.
Qed.

Lemma find_in_tables_ok d P h :
  wf d -> ht_table (ht0 d) ≠ [] -> is_u64 h ->
  ∃ r, find_in_tables d P h = Some r ∧
    match r with
    | Some (l, e) => entry_at d l = Some e ∧ P e = true
    | None => ∀ e, e ∈ entries d -> hashFunction (d_type d) (de_key e) = h -> P e = false
    end.
Proof.
  intros Hwf Ht Hh. unfold find_in_tables.
  destruct (find_in_table_ok d P h 0 Hwf Ht Hh) as (r0 & -> & Hr0). cbn [mbind option_bind].
  destruct r0 as [[l e]|]; [by destruct Hr0 as (_ & ? & ?); eexists|].
  destruct (dictIsRehashing d) eqn:Hr.
  - destruct (rehashing_tables _ d Hwf Hr) as (_ & H1 & _ & _).
    destruct (find_in_table_ok d P h 1 Hwf H1 Hh) as (r1 & -> & Hr1). exists r1. split; [done|].
    destruct r1 as [[l e]|]; [by destruct Hr1 as (_ & ? & ?)|].
    intros e [He|He]%elem_of_app; auto.
  - destruct (not_rehashing_tables _ d Hwf Hr) as (_ & _ & Ee & _).
    eexists. split; [done|]. intros e He. rewrite Ee in He. by apply Hr0.
Qed.

Lemma key_matches_id d k e :
  wf d -> key_matches (d_type d) k e = true <-> eid e = key_id k.
Proof.
  intros Hwf. destruct (wf_type _ _ Hwf) as [_ _ Hcmp _]. unfold key_matches, entry_id.
  rewrite orb_true_iff, bool_decide_eq_true, Hcmp. split; [by intros [->|<-]|auto].
Qed.

(** Looking a key up by its hash. *)
Lemma find_key_ok d k :
  wf d -> ht_table (ht0 d) ≠ [] ->
  ∃ r, find_in_tables d (key_matches (d_type d) k) (hashFunction (d_type d) k) = Some r ∧
    match r with
    | Some (l, e) => entry_at d l = Some e ∧ eid e = key_id k
    | None => dict_map key_id d !! key_id k = None
    end.
Proof.
  intros Hwf Ht. pose proof (wf_type _ _ Hwf) as HT.
  destruct (find_in_tables_ok d (key_matches (d_type d) k) (hashFunction (d_type d) k) Hwf Ht)
    as (r & E & Hr); [apply HT|].
  exists r. split; [done|]. destruct r as [[l e]|].
  - by rewrite key_matches_id in Hr.
  - apply dict_map_lookup_None. intros e He Hid.
    assert (key_matches (d_type d) k e = false) as Hf.
    { apply Hr; [done|]. by apply (hash_id (key_id := key_id)). }
    apply (key_matches_id d k e Hwf) in Hid. congruence.
Qed.

(** ** Insertion *)
Lemma expand_if_needed_ok can d :
  wf d -> ∃ d', _dictExpandIfNeeded can d = Some (DICT_OK, d') ∧ wf d' ∧ same_content d d' ∧
    ht_table (ht0 d') ≠ [].
Proof.
  intros Hwf. unfold _dictExpandIfNeeded. destruct (dictIsRehashing d) eqn:Hr.
  { exists d. split_and!; try done. by destruct (rehashing_tables _ d Hwf Hr). }
  pose proof (used_range _ d Hwf) as (Hu & Hu1 & Hlt). unfold MAX_ENTRIES in Hlt.
  pose proof (wf_size _ _ (wf_ht0 _ _ Hwf)) as Hsz.
  pose proof (wf_used _ _ (wf_ht0 _ _ Hwf)) as Hus.
  unfold DICT_HT_INITIAL_SIZE. case_decide as Hz.
  { assert (ht_used (ht0 d) = 0) as Hu0.
    { rewrite Hus. unfold ht_entries. destruct (ht_table (ht0 d)); simpl in *; [done|lia]. }
    destruct (expand_ok key_id d 4 Hwf Hr ltac:(lia)) as
      (st & d' & m & -> & Hwf' & Hsc & Hm & _ & _ & Ht & [(_ & _ & E)|(-> & _)]); [|by exists d'].
    assert (0 < 2 ^ m) by lia. lia. }
  assert (ht_table (ht0 d) ≠ []) as Ht by (intros E; rewrite E in Hsz; simpl in Hsz; lia).
  destruct (_ && _) eqn:Hfull; [|by exists d].
  apply andb_prop in Hfull as [Hfull _]. rewrite u64_small by lia.
  destruct (expand_ok key_id d (ht_used (ht0 d) * 2) Hwf Hr ltac:(lia)) as
    (st & d' & m & -> & Hwf' & Hsc & Hm & Hle & _ & Ht' & [(_ & _ & E)|(-> & _)]); [|by exists d'].
  lia.
Qed.

Lemma hash_index_small d t k b :
  wf d -> let idx := Z.land (hashFunction (d_type d) k) (ht_sizemask (ht_at d t)) in
  bucket (ht_at d t) idx = Some b -> i64 idx = idx ∧ idx ≠ -1.
Proof.
  intros Hwf idx [Hi Hb]%bucket_Some. split; [|lia]. apply i64_small.
  apply lookup_lt_Some in Hb. pose proof (wf_shape _ _ (ht_at_wf d t Hwf)) as [[E _]|(m & Hm & E & _)].
  - rewrite E in Hb. simpl in Hb. lia.
  - assert (2 ^ m <= 2 ^ 60) by (apply Z.pow_le_mono_r; lia). lia.
Qed.

(** Putting a new entry at the head of its chain. *)
Lemma push_entry_ok d t k b :
  wf d -> Z.of_nat (length (entries d)) + 1 < MAX_ENTRIES ->
  t = (if dictIsRehashing d then 1%nat else 0%nat) ->
  dict_map key_id d !! key_id k = None ->
  let idx := Z.land (hashFunction (d_type d) k) (ht_sizemask (ht_at d t)) in
  bucket (ht_at d t) idx = Some b ->
  let e := Entry (dictSetKey (d_type d) k) None in
  let d' := set_ht d t (set_used (set_bucket (ht_at d t) idx (e :: b))
                          (u64 (ht_used (ht_at d t) + 1))) in
  wf d' ∧ d_type d' = d_type d ∧ iterators d' = iterators d ∧
  entry_at d' (Loc t idx 0) = Some e ∧ entries d' ≡ₚ e :: entries d.
Proof.
  intros Hwf Hmax Et Hnone idx Hb e d'. destruct (wf_type _ _ Hwf) as [_ Hhid _ Hdup].
  assert (hashFunction (d_type d) (de_key e) = hashFunction (d_type d) k) as Hh by apply Hhid, Hdup.
  assert (0 <= ht_used (ht_at d t) < MAX_ENTRIES) as Hu.
  { pose proof (used_range _ d Hwf) as (? & ? & ?). destruct t; cbn [ht_at]; lia. }
  unfold d'. unfold MAX_ENTRIES in Hu. rewrite u64_small by lia.
  destruct (chain_update d t idx b (e :: b) (ht_used (ht_at d t) + 1) Hwf Hb) as [Hp Hwf'].
  { intros -> Hr. rewrite Hr in Et. done. }
  { intros e1 [->|He1]%elem_of_cons; [by rewrite Hh|by eapply placed_bucket]. }
  { simpl. lia. }
  symmetry in Hp. apply (perm_remove (entries d) _ [] b e) in Hp as Hp'.
  assert (eid e = key_id k) as Hid by apply Hdup.
  pose proof (wf_nodup_cons d _ e Hwf Hp') as Hnd. rewrite Hid in Hnd.
  split_and!; [|by destruct t..| |done].
  - apply Hwf'; [auto|]. rewrite Hp'. cbn [length]. lia.
  - apply bucket_Some in Hb as [Hi Hb]. unfold entry_at. cbn [loc_table loc_idx loc_pos].
    replace (ht_at (set_ht d t _) t)
      with (set_used (set_bucket (ht_at d t) idx (e :: b)) (ht_used (ht_at d t) + 1))
      by (by destruct t).
    rewrite (proj2 (bucket_Some _ _ (e :: b))); [done|]. split; [done|].
    cbn. apply list_lookup_insert_eq. by eapply lookup_lt_Some.
Qed.

(** [m_dictAddRaw] on both branches: the key is there already and [existing]
    points at its entry, or the new entry is in the table. *)
Lemma add_raw_ok can d k :
  wf d -> Z.of_nat (length (entries d)) + 1 < MAX_ENTRIES ->
  ∃ entry existing d', m_dictAddRaw can d k = Some (entry, existing, d') ∧ wf d' ∧
    d_type d' = d_type d ∧ iterators d' = iterators d ∧
    ((∃ l e, entry = None ∧ existing = Some l ∧ entry_at d' l = Some e ∧ eid e = key_id k ∧
        entries d' ≡ₚ entries d) ∨
     (∃ l, entry = Some l ∧ existing = None ∧ dict_map key_id d !! key_id k = None ∧
        let e := Entry (dictSetKey (d_type d) k) None in
        entry_at d' l = Some e ∧ entries d' ≡ₚ e :: entries d)).
Proof.
  intros Hwf Hmax. unfold m_dictAddRaw, _dictKeyIndex.
  destruct (rehash_step_ok key_id d Hwf) as (d1 & -> & Hwf1 & Hsc1 & _). cbn [mbind option_bind].
  destruct (expand_if_needed_ok can d1 Hwf1) as (d2 & -> & Hwf2 & Hsc2 & Ht2).
  cbn [mbind option_bind]. rewrite decide_False by done.
  pose proof (same_content_trans _ _ _ Hsc1 Hsc2) as (Hp & ET & EI).
  destruct (find_key_ok d2 k Hwf2 Ht2) as (r & Hf & Hr).
  destruct Hsc1 as (_ & ET1 & _). rewrite <- ET1.
  assert (d_type d2 = d_type d1) as ET2 by (by destruct Hsc2 as (_ & ? & _)).
  rewrite ET2 in Hf |- *. rewrite Hf. cbn [mbind option_bind].
  destruct r as [[l e]|]; cbn [mbind option_bind].
  { rewrite decide_True by done. exists None, (Some l), d2. destruct Hr as [Hl He].
    split_and!; try done. left. by exists l, e. }
  set (t := if dictIsRehashing d2 then 1%nat else 0%nat).
  assert ((if dictIsRehashing d2 then ht1 d2 else ht0 d2) = ht_at d2 t) as ->
    by (unfold t; by destruct (dictIsRehashing d2)).
  assert (ht_table (ht_at d2 t) ≠ []) as Htt.
  { unfold t. destruct (dictIsRehashing d2) eqn:Hreh; [|done].
    by destruct (rehashing_tables _ d2 Hwf2 Hreh) as (_ & ? & _). }
  destruct (bucket_hash (ht_at d2 t) (hashFunction (d_type d1) k)
    (wf_shape _ _ (ht_at_wf d2 t Hwf2)) Htt) as [b Hb]; [apply (wf_type _ _ Hwf1)|].
  destruct (hash_index_small d2 t k b Hwf2) as [Hi64 Hne]; [by rewrite ET2|].
  rewrite ET2 in Hi64, Hne. rewrite Hi64, decide_False, Hb by done. cbn [mbind option_bind].
  destruct (push_entry_ok d2 t k b Hwf2) as (Hwf' & ET' & EI' & Hat & Hp');
    [by rewrite Hp|done|done|by rewrite ET2|].
  rewrite ET2 in *. eexists _, None, _. split; [done|].
  split_and!; [done|exact ET'|by etransitivity; [exact EI'|]|].
  right. eexists. split_and!; [done|done| |exact Hat|etransitivity; [exact Hp'|by rewrite Hp]].
  by rewrite <- (dict_map_perm key_id d2 d (wf_nodup _ _ Hwf2) Hp).
Qed.

(** [m_dictAdd] stores the pair when the key is new and changes nothing
    otherwise. *)
Lemma add_ok can d k v :
  wf d -> Z.of_nat (length (entries d)) + 1 < MAX_ENTRIES ->
  ∃ st d', m_dictAdd can d k v = Some (st, d') ∧ wf d' ∧ d_type d' = d_type d ∧
    match dict_map key_id d !! key_id k with
    | Some _ => st = DICT_ERR ∧ dict_map key_id d' = dict_map key_id d
    | None => st = DICT_OK ∧ dict_map key_id d' =
        <[key_id k := (dictSetKey (d_type d) k, Some (dictSetVal (d_type d) v))]> (dict_map key_id d)
    end.
Proof.
  intros Hwf Hmax. unfold m_dictAdd.
  destruct (add_raw_ok can d k Hwf Hmax) as (entry & existing & d1 & -> & Hwf1 & ET & EI &
    [(l & e & -> & -> & Hat & Hid & Hp)|(l & -> & -> & Hnone & Hat & Hp)]); cbn [mbind option_bind].
  - exists DICT_ERR, d1. split_and!; try done.
    assert (dict_map key_id d1 = dict_map key_id d) as Em.
    { symmetry. by apply dict_map_perm; [apply (wf_nodup _ _ Hwf)|]. }
    pose proof (entry_at_map d1 l e Hwf1 Hat) as Hl. rewrite Em, Hid in Hl. by rewrite Hl.
  - rewrite Hnone.
    destruct (store_val_ok d1 l _ v Hwf1 Hat) as (d' & rest & -> & Hwf' & ET' & _ & Hr & Hp').
    cbn [mbind option_bind]. exists DICT_OK, d'. split_and!; [done..|congruence|done|].
    rewrite Hp in Hr. apply Permutation_cons_inv in Hr.
    rewrite <- Hr in Hp'. rewrite (dict_map_cons key_id d d' _ (wf_nodup _ _ Hwf') Hp').
    destruct (wf_type _ _ Hwf) as [_ _ _ Hdup].
    unfold entry_id. cbn [de_key de_val]. by rewrite ET, Hdup.
Qed.
(** [m_dictReplace] always stores the pair; on an update the key stays the one
    stored before, and the old value is handed to the destructor, once. *)
Lemma replace_ok can d k v :
  wf d -> Z.of_nat (length (entries d)) + 1 < MAX_ENTRIES ->
  ∃ r freed d', m_dictReplace can d k v = Some (r, freed, d') ∧ wf d' ∧ d_type d' = d_type d ∧
    match dict_map key_id d !! key_id k with
    | Some (k0, v0) => r = 0 ∧ freed = (if valDestructor (d_type d) then [FreeVal v0] else []) ∧
        dict_map key_id d' = <[key_id k := (k0, Some (dictSetVal (d_type d) v))]> (dict_map key_id d)
    | None => r = 1 ∧ freed = [] ∧ dict_map key_id d' =
        <[key_id k := (dictSetKey (d_type d) k, Some (dictSetVal (d_type d) v))]> (dict_map key_id d)
    end.
Proof.
  intros Hwf Hmax. unfold m_dictReplace. destruct (wf_type _ _ Hwf) as [_ _ _ Hdup].
  destruct (add_raw_ok can d k Hwf Hmax) as (entry & existing & d1 & -> & Hwf1 & ET & EI &
    [(l & e & -> & -> & Hat & Hid & Hp)|(l & -> & -> & Hnone & Hat & Hp)]); cbn [mbind option_bind].
  - destruct (store_val_ok d1 l e v Hwf1 Hat) as (d' & rest & Es & Hwf' & ET' & _ & Hr & Hp').
    rewrite Hat. cbn [mbind option_bind]. rewrite Es. cbn [mbind option_bind]. rewrite ET in ET'.
    eexists _, _, d'. split; [done|]. split_and!; [done|congruence|].
    assert (dict_map key_id d1 = dict_map key_id d) as Em.
    { symmetry. by apply dict_map_perm; [apply (wf_nodup _ _ Hwf)|]. }
    pose proof (entry_at_map d1 l e Hwf1 Hat) as Hl. rewrite Em, Hid in Hl. rewrite Hl.
    split_and!; [done|unfold dictFreeVal; by rewrite ET'|]. rewrite <- Em. rewrite ET in Hp'.
    set (dr := Dict (d_type d) (DictHt [rest] 0 0 0) _dictReset (-1) 0).
    assert (entries dr = rest) as Er.
    { unfold entries, ht_entries, dr. cbn. by rewrite !app_nil_r. }
    rewrite <- Er in Hr, Hp'.
    rewrite (dict_map_cons key_id dr d' _ (wf_nodup _ _ Hwf') Hp').
    rewrite (dict_map_cons key_id dr d1 _ (wf_nodup _ _ Hwf1) Hr).
    unfold entry_id in *. cbn [de_key de_val] in *. by rewrite Hid, insert_insert_eq.
  - rewrite Hnone.
    destruct (store_val_ok d1 l _ v Hwf1 Hat) as (d' & rest & -> & Hwf' & ET' & _ & Hr & Hp').
    cbn [mbind option_bind]. exists 1, [], d'. split_and!; [done..|congruence|done|done|].
    rewrite Hp in Hr. apply Permutation_cons_inv in Hr.
    rewrite <- Hr in Hp'. rewrite (dict_map_cons key_id d d' _ (wf_nodup _ _ Hwf') Hp').
    unfold entry_id. cbn [de_key de_val]. by rewrite ET, Hdup.
Qed.

(** ** Lookup *)
Lemma empty_map_lookup d i :
  wf d -> ht_used (ht0 d) + ht_used (ht1 d) = 0 -> dict_map key_id d !! i = None.
Proof.
  intros Hwf Hu. rewrite <- (length_entries key_id d Hwf) in Hu.
  unfold dict_map. destruct (entries d); [done|simpl in Hu; lia].
Qed.

Lemma find_ok d k :
  wf d -> ∃ he d', m_dictFind d k = Some (he, d') ∧ wf d' ∧ same_content d d' ∧
    match he with
    | Some e => eid e = key_id k ∧ dict_map key_id d !! key_id k = Some (de_key e, de_val e)
    | None => dict_map key_id d !! key_id k = None
    end.
Proof.
  intros Hwf. unfold m_dictFind. pose proof (used_range _ d Hwf) as (? & ? & ?).
  unfold MAX_ENTRIES in *. rewrite u64_small by lia. case_decide as Hz.
  { exists None, d. split_and!; try done. by apply empty_map_lookup. }
  assert (ht_table (ht0 d) ≠ []) as Ht.
  { apply (entries_ht0 key_id); [done|]. intros E.
    pose proof (length_entries _ d Hwf) as El. rewrite E in El. simpl in El. lia. }
  destruct (rehash_step_ok key_id d Hwf) as (d' & -> & Hwf' & Hsc & Ht'). cbn [mbind option_bind].
  destruct (find_key_ok d' k Hwf' (Ht' Ht)) as (r & -> & Hr). cbn [mbind option_bind].
  rewrite <- (same_content_map key_id d d' Hwf Hsc).
  eexists _, d'. split; [done|]. destruct r as [[l e]|]; [|done].
  destruct Hr as [Hl He]. split_and!; [done..|]. rewrite <- He. by eapply entry_at_map.
Qed.

(** ** Deletion *)
Lemma generic_delete_ok d k nofree :
  wf d -> ∃ he freed d', dictGenericDelete d k nofree = Some (he, freed, d') ∧ wf d' ∧
    d_type d' = d_type d ∧ iterators d' = iterators d ∧
    dict_map key_id d' = delete (key_id k) (dict_map key_id d) ∧
    match he with
    | Some e => eid e = key_id k ∧
        dict_map key_id d !! key_id k = Some (de_key e, de_val e) ∧
        freed = (if nofree then [] else dictFreeKey (d_type d) e ++ dictFreeVal (d_type d) e)
    | None => dict_map key_id d !! key_id k = None ∧ freed = []
    end.
Proof.
  intros Hwf. unfold dictGenericDelete.
  case_decide as Hz.
  { assert (dict_map key_id d !! key_id k = None) by (apply empty_map_lookup; [done|lia]).
    exists None, [], d. split_and!; try done. by rewrite delete_id. }
  assert (ht_table (ht0 d) ≠ []) as Ht.
  { apply (entries_ht0 key_id); [done|]. intros E. apply Hz.
    pose proof (length_entries _ d Hwf) as El. pose proof (used_range _ d Hwf) as (? & ? & _).
    rewrite E in El. simpl in El. lia. }
  destruct (rehash_step_ok key_id d Hwf) as (d1 & -> & Hwf1 & Hsc & Ht1). cbn [mbind option_bind].
  destruct (find_key_ok d1 k Hwf1 (Ht1 Ht)) as (r & -> & Hr). cbn [mbind option_bind].
  rewrite <- (same_content_map key_id d d1 Hwf Hsc). destruct Hsc as (_ & ET & EI).
  destruct r as [[l e]|]; cycle 1.
  { exists None, [], d1. split_and!; try done. by rewrite delete_id. }
  destruct Hr as [Hl He]. destruct (entry_at_bucket d1 l e Hl) as (b & Hb & _).
  rewrite Hb. cbn [mbind option_bind].
  destruct (chain_unlink_ok d1 l e b Hwf1 Hl Hb) as (Hwf' & ET' & EI' & Hp).
  eexists (Some e), _, _. split; [done|]. rewrite <- ET, <- EI.
  split_and!; [exact Hwf'|exact ET'|exact EI'| |done| |done].
  - rewrite <- He. apply dict_map_uncons; [apply (wf_nodup _ _ Hwf1)|exact Hp].
  - rewrite <- He. by eapply entry_at_map.
Qed.

(** ** Clearing *)
Definition free_entry T e : list (dict_event K V) := dictFreeKey T e ++ dictFreeVal T e.

Lemma clear_chain_ok T he used :
  Z.of_nat (length he) <= used < 2 ^ 64 ->
  clear_chain T he used = (he ≫= free_entry T, used - Z.of_nat (length he)).
Proof.
  revert used. induction he as [|e he IH]; intros used Hu; cbn [clear_chain length] in *.
  { by rewrite Z.sub_0_r. }
  rewrite u64_small by lia. rewrite IH by lia. cbn. unfold free_entry at 2.
  rewrite <- !app_assoc. f_equal. lia.
Qed.

(** The loop frees the entries of the buckets it has not visited, and nothing
    is left when it ends. *)
Lemma clear_loop_ok T n i ht :
  ht_size ht = Z.of_nat (length (ht_table ht)) ->
  (i + n = length (ht_table ht))%nat ->
  ht_used ht = Z.of_nat (length (concat (drop i (ht_table ht)))) -> ht_used ht < 2 ^ 64 ->
  clear_loop T false n (Z.of_nat i) ht = Some (concat (drop i (ht_table ht)) ≫= free_entry T).
Proof.
  revert i ht. induction n as [|n IH]; intros i ht Hs Hi Hu Hlt; cbn [clear_loop].
  { rewrite drop_ge by lia. done. }
  destruct (lookup_lt_is_Some_2 (ht_table ht) i) as [he Hhe]; [lia|].
  rewrite (drop_S _ _ _ Hhe) in Hu |- *. cbn [concat] in *. rewrite length_app in Hu.
  destruct (Z.ltb_spec 0 (ht_used ht)); cbn [negb]; cycle 1.
  { destruct (he ++ concat (drop (S i) (ht_table ht))) eqn:E; [done|].
    apply (f_equal length) in E. rewrite length_app in E. simpl in E. lia. }
  rewrite (proj2 (bucket_Some ht (Z.of_nat i) he)) by (rewrite Nat2Z.id; by split; [lia|]).
  cbn [mbind option_bind andb app]. rewrite clear_chain_ok by lia.
  replace (Z.of_nat i + 1) with (Z.of_nat (S i)) by lia.
  rewrite IH; cbn [set_used ht_table ht_size ht_used]; [|done|lia|lia|lia].
  cbn [mbind option_bind]. by rewrite bind_app.
Qed.

Lemma clear_ok d ht :
  ht_wf (d_type d) ht -> ht_used ht < MAX_ENTRIES ->
  _dictClear d ht false = Some (ht_entries ht ≫= free_entry (d_type d), _dictReset).
Proof.
  intros Hwf Hu. unfold MAX_ENTRIES in Hu. unfold _dictClear.
  rewrite (wf_size _ _ Hwf), Nat2Z.id.
  rewrite (clear_loop_ok (d_type d) _ 0 ht); [done|apply (wf_size _ _ Hwf)|lia| |lia].
  rewrite drop_0. apply (wf_used _ _ Hwf).
Qed.

(** ** Sampling *)

(** A draw of [m_dictGetRandomKey] never leaves the tables, and every entry is
    in a bucket that some draw selects. *)
Definition draw d (r : Z) : option (list (m_dictEntry K V)) :=
  if dictIsRehashing d then
    let h := u64 (rehashidx d + r mod u64 (ht_size (ht0 d) + ht_size (ht1 d) - rehashidx d)) in
    if ht_size (ht0 d) <=? h then bucket (ht1 d) (h - ht_size (ht0 d)) else bucket (ht0 d) h
  else bucket (ht0 d) (Z.land r (ht_sizemask (ht0 d))).

Lemma ht_size_bound T ht : ht_wf T ht -> ht_table ht ≠ [] ->
  4 <= ht_size ht <= 2 ^ 60 ∧ ht_size ht = ht_sizemask ht + 1.
Proof.
  intros Hwf Ht. rewrite (wf_size _ _ Hwf).
  destruct (wf_shape _ _ Hwf) as [[E _]|(k & Hk & -> & ->)]; [done|].
  assert (2 ^ 2 <= 2 ^ k <= 2 ^ 60) by (split; apply Z.pow_le_mono_r; lia). lia.
Qed.

Lemma bucket_in_range T ht i :
  ht_wf T ht -> 0 <= i < ht_size ht -> ∃ b, bucket ht i = Some b.
Proof.
  intros Hwf Hi. rewrite (wf_size _ _ Hwf) in Hi.
  destruct (lookup_lt_is_Some_2 (ht_table ht) (Z.to_nat i)) as [b Hb]; [lia|].
  exists b. apply bucket_Some. by split; [lia|].
Qed.

Lemma draw_spec d r :
  wf d -> ht_table (ht0 d) ≠ [] -> 0 <= r ->
  ∃ b, draw d r = Some b ∧ ∀ e, e ∈ b -> e ∈ entries d.
Proof.
  intros Hwf Ht Hr. pose proof (ht_size_bound _ _ (wf_ht0 _ _ Hwf) Ht) as [Hs0 Em].
  assert (∀ t i b e, bucket (ht_at d t) i = Some b -> e ∈ b -> e ∈ entries d) as Hin.
  { intros t i b e [_ Hb]%bucket_Some He. apply (entries_ht_at d t).
    apply elem_of_concat. eauto. }
  unfold draw. destruct (dictIsRehashing d) eqn:Hreh; cycle 1.
  - destruct (bucket_hash (ht0 d) r (wf_shape _ _ (wf_ht0 _ _ Hwf)) Ht Hr) as [b Hb].
    exists b. split; [done|]. intros e. exact (Hin 0%nat _ b e Hb).
  - destruct (rehashing_tables _ d Hwf Hreh) as (_ & H1 & Hidx & _).
    pose proof (ht_size_bound _ _ (wf_ht1 _ _ Hwf) H1) as [Hs1 _].
    rewrite (u64_small (_ - _)) by lia.
    pose proof (Z.mod_pos_bound r (ht_size (ht0 d) + ht_size (ht1 d) - rehashidx d) ltac:(lia)).
    rewrite u64_small by lia.
    destruct (Z.leb_spec (ht_size (ht0 d))
      (rehashidx d + r mod (ht_size (ht0 d) + ht_size (ht1 d) - rehashidx d))).
    + destruct (bucket_in_range _ (ht1 d) (rehashidx d +
        r mod (ht_size (ht0 d) + ht_size (ht1 d) - rehashidx d) - ht_size (ht0 d))
        (wf_ht1 _ _ Hwf)) as [b Hb]; [lia|].
      exists b. split; [done|]. intros e. exact (Hin 1%nat _ b e Hb).
    + destruct (bucket_in_range _ (ht0 d) (rehashidx d +
        r mod (ht_size (ht0 d) + ht_size (ht1 d) - rehashidx d)) (wf_ht0 _ _ Hwf)) as [b Hb]; [lia|].
      exists b. split; [done|]. intros e. exact (Hin 0%nat _ b e Hb).
Qed.

(** The entries are all within reach: a modulus and a residue that lead to a
    chain that is not empty. *)
Lemma draw_reaches d :
  wf d -> entries d ≠ [] ->
  ∃ n t, 0 <= t < n ∧ ∀ r, 0 <= r -> r mod n = t -> ∃ b, draw d r = Some b ∧ b ≠ [].
Proof.
  intros Hwf Hne. pose proof (entries_ht0 _ d Hwf Hne) as Ht.
  pose proof (ht_size_bound _ _ (wf_ht0 _ _ Hwf) Ht) as [Hs0 Em]. unfold draw.
  destruct (entries d) as [|e l] eqn:El; [done|].
  assert (e ∈ entries d) as He by (rewrite El; by left). clear El Hne.
  destruct (dictIsRehashing d) eqn:Hreh; cycle 1.
  - destruct (not_rehashing_tables _ d Hwf Hreh) as (_ & _ & Ee & _). rewrite Ee in He.
    apply elem_of_concat in He as (i & b & Hi & He). apply lookup_lt_Some in Hi as Hlt.
    pose proof (wf_size _ _ (wf_ht0 _ _ Hwf)) as Hsz.
    exists (ht_size (ht0 d)), (Z.of_nat i). split; [lia|]. intros r Hr Hm.
    exists b. split; [|by intros ->; apply elem_of_nil in He].
    apply bucket_Some. destruct (wf_shape _ _ (wf_ht0 _ _ Hwf)) as [[? _]|(k & Hk & E & Ek)]; [done|].
    rewrite Hsz, E in Hm. rewrite Ek.
    replace (2 ^ k - 1) with (Z.ones k) by (rewrite Z.ones_equiv; lia).
    rewrite Z.land_ones, Hm, Nat2Z.id by lia.
    by split; [lia|].
  - destruct (rehashing_tables _ d Hwf Hreh) as (_ & H1 & Hidx & Hnil).
    pose proof (ht_size_bound _ _ (wf_ht1 _ _ Hwf) H1) as [Hs1 _].
    set (n := ht_size (ht0 d) + ht_size (ht1 d) - rehashidx d).
    assert (u64 n = n) as En by (apply u64_small; lia).
    apply elem_of_app in He as [He|He]; apply elem_of_concat in He as (i & b & Hi & He);
      apply lookup_lt_Some in Hi as Hlt;
      (assert (b ≠ []) as Hb by (by intros ->; apply elem_of_nil in He)).
    + pose proof (wf_size _ _ (wf_ht0 _ _ Hwf)) as Hz0.
      assert (rehashidx d <= Z.of_nat i).
      { destruct (decide (Z.of_nat i < rehashidx d)) as [Hx|]; [|lia].
        rewrite (Hnil i Hx) in Hi. by simplify_eq. }
      exists n, (Z.of_nat i - rehashidx d). split; [lia|]. intros r Hr Hm. exists b. split; [|done].
      fold n. rewrite En, Hm, u64_small by lia.
      destruct (Z.leb_spec (ht_size (ht0 d)) (rehashidx d + (Z.of_nat i - rehashidx d))); [lia|].
      apply bucket_Some. split; [lia|]. by replace (Z.to_nat _) with i by lia.
    + pose proof (wf_size _ _ (wf_ht1 _ _ Hwf)) as Hz1.
      exists n, (Z.of_nat i + ht_size (ht0 d) - rehashidx d). split; [lia|]. intros r Hr Hm.
      exists b. split; [|done]. fold n. rewrite En, Hm, u64_small by lia.
      destruct (Z.leb_spec (ht_size (ht0 d))
        (rehashidx d + (Z.of_nat i + ht_size (ht0 d) - rehashidx d))); [|lia].
      apply bucket_Some. split; [lia|]. by replace (Z.to_nat _) with i by lia.
Qed.

Lemma pick_bucket_draw fuel d random i :
  pick_bucket (S fuel) d random i =
  he ← draw d (random i);
  match he with [] => pick_bucket fuel d random (S i) | _ => Some (he, S i) end.
Proof. reflexivity. Qed.

Lemma pick_bucket_elem fuel d random i b j :
  wf d -> ht_table (ht0 d) ≠ [] -> (∀ i, 0 <= random i) ->
  pick_bucket fuel d random i = Some (b, j) -> b ≠ [] ∧ ∀ e, e ∈ b -> e ∈ entries d.
Proof.
  intros Hwf Ht Hr. revert i. induction fuel as [|fuel IH]; intros i; [done|].
  rewrite pick_bucket_draw.
  destruct (draw_spec d (random i) Hwf Ht (Hr i)) as (b' & -> & Hb'). cbn [mbind option_bind].
  destruct b' as [|e b']; [apply IH|]. intros [= <- <-]. done.
Qed.

Lemma pick_bucket_hit d random i k b :
  wf d -> ht_table (ht0 d) ≠ [] -> (∀ i, 0 <= random i) ->
  draw d (random (i + k)%nat) = Some b -> b ≠ [] ->
  ∃ fuel b' j, pick_bucket fuel d random i = Some (b', j).
Proof.
  intros Hwf Ht Hr. revert i. induction k as [|k IH]; intros i Hd Hb.
  - rewrite Nat.add_0_r in Hd. exists 1%nat. rewrite pick_bucket_draw, Hd.
    cbn [mbind option_bind]. destruct b; [done|]. by eexists _, _.
  - destruct (draw_spec d (random i) Hwf Ht (Hr i)) as (c & Hc & _).
    destruct (IH (S i)) as (fuel & b' & j & E); [|done|].
    { by rewrite Nat.add_succ_l, <- Nat.add_succ_r. }
    exists (S fuel). rewrite pick_bucket_draw, Hc. cbn [mbind option_bind].
    destruct c; [eauto|by eexists _, _].
Qed.
End spec.
