(* ===== verification/DictProps.v ===== *)
(** * DictProps: what the dict promises

    The properties of dep/dict.c, from the lemmas of [DictRehash] and
    [DictSpec], each with a witness on a concrete dict that is in the middle of
    a rehashing. *)

From S2P Require Import Prelude.
From S2P Require Import SipHash.
From S2P Require Import Dict.
From S2P Require Import DictInv.
From S2P Require Import DictRehash.
From S2P Require Import DictSpec.
Local Open Scope Z_scope.

(** ** A concrete dict *)

(** Integer keys, hashed by their value. *)
Definition ex_type : m_dictType Z nat :=
  DictType u64 None None (Some Z.eqb) true true.

#[export] Instance ex_type_ok : DictTypeOk ex_type (λ k : Z, k).
Proof.
  split; cbn; [intros k; apply u64_range|by intros ?? ->|intros; apply Z.eqb_eq|done].
Qed.

Section props.
Context {K V I : Type} `{EqDecision K} `{Countable I} (key_id : K -> I).
Implicit Types (T : m_dictType K V) (d : dict K V).

Lemma create_wf T : DictTypeOk T key_id -> dict_wf key_id (m_dictCreate T).
Proof.
  intros HT. split; cbn; [done|apply ht_wf_reset|apply ht_wf_reset|by left| |done|lia].
  apply NoDup_nil_2.
Qed.

(** Adding a list of pairs, what is left of an error apart. *)
Definition add_all (kvs : list (K * V)) d : dict K V :=
  foldl (λ d kv, match m_dictAdd true d kv.1 kv.2 with Some (_, d') => d' | None => d end) d kvs.

Lemma add_all_wf kvs d :
  dict_wf key_id d -> Z.of_nat (length (entries d) + length kvs) < MAX_ENTRIES ->
  dict_wf key_id (add_all kvs d).
Proof using All.
  revert d. induction kvs as [|[k v] kvs IH]; intros d Hwf Hs; simpl in *; [done|].
  destruct (add_ok key_id true d k v Hwf ltac:(lia)) as (st & d' & -> & Hwf' & _ & Hm).
  apply IH; [done|]. rewrite <- (dict_map_size key_id d') by apply (wf_nodup _ _ Hwf').
  rewrite <- (dict_map_size key_id d) in Hs by apply (wf_nodup _ _ Hwf).
  destruct (dict_map key_id d !! key_id k) eqn:E; destruct Hm as [_ ->]; [lia|].
  rewrite map_size_insert_None by done. lia.
Qed.
End props.

(** Five pairs: a table of four buckets with a rehashing to eight under way. *)
Definition ex_dict : dict Z nat :=
  add_all [(1, 10%nat); (2, 20%nat); (3, 30%nat); (5, 50%nat); (6, 60%nat)] (m_dictCreate ex_type).

Lemma ex_dict_wf : dict_wf (λ k : Z, k) ex_dict.
Proof. apply add_all_wf; [apply create_wf, ex_type_ok|vm_compute; done]. Qed.

Example ex_dict_rehashing :
  dictIsRehashing ex_dict = true ∧ ht_size (ht0 ex_dict) = 4 ∧ ht_size (ht1 ex_dict) = 8.
Proof. vm_compute. done. Qed.

Section props.
Context {K V I : Type} `{EqDecision K} `{Countable I} (key_id : K -> I).
Implicit Types (T : m_dictType K V) (d : dict K V).

(** ** Properties *)

(** C15. [m_dictAdd] refines map insertion: a new key is stored with the value,
    an existing one is reported and nothing changes; the dict stays well
    formed whatever resizing and rehashing the call does, and no access is
    undefined. *)
Theorem m_dictAdd_spec can d k v :
  dict_wf key_id d -> Z.of_nat (length (entries d)) + 1 < MAX_ENTRIES ->
  ∃ st d', m_dictAdd can d k v = Some (st, d') ∧ dict_wf key_id d' ∧ d_type d' = d_type d ∧
    match dict_map key_id d !! key_id k with
    | Some _ => st = DICT_ERR ∧ dict_map key_id d' = dict_map key_id d
    | None => st = DICT_OK ∧ dict_map key_id d' =
        <[key_id k := (dictSetKey (d_type d) k, Some (dictSetVal (d_type d) v))]> (dict_map key_id d)
    end.
Proof. apply add_ok. Qed.

(** [m_dictReplace] always stores the value; it returns 1 for a new key, and
    0 for a known one, whose stored key stays and whose old value goes to the
    value destructor exactly once. *)
Theorem m_dictReplace_spec can d k v :
  dict_wf key_id d -> Z.of_nat (length (entries d)) + 1 < MAX_ENTRIES ->
  ∃ r freed d', m_dictReplace can d k v = Some (r, freed, d') ∧ dict_wf key_id d' ∧
    d_type d' = d_type d ∧
    match dict_map key_id d !! key_id k with
    | Some (k0, v0) => r = 0 ∧ freed = (if valDestructor (d_type d) then [FreeVal v0] else []) ∧
        dict_map key_id d' = <[key_id k := (k0, Some (dictSetVal (d_type d) v))]> (dict_map key_id d)
    | None => r = 1 ∧ freed = [] ∧ dict_map key_id d' =
        <[key_id k := (dictSetKey (d_type d) k, Some (dictSetVal (d_type d) v))]> (dict_map key_id d)
    end.
Proof. apply replace_ok. Qed.

(** [m_dictFetchValue] is map lookup: on an empty dict, before and during
    a rehashing, and whatever the rehashing step of the call moves. *)
Theorem m_dictFetchValue_spec d k :
  dict_wf key_id d ->
  ∃ d', m_dictFetchValue d k = Some (dict_map key_id d !! key_id k ≫= snd, d') ∧
    dict_wf key_id d' ∧ dict_map key_id d' = dict_map key_id d.
Proof.
  intros Hwf. unfold m_dictFetchValue.
  destruct (find_ok key_id d k Hwf) as (he & d' & -> & Hwf' & Hsc & Hhe). exists d'.
  rewrite (same_content_map key_id d d' Hwf Hsc). cbn [mbind option_bind].
  split_and!; [|done..]. destruct he as [e|]; [by destruct Hhe as [_ ->]|by rewrite Hhe].
Qed.

Lemma dict_delete_ok d k :
  dict_wf key_id d ->
  ∃ st freed d', m_dictDelete d k = Some (st, freed, d') ∧ dict_wf key_id d' ∧
    d_type d' = d_type d ∧ dict_map key_id d' = delete (key_id k) (dict_map key_id d) ∧
    match dict_map key_id d !! key_id k with
    | Some (k0, v0) => st = DICT_OK ∧
        freed = (if keyDestructor (d_type d) then [FreeKey k0] else []) ++
                (if valDestructor (d_type d) then [FreeVal v0] else [])
    | None => st = DICT_ERR ∧ freed = []
    end.
Proof.
  intros Hwf. unfold m_dictDelete.
  destruct (generic_delete_ok key_id d k false Hwf) as (he & freed & d' & -> & Hwf' & ET & _ & Hm & Hhe).
  cbn [mbind option_bind]. eexists _, _, d'. split; [done|]. split_and!; [done..|].
  destruct he as [e|].
  - destruct Hhe as (_ & -> & ->). by split.
  - by destruct Hhe as (-> & ->).
Qed.

(** C19. [m_dictDelete] removes the key and its value, both handed to their
    destructors exactly once, or reports that there is none and frees
    nothing. *)
Theorem m_dictDelete_spec d k :
  dict_wf key_id d ->
  ∃ st freed d', m_dictDelete d k = Some (st, freed, d') ∧ dict_wf key_id d' ∧
    d_type d' = d_type d ∧ dict_map key_id d' = delete (key_id k) (dict_map key_id d) ∧
    match dict_map key_id d !! key_id k with
    | Some (k0, v0) => st = DICT_OK ∧
        freed = (if keyDestructor (d_type d) then [FreeKey k0] else []) ++
                (if valDestructor (d_type d) then [FreeVal v0] else [])
    | None => st = DICT_ERR ∧ freed = []
    end.
Proof. apply dict_delete_ok. Qed.

(** [m_dictUnlink] followed by [m_dictFreeUnlinkedEntry] does what
    [m_dictDelete] does: the entry can be used in between without a second
    lookup, and is freed once. *)
Theorem m_dictUnlink_free d k :
  dict_wf key_id d ->
  ∃ he d', m_dictUnlink d k = Some (he, d') ∧
    m_dictDelete d k = Some (if he is Some _ then DICT_OK else DICT_ERR,
                             m_dictFreeUnlinkedEntry d' he, d') ∧
    he = '(k0, v0) ← dict_map key_id d !! key_id k; Some (Entry k0 v0).
Proof.
  intros Hwf. unfold m_dictUnlink, m_dictDelete, m_dictFreeUnlinkedEntry.
  destruct (generic_delete_ok key_id d k true Hwf) as (he & freed & d' & E & _ & ET & _ & _ & Hhe).
  assert (dictGenericDelete d k false =
    Some (he, match he with None => [] | Some e => dictFreeKey (d_type d) e ++ dictFreeVal (d_type d) e end, d'))
    as ->.
  { revert E. unfold dictGenericDelete. case_decide; [by intros [= <- _ <-]|].
    destruct (rehash_step_ok key_id d Hwf) as (d1 & -> & _ & (_ & <- & _) & _).
    cbn [mbind option_bind].
    destruct (find_in_tables _ _ _) as [[[l e]|]|]; cbn [mbind option_bind];
      [|by intros [= <- _ <-]|done].
    destruct (bucket _ _); [|done]. cbn [mbind option_bind]. by intros [= <- _ <-]. }
  rewrite E. cbn [mbind option_bind]. exists he, d'. rewrite ET. split_and!; [done..|].
  destruct he as [[k0 v0]|]; [by destruct Hhe as (_ & -> & _)|by destruct Hhe as (-> & _)].
Qed.

(** C21. Incremental rehashing is invisible: it keeps the map.  [m_dictRehash]
    returns 0 exactly when no rehashing is left, and otherwise has passed [n]
    more buckets of the old table, so a rehashing ends after as many calls as
    the old table has buckets, divided by [n]. *)
Theorem m_dictRehash_spec d n :
  dict_wf key_id d ->
  ∃ r d', m_dictRehash d n = Some (r, d') ∧ dict_wf key_id d' ∧
    dict_map key_id d' = dict_map key_id d ∧
    (r = 0 ∧ dictIsRehashing d' = false ∨
     r = 1 ∧ dictIsRehashing d' = true ∧ ht_size (ht0 d') = ht_size (ht0 d) ∧
       rehashidx d + Z.of_nat n <= rehashidx d' < ht_size (ht0 d)).
Proof.
  intros Hwf. destruct (rehash_ok key_id d n Hwf) as (r & d' & E & Hwf' & Hsc & _ & Hc).
  exists r, d'. split_and!; [done..| |done]. by apply same_content_map.
Qed.

Lemma rehash_ms_total d ms clock :
  dict_wf key_id d ->
  ∃ rehashes d', m_dictRehashMilliseconds d ms clock = Some (rehashes, d') ∧
    dict_wf key_id d' ∧ same_content d d'.
Proof.
  intros Hwf. destruct (dictIsRehashing d) eqn:Hr.
  - destruct (rehashing_tables _ d Hwf Hr) as (_ & _ & Hidx & _).
    destruct (rehash_ms_loop_ok key_id (S (length (ht_table (ht0 d)))) d ms (clock 0%nat) clock 1 0 Hwf)
      as (rs & d' & E & Hwf' & Hsc); [lia|rewrite (wf_size _ _ (wf_ht0 _ _ Hwf)); lia|].
    by exists rs, d'.
  - exists 0, d. unfold m_dictRehashMilliseconds. cbn [rehash_ms_loop].
    unfold m_dictRehash. by rewrite Hr.
Qed.

(** [m_dictRehashMilliseconds] returns, whatever the clock says, and keeps
    the map. *)
Theorem m_dictRehashMilliseconds_total d ms clock :
  dict_wf key_id d ->
  ∃ rehashes d', m_dictRehashMilliseconds d ms clock = Some (rehashes, d') ∧
    dict_wf key_id d' ∧ dict_map key_id d' = dict_map key_id d.
Proof.
  intros Hwf. destruct (rehash_ms_total d ms clock Hwf) as (rs & d' & E & Hwf' & Hsc).
  exists rs, d'. split_and!; [done..|]. by apply same_content_map.
Qed.

Lemma resize_type can d st d' : m_dictResize can d = Some (st, d') -> d_type d' = d_type d.
Proof.
  unfold m_dictResize, m_dictExpand. destruct (_ || _); [by intros [= <- <-]|].
  destruct (_ || _); [by intros [= <- <-]|].
  destruct (_dictNextPower _) as [rs|]; [|done]. cbn [mbind option_bind].
  case_decide; [by intros [= <- <-]|]. destruct (alloc_table rs) as [t|]; [|done].
  cbn [mbind option_bind]. by destruct (ht_table (ht0 d)); intros [= <- <-].
Qed.

Lemma dict_resize_ok can d :
  dict_wf key_id d -> ht_used (ht0 d) < 2 ^ 31 ->
  ∃ st d', m_dictResize can d = Some (st, d') ∧ dict_wf key_id d' ∧
    dict_map key_id d' = dict_map key_id d ∧
    (st = DICT_ERR ∧ d' = d ∨
     st = DICT_OK ∧ can = true ∧ dictIsRehashing d = false ∧
     ∃ m, 2 <= m ∧ ht_used (ht0 d) <= 2 ^ m ∧ (∀ j, 2 <= j -> ht_used (ht0 d) <= 2 ^ j -> m <= j) ∧
       ht_size (ht0 d) ≠ 2 ^ m ∧
       ht_size (if dictIsRehashing d' then ht1 d' else ht0 d') = 2 ^ m).
Proof.
  intros Hwf Hu. unfold m_dictResize. pose proof (used_range _ d Hwf) as (Hu0 & _ & _).
  destruct can; cbn [negb orb]; [|exists DICT_ERR, d; split_and!; [done..|by left]].
  destruct (dictIsRehashing d) eqn:Hr; [exists DICT_ERR, d; split_and!; [done..|by left]|].
  unfold DICT_HT_INITIAL_SIZE. rewrite i32_small by lia.
  set (minimal := if ht_used (ht0 d) <? 4 then 4 else ht_used (ht0 d)).
  assert (ht_used (ht0 d) <= minimal ∧ 4 <= minimal < 2 ^ 31 ∧
          (minimal = 4 ∨ minimal = ht_used (ht0 d))) as (Hm1 & Hm2 & Hm3)
    by (unfold minimal; destruct (Z.ltb_spec (ht_used (ht0 d)) 4); lia).
  rewrite u64_small by lia.
  destruct (expand_ok key_id d minimal Hwf Hr ltac:(lia)) as
    (st & d' & m & E & Hwf' & Hsc & Hm & Hle & Hmin & _ & Hc).
  exists st, d'. split_and!; [done..|by apply same_content_map|].
  destruct Hc as [(-> & -> & _)|(-> & Hne & Hc)]; [by left|right].
  split_and!; [done..|]. exists m. split_and!; [done|lia| |done|].
  - intros j Hj Hle'. apply Hmin; [done|].
    assert (2 ^ 2 <= 2 ^ j) by (apply Z.pow_le_mono_r; lia). destruct Hm3; lia.
  - destruct Hc as [(_ & -> & Hs)|(_ & Hi & _ & Hs)]; [done|].
    by assert (dictIsRehashing d' = true) as -> by (apply bool_decide_eq_true; lia).
Qed.

(** [m_dictResize] shrinks or grows the table to the least power of two
    that holds the entries, 4 at least, and keeps the map; it reports an error
    and changes nothing while resizing is disabled, while a rehashing is in
    progress, and when the table has that size already. *)
Theorem m_dictResize_spec can d :
  dict_wf key_id d -> ht_used (ht0 d) < 2 ^ 31 ->
  ∃ st d', m_dictResize can d = Some (st, d') ∧ dict_wf key_id d' ∧
    dict_map key_id d' = dict_map key_id d ∧
    (st = DICT_ERR ∧ d' = d ∨
     st = DICT_OK ∧ can = true ∧ dictIsRehashing d = false ∧
     ∃ m, 2 <= m ∧ ht_used (ht0 d) <= 2 ^ m ∧ (∀ j, 2 <= j -> ht_used (ht0 d) <= 2 ^ j -> m <= j) ∧
       ht_size (ht0 d) ≠ 2 ^ m ∧
       ht_size (if dictIsRehashing d' then ht1 d' else ht0 d') = 2 ^ m).
Proof. apply dict_resize_ok. Qed.

Lemma dict_empty_ok d :
  dict_wf key_id d ->
  ∃ d', m_dictEmpty d false = Some (entries d ≫= free_entry (d_type d), d') ∧
    dict_wf key_id d' ∧ dict_map key_id d' = ∅ ∧ d' = m_dictCreate (d_type d).
Proof.
  intros Hwf. pose proof (used_range _ d Hwf) as (? & ? & ?). unfold m_dictEmpty.
  rewrite (clear_ok d (ht0 d)) by (apply (wf_ht0 _ _ Hwf) || lia). cbn [mbind option_bind].
  rewrite (clear_ok d (ht1 d)) by (apply (wf_ht1 _ _ Hwf) || lia). cbn [mbind option_bind].
  eexists. split; [unfold entries; by rewrite bind_app|].
  split_and!; [|done..]. apply (create_wf key_id), (wf_type _ _ Hwf).
Qed.

(** [m_dictEmpty] leaves an empty dict and hands every key and every value
    to its destructor exactly once. *)
Theorem m_dictEmpty_spec d :
  dict_wf key_id d ->
  ∃ d', m_dictEmpty d false = Some (entries d ≫= free_entry (d_type d), d') ∧
    dict_wf key_id d' ∧ dict_map key_id d' = ∅ ∧ d' = m_dictCreate (d_type d).
Proof. apply dict_empty_ok. Qed.

Lemma random_key_ok d random :
  dict_wf key_id d -> (∀ i, 0 <= random i) ->
  (∀ n t, 0 <= t < n -> ∃ i, random i mod n = t) ->
  (entries d = [] -> ∀ fuel, m_dictGetRandomKey fuel d random = Some (None, d)) ∧
  (entries d ≠ [] -> ∃ fuel e d', m_dictGetRandomKey fuel d random = Some (Some e, d')) ∧
  (∀ fuel e d', m_dictGetRandomKey fuel d random = Some (Some e, d') ->
     e ∈ entries d ∧ dict_wf key_id d' ∧ dict_map key_id d' = dict_map key_id d ∧ d_type d' = d_type d).
Proof.
  intros Hwf Hr Hfair. unfold m_dictGetRandomKey. rewrite (dictSize_entries key_id d Hwf).
  destruct (rehash_step_ok key_id d Hwf) as (d1 & -> & Hwf1 & Hsc & Ht1). cbn [mbind option_bind].
  split_and!.
  - by intros ->.
  - intros Hne. assert (Z.of_nat (length (entries d)) ≠ 0) by (destruct (entries d); simpl; done || lia).
    assert (entries d1 ≠ []) as Hne1.
    { destruct Hsc as (Hp & _). intros E. rewrite E in Hp. by apply Permutation_nil in Hp. }
    pose proof (entries_ht0 _ d1 Hwf1 Hne1) as Ht.
    destruct (draw_reaches key_id d1 Hwf1 Hne1) as (n & t & Htn & Hd).
    destruct (Hfair n t Htn) as [k Hk]. destruct (Hd _ (Hr k) Hk) as (b & Hb & Hbn).
    destruct (pick_bucket_hit key_id d1 random 0 k b Hwf1 Ht Hr Hb Hbn) as (fuel & b' & j & E).
    destruct (pick_bucket_elem key_id fuel d1 random 0 b' j Hwf1 Ht Hr E) as [Hb' _].
    pose proof (Z.mod_pos_bound (random j) (Z.of_nat (length b'))
      ltac:(destruct b'; [done|simpl; lia])) as Hpos.
    destruct (lookup_lt_is_Some_2 b' (Z.to_nat (random j mod Z.of_nat (length b')))) as [e He]; [lia|].
    exists fuel, e, d1. rewrite decide_False, E by done. cbn [mbind option_bind]. rewrite He. done.
  - intros fuel e d'. case_decide as Hz; [done|].
    assert (ht_table (ht0 d1) ≠ []) as Ht.
    { apply Ht1, (entries_ht0 key_id); [done|]. by intros E; rewrite E in Hz. }
    destruct (pick_bucket fuel d1 random 0) as [[b j]|] eqn:E; [|done]. cbn [mbind option_bind].
    destruct (b !! _) as [e'|] eqn:He; [|done]. intros [= <- <-].
    destruct (pick_bucket_elem key_id fuel d1 random 0 b j Hwf1 Ht Hr E) as [_ Hin].
    split_and!; [|done|by apply same_content_map|by apply Hsc]. destruct Hsc as (Hp & _). rewrite <- Hp.
    apply Hin. by eapply list_elem_of_lookup_2.
Qed.

(** [m_dictGetRandomKey] returns NULL for an empty dict and an entry of the
    dict otherwise, with no access outside the tables; its retry loop ends
    under every source of randomness that takes each residue again and
    again. *)
Theorem m_dictGetRandomKey_spec d random :
  dict_wf key_id d -> (∀ i, 0 <= random i) ->
  (∀ n t, 0 <= t < n -> ∃ i, random i mod n = t) ->
  (entries d = [] -> ∀ fuel, m_dictGetRandomKey fuel d random = Some (None, d)) ∧
  (entries d ≠ [] -> ∃ fuel e d', m_dictGetRandomKey fuel d random = Some (Some e, d')) ∧
  (∀ fuel e d', m_dictGetRandomKey fuel d random = Some (Some e, d') ->
     e ∈ entries d ∧ dict_wf key_id d' ∧ dict_map key_id d' = dict_map key_id d ∧ d_type d' = d_type d).
Proof. apply random_key_ok. Qed.
End props.

(** [_dictNextPower] returns the least power of two that is at least [size]
    and 4, below [LONG_MAX]. *)
Theorem dictNextPower_spec size :
  0 <= size < LONG_MAX ->
  ∃ m, 2 <= m <= 63 ∧ _dictNextPower size = Some (2 ^ m) ∧ size <= 2 ^ m ∧
    ∀ j, 2 <= j -> size <= 2 ^ j -> m <= j.
Proof. apply next_power_spec. Qed.

(** ** Witnesses *)
Lemma m_dictAdd_spec_witness :
  ∃ st d', m_dictAdd true ex_dict 7 70%nat = Some (st, d') ∧ dict_wf (λ k : Z, k) d' ∧
    d_type d' = d_type ex_dict ∧
    match dict_map (λ k : Z, k) ex_dict !! 7 with
    | Some _ => st = DICT_ERR ∧ dict_map (λ k : Z, k) d' = dict_map (λ k : Z, k) ex_dict
    | None => st = DICT_OK ∧ dict_map (λ k : Z, k) d' =
        <[7 := (dictSetKey (d_type ex_dict) 7, Some (dictSetVal (d_type ex_dict) 70%nat))]> (dict_map (λ k : Z, k) ex_dict)
    end.
Proof. apply (m_dictAdd_spec (λ k : Z, k) true ex_dict 7 70%nat); [apply ex_dict_wf|vm_compute; done]. Defined.

Lemma m_dictReplace_spec_witness :
  ∃ r freed d', m_dictReplace true ex_dict 3 31%nat = Some (r, freed, d') ∧
    dict_wf (λ k : Z, k) d' ∧ d_type d' = d_type ex_dict ∧
    match dict_map (λ k : Z, k) ex_dict !! 3 with
    | Some (k0, v0) => r = 0 ∧ freed = (if valDestructor (d_type ex_dict) then [FreeVal v0] else []) ∧
        dict_map (λ k : Z, k) d' = <[3 := (k0, Some (dictSetVal (d_type ex_dict) 31%nat))]> (dict_map (λ k : Z, k) ex_dict)
    | None => r = 1 ∧ freed = [] ∧ dict_map (λ k : Z, k) d' =
        <[3 := (dictSetKey (d_type ex_dict) 3, Some (dictSetVal (d_type ex_dict) 31%nat))]> (dict_map (λ k : Z, k) ex_dict)
    end.
Proof. apply (m_dictReplace_spec (λ k : Z, k) true ex_dict 3 31%nat); [apply ex_dict_wf|vm_compute; done]. Defined.

Lemma m_dictFetchValue_spec_witness :
  ∃ d', m_dictFetchValue ex_dict 5 = Some (dict_map (λ k : Z, k) ex_dict !! 5 ≫= snd, d') ∧
    dict_wf (λ k : Z, k) d' ∧ dict_map (λ k : Z, k) d' = dict_map (λ k : Z, k) ex_dict.
Proof. apply (m_dictFetchValue_spec (λ k : Z, k) ex_dict 5), ex_dict_wf. Defined.

Lemma m_dictDelete_spec_witness :
  ∃ st freed d', m_dictDelete ex_dict 5 = Some (st, freed, d') ∧ dict_wf (λ k : Z, k) d' ∧
    d_type d' = d_type ex_dict ∧
    dict_map (λ k : Z, k) d' = delete 5 (dict_map (λ k : Z, k) ex_dict) ∧
    match dict_map (λ k : Z, k) ex_dict !! 5 with
    | Some (k0, v0) => st = DICT_OK ∧ 
        freed = (if keyDestructor (d_type ex_dict) then [FreeKey k0] else []) ++
                (if valDestructor (d_type ex_dict) then [FreeVal v0] else [])
    | None => st = DICT_ERR ∧ freed = []
    end.
Proof. apply (m_dictDelete_spec (λ k : Z, k) ex_dict 5), ex_dict_wf. Defined.

Lemma m_dictUnlink_free_witness :
  ∃ he d', m_dictUnlink ex_dict 2 = Some (he, d') ∧
    m_dictDelete ex_dict 2 = Some (if he is Some _ then DICT_OK else DICT_ERR,
                                   m_dictFreeUnlinkedEntry d' he, d') ∧
    he = '(k0, v0) ← dict_map (λ k : Z, k) ex_dict !! 2; Some (Entry k0 v0).
Proof. apply (m_dictUnlink_free (λ k : Z, k) ex_dict 2), ex_dict_wf. Defined.

Lemma m_dictRehash_spec_witness :
  ∃ r d', m_dictRehash ex_dict 1 = Some (r, d') ∧ dict_wf (λ k : Z, k) d' ∧
    dict_map (λ k : Z, k) d' = dict_map (λ k : Z, k) ex_dict ∧
    (r = 0 ∧ dictIsRehashing d' = false ∨
     r = 1 ∧ dictIsRehashing d' = true ∧ ht_size (ht0 d') = ht_size (ht0 ex_dict) ∧
       rehashidx ex_dict + 1 <= rehashidx d' < ht_size (ht0 ex_dict)).
Proof. apply (m_dictRehash_spec (λ k : Z, k) ex_dict 1), ex_dict_wf. Defined.

Lemma m_dictRehashMilliseconds_total_witness :
  ∃ rehashes d', m_dictRehashMilliseconds ex_dict 1 (λ i, Z.of_nat i) = Some (rehashes, d') ∧
    dict_wf (λ k : Z, k) d' ∧ dict_map (λ k : Z, k) d' = dict_map (λ k : Z, k) ex_dict.
Proof. apply (m_dictRehashMilliseconds_total (λ k : Z, k) ex_dict 1 (λ i, Z.of_nat i)), ex_dict_wf. Defined.

Lemma m_dictResize_spec_witness :
  ∃ st d', m_dictResize true (m_dictCreate ex_type) = Some (st, d') ∧ dict_wf (λ k : Z, k) d' ∧
    dict_map (λ k : Z, k) d' = ∅ ∧
    (st = DICT_ERR ∧ d' = m_dictCreate ex_type ∨
     st = DICT_OK ∧ true = true ∧ dictIsRehashing (m_dictCreate ex_type) = false ∧
     ∃ m, 2 <= m ∧ 0 <= 2 ^ m ∧ (∀ j, 2 <= j -> 0 <= 2 ^ j -> m <= j) ∧ 0 ≠ 2 ^ m ∧
       ht_size (if dictIsRehashing d' then ht1 d' else ht0 d') = 2 ^ m).
Proof.
  apply (m_dictResize_spec (λ k : Z, k) true (m_dictCreate ex_type)); [|vm_compute; done].
  apply create_wf, ex_type_ok.
Defined.

Lemma m_dictEmpty_spec_witness :
  ∃ d', m_dictEmpty ex_dict false = Some (entries ex_dict ≫= free_entry (d_type ex_dict), d') ∧
    dict_wf (λ k : Z, k) d' ∧ dict_map (λ k : Z, k) d' = ∅ ∧ d' = m_dictCreate (d_type ex_dict).
Proof. apply (m_dictEmpty_spec (λ k : Z, k) ex_dict), ex_dict_wf. Defined.

Lemma m_dictGetRandomKey_spec_witness :
  ∃ fuel e d', m_dictGetRandomKey fuel ex_dict Z.of_nat = Some (Some e, d').
Proof.
  apply (m_dictGetRandomKey_spec (λ k : Z, k) ex_dict Z.of_nat);
    [apply ex_dict_wf|lia| |vm_compute; done].
  intros n t Ht. exists (Z.to_nat t). rewrite Z2Nat.id by lia. by apply Z.mod_small.
Defined.

Lemma dictNextPower_spec_witness :
  ∃ m, 2 <= m <= 63 ∧ _dictNextPower 1000 = Some (2 ^ m) ∧ 1000 <= 2 ^ m ∧
    ∀ j, 2 <= j -> 1000 <= 2 ^ j -> m <= j.
Proof. apply dictNextPower_spec. unfold LONG_MAX. lia. Defined.
