(* ===== verification/DictIter.v ===== *)
(** * DictIter: the iterators of dep/dict.c, and sampling

    An iterator keeps two entries by pointer: the one it has returned and the
    next one, which it has read before the caller may delete the first.  An entry
    is known by its key here; [None] is an iterator whose entry is not in its
    bucket any more.  The addresses of the tables, which the fingerprint of an
    unsafe iterator contains, are an argument. *)

From S2P Require Import Prelude.
From S2P Require Import Dict.
Local Open Scope Z_scope.

(** ** Fingerprints *)

(** The arithmetic is on [long long] and wraps; the shift to the right keeps the
    sign. *)
Definition wang_hash (hash : Z) : Z :=
  let hash := i64 (Z.lnot hash + i64 (Z.shiftl hash 21)) in
  let hash := Z.lxor hash (Z.shiftr hash 24) in
  let hash := i64 (i64 (hash + i64 (Z.shiftl hash 3)) + i64 (Z.shiftl hash 8)) in
  let hash := Z.lxor hash (Z.shiftr hash 14) in
  let hash := i64 (i64 (hash + i64 (Z.shiftl hash 2)) + i64 (Z.shiftl hash 4)) in
  let hash := Z.lxor hash (Z.shiftr hash 28) in
  i64 (hash + i64 (Z.shiftl hash 31)).

Section iter.
Context {K V : Type} `{EqDecision K}.
Implicit Types (d : dict K V) (e : m_dictEntry K V).

Definition dictFingerprint (addrs : Z * Z) d : Z :=
  let integers :=
    [addrs.1; i64 (ht_size (ht0 d)); i64 (ht_used (ht0 d)); addrs.2; i64 (ht_size (ht1 d)); i64 (ht_used (ht1 d))] in
  foldl (λ hash i, wang_hash (i64 (hash + i))) 0 integers.

(** ** Iterators *)
Record m_dictIterator := DictIterator {
  it_index : Z;
  it_table : nat;
  it_safe : bool;
  it_entry : option K;
  it_nextEntry : option K;
  it_fingerprint : Z
}.

Definition m_dictGetIterator : m_dictIterator := DictIterator (-1) 0 false None None 0.
Definition m_dictGetSafeIterator : m_dictIterator := DictIterator (-1) 0 true None None 0.

Definition set_iterators d (n : Z) : dict K V := Dict (d_type d) (ht0 d) (ht1 d) (rehashidx d) n.

(** The entry with a key in its bucket, and the key of the entry behind it. *)
Fixpoint find_entry (b : list (m_dictEntry K V)) (k : K) : option (m_dictEntry K V * option K) :=
  match b with
  | [] => None
  | e :: b => if decide (de_key e = k) then Some (e, de_key <$> head b) else find_entry b k
  end.

(** [if (iter->entry == NULL)]: on to the next bucket; [false] when there is
    none. *)
Definition iter_advance (addrs : Z * Z) d (it : m_dictIterator) : option (dict K V * m_dictIterator * bool) :=
  let first := bool_decide (it_index it = -1) && bool_decide (it_table it = 0%nat) in
  let d' := if first && it_safe it then set_iterators d (u64 (iterators d + 1)) else d in
  let fp := if first && negb (it_safe it) then dictFingerprint addrs d else it_fingerprint it in
  let index := it_index it + 1 in
  let over := i64 (ht_size (ht_at d' (it_table it))) <=? index in
  if over && negb (dictIsRehashing d' && bool_decide (it_table it = 0%nat)) then
    Some (d', DictIterator index (it_table it) (it_safe it) None (it_nextEntry it) fp, false)
  else
    let '(table, index) := if over then (S (it_table it), 0) else (it_table it, index) in
    b ← bucket (ht_at d' table) index;
    Some (d', DictIterator index table (it_safe it) (de_key <$> head b) (it_nextEntry it) fp, true).

(** The entry, or [NULL] at the end. *)
Fixpoint m_dictNext (fuel : nat) (addrs : Z * Z) d (it : m_dictIterator) :
    option (option (m_dictEntry K V) * dict K V * m_dictIterator) :=
  match fuel with
  | O => None
  | S fuel =>
    '(d, it, go) ←
      match it_entry it with
      | None => iter_advance addrs d it
      | Some _ =>
        Some (d, DictIterator (it_index it) (it_table it) (it_safe it) (it_nextEntry it) (it_nextEntry it)
          (it_fingerprint it), true)
      end;
    if negb go then Some (None, d, it)
    else
      match it_entry it with
      | None => m_dictNext fuel addrs d it
      | Some k =>
        b ← bucket (ht_at d (it_table it)) (it_index it);
        '(e, next) ← find_entry b k;
        Some (Some e, d, DictIterator (it_index it) (it_table it) (it_safe it) (it_entry it) next (it_fingerprint it))
      end
  end.

(** [None]: the [assert] of an unsafe iterator. *)
Definition m_dictReleaseIterator (addrs : Z * Z) d (it : m_dictIterator) : option (dict K V) :=
  if bool_decide (it_index it = -1) && bool_decide (it_table it = 0%nat) then Some d
  else if it_safe it then Some (set_iterators d (u64 (iterators d - 1)))
  else if decide (it_fingerprint it = dictFingerprint addrs d) then Some d else None.

(** ** Sampling *)

(** The steps of rehashing before the sampling. *)
Fixpoint some_keys_rehash (n : nat) d : option (dict K V) :=
  match n with
  | O => Some d
  | S n => if dictIsRehashing d then d ← _dictRehashStep d; some_keys_rehash n d else Some d
  end.

(** The entries stored, the index, the empty buckets seen, and the draws. *)
Record sample := Sample { sm_des : list (m_dictEntry K V); sm_i : Z; sm_empty : Z; sm_draws : nat }.

(** The body of the loop over the tables for the table [j]; [true] when enough
    are stored. *)
Definition sample_table d (count mask : Z) (random : nat -> Z) (tables j : nat) (s : sample) : option (sample * bool) :=
  let moved := bool_decide (tables = 2%nat) && bool_decide (j = 0%nat) && (sm_i s <? u64 (rehashidx d)) in
  let skip := moved && negb (ht_size (ht1 d) <=? sm_i s) in
  let i := if moved && negb skip then u64 (rehashidx d) else sm_i s in
  let s := Sample (sm_des s) i (sm_empty s) (sm_draws s) in
  if skip || (ht_size (ht_at d j) <=? i) then Some (s, false)
  else
    he ← bucket (ht_at d j) i;
    match he with
    | [] =>
      let emptylen := u64 (sm_empty s + 1) in
      if (5 <=? emptylen) && (count <? emptylen) then
        Some (Sample (sm_des s) (Z.land (random (sm_draws s)) mask) 0 (S (sm_draws s)), false)
      else Some (Sample (sm_des s) i emptylen (sm_draws s), false)
    | _ =>
      let room := (Z.to_nat count - length (sm_des s))%nat in
      Some (Sample (sm_des s ++ take room he) i 0 (sm_draws s), (room <=? length he)%nat)
    end.

Fixpoint sample_tables d (count mask : Z) (random : nat -> Z) (tables : nat) (js : list nat) (s : sample) :
    option (sample * bool) :=
  match js with
  | [] => Some (s, false)
  | j :: js =>
    '(s, enough) ← sample_table d count mask random tables j s;
    if enough : bool then Some (s, true) else sample_tables d count mask random tables js s
  end.

(** [while (stored < count && maxsteps--)]. *)
Fixpoint sample_loop (maxsteps : nat) d (count mask : Z) (random : nat -> Z) (tables : nat) (s : sample) :
    option (list (m_dictEntry K V)) :=
  if Z.of_nat (length (sm_des s)) <? count then
    match maxsteps with
    | O => Some (sm_des s)
    | S maxsteps =>
      '(s, enough) ← sample_tables d count mask random tables (seq 0 tables) s;
      if enough : bool then Some (sm_des s)
      else
        sample_loop maxsteps d count mask random tables
          (Sample (sm_des s) (Z.land (u64 (sm_i s + 1)) mask) (sm_empty s) (sm_draws s))
    end
  else Some (sm_des s).

Definition m_dictGetSomeKeys d (count : Z) (random : nat -> Z) : option (list (m_dictEntry K V) * dict K V) :=
  let count := if dictSize d <? count then u32 (dictSize d) else count in
  let maxsteps := u32 (count * 10) in
  d ← some_keys_rehash (Z.to_nat count) d;
  let tables := if dictIsRehashing d then 2%nat else 1%nat in
  let mask0 := ht_sizemask (ht0 d) in
  let mask := if (1 <? tables)%nat && (mask0 <? ht_sizemask (ht1 d)) then ht_sizemask (ht1 d) else mask0 in
  des ← sample_loop (Z.to_nat maxsteps) d count mask random tables (Sample [] (Z.land (random 0%nat) mask) 0 1);
  Some (des, d).
End iter.
Arguments m_dictIterator K : clear implicits.
Arguments sample K V : clear implicits.
