(* ===== verification/DictIterProps.v ===== *)
(** * DictIterProps: iterating over a dict, and sampling it

    A client that calls [m_dictNext] until it returns [NULL] gets every entry
    once, in the order of [entries], and may delete each entry it gets when the
    iterator is safe.  [later] is what an iterator has before it: the chains from
    a bucket on.  [m_dictGetSomeKeys] stays within the array of its caller. *)

From S2P Require Import Prelude.
From S2P Require Import Dict.
From S2P Require Import DictInv.
From S2P Require Import DictRehash.
From S2P Require Import DictSpec.
From S2P Require Import DictProps.
From S2P Require Import DictIter.
Local Open Scope Z_scope.

(** The client: [del] says which of the entries it deletes.  The entries it
    got, what the deletions freed, the dict and the iterator at the end. *)
Fixpoint dict_iterate {K V} `{EqDecision K} (calls fuel : nat) (addrs : Z * Z) (del : K -> bool)
    (d : dict K V) (it : m_dictIterator K) :
    option (list (m_dictEntry K V) * list (dict_event K V) * dict K V * m_dictIterator K) :=
  match calls with
  | O => None
  | S calls =>
    '(r, d, it) ← m_dictNext fuel addrs d it;
    match r with
    | None => Some ([], [], d, it)
    | Some e =>
      '(freed, d) ←
        (if del (de_key e) then '(_, freed, d) ← m_dictDelete d (de_key e); Some (freed, d)
         else Some ([], d));
      '(es, freed', d, it) ← dict_iterate calls fuel addrs del d it;
      Some (e :: es, freed ++ freed', d, it)
    end
  end.

Section iter.
Context {K V I : Type} `{EqDecision K} `{Countable I} (key_id : K -> I).
Implicit Types (d : dict K V) (e : m_dictEntry K V) (it : m_dictIterator K).
Local Notation wf := (dict_wf key_id).
Local Notation eid := (entry_id key_id).

(** ** What an iterator has before it *)
Definition later d (t i : nat) : list (m_dictEntry K V) :=
  concat (drop i (ht_table (ht_at d t))) ++ match t with O => ht_entries (ht1 d) | _ => [] end.

Definition buckets_left d (t i : nat) : nat :=
  length (ht_table (ht_at d t)) - i + match t with O => length (ht_table (ht1 d)) | _ => 0 end.

Lemma later_start d : later d 0 0 = entries d.
Proof. done. Qed.

Lemma later_bucket d t i b :
  ht_table (ht_at d t) !! i = Some b -> later d t i = b ++ later d t (S i).
Proof. intros Hb. unfold later. by rewrite (drop_S _ _ _ Hb), app_assoc. Qed.

Lemma later_over d t i :
  (length (ht_table (ht_at d t)) <= i)%nat ->
  later d t i = match t with O => later d 1 0 | _ => [] end.
Proof.
  intros Hi. unfold later. rewrite drop_ge by done. destruct t; [|done]. cbn. by rewrite app_nil_r.
Qed.

Lemma ht_size_i64 T (ht : dictht K V) :
  ht_wf T ht -> i64 (ht_size ht) = Z.of_nat (length (ht_table ht)).
Proof.
  intros Hwf. rewrite <- (wf_size _ _ Hwf). apply i64_small.
  pose proof (wf_size _ _ Hwf). destruct (decide (ht_table ht = [])) as [E|E].
  - rewrite E in *. cbn in *. lia.
  - pose proof (ht_size_bound _ _ Hwf E). lia.
Qed.

(** ** The states of an iterator

    About to look at bucket [i] of table [t]; having returned [e]; between two
    calls, when the entry returned last may be gone. *)
Definition at_bucket it (t i : nat) : Prop :=
  (t <= 1)%nat ∧ it_table it = t ∧ it_index it = Z.of_nat i - 1 ∧ it_entry it = None.

Definition started it : Prop := ¬ (it_index it = -1 ∧ it_table it = 0%nat).

Definition in_chain d it (pre suf : list (m_dictEntry K V)) (t i : nat) : Prop :=
  (t <= 1)%nat ∧ it_table it = t ∧ it_index it = Z.of_nat i ∧ is_Some (it_entry it) ∧
  ht_table (ht_at d t) !! i = Some (pre ++ suf).

Definition returned d it e (R : list (m_dictEntry K V)) : Prop :=
  ∃ t i pre suf, in_chain d it pre (e :: suf) t i ∧ it_nextEntry it = de_key <$> head suf ∧
    R = suf ++ later d t (S i).

Definition waiting d it (R : list (m_dictEntry K V)) : Prop :=
  ∃ t i pre suf, in_chain d it pre suf t i ∧ it_nextEntry it = de_key <$> head suf ∧
    R = suf ++ later d t (S i).

(** What the first call does to the dict and to the fingerprint. *)
Definition entered (addrs : Z * Z) d it : dict K V * Z :=
  if bool_decide (it_index it = -1) && bool_decide (it_table it = 0%nat) then
    if it_safe it then (set_iterators d (u64 (iterators d + 1)), it_fingerprint it)
    else (d, dictFingerprint addrs d)
  else (d, it_fingerprint it).

Lemma entered_started addrs d it : started it -> entered addrs d it = (d, it_fingerprint it).
Proof.
  intros Hs. unfold entered. destruct (_ && _) eqn:E; [|done].
  apply andb_true_iff in E as [?%bool_decide_eq_true ?%bool_decide_eq_true]. by destruct Hs.
Qed.

Lemma entered_dict addrs d it : ∃ n, (entered addrs d it).1 = set_iterators d n ∧ (0 <= iterators d -> 0 <= n).
Proof.
  unfold entered. destruct (_ && _), (it_safe it); cbn.
  1: { eexists. split; [done|]. intros _. apply u64_range. }
  all: exists (iterators d); split; [by destruct d|done].
Qed.

Lemma entered_unsafe addrs d : (entered addrs d m_dictGetIterator).2 = dictFingerprint addrs d.
Proof.
  unfold entered. cbn [m_dictGetIterator it_index it_table it_safe].
  rewrite !bool_decide_true by done. cbn [andb snd]. reflexivity.
Qed.

Lemma set_iterators_wf d n : wf d -> 0 <= n -> wf (set_iterators d n).
Proof. by intros [] ?; split. Qed.

(** ** One step *)
Lemma iter_advance_eq addrs d it :
  iter_advance addrs d it =
    (let d' := (entered addrs d it).1 in let fp := (entered addrs d it).2 in
     let index := it_index it + 1 in
     let over := i64 (ht_size (ht_at d' (it_table it))) <=? index in
     if over && negb (dictIsRehashing d' && bool_decide (it_table it = 0%nat)) then
       Some (d', DictIterator index (it_table it) (it_safe it) None (it_nextEntry it) fp, false)
     else
       let '(table, index) := if over then (S (it_table it), 0) else (it_table it, index) in
       b ← bucket (ht_at d' table) index;
       Some (d', DictIterator index table (it_safe it) (de_key <$> head b) (it_nextEntry it) fp, true)).
Proof.
  unfold iter_advance, entered. destruct (bool_decide (it_index it = -1) && bool_decide (it_table it = 0%nat)), (it_safe it);
    cbn [andb negb fst snd]; cbv zeta; reflexivity.
Qed.

Lemma iter_advance_ok addrs d it t i :
  wf d -> at_bucket it t i -> (i <= length (ht_table (ht_at d t)))%nat ->
  let d' := (entered addrs d it).1 in let fp := (entered addrs d it).2 in
  (later d t i = [] ∧
   iter_advance addrs d it = Some (d', DictIterator (Z.of_nat i) t (it_safe it) None (it_nextEntry it) fp, false)) ∨
  ∃ t' i' b, (t' <= 1)%nat ∧ ht_table (ht_at d t') !! i' = Some b ∧
    later d t i = b ++ later d t' (S i') ∧ (buckets_left d t' (S i') < buckets_left d t i)%nat ∧
    iter_advance addrs d it =
      Some (d', DictIterator (Z.of_nat i') t' (it_safe it) (de_key <$> head b) (it_nextEntry it) fp, true).
Proof.
  intros Hwf (Ht & ET & EI & EE) Hi d' fp. rewrite iter_advance_eq. fold d' fp. cbv zeta.
  destruct (entered_dict addrs d it) as (n & En & _). fold d' in En.
  assert (∀ u, ht_at d' u = ht_at d u) as Hat by (intros u; by rewrite En; destruct u).
  assert (dictIsRehashing d' = dictIsRehashing d) as Hre by (by rewrite En).
  rewrite ET, EI, !Hat, Hre. replace (Z.of_nat i - 1 + 1) with (Z.of_nat i) by lia.
  rewrite (ht_size_i64 (d_type d)) by by apply (ht_at_wf key_id).
  destruct (Z.leb_spec (Z.of_nat (length (ht_table (ht_at d t)))) (Z.of_nat i)) as [Hle|Hlt]; cbn [andb].
  - destruct (bool_decide_reflect (t = 0%nat)) as [->|Hne].
    + destruct (dictIsRehashing d) eqn:Er; cbn [andb negb].
      * destruct (rehashing_tables _ d Hwf Er) as (_ & H1 & _).
        destruct (ht_table (ht1 d)) as [|b tb] eqn:E1; [done|].
        right. exists 1%nat, 0%nat, b. rewrite Hat.
        split_and!; [lia|by cbn; rewrite E1| | |].
        -- rewrite later_over by lia. apply later_bucket. cbn. by rewrite E1.
        -- unfold buckets_left. cbn. rewrite E1. cbn. lia.
        -- assert (bucket (ht_at d 1) 0 = Some b) as -> by (apply bucket_Some; cbn; rewrite E1; done). done.
      * left. split; [|done]. rewrite later_over by lia. unfold later. cbn.
        destruct (not_rehashing_tables _ d Hwf Er) as (_ & -> & _). done.
    + rewrite andb_false_r. cbn [negb]. left. split; [|done]. rewrite later_over by lia. by destruct t.
  - right. destruct (lookup_lt_is_Some_2 (ht_table (ht_at d t)) i) as [b Hb]; [lia|].
    exists t, i, b. rewrite Hat. split_and!; [lia|done|by apply later_bucket| |].
    + unfold buckets_left. lia.
    + assert (bucket (ht_at d t) (Z.of_nat i) = Some b) as -> by (apply bucket_Some; rewrite Nat2Z.id; split; [lia|done]). done.
Qed.

Lemma find_entry_at (pre suf : list (m_dictEntry K V)) e :
  NoDup (de_key <$> pre ++ e :: suf) ->
  find_entry (pre ++ e :: suf) (de_key e) = Some (e, de_key <$> head suf).
Proof.
  induction pre as [|x pre IH]; cbn; [by rewrite decide_True|].
  intros [Hx Hnd]%NoDup_cons. rewrite decide_False; [by apply IH|].
  intros E. apply Hx. rewrite E. apply list_elem_of_fmap. exists e. split; [done|].
  apply elem_of_app. right. by left.
Qed.

Lemma bucket_nodup d t i b :
  wf d -> (t <= 1)%nat -> ht_table (ht_at d t) !! i = Some b -> NoDup (eid <$> b).
Proof.
  intros Hwf Ht Hb. pose proof (wf_nodup _ _ Hwf) as Hnd. unfold entries in Hnd.
  rewrite fmap_app in Hnd. apply NoDup_app in Hnd as (H0 & _ & H1).
  assert (NoDup (eid <$> ht_entries (ht_at d t))) as Hd by (destruct t as [|[|]]; done || lia).
  unfold ht_entries in Hd. rewrite <- (take_drop_middle _ _ _ Hb) in Hd.
  rewrite concat_app in Hd. cbn [concat] in Hd. rewrite !fmap_app in Hd.
  apply NoDup_app in Hd as (_ & _ & Hd). by apply NoDup_app in Hd as (Hd & _ & _).
Qed.

Lemma bucket_nodup_keys d t i b :
  wf d -> (t <= 1)%nat -> ht_table (ht_at d t) !! i = Some b -> NoDup (de_key <$> b).
Proof.
  intros Hwf Ht Hb. apply (NoDup_fmap_1 key_id). rewrite <- list_fmap_compose.
  by eapply bucket_nodup.
Qed.

Definition next_result addrs d it (R : list (m_dictEntry K V)) (fuel : nat) : Prop :=
  ∃ it', started it' ∧ it_safe it' = it_safe it ∧ it_fingerprint it' = (entered addrs d it).2 ∧
    match R with
    | [] => m_dictNext fuel addrs d it = Some (None, (entered addrs d it).1, it')
    | e :: R => m_dictNext fuel addrs d it = Some (Some e, (entered addrs d it).1, it') ∧
        returned (entered addrs d it).1 it' e R
    end.

Lemma returned_set_iterators d n it e R : returned d it e R -> returned (set_iterators d n) it e R.
Proof.
  intros (t & i & pre & suf & (? & ? & ? & ? & ?) & ? & ->).
  exists t, i, pre, suf. unfold in_chain, later. destruct t; cbn in *; split_and!; done.
Qed.

(** Looking for the next bucket that is not empty. *)
Lemma next_scan addrs fuel d it t i :
  wf d -> at_bucket it t i -> (i <= length (ht_table (ht_at d t)))%nat ->
  (buckets_left d t i < fuel)%nat -> next_result addrs d it (later d t i) fuel.
Proof.
  revert d it t i. induction fuel as [|fuel IH]; intros d it t i Hwf Hat Hi Hf; [lia|].
  unfold next_result. cbn [m_dictNext]. destruct Hat as (Ht & ET & EI & EE). rewrite EE.
  destruct (iter_advance_ok addrs d it t i Hwf ltac:(done) Hi) as [[El ->]|(t' & i' & b & Ht' & Hb & El & Hlt & ->)];
    rewrite El; cbn [mbind option_bind negb].
  { eexists. split_and!; cycle 3; [done| |done..]. unfold started. cbn. lia. }
  destruct (entered_dict addrs d it) as (n & En & Hn).
  set (d' := (entered addrs d it).1) in *. set (fp := (entered addrs d it).2) in *.
  assert (wf d') as Hwf'. { rewrite En. apply set_iterators_wf; [done|]. apply Hn, (wf_iterators _ _ Hwf). }
  assert (∀ u, ht_at d' u = ht_at d u) as Hatu by (intros u; by rewrite En; destruct u).
  destruct b as [|e b]; cbn [head fmap option_fmap option_map it_entry app].
  - set (it1 := DictIterator (Z.of_nat i') t' (it_safe it) None (it_nextEntry it) fp).
    assert (entered addrs d' it1 = (d', fp)) as E1 by (apply (entered_started _ _ it1); unfold started; cbn; lia).
    assert (later d t' (S i') = later d' t' (S i')) as -> by (unfold later; rewrite En; by destruct t').
    destruct (IH d' it1 t' (S i')) as (it' & Hs & Hsf & Hfp & Hres); [done| | | |].
    + unfold at_bucket, it1. cbn. split_and!; [done..|lia|done].
    + rewrite Hatu. by apply lookup_lt_Some in Hb.
    + replace (buckets_left d' t' (S i')) with (buckets_left d t' (S i')); [lia|].
      unfold buckets_left. rewrite En. by destruct t'.
    + rewrite E1 in *. exists it'. split_and!; [done..|]. exact Hres.
  - rewrite Hatu. cbn [it_table it_index]. assert (bucket (ht_at d t') (Z.of_nat i') = Some (e :: b)) as ->.
    { apply bucket_Some. rewrite Nat2Z.id. split; [lia|done]. }
    cbn [mbind option_bind find_entry]. rewrite decide_True by done. cbn [mbind option_bind it_safe it_fingerprint].
    eexists. split_and!; cycle 3; [done| | |done..]; [|unfold started; cbn; lia].
    rewrite En. apply returned_set_iterators. exists t', i', [], b. unfold in_chain. cbn. split_and!; done || by eexists.
Qed.

(** Between two calls. *)
Lemma next_waiting addrs fuel d it R :
  wf d -> waiting d it R ->
  (length (ht_table (ht0 d)) + length (ht_table (ht1 d)) < fuel)%nat -> started it -> next_result addrs d it R fuel.
Proof.
  intros Hwf (t & i & pre & suf & (Ht & ET & EI & [k Ek] & Hb) & En & ->) Hf Hst.
  unfold next_result. rewrite (entered_started _ _ _ Hst). cbn [fst snd].
  destruct fuel as [|fuel]; [lia|]. cbn [m_dictNext]. rewrite Ek, En.
  cbn [mbind option_bind negb it_entry]. destruct suf as [|e suf]; cbn [head fmap option_fmap option_map app].
  - set (it1 := DictIterator _ _ _ _ _ _).
    assert (started it1) as H1 by (exact Hst).
    destruct (next_scan addrs fuel d it1 t (S i)) as (it' & Hs & Hsf & Hfp & Hres); [done| | | |].
    + unfold at_bucket, it1. cbn. split_and!; [done..|lia|done].
    + by apply lookup_lt_Some in Hb.
    + apply lookup_lt_Some in Hb. unfold buckets_left. destruct t as [|[|]]; cbn in *; lia.
    + rewrite (entered_started _ _ _ H1) in *. exists it'. done.
  - cbn [it_table it_index]. rewrite ET, EI.
    assert (bucket (ht_at d t) (Z.of_nat i) = Some (pre ++ e :: suf)) as ->.
    { apply bucket_Some. rewrite Nat2Z.id. split; [lia|done]. }
    cbn [mbind option_bind]. rewrite find_entry_at by (by eapply bucket_nodup_keys). cbn [mbind option_bind].
    eexists. split_and!; cycle 3; [done| | |done..].
    2: { unfold started in *. cbn. by rewrite <- ET, <- EI. }
    exists t, i, pre, suf. unfold in_chain. cbn. split_and!; done || by eexists.
Qed.

(** ** Deleting the entry returned *)
Lemma find_in_table_at d t i pre suf e :
  wf d -> (t <= 1)%nat -> ht_table (ht_at d t) !! i = Some (pre ++ e :: suf) ->
  find_in_table d (key_matches (d_type d) (de_key e)) (hashFunction (d_type d) (de_key e)) t =
    Some (Some (Loc t (Z.of_nat i) (length pre), e)).
Proof.
  intros Hwf Ht Hb. unfold find_in_table.
  assert (bucket (ht_at d t) (Z.of_nat i) = Some (pre ++ e :: suf)) as Hbk.
  { apply bucket_Some. rewrite Nat2Z.id. split; [lia|done]. }
  rewrite (placed_bucket key_id d t _ _ e Hwf Hbk) by (apply elem_of_app; right; by left).
  rewrite Hbk. cbn [mbind option_bind]. rewrite list_find_app_r.
  - cbn [list_find]. rewrite decide_True by by apply (key_matches_id key_id). done.
  - apply list_find_None, Forall_forall. intros x Hx Hm. apply (key_matches_id key_id) in Hm; [|done].
    pose proof (bucket_nodup d t i _ Hwf Ht Hb) as Hnd. rewrite fmap_app in Hnd.
    apply NoDup_app in Hnd as (_ & Hnd & _). apply (Hnd (eid x)); [by apply list_elem_of_fmap_2|].
    rewrite Hm. by left.
Qed.

Lemma find_returned d t i pre suf e :
  wf d -> (t <= 1)%nat -> ht_table (ht_at d t) !! i = Some (pre ++ e :: suf) ->
  find_in_tables d (key_matches (d_type d) (de_key e)) (hashFunction (d_type d) (de_key e)) =
    Some (Some (Loc t (Z.of_nat i) (length pre), e)).
Proof.
  intros Hwf Ht Hb. pose proof (find_in_table_at d t i pre suf e Hwf Ht Hb) as Hf.
  unfold find_in_tables. destruct t as [|[|]]; [by rewrite Hf| |lia].
  assert (e ∈ ht_entries (ht1 d)) as He1.
  { apply elem_of_concat. exists i, (pre ++ e :: suf). split; [done|]. apply elem_of_app. right. by left. }
  destruct (dictIsRehashing d) eqn:Er.
  2: { destruct (not_rehashing_tables _ d Hwf Er) as (_ & E & _). cbn in Hb. by rewrite E in Hb. }
  destruct (rehashing_tables _ d Hwf Er) as (H0 & _).
  destruct (find_in_table_ok key_id d (key_matches (d_type d) (de_key e))
    (hashFunction (d_type d) (de_key e)) 0) as (r & -> & Hr); [done|done|apply (wf_type _ _ Hwf)|].
  cbn [mbind option_bind]. destruct r as [[l e']|]; [|by rewrite Hf].
  destruct Hr as (El & Hl & Hm%(key_matches_id key_id)); [|done].
  pose proof (wf_nodup _ _ Hwf) as Hnd. unfold entries in Hnd. rewrite fmap_app in Hnd.
  apply NoDup_app in Hnd as (_ & Hnd & _). exfalso. apply (Hnd (eid e')).
  - apply list_elem_of_fmap_2. apply entry_at_bucket in Hl as (b & [_ Hbl]%bucket_Some & Hp).
    rewrite El in Hbl. apply elem_of_concat. exists (Z.to_nat (loc_idx l)), b. split; [done|].
    by eapply list_elem_of_lookup_2.
  - rewrite Hm. apply (list_elem_of_fmap_2 eid _ _ He1).
Qed.

Lemma delete_returned d it e R :
  wf d -> iterators d ≠ 0 -> returned d it e R ->
  ∃ d', m_dictDelete d (de_key e) = Some (DICT_OK, free_entry (d_type d) e, d') ∧ wf d' ∧
    d_type d' = d_type d ∧ iterators d' = iterators d ∧ entries d ≡ₚ e :: entries d' ∧
    length (ht_table (ht0 d')) = length (ht_table (ht0 d)) ∧
    length (ht_table (ht1 d')) = length (ht_table (ht1 d)) ∧ waiting d' it R.
Proof.
  intros Hwf Hit (t & i & pre & suf & (Ht & ET & EI & Ek & Hb) & En & ->).
  pose proof (find_returned d t i pre suf e Hwf Ht Hb) as Hf.
  assert (bucket (ht_at d t) (Z.of_nat i) = Some (pre ++ e :: suf)) as Hbk.
  { apply bucket_Some. rewrite Nat2Z.id. split; [lia|done]. }
  set (l := Loc t (Z.of_nat i) (length pre)) in *.
  assert (entry_at d l = Some e) as Hl.
  { unfold entry_at, l. cbn. rewrite Hbk. cbn. by apply list_lookup_middle. }
  destruct (chain_unlink_ok key_id d l e _ Hwf Hl Hbk) as (Hwf' & HT & HI & Hp).
  unfold m_dictDelete, dictGenericDelete. rewrite decide_False.
  2: { intros [U0 U1]. pose proof (length_entries _ d Hwf). rewrite Hp in H0. cbn in H0. lia. }
  assert (rehash_step_if d = Some d) as ->.
  { unfold rehash_step_if, _dictRehashStep. rewrite decide_False by done. by destruct (dictIsRehashing d). }
  cbn [mbind option_bind]. rewrite Hf. cbn [mbind option_bind].
  change (bucket (ht_at d (loc_table l)) (loc_idx l)) with (bucket (ht_at d t) (Z.of_nat i)).
  rewrite Hbk. cbn [mbind option_bind].
  eexists. split; [done|]. split_and!; [done..| | |].
  1,2: unfold l; destruct t; cbn; by rewrite ?length_insert.
  assert (delete (length pre) (pre ++ e :: suf) = pre ++ suf) as Hd by by rewrite delete_middle.
  unfold l. cbn [loc_table loc_idx loc_pos]. rewrite Hd.
  exists t, i, pre, suf. apply lookup_lt_Some in Hb as Hlt. unfold in_chain, later.
  destruct t; cbn in *; rewrite Nat2Z.id; (split_and!; [lia|done..|by apply list_lookup_insert_eq|done|]);
    by rewrite drop_insert_lt by lia.
Qed.

(** ** The client *)
Lemma returned_waiting d it e R : returned d it e R -> waiting d it R.
Proof.
  intros (t & i & pre & suf & (? & ? & ? & ? & Hb) & ? & ->).
  exists t, i, (pre ++ [e]), suf. unfold in_chain. rewrite <- (app_assoc pre). by split_and!.
Qed.

(** The rest of an iteration, for any way to make the first step. *)
Lemma iterate_ok addrs del fuel R : ∀ d it P,
  let d1 := (entered addrs d it).1 in
  wf d1 -> (iterators d1 ≠ 0 ∨ ∀ e, e ∈ R -> del (de_key e) = false) -> entries d1 ≡ₚ P ++ R ->
  (length (ht_table (ht0 d1)) + length (ht_table (ht1 d1)) < fuel)%nat ->
  next_result addrs d it R fuel ->
  let kept := filter (λ e, del (de_key e) = false) R in
  ∃ d2 it2, dict_iterate (S (length R)) fuel addrs del d it =
      Some (R, filter (λ e, del (de_key e) = true) R ≫= free_entry (d_type d1), d2, it2) ∧
    wf d2 ∧ d_type d2 = d_type d1 ∧ iterators d2 = iterators d1 ∧ entries d2 ≡ₚ P ++ kept ∧
    ((∀ e, e ∈ R -> del (de_key e) = false) -> d2 = d1) ∧
    started it2 ∧ it_safe it2 = it_safe it ∧ it_fingerprint it2 = (entered addrs d it).2.
Proof.
  induction R as [|e R IH]; intros d it P d1 Hwf Hdel Hp Hf (it' & Hst & Hsf & Hfp & Hr).
  { cbn [length dict_iterate]. rewrite Hr. cbn. by exists d1, it'. }
  destruct Hr as [Hr Hret]. fold d1 in Hr, Hret.
  cbn [length]. remember (S (length R)) as calls. cbn [dict_iterate]. subst calls. rewrite Hr. cbn [mbind option_bind].
  destruct (del (de_key e)) eqn:Ed.
  - destruct Hdel as [Hi|Hdel]; [|rewrite Hdel in Ed by left; done].
    destruct (delete_returned d1 it' e R Hwf Hi Hret) as (d' & -> & Hwf' & HT & HI & He & L0 & L1 & Hw).
    cbn [mbind option_bind].
    assert (next_result addrs d' it' R fuel) as Hn by (apply next_waiting; [done..|lia|done]).
    destruct (IH d' it' P) as (d2 & it2 & -> & H2); try rewrite (entered_started _ _ _ Hst) in *; cbn [fst snd] in *.
    + done.
    + left. by rewrite HI.
    + apply (Permutation_cons_inv (a := e)). by rewrite <- He, Hp, Permutation_middle.
    + lia.
    + done.
    + cbn [mbind option_bind]. destruct H2 as (? & ? & ? & ? & Hno & ? & ? & ?). exists d2, it2.
      rewrite filter_cons_True by done. rewrite filter_cons_False by congruence.
      cbn [mbind list_bind]. rewrite HT. split_and!; try done || congruence.
      intros Hx. rewrite Hx in Ed by left. done.
  - cbn [mbind option_bind].
    assert (next_result addrs d1 it' R fuel) as Hn.
    { apply next_waiting; [done| |lia|done]. by eapply returned_waiting. }
    destruct (IH d1 it' (P ++ [e])) as (d2 & it2 & -> & H2); try rewrite (entered_started _ _ _ Hst) in *; cbn [fst snd] in *.
    + done.
    + destruct Hdel as [Hi|Hdel]; [by left|right]. intros x Hx. apply Hdel. by right.
    + by rewrite <- app_assoc.
    + done.
    + done.
    + cbn [mbind option_bind]. destruct H2 as (? & ? & ? & Hperm & Hno & ? & ? & ?). exists d2, it2.
      rewrite filter_cons_False by congruence. rewrite filter_cons_True by done.
      rewrite <- app_assoc in Hperm. split_and!; try done || congruence.
      intros Hx. apply Hno. intros x Hin. apply Hx. by right.
Qed.

(** C26. An iteration over a dict: a client that calls [m_dictNext] until it
    returns [NULL] gets every entry exactly once; with a safe iterator it may
    delete any entry it has got, and each deletion frees that entry alone and the
    iteration goes on.  The release of the iterator passes its [assert] and
    leaves the dict as the deletions made it, with as many iterators as before. *)
Theorem m_dictNext_spec addrs del safe fuel d :
  wf d -> iterators d + 1 < 2 ^ 64 -> (safe = false -> ∀ k, del k = false) ->
  (length (ht_table (ht0 d)) + length (ht_table (ht1 d)) < fuel)%nat ->
  ∃ d1 it d2,
    dict_iterate (S (length (entries d))) fuel addrs del d
      (if safe then m_dictGetSafeIterator else m_dictGetIterator) =
      Some (entries d, filter (λ e, del (de_key e) = true) (entries d) ≫= free_entry (d_type d), d1, it) ∧
    m_dictReleaseIterator addrs d1 it = Some d2 ∧ wf d2 ∧ d_type d2 = d_type d ∧
    iterators d2 = iterators d ∧
    entries d2 ≡ₚ filter (λ e, del (de_key e) = false) (entries d) ∧
    ((∀ k, del k = false) -> d2 = d).
Proof.
  intros Hwf Hi Hsafe Hf. pose proof (wf_iterators _ _ Hwf) as Hi0.
  set (it0 := if safe then m_dictGetSafeIterator else m_dictGetIterator).
  set (d1 := (entered addrs d it0).1).
  assert (d1 = if safe then set_iterators d (iterators d + 1) else d) as E1.
  { unfold d1, it0. destruct safe; [|done].
    change (set_iterators d (u64 (iterators d + 1)) = set_iterators d (iterators d + 1)).
    by rewrite u64_small by lia. }
  assert (wf d1) as Hwf1. { rewrite E1. destruct safe; [|done]. apply set_iterators_wf; [done|lia]. }
  destruct (iterate_ok addrs del fuel (entries d) d it0 []) as (d2 & it2 & Er & Hwf2 & HT & HI & Hp & Hno & Hst & Hsf & Hfp).
  - done.
  - fold d1. rewrite E1. destruct safe; cbn; [left; lia|right; auto].
  - fold d1. rewrite E1. by destruct safe.
  - fold d1. rewrite E1. by destruct safe.
  - rewrite <- later_start. apply (next_scan _ _ _ _ 0 0); [done| |lia|].
    + unfold it0, at_bucket. by destruct safe; (split_and!; [lia|..]).
    + unfold buckets_left. cbn. lia.
  - fold d1 in Er, HT, HI, Hno, Hfp. assert (d_type d1 = d_type d) as ET by (rewrite E1; by destruct safe).
    rewrite ET in *. exists d2, it2.
    unfold m_dictReleaseIterator. rewrite Hsf.
    replace (bool_decide (it_index it2 = -1) && bool_decide (it_table it2 = 0%nat)) with false.
    2: { symmetry. apply not_true_iff_false. rewrite andb_true_iff, !bool_decide_eq_true. exact Hst. }
    destruct safe; cbn [it0 it_safe m_dictGetSafeIterator m_dictGetIterator] in *.
    + rewrite E1 in HI. cbn in HI. exists (set_iterators d2 (iterators d)).
      rewrite HI. replace (iterators d + 1 - 1) with (iterators d) by lia. rewrite u64_small by lia.
      split; [exact Er|]. split; [reflexivity|]. split; [by apply set_iterators_wf|].
      split; [exact HT|]. split; [reflexivity|]. split; [exact Hp|].
      intros Hk. rewrite Hno by auto. rewrite E1. by destruct d.
    + exists d2. assert (d2 = d) as -> by (rewrite Hno by auto; done).
      rewrite decide_True by (rewrite Hfp; exact (entered_unsafe addrs d)).
      split; [exact Er|]. by split_and!.
Qed.

(** ** Sampling *)
Definition sample_ok d (count : Z) (s : sample K V) : Prop :=
  0 <= sm_i s ∧ Z.of_nat (length (sm_des s)) <= count ∧ ∀ e, e ∈ sm_des s -> e ∈ entries d.

Lemma some_keys_rehash_ok n d :
  wf d -> ∃ d', some_keys_rehash n d = Some d' ∧ wf d' ∧ same_content d d'.
Proof.
  revert d. induction n as [|n IH]; intros d Hwf; cbn [some_keys_rehash].
  { exists d. split_and!; [done..|apply same_content_refl]. }
  destruct (rehash_step_ok key_id d Hwf) as (d1 & E & Hwf1 & Hsc & _).
  unfold rehash_step_if in E. destruct (dictIsRehashing d).
  - rewrite E. cbn [mbind option_bind]. destruct (IH d1 Hwf1) as (d' & -> & Hwf' & Hsc').
    exists d'. split_and!; [done..|]. by eapply same_content_trans.
  - exists d. split_and!; [done..|apply same_content_refl].
Qed.

Lemma sample_table_ok d count mask random tables j s :
  wf d -> (∀ i, 0 <= random i) -> 0 <= mask -> sample_ok d count s ->
  ∃ s' enough, sample_table d count mask random tables j s = Some (s', enough) ∧ sample_ok d count s'.
Proof.
  intros Hwf Hr Hm (Hi & Hlen & Hin). unfold sample_table. cbv zeta.
  set (moved := bool_decide (tables = 2%nat) && bool_decide (j = 0%nat) && (sm_i s <? u64 (rehashidx d))).
  set (skip := moved && negb (ht_size (ht1 d) <=? sm_i s)).
  set (i := if moved && negb skip then u64 (rehashidx d) else sm_i s).
  assert (0 <= i) as Hi' by (unfold i; destruct (moved && negb skip); [apply u64_range|done]).
  cbn [sm_i sm_des sm_empty sm_draws].
  destruct (skip || (ht_size (ht_at d j) <=? i)) eqn:Eo; [by eexists _, _|].
  apply orb_false_iff in Eo as [_ Hlt%Z.leb_gt].
  destruct (bucket_in_range (d_type d) (ht_at d j) i) as [he Hb]; [by apply (ht_at_wf key_id)|lia|].
  rewrite Hb. cbn [mbind option_bind]. destruct he as [|e he].
  - destruct ((5 <=? _) && _); eexists _, _; (split; [done|]); split_and!; cbn; try done.
    by apply Z.land_nonneg; right.
  - eexists _, _. split; [done|]. split_and!; cbn [sm_i sm_des]; [done| |].
    + rewrite length_app, length_take. lia.
    + intros x [Hx|Hx]%elem_of_app; [by apply Hin|].
      apply (entries_ht_at d j), elem_of_concat. apply bucket_Some in Hb as [_ Hb].
      exists (Z.to_nat i), (e :: he). split; [done|]. by eapply subseteq_take.
Qed.

Lemma sample_tables_ok d count mask random tables js s :
  wf d -> (∀ i, 0 <= random i) -> 0 <= mask -> sample_ok d count s ->
  ∃ s' enough, sample_tables d count mask random tables js s = Some (s', enough) ∧ sample_ok d count s'.
Proof.
  intros Hwf Hr Hm. revert s. induction js as [|j js IH]; intros s Hs; cbn [sample_tables]; [by eexists _, _|].
  destruct (sample_table_ok d count mask random tables j s Hwf Hr Hm Hs) as (s' & [] & -> & Hs');
    cbn [mbind option_bind]; [by eexists _, _|by apply IH].
Qed.

Lemma sample_loop_ok steps d count mask random tables s :
  wf d -> (∀ i, 0 <= random i) -> 0 <= mask -> sample_ok d count s ->
  ∃ des, sample_loop steps d count mask random tables s = Some des ∧
    Z.of_nat (length des) <= count ∧ ∀ e, e ∈ des -> e ∈ entries d.
Proof.
  intros Hwf Hr Hm. revert s. induction steps as [|steps IH]; intros s Hs; cbn [sample_loop];
    (destruct (_ <? _); [|destruct Hs as (_ & ? & ?); by eexists]).
  - destruct Hs as (_ & ? & ?). by eexists.
  - destruct (sample_tables_ok d count mask random tables (seq 0 tables) s Hwf Hr Hm Hs) as (s' & enough & -> & Hs').
    cbn [mbind option_bind]. destruct enough; [destruct Hs' as (_ & ? & ?); by eexists|].
    apply IH. destruct Hs' as (_ & ? & ?). split_and!; cbn; [|done..]. by apply Z.land_nonneg; right.
Qed.

Lemma sizemask_nonneg d t : wf d -> 0 <= ht_sizemask (ht_at d t).
Proof.
  intros Hwf. destruct (wf_shape _ _ (ht_at_wf key_id d t Hwf)) as [[_ ->]|(k & ? & ? & ->)]; lia.
Qed.

(** Sampling a dict with [m_dictGetSomeKeys]: whatever [random] draws, it
    returns, writes at most [count] entries into the caller's array, no more than
    the dict has, each an entry of the dict, and the dict stands for the same map
    after its steps of rehashing.  An empty dict, with no table, gives none. *)
Theorem m_dictGetSomeKeys_spec d count random :
  wf d -> 0 <= count < 2 ^ 32 -> (∀ i, 0 <= random i) ->
  ∃ des d', m_dictGetSomeKeys d count random = Some (des, d') ∧ wf d' ∧
    dict_map key_id d' = dict_map key_id d ∧ iterators d' = iterators d ∧
    Z.of_nat (length des) <= Z.min count (Z.of_nat (length (entries d))) ∧
    (∀ e, e ∈ des -> e ∈ entries d) ∧
    (ht_table (ht0 d) = [] -> des = []).
Proof.
  intros Hwf Hc Hr. unfold m_dictGetSomeKeys. cbv zeta. rewrite (dictSize_entries _ d Hwf).
  set (n := Z.of_nat (length (entries d))).
  set (c := if n <? count then u32 n else count).
  assert (0 <= c <= Z.min count n) as Hcn.
  { unfold c. destruct (Z.ltb_spec n count); [rewrite u32_small by (subst n; lia)|]; subst n; lia. }
  destruct (some_keys_rehash_ok (Z.to_nat c) d Hwf) as (d' & -> & Hwf' & Hsc). cbn [mbind option_bind].
  set (mask := if _ && _ then _ else _).
  assert (0 <= mask) as Hm.
  { unfold mask. destruct (_ && _); [apply (sizemask_nonneg d' 1 Hwf')|apply (sizemask_nonneg d' 0 Hwf')]. }
  destruct (sample_loop_ok (Z.to_nat (u32 (c * 10))) d' c mask random (if dictIsRehashing d' then 2%nat else 1%nat)
    (Sample [] (Z.land (random 0%nat) mask) 0 1)) as (des & E & Hlen & Hin); [done..| |].
  { split_and!; cbn; [by apply Z.land_nonneg; right|lia|by intros e ?%elem_of_nil]. }
  rewrite E. cbn [mbind option_bind]. destruct Hsc as (Hp & HT & HI). exists des, d'.
  split_and!; [done..| |done|lia| |].
  - apply (same_content_map key_id); [done|]. done.
  - intros e He. rewrite <- Hp. by apply Hin.
  - intros E0. destruct (entries d) eqn:Ee; [|by apply (entries_ht0 _ d Hwf) in E0; [|rewrite Ee]].
    subst n. destruct des; [done|cbn in *; lia].
Qed.
End iter.

(** ** Examples *)
Definition ex_addrs : Z * Z := (4096, 8192).
Definition ex_del (k : Z) : bool := Z.even k.

Lemma m_dictNext_spec_witness :
  ∃ d1 it d2,
    dict_iterate (S (length (entries ex_dict))) 20 ex_addrs ex_del ex_dict m_dictGetSafeIterator =
      Some (entries ex_dict, filter (λ e, ex_del (de_key e) = true) (entries ex_dict) ≫= free_entry (d_type ex_dict), d1, it) ∧
    m_dictReleaseIterator ex_addrs d1 it = Some d2 ∧ dict_wf (λ k : Z, k) d2 ∧ d_type d2 = d_type ex_dict ∧
    iterators d2 = iterators ex_dict ∧
    entries d2 ≡ₚ filter (λ e, ex_del (de_key e) = false) (entries ex_dict) ∧
    ((∀ k, ex_del k = false) -> d2 = ex_dict).
Proof.
  apply (m_dictNext_spec (λ k : Z, k) ex_addrs ex_del true 20 ex_dict).
  - exact ex_dict_wf.
  - vm_compute. done.
  - done.
  - vm_compute. lia.
Defined.

Lemma m_dictGetSomeKeys_spec_witness :
  ∃ des d', m_dictGetSomeKeys ex_dict 3 (λ i, Z.of_nat i) = Some (des, d') ∧ dict_wf (λ k : Z, k) d' ∧
    dict_map (λ k : Z, k) d' = dict_map (λ k : Z, k) ex_dict ∧ iterators d' = iterators ex_dict ∧
    Z.of_nat (length des) <= Z.min 3 (Z.of_nat (length (entries ex_dict))) ∧
    (∀ e, e ∈ des -> e ∈ entries ex_dict) ∧
    (ht_table (ht0 ex_dict) = [] -> des = []).
Proof.
  apply (m_dictGetSomeKeys_spec (λ k : Z, k) ex_dict 3 (λ i, Z.of_nat i)).
  - exact ex_dict_wf.
  - lia.
  - intros i. lia.
Defined.

(** A deletion behind an iterator that is not safe fails the [assert] of its
    release (on these addresses): the fingerprint has changed. *)
Example ex_unsafe_delete :
  ('(_, d, it) ← m_dictNext 20 ex_addrs ex_dict m_dictGetIterator;
   '(_, _, d) ← m_dictDelete d 3;
   Some (if m_dictReleaseIterator ex_addrs d it is Some _ then true else false)) = Some false.
Proof. vm_compute. reflexivity. Qed.

(** [count * 10] is an [unsigned int]: a count of 2 ^ 31 leaves no step. *)
Example ex_steps_wrap : u32 (2 ^ 31 * 10) = 0.
Proof. reflexivity. Qed.

(** The shifts to the right keep the sign, so that a number and its complement
    agree after a shift and a xor: the hash of the fingerprint is not injective
    ("likely" different states share a fingerprint in pairs). *)
Example ex_wang_collision : wang_hash (9223367638806167551) = wang_hash (0).
Proof. vm_compute. reflexivity. Qed.
