(* ===== verification/DictScan.v ===== *)
(** * DictScan: the stateless cursor of [m_dictScan]

    The cursor of [m_dictScan] counts with its bits reversed, so that an
    iteration survives any resizing between its calls.  [rev] is the bit
    reversal; in reversed order each call covers an interval of hashes that
    starts at the cursor, and the next cursor is the end of the interval.  From
    this follow the guarantee of the source's comment (every element present
    throughout an iteration is returned, whatever the table sizes do between
    the calls) and termination. *)

From S2P Require Import Prelude.
From S2P Require Import SipHash.
From S2P Require Import Dict.
From S2P Require Import DictInv.
From S2P Require Import DictRehash.
From S2P Require Import DictSpec.
From S2P Require Import DictProps.
Local Open Scope Z_scope.

(** ** Definitions *)

(** The body of [rev]'s loop. *)
Definition rev_step (s mask v : Z) : Z :=
  Z.lor (Z.land (Z.shiftr v s) mask) (Z.land (u64 (Z.shiftl v s)) (u64 (Z.lnot mask))).

(** [while ((s >>= 1) > 0)]; [s] starts at 64, so six rounds. *)
Fixpoint rev_loop (fuel : nat) (s mask v : Z) : Z :=
  match fuel with
  | O => v
  | S fuel =>
    let s := Z.shiftr s 1 in
    if 0 <? s then
      let mask := Z.lxor mask (u64 (Z.shiftl mask s)) in
      rev_loop fuel s mask (rev_step s mask v)
    else v
  end.

Definition rev (v : Z) : Z := rev_loop 7 64 (u64 (Z.lnot 0)) v.

(** "Increment the reverse cursor" after setting the bits the mask leaves out. *)
Definition next_cursor (mask v : Z) : Z :=
  let v := Z.lor v (u64 (Z.lnot mask)) in
  let v := rev v in
  let v := u64 (v + 1) in
  rev v.

(** What [m_dictScan] calls: [bucketfn] with a bucket, [fn] with an entry. *)
Inductive scan_event (K V : Type) :=
  | BucketFn (table : nat) (idx : Z)
  | Fn (e : m_dictEntry K V).
Arguments BucketFn {K V} _ _.
Arguments Fn {K V} _.

Section scan.
Context {K V : Type}.
Implicit Types (d : dict K V) (ht : dictht K V).

(** "Emit entries at cursor". *)
Definition scan_bucket (bucketfn : bool) d (table : nat) (v : Z) :
    option (list (scan_event K V)) :=
  let ht := ht_at d table in
  let idx := Z.land v (ht_sizemask ht) in
  de ← bucket ht idx;
  Some ((if bucketfn then [BucketFn table idx] else []) ++ (Fn <$> de)).

(** The [do ... while (v & (m0 ^ m1))] over the expansions of the cursor in
    the larger table. *)
Fixpoint scan_loop (fuel : nat) (bucketfn : bool) d (t1 : nat) (m0 m1 v : Z) :
    option (Z * list (scan_event K V)) :=
  match fuel with
  | O => None
  | S fuel =>
    evs ← scan_bucket bucketfn d t1 v;
    let v := next_cursor m1 v in
    if decide (Z.land v (Z.lxor m0 m1) ≠ 0)
    then '(v, evs') ← scan_loop fuel bucketfn d t1 m0 m1 v; Some (v, evs ++ evs')
    else Some (v, evs)
  end.

Definition m_dictScan d (v : Z) (bucketfn : bool) : option (Z * list (scan_event K V)) :=
  if decide (dictSize d = 0) then Some (0, [])
  else if negb (dictIsRehashing d) then
    evs ← scan_bucket bucketfn d 0 v;
    Some (next_cursor (ht_sizemask (ht0 d)) v, evs)
  else
    let '(t0, t1) := if ht_size (ht1 d) <? ht_size (ht0 d) then (1%nat, 0%nat) else (0%nat, 1%nat) in
    let m0 := ht_sizemask (ht_at d t0) in
    let m1 := ht_sizemask (ht_at d t1) in
    evs0 ← scan_bucket bucketfn d t0 v;
    '(v, evs1) ← scan_loop (Z.to_nat (ht_size (ht_at d t1))) bucketfn d t1 m0 m1 v;
    Some (v, evs0 ++ evs1).

(** An iteration: a call per dict of the list (the dict as the client finds it
    at that call), until the cursor is 0. *)
Fixpoint scan_calls (ds : list (dict K V)) (v : Z) : option (Z * list (scan_event K V)) :=
  match ds with
  | [] => Some (v, [])
  | d :: ds =>
    '(v, evs) ← m_dictScan d v false;
    if decide (v = 0) then Some (0, evs)
    else '(v, evs') ← scan_calls ds v; Some (v, evs ++ evs')
  end.
End scan.

Example rev_ex : rev 1 = 2 ^ 63 ∧ rev (rev 0x123456789abcdef0) = 0x123456789abcdef0.
Proof. vm_compute. done. Qed.

(** ** Bit reversal *)
Definition rev_index (s mask i : Z) : Z := if Z.testbit mask i then i + s else i - s.

Lemma rev_step_spec s mask v i :
  0 <= s -> 0 <= i < 64 ->
  Z.testbit (rev_step s mask v) i = Z.testbit v (rev_index s mask i).
Proof.
  intros Hs Hi. unfold rev_step, rev_index, u64.
  rewrite Z.lor_spec, !Z.land_spec, !testbit_mod_pow2, Z.lnot_spec, Z.shiftr_spec by lia.
  destruct (Z.ltb_spec i 64); [|lia]. cbn [andb]. rewrite Z.shiftl_spec by lia.
  destruct (Z.testbit mask i); cbn [negb]; by rewrite ?andb_true_r, ?andb_false_r, ?orb_false_r.
Qed.

(** The six masks of the loop, as the source computes them. *)
Definition rev_masks : list (Z * Z) :=
  [(32, 0x00000000ffffffff); (16, 0x0000ffff0000ffff); (8, 0x00ff00ff00ff00ff);
   (4, 0x0f0f0f0f0f0f0f0f); (2, 0x3333333333333333); (1, 0x5555555555555555)].

Lemma rev_unfold v :
  rev v = foldl (λ v sm, rev_step sm.1 sm.2 v) v rev_masks.
Proof. reflexivity. Qed.

Lemma rev_steps_testbit l v i :
  Forall (λ sm, 0 <= sm.1) l ->
  (∀ n, 0 <= foldr (λ sm i, rev_index sm.1 sm.2 i) i (drop n l) < 64) ->
  Z.testbit (foldl (λ v sm, rev_step sm.1 sm.2 v) v l) i =
  Z.testbit v (foldr (λ sm i, rev_index sm.1 sm.2 i) i l).
Proof.
  revert v. induction l as [|[s m] l IH]; intros v Hl Hr; [done|]. cbn [foldl foldr].
  apply Forall_cons in Hl as [Hs Hl].
  rewrite IH; [|done|intros n; apply (Hr (S n))].
  apply rev_step_spec; [done|]. specialize (Hr 1%nat). cbn [drop] in Hr. by rewrite drop_0 in Hr.
Qed.

Definition rev_check (i : Z) : bool :=
  forallb (λ n, let j := foldr (λ sm i, rev_index sm.1 sm.2 i) i (drop n rev_masks) in
                (0 <=? j) && (j <? 64)) (seq 0 7)
  && (foldr (λ sm i, rev_index sm.1 sm.2 i) i rev_masks =? 63 - i).

Lemma rev_check_all : forallb rev_check (seqZ 0 64) = true.
Proof. vm_compute. reflexivity. Qed.

Lemma rev_testbit v i : 0 <= i < 64 -> Z.testbit (rev v) i = Z.testbit v (63 - i).
Proof.
  intros Hi. pose proof (proj1 (forallb_forall _ _) rev_check_all i) as Hc.
  rewrite <- list_elem_of_In, elem_of_seqZ in Hc. specialize (Hc ltac:(lia)).
  unfold rev_check in Hc. apply andb_prop in Hc as [Hr Hf]. apply Z.eqb_eq in Hf.
  rewrite rev_unfold, rev_steps_testbit; [by rewrite Hf|by repeat apply Forall_cons_2|].
  intros n. destruct (decide (n < 7)%nat).
  - rewrite forallb_forall in Hr. specialize (Hr n).
    rewrite <- list_elem_of_In, elem_of_seq in Hr. specialize (Hr ltac:(lia)). cbv zeta in Hr. lia.
  - rewrite drop_ge by (simpl; lia). simpl. lia.
Qed.

Lemma rev_u64 v : is_u64 v -> is_u64 (rev v).
Proof.
  intros Hv. rewrite rev_unfold.
  assert (Forall (λ sm, 0 <= sm.1 ∧ is_u64 sm.2) rev_masks) as Hm.
  { unfold rev_masks, is_u64. repeat apply Forall_cons_2; simpl; try lia. apply Forall_nil_2. }
  revert v Hv. induction Hm as [|[s m] l [Hs Hm] _ IH]; intros v Hv; [done|]. cbn [foldl].
  apply IH. cbn [fst snd] in *. unfold rev_step.
  apply lor_bound; [lia| |].
  - destruct (land_le_r (Z.shiftr v s) m); unfold is_u64 in *; lia.
  - pose proof (land_le_r (u64 (Z.shiftl v s)) (u64 (Z.lnot m)) (proj1 (u64_range _))).
    pose proof (u64_range (Z.lnot m)). unfold is_u64 in *. lia.
Qed.

(** Two 64-bit words are equal when their 64 bits are. *)
Lemma u64_bits_eq x y :
  is_u64 x -> is_u64 y -> (∀ i, 0 <= i < 64 -> Z.testbit x i = Z.testbit y i) -> x = y.
Proof.
  intros Hx Hy Hb. apply Z.bits_inj'. intros i Hi. destruct (decide (i < 64)); [by apply Hb|].
  by rewrite !(testbit_above _ 64) by (done || lia).
Qed.

Lemma rev_involutive v : is_u64 v -> rev (rev v) = v.
Proof.
  intros Hv. apply u64_bits_eq; [by do 2 apply rev_u64|done|]. intros i Hi.
  rewrite !rev_testbit by lia. f_equal. lia.
Qed.

(** ** The reversed cursor *)

(** [n] low bits of the reversed word stand for the [64 - n] high ones. *)
Lemma rev_set_high v k :
  is_u64 v -> 0 <= k <= 64 ->
  rev (Z.lor v (u64 (Z.lnot (2 ^ k - 1)))) = Z.lor (rev v) (Z.ones (64 - k)).
Proof.
  intros Hv Hk. replace (2 ^ k - 1) with (Z.ones k) by (rewrite Z.ones_equiv; lia).
  assert (is_u64 (Z.ones (64 - k))) as Ho.
  { rewrite Z.ones_equiv. assert (2 ^ (64 - k) <= 2 ^ 64) by (apply Z.pow_le_mono_r; lia).
    assert (0 < 2 ^ (64 - k)) by lia. unfold is_u64. lia. }
  apply u64_bits_eq.
  - apply rev_u64, lor_bound; [lia|done|apply u64_range].
  - apply lor_bound; [lia|by apply rev_u64|done].
  - intros i Hi. unfold u64.
    rewrite rev_testbit, !Z.lor_spec, rev_testbit, testbit_mod_pow2, Z.lnot_spec by lia.
    destruct (Z.ltb_spec (63 - i) 64); [|lia]. cbn [andb].
    rewrite !Z.testbit_ones_nonneg by lia.
    destruct (Z.ltb_spec (63 - i) k), (Z.ltb_spec i (64 - k)); done || lia.
Qed.

Lemma lor_ones_succ x n : 0 <= n -> Z.lor x (Z.ones n) + 1 = (x / 2 ^ n + 1) * 2 ^ n.
Proof.
  intros Hn. assert (Z.lor x (Z.ones n) = Z.lor (Z.ones n) (Z.shiftl (Z.shiftr x n) n)) as ->.
  { apply Z.bits_inj'. intros i Hi. rewrite !Z.lor_spec, !Z.testbit_ones_nonneg by lia.
    destruct (Z.ltb_spec i n); [by rewrite orb_true_r|].
    rewrite Z.shiftl_spec, Z.shiftr_spec by lia. rewrite orb_false_r. cbn [orb]. f_equal. lia. }
  rewrite lor_shiftl_add, Z.shiftr_div_pow2; [|done|done|].
  - rewrite Z.ones_equiv. lia.
  - rewrite Z.ones_equiv. assert (0 < 2 ^ n) by lia. lia.
Qed.

(** The next cursor, read in reversed order: the end of the block of the
    hashes that share the cursor's bucket. *)
Lemma next_cursor_spec v k :
  is_u64 v -> 0 <= k <= 64 ->
  is_u64 (next_cursor (2 ^ k - 1) v) ∧
  rev (next_cursor (2 ^ k - 1) v) = u64 ((rev v / 2 ^ (64 - k) + 1) * 2 ^ (64 - k)).
Proof.
  intros Hv Hk. unfold next_cursor. rewrite rev_set_high, lor_ones_succ by (done || lia).
  split; [apply rev_u64, u64_range|]. apply rev_involutive, u64_range.
Qed.

(** Hashes of the same block are in the same bucket. *)
Lemma same_block_bucket h v k :
  0 <= k <= 64 -> rev h / 2 ^ (64 - k) = rev v / 2 ^ (64 - k) ->
  Z.land h (2 ^ k - 1) = Z.land v (2 ^ k - 1).
Proof.
  intros Hk E. replace (2 ^ k - 1) with (Z.ones k) by (rewrite Z.ones_equiv; lia).
  apply Z.bits_inj'. intros i Hi. rewrite !Z.land_spec, Z.testbit_ones_nonneg by lia.
  destruct (Z.ltb_spec i k); [|by rewrite !andb_false_r]. rewrite !andb_true_r.
  apply (f_equal (λ z, Z.testbit z (63 - i - (64 - k)))) in E.
  rewrite !Z.div_pow2_bits in E by lia.
  replace (63 - i - (64 - k) + (64 - k)) with (63 - i) in E by lia.
  rewrite !rev_testbit in E by lia. by replace (63 - (63 - i)) with i in E by lia.
Qed.

(** The loop's condition: the bits between the two masks, reversed. *)
Lemma mask_difference v k0 k1 :
  is_u64 v -> 0 <= k0 <= k1 -> k1 <= 64 ->
  Z.land v (Z.lxor (2 ^ k0 - 1) (2 ^ k1 - 1)) = 0 <->
  rev v mod 2 ^ (64 - k0) / 2 ^ (64 - k1) = 0.
Proof.
  intros Hv Hk0 Hk1.
  replace (2 ^ k0 - 1) with (Z.ones k0) by (rewrite Z.ones_equiv; lia).
  replace (2 ^ k1 - 1) with (Z.ones k1) by (rewrite Z.ones_equiv; lia).
  assert (∀ i, 0 <= i -> Z.testbit (Z.land v (Z.lxor (Z.ones k0) (Z.ones k1))) i =
    Z.testbit v i && ((k0 <=? i) && (i <? k1))) as HL.
  { intros i Hi. rewrite Z.land_spec, Z.lxor_spec, !Z.testbit_ones_nonneg by lia. f_equal.
    destruct (Z.ltb_spec i k0), (Z.ltb_spec i k1), (Z.leb_spec k0 i); done || lia. }
  assert (∀ j, 0 <= j -> Z.testbit (rev v mod 2 ^ (64 - k0) / 2 ^ (64 - k1)) j =
    (j <? k1 - k0) && Z.testbit v (k1 - 1 - j)) as HR.
  { intros j Hj. rewrite Z.div_pow2_bits, testbit_mod_pow2 by lia.
    destruct (Z.ltb_spec (j + (64 - k1)) (64 - k0)), (Z.ltb_spec j (k1 - k0)); try lia.
    cbn [andb]. rewrite rev_testbit by lia. f_equal. lia. }
  split; intros E; apply Z.bits_inj'; intros i Hi; rewrite Z.bits_0.
  - rewrite HR by done. destruct (Z.ltb_spec i (k1 - k0)); [|done]. cbn [andb].
    apply (f_equal (λ z, Z.testbit z (k1 - 1 - i))) in E. rewrite HL, Z.bits_0 in E by lia.
    destruct (Z.leb_spec k0 (k1 - 1 - i)), (Z.ltb_spec (k1 - 1 - i) k1); try lia.
    by rewrite !andb_true_r in E.
  - rewrite HL by done. destruct (Z.leb_spec k0 i), (Z.ltb_spec i k1); cbn [andb];
      rewrite ?andb_false_r, ?andb_true_r; try done.
    apply (f_equal (λ z, Z.testbit z (k1 - 1 - i))) in E. rewrite HR, Z.bits_0 in E by lia.
    destruct (Z.ltb_spec (k1 - 1 - i) (k1 - k0)); [|lia]. cbn [andb] in E.
    by replace (k1 - 1 - (k1 - 1 - i)) with i in E by lia.
Qed.

(** ** One call *)
Section scan_spec.
Context {K V I : Type} `{EqDecision K} `{Countable I} (key_id : K -> I).
Implicit Types (d : dict K V) (e : m_dictEntry K V).
Local Notation wf := (dict_wf key_id).

(** Where an entry is on the reversed line of hashes. *)
Definition hash_pos d e : Z := rev (hashFunction (d_type d) (de_key e)).

Lemma hash_pos_range d e : wf d -> 0 <= hash_pos d e < 2 ^ 64.
Proof. intros Hwf. apply rev_u64. apply (wf_type _ _ Hwf). Qed.

Lemma scan_bucket_spec b d t k v :
  wf d -> ht_table (ht_at d t) ≠ [] -> ht_sizemask (ht_at d t) = 2 ^ k - 1 -> 0 <= k <= 64 ->
  is_u64 v ->
  ∃ evs, scan_bucket b d t v = Some evs ∧
    (∀ e, Fn e ∈ evs -> e ∈ entries d) ∧
    ∀ e, e ∈ ht_entries (ht_at d t) ->
      hash_pos d e / 2 ^ (64 - k) = rev v / 2 ^ (64 - k) -> Fn e ∈ evs.
Proof.
  intros Hwf Ht Em Hk Hv. pose proof (ht_at_wf key_id d t Hwf) as Hwft.
  destruct (bucket_hash (ht_at d t) v (wf_shape _ _ Hwft) Ht (proj1 Hv)) as [de Hde].
  unfold scan_bucket. rewrite Hde. cbn [mbind option_bind]. eexists. split; [done|].
  assert (∀ e, @Fn K V e ∈ (if b then [BucketFn t (Z.land v (ht_sizemask (ht_at d t)))] else []) ++
             (Fn <$> de) <-> e ∈ de) as Hin.
  { intros e. rewrite elem_of_app, list_elem_of_fmap. split.
    - intros [He|(e' & [= <-] & He)]; [|done]. destruct b; [|by apply elem_of_nil in He].
      by apply list_elem_of_singleton in He.
    - intros He. right. by exists e. }
  apply bucket_Some in Hde as [Hge Hde]. split; intros e.
  - rewrite Hin. intros He. apply (entries_ht_at d t), elem_of_concat. eauto.
  - intros (i & c & Hi & He)%elem_of_concat Hq. rewrite Hin.
    apply same_block_bucket in Hq; [|done]. rewrite <- Em in Hq.
    rewrite (wf_placed _ _ Hwft i c e Hi He) in Hq. rewrite <- Hq, Nat2Z.id in Hde. congruence.
Qed.

(** A block of [2 ^ n] positions from [x]'s on, and where it ends. *)
Lemma block_end x n :
  0 <= x < 2 ^ 64 -> 0 <= n <= 64 -> x < (x / 2 ^ n + 1) * 2 ^ n <= 2 ^ 64.
Proof.
  intros Hx Hn. assert (0 < 2 ^ n) by lia.
  pose proof (Z.div_mod x (2 ^ n) ltac:(lia)). pose proof (Z.mod_pos_bound x (2 ^ n) ltac:(lia)).
  split; [nia|]. assert (x / 2 ^ n < 2 ^ (64 - n)) as Hq.
  { apply Z.div_lt_upper_bound; [lia|]. rewrite <- Z.pow_add_r by lia.
    replace (n + (64 - n)) with 64 by lia. lia. }
  replace (2 ^ 64) with (2 ^ (64 - n) * 2 ^ n); [nia|].
  rewrite <- Z.pow_add_r by lia. f_equal. lia.
Qed.

Lemma in_block x y n :
  0 <= x -> 0 <= n -> x <= y < (x / 2 ^ n + 1) * 2 ^ n -> y / 2 ^ n = x / 2 ^ n.
Proof.
  intros Hx Hn [Hl Hu]. assert (0 < 2 ^ n) by lia.
  assert (x / 2 ^ n <= y / 2 ^ n) by (apply Z.div_le_mono; lia).
  assert (y / 2 ^ n < x / 2 ^ n + 1) by (apply Z.div_lt_upper_bound; lia). lia.
Qed.

(** [D] blocks of the larger table make one of the smaller: the blocks still to
    visit are one fewer after each round. *)
Lemma blocks_left q D :
  0 < D -> 0 <= q ->
  ((q + 1) mod D = 0 ∧ (q / D + 1) * D = q + 1) ∨
  ((q + 1) mod D = q mod D + 1 ∧ (q + 1) / D = q / D).
Proof.
  intros HD Hq. pose proof (Z.div_mod q D ltac:(lia)). pose proof (Z.mod_pos_bound q D HD).
  destruct (decide (q mod D + 1 = D)).
  - left. assert (q + 1 = (q / D + 1) * D) as E by nia. split; [|lia].
    rewrite E. apply Z.mod_mul. lia.
  - right. assert (q + 1 = D * (q / D) + (q mod D + 1)) as E by lia.
    split; symmetry; [apply (Z.mod_unique_pos (q + 1) D (q / D) (q mod D + 1))
                     |apply (Z.div_unique_pos (q + 1) D (q / D) (q mod D + 1))]; lia.
Qed.

(** One round of the loop: it is the last one, or the next one starts at the
    next block of the larger table. *)
Lemma scan_loop_round v k0 k1 :
  let N := 2 ^ (64 - k1) in let D := 2 ^ (k1 - k0) in let q := rev v / N in
  let v1 := next_cursor (2 ^ k1 - 1) v in
  let c := Z.land v1 (Z.lxor (2 ^ k0 - 1) (2 ^ k1 - 1)) in
  0 <= k0 <= k1 -> k1 <= 64 -> is_u64 v ->
  is_u64 v1 ∧
  (c = 0 ∧ rev v1 = u64 ((q + 1) * N) ∧ (q / D + 1) * D = q + 1 ∨
   c ≠ 0 ∧ rev v1 / N = q + 1 ∧ (q + 1) mod D = q mod D + 1 ∧ (q + 1) / D = q / D).
Proof.
  intros N D q v1 c Hk0 Hk1 Hv. assert (0 < N ∧ 0 < D) as [HN HD] by (unfold N, D; lia).
  pose proof (rev_u64 v Hv) as Hrv. unfold is_u64 in Hrv.
  assert (0 <= q) as Hq by (apply Z.div_pos; lia).
  destruct (next_cursor_spec v k1 Hv ltac:(lia)) as [Hv1 Hr1]. fold v1 in Hv1, Hr1.
  pose proof (block_end (rev v) (64 - k1) Hrv ltac:(lia)) as [_ Hend]. fold N q in Hr1, Hend.
  pose proof (mask_difference v1 k0 k1 Hv1 Hk0 Hk1) as Hmask. fold N c in Hmask.
  assert (2 ^ (64 - k0) = D * N) as EDN.
  { unfold D, N. rewrite <- Z.pow_add_r by lia. f_equal. lia. }
  assert (2 ^ 64 = 2 ^ k0 * (D * N)) as Ec.
  { rewrite <- EDN, <- Z.pow_add_r by lia. f_equal. lia. }
  assert (rev v1 mod (D * N) / N = (q + 1) mod D) as Hmod.
  { rewrite Hr1. unfold u64. rewrite Ec, Z.mod_mod_divide by (by exists (2 ^ k0)).
    rewrite (Z.mul_comm D N), (Z.mul_comm (q + 1) N), Z.mul_mod_distr_l by lia.
    rewrite Z.mul_comm. apply Z.div_mul. lia. }
  rewrite EDN, Hmod in Hmask. split; [done|].
  destruct (blocks_left q D HD Hq) as [[Hz Hlast]|[Hz Hsame]].
  - left. split_and!; [by apply Hmask|done|done].
  - right. pose proof (Z.mod_pos_bound q D HD). split_and!; [rewrite Hmask; lia| |done|done].
    rewrite Hr1, u64_small; [apply Z.div_mul; lia|]. split; [nia|].
    destruct (decide ((q + 1) * N = 2 ^ 64)) as [Ee|]; [|lia].
    assert (q + 1 = 2 ^ k0 * D) as Eq.
    { rewrite Ec, Z.mul_assoc in Ee. by apply Z.mul_reg_r in Ee; [|lia]. }
    rewrite Eq, Z.mod_mul in Hz by lia. lia.
Qed.

Lemma scan_loop_spec fuel b d t k0 k1 v :
  let N := 2 ^ (64 - k1) in let D := 2 ^ (k1 - k0) in let q := rev v / N in
  wf d -> ht_table (ht_at d t) ≠ [] -> ht_sizemask (ht_at d t) = 2 ^ k1 - 1 ->
  0 <= k0 <= k1 -> k1 <= 64 -> is_u64 v -> D - q mod D <= Z.of_nat fuel ->
  ∃ v' evs, scan_loop fuel b d t (2 ^ k0 - 1) (2 ^ k1 - 1) v = Some (v', evs) ∧ is_u64 v' ∧
    rev v' = u64 ((q / D + 1) * D * N) ∧ (∀ e, Fn e ∈ evs -> e ∈ entries d) ∧
    ∀ e, e ∈ ht_entries (ht_at d t) -> q <= hash_pos d e / N < (q / D + 1) * D -> Fn e ∈ evs.
Proof.
  intros N D q Hwf Ht Em Hk0 Hk1 Hv. assert (0 < D) as HD by (unfold D; lia).
  revert v q Hv. induction fuel as [|fuel IH]; intros v q Hv Hf.
  { pose proof (Z.mod_pos_bound q D HD). lia. }
  destruct (scan_bucket_spec b d t k1 v Hwf Ht Em ltac:(lia) Hv) as (evs & Hb & Hin & Hall).
  cbn [scan_loop]. rewrite Hb. cbn [mbind option_bind].
  pose proof (scan_loop_round v k0 k1 Hk0 Hk1 Hv) as Hround. cbv zeta in Hround.
  fold N D in Hround. fold q in Hround. set (v1 := next_cursor (2 ^ k1 - 1) v) in *.
  destruct Hround as [Hv1 [(Hc & Hr & Hlast)|(Hc & Hq1 & Hm & Hd)]].
  - rewrite decide_False by lia. exists v1, evs. rewrite Hlast.
    split_and!; try done. intros e He Hpos. apply Hall; [done|]. fold N q. lia.
  - rewrite decide_True by done.
    specialize (IH v1). cbv zeta in IH. rewrite Hq1, Hm, Hd in IH.
    destruct IH as (v' & evs' & E & Hv' & Hr' & Hin' & Hall'); [done|lia|].
    rewrite E. cbn [mbind option_bind]. exists v', (evs ++ evs'). split_and!; try done.
    + intros e [He|He]%elem_of_app; auto.
    + intros e He Hpos. apply elem_of_app.
      destruct (decide (hash_pos d e / N = q)); [left; by apply Hall|right; apply Hall'; [done|lia]].
Qed.

Lemma mask_pow (ht : dictht K V) T :
  ht_wf T ht -> ht_table ht ≠ [] ->
  ∃ k, 2 <= k <= 60 ∧ ht_sizemask ht = 2 ^ k - 1 ∧ ht_size ht = 2 ^ k.
Proof.
  intros Hwf Ht. destruct (wf_shape _ _ Hwf) as [[? _]|(k & Hk & E & Em)]; [done|].
  exists k. by rewrite (wf_size _ _ Hwf).
Qed.

(** The two tables of a rehashing, the smaller first. *)
Lemma scan_rehashing b d v t0 t1 k0 k1 :
  wf d -> ht_table (ht_at d t0) ≠ [] -> ht_table (ht_at d t1) ≠ [] ->
  2 <= k0 <= k1 -> k1 <= 60 ->
  ht_sizemask (ht_at d t0) = 2 ^ k0 - 1 -> ht_sizemask (ht_at d t1) = 2 ^ k1 - 1 ->
  ht_size (ht_at d t1) = 2 ^ k1 -> is_u64 v ->
  (∀ e, e ∈ entries d -> e ∈ ht_entries (ht_at d t0) ∨ e ∈ ht_entries (ht_at d t1)) ->
  let hi := (rev v / 2 ^ (64 - k0) + 1) * 2 ^ (64 - k0) in
  ∃ evs0 v' evs1, scan_bucket b d t0 v = Some evs0 ∧
    scan_loop (Z.to_nat (ht_size (ht_at d t1))) b d t1 (2 ^ k0 - 1) (2 ^ k1 - 1) v = Some (v', evs1) ∧
    is_u64 v' ∧ rev v' = u64 hi ∧ (∀ e, Fn e ∈ evs0 ++ evs1 -> e ∈ entries d) ∧
    ∀ e, e ∈ entries d -> rev v <= hash_pos d e < hi -> Fn e ∈ evs0 ++ evs1.
Proof.
  intros Hwf Ht0 Ht1 Hk0 Hk1 Em0 Em1 Es1 Hv Htabs hi.
  pose proof (rev_u64 v Hv) as Hrv. unfold is_u64 in Hrv.
  destruct (scan_bucket_spec b d t0 k0 v Hwf Ht0 Em0 ltac:(lia) Hv) as (evs0 & Hb & Hin0 & Hall0).
  assert (0 < 2 ^ (64 - k1) ∧ 0 < 2 ^ (k1 - k0)) as [HN HD] by lia.
  assert (2 ^ (k1 - k0) <= 2 ^ k1) by (apply Z.pow_le_mono_r; lia).
  pose proof (Z.mod_pos_bound (rev v / 2 ^ (64 - k1)) (2 ^ (k1 - k0)) HD).
  destruct (scan_loop_spec (Z.to_nat (ht_size (ht_at d t1))) b d t1 k0 k1 v)
    as (v' & evs1 & Hl & Hv' & Hr' & Hin1 & Hall1); [done|done|done|lia|lia|done|lia|].
  assert (2 ^ (64 - k0) = 2 ^ (k1 - k0) * 2 ^ (64 - k1)) as EDN
    by (rewrite <- Z.pow_add_r by lia; f_equal; lia).
  assert ((rev v / 2 ^ (64 - k1) / 2 ^ (k1 - k0) + 1) * 2 ^ (k1 - k0) * 2 ^ (64 - k1) = hi) as Ehi.
  { unfold hi. rewrite Z.div_div, (Z.mul_comm (2 ^ (64 - k1))), <- EDN by lia.
    rewrite <- Z.mul_assoc, <- EDN. done. }
  rewrite Ehi in Hr'. exists evs0, v', evs1. split_and!; try done.
  - intros e [He|He]%elem_of_app; auto.
  - intros e He Hpos. apply elem_of_app. destruct (Htabs e He) as [Ht|Ht].
    + left. apply Hall0; [done|]. apply in_block; lia.
    + right. apply Hall1; [done|]. split; [apply Z.div_le_mono; lia|].
      apply Z.div_lt_upper_bound; [lia|]. rewrite Z.mul_comm, Ehi. lia.
Qed.

(** The number of buckets of the smaller table, which decides how far a call
    gets. *)
Definition scan_size d : Z :=
  if dictIsRehashing d then Z.min (ht_size (ht0 d)) (ht_size (ht1 d)) else ht_size (ht0 d).

Lemma scan_size_log d : wf d -> 0 <= 64 - Z.log2 (scan_size d) <= 64.
Proof.
  intros Hwf. pose proof (Z.log2_nonneg (scan_size d)). split; [|lia].
  assert (scan_size d <= ht_size (ht0 d)) as Hle
    by (unfold scan_size; destruct (dictIsRehashing d); lia).
  assert (ht_size (ht0 d) <= 2 ^ 60).
  { rewrite (wf_size _ _ (wf_ht0 _ _ Hwf)). destruct (wf_shape _ _ (wf_ht0 _ _ Hwf)) as
      [[-> _]|(k & Hk & -> & _)]; [simpl; lia|apply Z.pow_le_mono_r; lia]. }
  destruct (decide (0 < scan_size d)); [|rewrite Z.log2_nonpos by lia; lia].
  assert (Z.log2 (scan_size d) <= Z.log2 (2 ^ 60)) by (apply Z.log2_le_mono; lia).
  rewrite Z.log2_pow2 in * by lia. lia.
Qed.

(** One call covers the interval of the reversed line from the cursor to the
    next cursor, the rest of the cursor's block at least. *)
Lemma scan_step b d v :
  wf d -> is_u64 v ->
  let n := 64 - Z.log2 (scan_size d) in
  ∃ v' evs hi, m_dictScan d v b = Some (v', evs) ∧ is_u64 v' ∧ rev v < hi <= 2 ^ 64 ∧
    (rev v / 2 ^ n + 1) * 2 ^ n <= hi ∧ rev v' = u64 hi ∧ (∀ e, Fn e ∈ evs -> e ∈ entries d) ∧
    ∀ e, e ∈ entries d -> rev v <= hash_pos d e < hi -> Fn e ∈ evs.
Proof.
  intros Hwf Hv n. pose proof (rev_u64 v Hv) as Hrv. unfold is_u64 in Hrv.
  unfold m_dictScan. rewrite (dictSize_entries key_id) by done. case_decide as Hz.
  { pose proof (block_end (rev v) n Hrv (scan_size_log d Hwf)). assert (entries d = []) as -> by (destruct (entries d); [done|simpl in Hz; lia]).
    exists 0, [], (2 ^ 64). split_and!; try done; try lia; by intros e ?%elem_of_nil. }
  assert (n = 64 - Z.log2 (scan_size d)) as En by done. clearbody n. unfold scan_size in En.
  assert (entries d ≠ []) as Hne by (by intros E; rewrite E in Hz).
  pose proof (entries_ht0 key_id d Hwf Hne) as Ht0.
  destruct (mask_pow _ _ (wf_ht0 _ _ Hwf) Ht0) as (ka & Hka & Ema & Esa).
  destruct (dictIsRehashing d) eqn:Hr; cbn [negb]; cycle 1.
  - rewrite Esa, Z.log2_pow2 in En by lia. subst n.
    destruct (scan_bucket_spec b d 0 ka v Hwf Ht0 Ema ltac:(lia) Hv) as (evs & -> & Hin & Hall).
    cbn [mbind option_bind]. rewrite Ema.
    destruct (next_cursor_spec v ka Hv ltac:(lia)) as [Hv' Hr'].
    destruct (not_rehashing_tables _ d Hwf Hr) as (_ & _ & Ee & _).
    exists (next_cursor (2 ^ ka - 1) v), evs, ((rev v / 2 ^ (64 - ka) + 1) * 2 ^ (64 - ka)).
    split_and!; [done|done|apply block_end; lia|apply block_end; lia|lia|done|done|].
    intros e He Hpos. rewrite Ee in He. apply Hall; [done|]. apply in_block; lia.
  - destruct (rehashing_tables _ d Hwf Hr) as (_ & Ht1 & _).
    destruct (mask_pow _ _ (wf_ht1 _ _ Hwf) Ht1) as (kb & Hkb & Emb & Esb).
    rewrite Esa, Esb in *.
    destruct (Z.ltb_spec (2 ^ kb) (2 ^ ka)) as [Hlt|Hle].
    + rewrite Z.min_r, Z.log2_pow2 in En by lia. subst n. apply Z.pow_lt_mono_r_iff in Hlt; [|lia|lia].
      destruct (scan_rehashing b d v 1 0 kb ka) as (evs0 & v' & evs1 & E0 & E1 & Hv' & Hr' & Hin & Hall);
        try done; try lia. { intros e [?|?]%elem_of_app; auto. }
      cbn [ht_at] in *. rewrite Ema, Emb, E0. cbn [mbind option_bind]. rewrite E1.
      cbn [mbind option_bind]. eexists _, _, _.
      split_and!; [done|done| | |reflexivity|exact Hr'|done|done]; apply block_end; lia.
    + rewrite Z.min_l, Z.log2_pow2 in En by lia. subst n. apply Z.pow_le_mono_r_iff in Hle; [|lia|lia].
      destruct (scan_rehashing b d v 0 1 ka kb) as (evs0 & v' & evs1 & E0 & E1 & Hv' & Hr' & Hin & Hall);
        try done; try lia. { intros e [?|?]%elem_of_app; auto. }
      cbn [ht_at] in *. rewrite Ema, Emb, E0. cbn [mbind option_bind]. rewrite E1.
      cbn [mbind option_bind]. eexists _, _, _.
      split_and!; [done|done| | |reflexivity|exact Hr'|done|done]; apply block_end; lia.
Qed.

(** ** The entries one call passes *)

Definition passed (evs : list (scan_event K V)) : list (m_dictEntry K V) :=
  omap (λ ev, match ev with Fn e => Some e | BucketFn _ _ => None end) evs.

Lemma passed_app evs evs' : passed (evs ++ evs') = passed evs ++ passed evs'.
Proof. apply omap_app. Qed.

Lemma elem_of_passed e evs : e ∈ passed evs <-> Fn e ∈ evs.
Proof.
  unfold passed. rewrite list_elem_of_omap. split; [|by exists (Fn e)].
  by intros ([|e'] & He & [= ->]).
Qed.

Lemma bucket_same_block h v k :
  0 <= k <= 64 -> Z.land h (2 ^ k - 1) = Z.land v (2 ^ k - 1) ->
  is_u64 h -> is_u64 v -> rev h / 2 ^ (64 - k) = rev v / 2 ^ (64 - k).
Proof.
  replace (2 ^ k - 1) with (Z.ones k) by (rewrite Z.ones_equiv; lia). intros Hk E Hh Hv.
  apply Z.bits_inj'. intros i Hi. rewrite !Z.div_pow2_bits by lia.
  destruct (decide (i + (64 - k) < 64)).
  - rewrite !rev_testbit by lia. apply (f_equal (λ z, Z.testbit z (63 - (i + (64 - k))))) in E.
    rewrite !Z.land_spec, Z.testbit_ones_nonneg in E by lia.
    destruct (Z.ltb_spec (63 - (i + (64 - k))) k); [|lia]. by rewrite !andb_true_r in E.
  - pose proof (rev_u64 h Hh). pose proof (rev_u64 v Hv).
    rewrite (testbit_above (rev h) 64), (testbit_above (rev v) 64); (done || unfold is_u64 in *; lia).
Qed.

Lemma ht_at_nodup d t : wf d -> NoDup (ht_entries (ht_at d t)).
Proof.
  intros Hwf. pose proof (NoDup_fmap_1 _ _ (wf_nodup _ _ Hwf)) as Hnd.
  unfold entries in Hnd. apply NoDup_app in Hnd as (H0 & _ & H1). by destruct t.
Qed.

(** A bucket: each of its entries once, all of them of the cursor's block. *)
Lemma scan_bucket_passed b d t k v evs :
  wf d -> ht_sizemask (ht_at d t) = 2 ^ k - 1 -> 0 <= k <= 64 -> is_u64 v ->
  scan_bucket b d t v = Some evs ->
  NoDup (passed evs) ∧
  ∀ e, e ∈ passed evs -> e ∈ ht_entries (ht_at d t) ∧
    hash_pos d e / 2 ^ (64 - k) = rev v / 2 ^ (64 - k).
Proof.
  intros Hwf Em Hk Hv. unfold scan_bucket.
  destruct (bucket (ht_at d t) _) as [de|] eqn:Hde; [|done]. cbn [mbind option_bind]. intros [= <-].
  assert (passed ((if b then [BucketFn t (Z.land v (ht_sizemask (ht_at d t)))] else []) ++
    (Fn <$> de)) = de) as ->.
  { rewrite passed_app. assert (passed (if b then _ else _) = []) as -> by (by destruct b).
    cbn [app]. clear Hde. induction de as [|e de IH]; [done|]. rewrite <- IH at 2. done. }
  apply bucket_Some in Hde as [Hge Hde]. split.
  - pose proof (ht_at_nodup d t Hwf) as Hnd. unfold ht_entries in Hnd.
    rewrite <- (take_drop_middle _ _ _ Hde), concat_app in Hnd. cbn [concat] in Hnd.
    apply NoDup_app in Hnd as (_ & _ & Hnd). by apply NoDup_app in Hnd as (Hnd & _).
  - intros e He. split; [apply elem_of_concat; eauto|].
    pose proof (ht_at_wf key_id d t Hwf) as Hwft. apply bucket_same_block; [done| | |done].
    + rewrite <- Em, (wf_placed _ _ Hwft _ de e Hde He). apply Z2Nat.id. lia.
    + apply (wf_type _ _ Hwf).
Qed.

Lemma passed_disjoint d (evs evs' : list (scan_event K V)) (P : m_dictEntry K V -> Prop) :
  NoDup (passed evs) -> NoDup (passed evs') ->
  (∀ e, e ∈ passed evs -> P e) -> (∀ e, e ∈ passed evs' -> ¬ P e) -> NoDup (passed (evs ++ evs')).
Proof.
  intros H1 H2 HP HN. rewrite passed_app. apply NoDup_app. split_and!; [done| |done].
  intros e He He'. exact (HN e He' (HP e He)).
Qed.

(** The rounds of the loop pass the entries of later and later blocks. *)
Lemma scan_loop_passed fuel b d t k0 k1 v v' evs :
  wf d -> ht_sizemask (ht_at d t) = 2 ^ k1 - 1 -> 0 <= k0 <= k1 -> k1 <= 64 -> is_u64 v ->
  scan_loop fuel b d t (2 ^ k0 - 1) (2 ^ k1 - 1) v = Some (v', evs) ->
  NoDup (passed evs) ∧
  ∀ e, e ∈ passed evs -> e ∈ ht_entries (ht_at d t) ∧
    rev v / 2 ^ (64 - k1) <= hash_pos d e / 2 ^ (64 - k1).
Proof.
  intros Hwf Em Hk0 Hk1. revert v evs. induction fuel as [|fuel IH]; intros v evs Hv; [done|].
  cbn [scan_loop]. destruct (scan_bucket b d t v) as [evs0|] eqn:E0; [|done].
  destruct (scan_bucket_passed b d t k1 v evs0 Hwf Em ltac:(lia) Hv E0) as [Hnd Hb].
  cbn [mbind option_bind].
  pose proof (scan_loop_round v k0 k1 Hk0 Hk1 Hv) as [Hv1 Hround].
  case_decide as Hc.
  - destruct Hround as [[Hc0 _]|(_ & Hq & _)]; [done|].
    destruct (scan_loop fuel b d t _ _ _) as [[v2 evs1]|] eqn:E1; [|done]. cbn [mbind option_bind].
    intros [= -> <-]. destruct (IH _ _ Hv1 E1) as [Hnd1 Hb1]. rewrite Hq in Hb1. split.
    + apply (passed_disjoint d evs0 evs1 (λ e, hash_pos d e / 2 ^ (64 - k1) = rev v / 2 ^ (64 - k1)));
        [done|done|intros e He; by apply Hb|intros e [_ He]%Hb1; lia].
    + intros e. rewrite passed_app. intros [[Hin He]%Hb|[Hin He]%Hb1]%elem_of_app; split; (done || lia).
  - intros [= _ <-]. split; [done|]. intros e [Hin He]%Hb. split; [done|lia].
Qed.

Lemma scan_passed b d v v' evs :
  wf d -> is_u64 v -> m_dictScan d v b = Some (v', evs) -> NoDup (passed evs).
Proof.
  intros Hwf Hv. unfold m_dictScan. rewrite (dictSize_entries key_id) by done.
  case_decide as Hz; [intros [= _ <-]; constructor|].
  assert (entries d ≠ []) as Hne by (by intros E; rewrite E in Hz).
  pose proof (entries_ht0 key_id d Hwf Hne) as Ht0.
  destruct (mask_pow _ _ (wf_ht0 _ _ Hwf) Ht0) as (ka & Hka & Ema & Esa).
  destruct (dictIsRehashing d) eqn:Hr; cbn [negb]; cycle 1.
  - destruct (scan_bucket b d 0 v) as [evs0|] eqn:E0; [|done]. cbn [mbind option_bind].
    intros [= _ <-]. by apply (scan_bucket_passed b d 0 ka v evs0 Hwf Ema ltac:(lia) Hv).
  - destruct (rehashing_tables _ d Hwf Hr) as (_ & Ht1 & _).
    destruct (mask_pow _ _ (wf_ht1 _ _ Hwf) Ht1) as (kb & Hkb & Emb & Esb).
    pose proof (NoDup_fmap_1 _ _ (wf_nodup _ _ Hwf)) as Hnd. unfold entries in Hnd.
    apply NoDup_app in Hnd as (_ & Hd & _).
    assert (∀ t0 t1 k0 k1, k0 <= k1 <= 60 -> 2 <= k0 ->
      ht_sizemask (ht_at d t0) = 2 ^ k0 - 1 -> ht_sizemask (ht_at d t1) = 2 ^ k1 - 1 ->
      (∀ e, e ∈ ht_entries (ht_at d t0) -> e ∉ ht_entries (ht_at d t1)) ->
      ∀ fuel, (evs0 ← scan_bucket b d t0 v;
       '(v, evs1) ← scan_loop fuel b d t1 (2 ^ k0 - 1) (2 ^ k1 - 1) v;
       Some (v, evs0 ++ evs1)) = Some (v', evs) -> NoDup (passed evs)) as Hgen.
    { intros t0 t1 k0 k1 Hk01 Hk0 Em0 Em1 Hdis fuel.
      destruct (scan_bucket b d t0 v) as [evs0|] eqn:E0; [|done]. cbn [mbind option_bind].
      destruct (scan_loop _ _ _ _ _ _ _) as [[v2 evs1]|] eqn:E1; [|done]. cbn [mbind option_bind].
      intros [= _ <-].
      destruct (scan_bucket_passed b d t0 k0 v evs0 Hwf Em0 ltac:(lia) Hv E0) as [Hn0 Hb0].
      destruct (scan_loop_passed fuel b d t1 k0 k1 v v2 evs1 Hwf Em1 ltac:(lia) ltac:(lia) Hv E1)
        as [Hn1 Hb1].
      apply (passed_disjoint d evs0 evs1 (λ e, e ∈ ht_entries (ht_at d t0))); [done|done| |].
      - intros e He. by apply Hb0.
      - intros e [He _]%Hb1 Hin. by apply (Hdis e). }
    rewrite Esa, Esb. destruct (Z.ltb_spec (2 ^ kb) (2 ^ ka)) as [Hlt|Hle]; cbv iota beta zeta.
    + apply Z.pow_lt_mono_r_iff in Hlt; [|lia|lia]. cbn [ht_at]. rewrite Ema, Emb.
      apply (Hgen 1%nat 0%nat kb ka); (done || lia || (intros e He He'; by apply (Hd e))).
    + apply Z.pow_le_mono_r_iff in Hle; [|lia|lia]. cbn [ht_at]. rewrite Ema, Emb.
      apply (Hgen 0%nat 1%nat ka kb); (done || lia || apply Hd).
Qed.

Lemma scan_passed_length b d v v' evs :
  wf d -> is_u64 v -> m_dictScan d v b = Some (v', evs) -> (length (passed evs) <= length (entries d))%nat.
Proof.
  intros Hwf Hv E. pose proof (scan_passed b d v v' evs Hwf Hv E) as Hnd.
  destruct (scan_step b d v Hwf Hv) as (v2 & evs2 & hi & E2 & _ & _ & _ & _ & Hin & _).
  rewrite E in E2. injection E2 as <- <-.
  apply submseteq_length, NoDup_submseteq; [done|]. intros e He. by apply Hin, elem_of_passed.
Qed.

(** ** Iterations *)
Lemma hash_pos_same d1 d2 e1 e2 :
  wf d1 -> d_type d2 = d_type d1 -> entry_id key_id e1 = entry_id key_id e2 ->
  hash_pos d1 e1 = hash_pos d2 e2.
Proof.
  intros Hwf ET E. unfold hash_pos. rewrite ET. f_equal.
  destruct (wf_type _ _ Hwf) as [_ Hid _ _]. by apply Hid.
Qed.

Lemma rev_zero v : is_u64 v -> rev v = 0 -> v = 0.
Proof. intros Hv E. rewrite <- (rev_involutive v Hv), E. reflexivity. Qed.

(** What the calls before the cursor is back at 0 must have returned. *)
Lemma scan_calls_cover T ds v evs x P :
  (∀ d, d ∈ ds -> wf d ∧ d_type d = T ∧
     ∃ e, e ∈ entries d ∧ entry_id key_id e = x ∧ hash_pos d e = P) ->
  is_u64 v -> (ds = [] -> v ≠ 0) -> rev v <= P ->
  scan_calls ds v = Some (0, evs) ->
  ∃ e, Fn e ∈ evs ∧ entry_id key_id e = x.
Proof.
  revert v evs. induction ds as [|d ds IH]; intros v evs Hds Hv Hne HP; cbn [scan_calls].
  { intros [= -> _]. by destruct Hne. }
  destruct (Hds d) as (Hwf & ET & e & He & Hid & Hpos); [by left|].
  destruct (scan_step false d v Hwf Hv) as (v' & evs1 & hi & -> & Hv' & Hhi & _ & Hr' & _ & Hall).
  cbn [mbind option_bind].
  destruct (decide (P < hi)) as [Hlt|Hge].
  - assert (Fn e ∈ evs1) as Hin by (apply Hall; [done|lia]).
    case_decide; [by intros [= <-]; exists e|].
    destruct (scan_calls ds v') as [[v'' evs2]|]; [|done]. intros [= _ <-].
    exists e. split; [|done]. apply elem_of_app. by left.
  - pose proof (hash_pos_range d e Hwf). pose proof (rev_u64 v Hv) as Hrv. unfold is_u64 in Hrv.
    rewrite u64_small in Hr' by lia.
    assert (v' ≠ 0) as Hv0 by (intros ->; change (rev 0) with 0 in Hr'; lia).
    rewrite decide_False by done.
    destruct (scan_calls ds v') as [[v'' evs2]|] eqn:E; [|done]. intros [= -> <-].
    destruct (IH v' evs2) as (e' & He' & Hid'); [|done|done|lia|done|].
    + intros d' Hd'. apply Hds. by right.
    + exists e'. split; [|done]. apply elem_of_app. by right.
Qed.

Lemma scan_size_pow d : 2 ^ Z.log2 (scan_size d) <= Z.max 1 (scan_size d).
Proof using Type.
  destruct (decide (0 < scan_size d)); [|rewrite Z.log2_nonpos by lia; lia].
  pose proof (Z.log2_spec (scan_size d)). lia.
Qed.

(** Over the calls of an iteration, a key every dict holds is passed. *)
Lemma scan_complete_ok T ds evs x :
  ds ≠ [] ->
  Forall (λ d, wf d ∧ d_type d = T ∧ is_Some (dict_map key_id d !! x)) ds ->
  scan_calls ds 0 = Some (0, evs) ->
  ∃ e, Fn e ∈ evs ∧ entry_id key_id e = x.
Proof.
  intros Hne Hds. rewrite Forall_forall in Hds. destruct ds as [|d0 ds'] eqn:Eds; [done|].
  rewrite <- Eds in *.
  assert (∀ d, d ∈ ds -> ∃ e, e ∈ entries d ∧ entry_id key_id e = x) as Hex.
  { intros d Hd. destruct (Hds d Hd) as (Hwf & _ & [kv Hkv]).
    apply dict_map_lookup in Hkv as (e & He & [= E _]); [by exists e|apply (wf_nodup _ _ Hwf)]. }
  assert (d0 ∈ ds) as Hd0 by (rewrite Eds; by left).
  destruct (Hex d0 Hd0) as (e0 & He0 & Hid0). destruct (Hds d0 Hd0) as (Hwf0 & ET0 & _).
  apply (scan_calls_cover T ds 0 evs x (hash_pos d0 e0)).
  - intros d Hd. destruct (Hds d Hd) as (Hwf & ET & _). destruct (Hex d Hd) as (e & He & Hid).
    split_and!; [done..|]. exists e. split_and!; [done..|].
    apply hash_pos_same; congruence.
  - unfold is_u64. lia.
  - intros ->. done.
  - change (rev 0) with 0. by apply hash_pos_range.
Qed.

Lemma scan_calls_app (ds1 ds2 : list (dict K V)) v v1 evs1 :
  scan_calls ds1 v = Some (v1, evs1) -> v1 ≠ 0 ->
  scan_calls (ds1 ++ ds2) v = ('(v2, evs2) ← scan_calls ds2 v1; Some (v2, evs1 ++ evs2)).
Proof.
  revert v evs1. induction ds1 as [|d ds1 IH]; intros v evs1; cbn [app scan_calls].
  { intros [= -> <-] _. by destruct (scan_calls ds2 v1) as [[]|]. }
  destruct (m_dictScan d v false) as [[v' evs]|]; [|done]. cbn [mbind option_bind].
  case_decide; [by intros [= <- _] ?|].
  destruct (scan_calls ds1 v') as [[v'' evs']|] eqn:E; [|done]. cbn [mbind option_bind].
  intros [= -> <-] Hv. rewrite (IH v' evs' E Hv).
  destruct (scan_calls ds2 v1) as [[]|]; [|done]. cbn. by rewrite app_assoc.
Qed.

(** Calls that leave a cursor behind have passed the first block at least. *)
Lemma scan_calls_progress k d v v' evs :
  wf d -> is_u64 v -> (1 <= k)%nat -> scan_calls (replicate k d) v = Some (v', evs) -> v' ≠ 0 ->
  let n := 64 - Z.log2 (scan_size d) in rev v / 2 ^ n + 1 <= rev v' / 2 ^ n.
Proof.
  intros Hwf Hv Hk E Hne n. pose proof (scan_size_log d Hwf) as Hn. fold n in Hn.
  assert (0 < 2 ^ n) by lia.
  revert v evs Hv Hk E. induction k as [|k IH]; intros v evs Hv Hk; [lia|].
  cbn [replicate scan_calls].
  destruct (scan_step false d v Hwf Hv) as (v1 & evs1 & hi & -> & Hv1 & Hhi & Hblk & Hr1 & _).
  fold n in Hblk. cbn [mbind option_bind]. case_decide as Hz; [by intros [= <- _]|].
  assert (hi ≠ 2 ^ 64) as Hhi2 by (intros ->; by apply Hz, rev_zero).
  pose proof (rev_u64 v Hv) as Hrv. unfold is_u64 in Hrv. rewrite u64_small in Hr1 by lia.
  assert (rev v / 2 ^ n + 1 <= rev v1 / 2 ^ n) as Hstep by (rewrite Hr1; apply Z.div_le_lower_bound; lia).
  destruct (scan_calls (replicate k d) v1) as [[v2 evs2]|] eqn:E; [|done]. cbn [mbind option_bind].
  intros [= -> <-]. destruct k as [|k]; [by injection E as -> _|].
  pose proof (IH v1 evs2 Hv1 ltac:(lia) E). lia.
Qed.

(** A call passes entries of its dict. *)
Lemma scan_calls_entries ds v v' evs e :
  Forall wf ds -> is_u64 v -> scan_calls ds v = Some (v', evs) -> Fn e ∈ evs ->
  ∃ d, d ∈ ds ∧ e ∈ entries d.
Proof.
  intros Hds. revert v evs. induction Hds as [|d ds Hwf _ IH]; intros v evs Hv; cbn [scan_calls].
  { by intros [= _ <-] ?%elem_of_nil. }
  destruct (scan_step false d v Hwf Hv) as (v1 & evs1 & hi & -> & Hv1 & _ & _ & _ & Hin & _).
  cbn [mbind option_bind]. case_decide.
  - intros [= <- <-] He. exists d. split; [by left|by apply Hin].
  - destruct (scan_calls ds v1) as [[v2 evs2]|] eqn:E; [|done]. cbn [mbind option_bind].
    intros [= -> <-] [He|He]%elem_of_app.
    + exists d. split; [by left|by apply Hin].
    + destruct (IH v1 evs2 Hv1 E He) as (d' & ? & ?). exists d'. split; [by right|done].
Qed.

(** An iteration of a dict that does not change: each call leaves fewer blocks
    to visit. *)
Lemma scan_calls_static d m v :
  wf d -> is_u64 v ->
  let n := 64 - Z.log2 (scan_size d) in
  2 ^ Z.log2 (scan_size d) - rev v / 2 ^ n <= Z.of_nat m ->
  ∃ evs, scan_calls (replicate m d) v = Some (0, evs) ∧ ∀ e, Fn e ∈ evs -> e ∈ entries d.
Proof.
  intros Hwf Hv n. pose proof (scan_size_log d Hwf) as Hn. fold n in Hn.
  assert (2 ^ 64 = 2 ^ Z.log2 (scan_size d) * 2 ^ n) as E64.
  { rewrite <- Z.pow_add_r; [f_equal; unfold n; lia|apply Z.log2_nonneg|lia]. }
  assert (0 < 2 ^ n) by lia.
  revert v Hv. induction m as [|m IH]; intros v Hv Hm;
    pose proof (rev_u64 v Hv) as Hrv; unfold is_u64 in Hrv;
    pose proof (block_end (rev v) n Hrv Hn) as [Hb1 Hb2].
  { exfalso. rewrite E64 in Hb2. apply Z.mul_le_mono_pos_r in Hb2; lia. }
  cbn [replicate scan_calls].
  destruct (scan_step false d v Hwf Hv) as (v' & evs1 & hi & -> & Hv' & Hhi & Hblk & Hr' & Hin & _).
  fold n in Hblk. cbn [mbind option_bind].
  case_decide as Hz; [by exists evs1|].
  assert (hi ≠ 2 ^ 64) as Hne.
  { intros ->. by apply Hz, rev_zero. }
  rewrite u64_small in Hr' by lia.
  destruct (IH v' Hv') as (evs2 & -> & Hin2).
  { rewrite Hr'. assert (rev v / 2 ^ n + 1 <= hi / 2 ^ n) by (by apply Z.div_le_lower_bound; lia).
    lia. }
  cbn [mbind option_bind]. exists (evs1 ++ evs2). split; [done|].
  intros e [He|He]%elem_of_app; auto.
Qed.

(** ** Properties *)

(** C12. Nothing is missed: over the calls of an iteration, from cursor 0 until
    the cursor is 0 again, every key that the dict holds at every call is
    passed to [fn], however the dict was resized, rehashed or changed
    otherwise between the calls. *)
Theorem m_dictScan_complete T ds evs x :
  ds ≠ [] ->
  Forall (λ d, wf d ∧ d_type d = T ∧ is_Some (dict_map key_id d !! x)) ds ->
  scan_calls ds 0 = Some (0, evs) ->
  ∃ e, Fn e ∈ evs ∧ entry_id key_id e = x.
Proof. apply scan_complete_ok. Qed.

(** C30. An iteration of a dict that is left alone ends, after as many calls as
    the smaller table has buckets at most, and passes exactly the entries of
    the dict to [fn]; no call leaves the tables. *)
Theorem m_dictScan_terminates d :
  wf d ->
  ∃ evs, scan_calls (replicate (Z.to_nat (Z.max 1 (scan_size d))) d) 0 = Some (0, evs) ∧
    ∀ e, Fn e ∈ evs <-> e ∈ entries d.
Proof.
  intros Hwf. pose proof (scan_size_pow d) as Hle.
  destruct (scan_calls_static d (Z.to_nat (Z.max 1 (scan_size d))) 0 Hwf) as (evs & E & Hin).
  { unfold is_u64. lia. }
  { change (rev 0) with 0. rewrite Zdiv_0_l. lia. }
  exists evs. split; [done|]. intros e. split; [apply Hin|]. intros He.
  destruct (scan_calls_cover (d_type d)
    (replicate (Z.to_nat (Z.max 1 (scan_size d))) d) 0 evs (entry_id key_id e) (hash_pos d e))
    as (e' & He' & Hid); [| | | |exact E|].
  - intros d' [-> _]%elem_of_replicate. split_and!; [done..|]. by exists e.
  - unfold is_u64. lia.
  - intros Hnil. apply (f_equal length) in Hnil. rewrite length_replicate in Hnil. simpl in Hnil. lia.
  - change (rev 0) with 0. by apply hash_pos_range.
  - apply Hin in He' as He''. pose proof (wf_nodup _ _ Hwf) as Hnd.
    apply list_elem_of_lookup in He as [i Hi]. apply list_elem_of_lookup in He'' as [j Hj].
    assert (i = j) as <-; [|congruence].
    eapply NoDup_lookup; [exact Hnd|rewrite list_lookup_fmap, Hi; done|].
    rewrite list_lookup_fmap, Hj. cbn. by rewrite Hid.
Qed.

(** One call of [m_dictScan], with any cursor and in the middle of a
    rehashing too, stays inside the tables, gives a cursor again, and passes
    entries of the dict only, none of them twice. *)
Theorem m_dictScan_call d v b :
  wf d -> is_u64 v ->
  ∃ v' evs, m_dictScan d v b = Some (v', evs) ∧ is_u64 v' ∧
    (∀ e, Fn e ∈ evs -> e ∈ entries d) ∧ NoDup (passed evs).
Proof.
  intros Hwf Hv. destruct (scan_step b d v Hwf Hv) as (v' & evs & hi & E & Hv' & _ & _ & _ & Hin & _).
  exists v', evs. exact (conj E (conj Hv' (conj Hin (scan_passed b d v v' evs Hwf Hv E)))).
Qed.
End scan_spec.

(** [rev] reverses the bits of a 64-bit word, and is its own inverse. *)
Theorem rev_reverses v :
  is_u64 v ->
  is_u64 (rev v) ∧ (∀ i, 0 <= i < 64 -> Z.testbit (rev v) i = Z.testbit v (63 - i)) ∧
  rev (rev v) = v.
Proof.
  intros Hv. split_and!; [by apply rev_u64|apply rev_testbit|by apply rev_involutive].
Qed.

(** ** Witnesses *)

(** The concrete dict after its rehashing. *)
Definition ex_dict2 : dict Z nat :=
  match m_dictRehash ex_dict 100 with Some (_, d) => d | None => ex_dict end.

Lemma ex_dict2_wf : dict_wf (λ k : Z, k) ex_dict2 ∧ d_type ex_dict2 = d_type ex_dict.
Proof.
  unfold ex_dict2.
  destruct (rehash_ok (λ k : Z, k) ex_dict 100 ex_dict_wf) as (r & d & -> & Hwf & (_ & ET & _) & _).
  by split.
Qed.

(** An iteration whose first call meets the rehashing half done, and the others
    the larger table. *)
Definition ex_scan : list (dict Z nat) := ex_dict :: replicate 6 ex_dict2.

Lemma m_dictScan_complete_witness :
  ∃ evs e, scan_calls ex_scan 0 = Some (0, evs) ∧ Fn e ∈ evs ∧ entry_id (λ k : Z, k) e = 5.
Proof.
  assert (∃ evs, scan_calls ex_scan 0 = Some (0, evs)) as [evs E].
  { eexists. vm_compute. reflexivity. }
  exists evs. destruct (m_dictScan_complete (λ k : Z, k) (d_type ex_dict) ex_scan evs 5) as (e & He & Hid).
  - discriminate.
  - unfold ex_scan. apply Forall_cons_2.
    + split; [exact ex_dict_wf|]. split; [reflexivity|]. vm_compute. eauto.
    + apply Forall_replicate. destruct ex_dict2_wf as [Hwf ET].
      split; [exact Hwf|]. split; [exact ET|]. vm_compute. eauto.
  - exact E.
  - exists e. split; [exact E|]. split; [exact He|exact Hid].
Defined.

Lemma m_dictScan_terminates_witness :
  ∃ evs, scan_calls (replicate (Z.to_nat (Z.max 1 (scan_size ex_dict))) ex_dict) 0 = Some (0, evs) ∧
    ∀ e, Fn e ∈ evs <-> e ∈ entries ex_dict.
Proof. apply (m_dictScan_terminates (λ k : Z, k) ex_dict), ex_dict_wf. Defined.

Lemma m_dictScan_call_witness :
  ∃ v' evs, m_dictScan ex_dict 3 true = Some (v', evs) ∧ is_u64 v' ∧
    (∀ e, Fn e ∈ evs -> e ∈ entries ex_dict) ∧ NoDup (passed evs).
Proof. apply (m_dictScan_call (λ k : Z, k) ex_dict 3 true); [exact ex_dict_wf|unfold is_u64; lia]. Defined.

Lemma rev_reverses_witness : rev (rev 0x0123456789abcdef) = 0x0123456789abcdef.
Proof. apply (rev_reverses 0x0123456789abcdef). unfold is_u64. lia. Defined.
