(* ===== verification/SkipList.v ===== *)
(** * SkipList: the skip list of dep/skiplist.c

    The list of tagged keys of a database, ordered by score and member.  The
    memory of a list is a map from node addresses to nodes and a map from
    (node, level) pairs to the cells of the nodes' [level] arrays; [None] is
    undefined behaviour: an access to a node or a cell that is not allocated,
    a failed [assert].  [RedisModule_StringCompare] belongs to Redis and is a
    parameter.  The strings an operation releases are returned. *)

From S2P Require Import Prelude.
Local Open Scope Z_scope.

Definition ZSKIPLIST_MAXLEVEL : nat := 64.

(** The address of a node. *)
Definition zloc : Type := positive.
#[export] Instance zloc_eq_dec : EqDecision zloc := Pos.eq_dec.
#[export] Instance zloc_countable : Countable zloc := pos_countable.

Record m_zrangespec := RangeSpec { min : Z; max : Z; minex : bool; maxex : bool }.

Record zskiplistLevel := ZLevel { forward : option zloc; span : Z }.

Record m_zskiplistNode (S : Type) := ZNode {
  member : option S;
  score : Z;
  backward : option zloc
}.
Arguments ZNode {S} _ _ _.
Arguments member {S} _.
Arguments score {S} _.
Arguments backward {S} _.

(** The nodes allocated, and their [level] arrays. *)
Record zmem (S : Type) := ZMem {
  znodes : gmap zloc (m_zskiplistNode S);
  zlevels : gmap (zloc * nat) zskiplistLevel
}.
Arguments ZMem {S} _ _.
Arguments znodes {S} _.
Arguments zlevels {S} _.

Record m_zskiplist (S : Type) := Zsl {
  zsl_header : zloc;
  zsl_tail : option zloc;
  zsl_length : Z;
  zsl_level : nat;
  zsl_mem : zmem S
}.
Arguments Zsl {S} _ _ _ _ _.
Arguments zsl_header {S} _.
Arguments zsl_tail {S} _.
Arguments zsl_length {S} _.
Arguments zsl_level {S} _.
Arguments zsl_mem {S} _.

Section skiplist.
Context {S : Type} (RedisModule_StringCompare : S -> S -> Z).
Implicit Types (m : zmem S) (z : m_zskiplist S).

(** ** Memory accesses *)
Definition node_at m (x : zloc) : option (m_zskiplistNode S) := znodes m !! x.

Definition level_at m (x : zloc) (i : nat) : option zskiplistLevel := zlevels m !! (x, i).

Definition store_level m (x : zloc) (i : nat) (c : zskiplistLevel) : option (zmem S) :=
  _ ← level_at m x i; Some (ZMem (znodes m) (<[(x, i) := c]> (zlevels m))).

Definition store_node m (x : zloc) (n : m_zskiplistNode S) : option (zmem S) :=
  _ ← node_at m x; Some (ZMem (<[x := n]> (znodes m)) (zlevels m)).

Definition store_backward m (x : zloc) (b : option zloc) : option (zmem S) :=
  n ← node_at m x; store_node m x (ZNode (member n) (score n) b).

(** The [level] cells of a new node; the callers store every field of a node
    before it is read, so what [RedisModule_Alloc] leaves there is not seen. *)
Fixpoint alloc_levels (x : zloc) (level : nat) (ls : gmap (zloc * nat) zskiplistLevel) :
    gmap (zloc * nat) zskiplistLevel :=
  match level with
  | O => ls
  | Datatypes.S i => <[(x, i) := ZLevel None 0]> (alloc_levels x i ls)
  end.

Definition m_zslCreateNode m (level : nat) (sc : Z) (mem : option S) : zmem S * zloc :=
  let zn := fresh (dom (znodes m)) in
  (ZMem (<[zn := ZNode mem sc None]> (znodes m)) (alloc_levels zn level (zlevels m)), zn).

Definition m_zslCreate : m_zskiplist S :=
  let '(m, header) := m_zslCreateNode (ZMem ∅ ∅) ZSKIPLIST_MAXLEVEL 0 None in
  Zsl header None 0 1 m.

(** The string released, and the memory without the node. *)
Definition m_zslFreeNode m (node : zloc) : option (list S * zmem S) :=
  n ← node_at m node;
  Some (match member n with Some s => [s] | None => [] end,
        ZMem (delete node (znodes m)) (filter (λ c, c.1.1 ≠ node) (zlevels m))).

(** [while (node)] of [m_zslFree]. *)
Fixpoint free_nodes (fuel : nat) m (node : option zloc) : option (list S * zmem S) :=
  match node with
  | None => Some ([], m)
  | Some x =>
    match fuel with
    | O => None
    | Datatypes.S fuel =>
      c ← level_at m x 0;
      '(freed, m) ← m_zslFreeNode m x;
      '(freed', m) ← free_nodes fuel m (forward c);
      Some (freed ++ freed', m)
    end
  end.

Definition m_zslFree z : option (list S * zmem S) :=
  c ← level_at (zsl_mem z) (zsl_header z) 0;
  '(_, m) ← m_zslFreeNode (zsl_mem z) (zsl_header z);
  free_nodes (Z.to_nat (zsl_length z)) m (forward c).

(** [rand i] is the [i]-th value of [rand()]; [0.25 * 0xFFFF] is not an
    integer, so the comparison is made on four times both sides. *)
Fixpoint random_level_loop (fuel : nat) (rand : nat -> Z) (i level : nat) : option nat :=
  match fuel with
  | O => None
  | Datatypes.S fuel =>
    if 4 * Z.land (rand i) 0xFFFF <? 0xFFFF
    then random_level_loop fuel rand (Datatypes.S i) (Datatypes.S level)
    else Some level
  end.

Definition m_zslRandomLevel (fuel : nat) (rand : nat -> Z) : option nat :=
  level ← random_level_loop fuel rand 0 1;
  Some (if decide (level < ZSKIPLIST_MAXLEVEL)%nat then level else ZSKIPLIST_MAXLEVEL).

(** ** Searching

    Every operation descends the levels with the same loop; [adv] is its
    condition on the next node, given the rank (or [traversed]) reached there. *)
Fixpoint zsl_walk (fuel : nat) m (adv : m_zskiplistNode S -> Z -> bool) (i : nat)
    (x : zloc) (rank : Z) : option (zloc * Z) :=
  c ← level_at m x i;
  match forward c with
  | None => Some (x, rank)
  | Some y =>
    n ← node_at m y;
    if adv n (rank + span c) then
      match fuel with
      | O => None
      | Datatypes.S fuel => zsl_walk fuel m adv i y (rank + span c)
      end
    else Some (x, rank)
  end.

(** [for (i = zsl->level - 1; i >= 0; i--)]: the [update] and [rank] arrays,
    level 0 first. *)
Fixpoint zsl_descend (fuel : nat) m (adv : m_zskiplistNode S -> Z -> bool) (i : nat)
    (x : zloc) (rank : Z) : option (list (zloc * Z)) :=
  match i with
  | O => Some []
  | Datatypes.S i =>
    '(x, rank) ← zsl_walk fuel m adv i x rank;
    rest ← zsl_descend fuel m adv i x rank;
    Some (rest ++ [(x, rank)])
  end.

(** A level is never longer than the list. *)
Definition zsl_search z (adv : m_zskiplistNode S -> Z -> bool) : option (list (zloc * Z)) :=
  zsl_descend (Z.to_nat (zsl_length z)) (zsl_mem z) adv (zsl_level z) (zsl_header z) 0.

(** A call of [RedisModule_StringCompare] with [NULL] is undefined; only the
    header has no member and the loops compare no header. *)
Definition compare_member (n : m_zskiplistNode S) (mem : S) : option Z :=
  (λ s, RedisModule_StringCompare s mem) <$> member n.

(** [forward->score < score || (forward->score == score && compare < 0)]. *)
Definition before (sc : Z) (mem : S) (n : m_zskiplistNode S) (_ : Z) : bool :=
  (score n <? sc) ||
  ((score n =? sc) && (match compare_member n mem with Some c => c <? 0 | None => false end)).

(** ** Insertion *)

(** "for (i = zsl->level; i < level; i++)": the header's cells of the levels
    that come into use. *)
Fixpoint grow_levels (k : nat) m (header : zloc) (i : nat) (length : Z) : option (zmem S) :=
  match k with
  | O => Some m
  | Datatypes.S k =>
    c ← level_at m header i;
    m ← store_level m header i (ZLevel (forward c) length);
    grow_levels k m header (Datatypes.S i) length
  end.

(** "for (i = 0; i < level; i++)": linking [x] in; ranks are [unsigned int]. *)
Fixpoint link_levels (k : nat) m (update : list (zloc * Z)) (x : zloc) (rank0 : Z) (i : nat) :
    option (zmem S) :=
  match k with
  | O => Some m
  | Datatypes.S k =>
    '(u, rank) ← update !! i;
    c ← level_at m u i;
    m ← store_level m x i (ZLevel (forward c) (u64 (span c - u32 (rank0 - rank))));
    m ← store_level m u i (ZLevel (Some x) (u32 (u32 (rank0 - rank) + 1)));
    link_levels k m update x rank0 (Datatypes.S i)
  end.

(** "increment span for untouched levels". *)
Fixpoint bump_spans (k : nat) m (update : list (zloc * Z)) (i : nat) : option (zmem S) :=
  match k with
  | O => Some m
  | Datatypes.S k =>
    '(u, _) ← update !! i;
    c ← level_at m u i;
    m ← store_level m u i (ZLevel (forward c) (u64 (span c + 1)));
    bump_spans k m update (Datatypes.S i)
  end.

(** The [backward] pointers of a new node [x] and of the node behind it, and
    the tail. *)
Definition link_backward z m (x : zloc) (b : option zloc) : option (zmem S * option zloc) :=
  m ← store_backward m x b;
  c ← level_at m x 0;
  match forward c with
  | Some y => m ← store_backward m y (Some x); Some (m, zsl_tail z)
  | None => Some (m, Some x)
  end.

(** [m_zslInsert] with the level drawn. *)
Definition zslInsertAt (level : nat) z (sc : Z) (mem : S) : option (m_zskiplist S * zloc) :=
  update ← zsl_search z (before sc mem);
  let update := map (λ ur, (ur.1, u32 ur.2)) update in
  let grown := (level - zsl_level z)%nat in
  m ← grow_levels grown (zsl_mem z) (zsl_header z) (zsl_level z) (zsl_length z);
  let update := update ++ replicate grown (zsl_header z, 0) in
  let zlevel := Nat.max level (zsl_level z) in
  let '(m, x) := m_zslCreateNode m level sc (Some mem) in
  '(u0, rank0) ← update !! 0%nat;
  m ← link_levels level m update x rank0 0;
  m ← bump_spans (zlevel - level) m update level;
  '(m, tail) ← link_backward z m x (if decide (u0 = zsl_header z) then None else Some u0);
  Some (Zsl (zsl_header z) tail (u64 (zsl_length z + 1)) zlevel m, x).

Definition m_zslInsert (fuel : nat) (rand : nat -> Z) z (sc : Z) (mem : S) :
    option (m_zskiplist S * zloc) :=
  level ← m_zslRandomLevel fuel rand;
  zslInsertAt level z sc mem.

(** ** Deletion *)
Fixpoint unlink_levels (k : nat) m (update : list (zloc * Z)) (x : zloc) (i : nat) :
    option (zmem S) :=
  match k with
  | O => Some m
  | Datatypes.S k =>
    '(u, _) ← update !! i;
    c ← level_at m u i;
    m ← (if decide (forward c = Some x) then
           cx ← level_at m x i;
           store_level m u i (ZLevel (forward cx) (u64 (span c + u64 (span cx - 1))))
         else store_level m u i (ZLevel (forward c) (u64 (span c - 1))));
    unlink_levels k m update x (Datatypes.S i)
  end.

(** [while (zsl->level > 1 && header->level[zsl->level - 1].forward == NULL)]. *)
Fixpoint lower_level m (header : zloc) (level : nat) : option nat :=
  match level with
  | Datatypes.S (Datatypes.S i as level') =>
    c ← level_at m header level';
    match forward c with
    | None => lower_level m header level'
    | Some _ => Some level
    end
  | _ => Some level
  end.

Definition m_zslDeleteNode z (x : zloc) (update : list (zloc * Z)) : option (m_zskiplist S) :=
  m ← unlink_levels (zsl_level z) (zsl_mem z) update x 0;
  c ← level_at m x 0;
  n ← node_at m x;
  '(m, tail) ← match forward c with
               | Some y => m ← store_backward m y (backward n); Some (m, zsl_tail z)
               | None => Some (m, backward n)
               end;
  level ← lower_level m (zsl_header z) (zsl_level z);
  Some (Zsl (zsl_header z) tail (u64 (zsl_length z - 1)) level m).

Definition free_node_of z (x : zloc) : option (list S * m_zskiplist S) :=
  '(freed, m) ← m_zslFreeNode (zsl_mem z) x;
  Some (freed, Zsl (zsl_header z) (zsl_tail z) (zsl_length z) (zsl_level z) m).

(** [x = x->level[0].forward] after the search. *)
Definition next_of m (update : list (zloc * Z)) : option (option zloc) :=
  '(u, _) ← update !! 0%nat;
  c ← level_at m u 0;
  Some (forward c).

(** [m_zslDelete] with [node] NULL ([keep] false) or not: 1 or 0, the strings
    released, [*node], and the list. *)
Definition m_zslDelete z (sc : Z) (mem : S) (keep : bool) :
    option (Z * list S * option zloc * m_zskiplist S) :=
  update ← zsl_search z (before sc mem);
  x ← next_of (zsl_mem z) update;
  match x with
  | None => Some (0, [], None, z)
  | Some x =>
    n ← node_at (zsl_mem z) x;
    c ← compare_member n mem;
    if (sc =? score n) && (c =? 0) then
      z ← m_zslDeleteNode z x update;
      if keep then Some (1, [], Some x, z)
      else '(freed, z) ← free_node_of z x; Some (1, freed, None, z)
    else Some (0, [], None, z)
  end.

(** [m_zslUpdateScore]: the node returned, and the list. *)
Definition m_zslUpdateScore (fuel : nat) (rand : nat -> Z) z (curscore : Z) (mem : S)
    (newscore : Z) : option (zloc * m_zskiplist S) :=
  update ← zsl_search z (before curscore mem);
  x ← next_of (zsl_mem z) update;
  x ← x; (* assert *)
  n ← node_at (zsl_mem z) x;
  cmp ← compare_member n mem;
  if negb ((curscore =? score n) && (cmp =? 0)) then None (* assert *)
  else
    prev_ok ← match backward n with
              | None => Some true
              | Some b => nb ← node_at (zsl_mem z) b; Some (score nb <? newscore)
              end;
    c ← level_at (zsl_mem z) x 0;
    next_ok ← match forward c with
              | None => Some true
              | Some f => nf ← node_at (zsl_mem z) f; Some (newscore <? score nf)
              end;
    if prev_ok && next_ok then
      m ← store_node (zsl_mem z) x (ZNode (member n) newscore (backward n));
      Some (x, Zsl (zsl_header z) (zsl_tail z) (zsl_length z) (zsl_level z) m)
    else
      z ← m_zslDeleteNode z x update;
      xmem ← member n;
      '(z, newnode) ← m_zslInsert fuel rand z newscore xmem;
      m ← store_node (zsl_mem z) x (ZNode None (score n) (backward n));
      '(_, m) ← m_zslFreeNode m x;
      Some (newnode, Zsl (zsl_header z) (zsl_tail z) (zsl_length z) (zsl_level z) m).

(** ** Ranges *)
Definition m_zslValueGteMin (value : Z) (spec : m_zrangespec) : bool :=
  if minex spec then min spec <? value else min spec <=? value.

Definition m_zslValueLteMax (value : Z) (spec : m_zrangespec) : bool :=
  if maxex spec then value <? max spec else value <=? max spec.

Definition zslIsInRange z (range : m_zrangespec) : option bool :=
  if (max range <? min range) || ((min range =? max range) && (minex range || maxex range))
  then Some false
  else
    match zsl_tail z with
    | None => Some false
    | Some x =>
      n ← node_at (zsl_mem z) x;
      if negb (m_zslValueGteMin (score n) range) then Some false
      else
        c ← level_at (zsl_mem z) (zsl_header z) 0;
        match forward c with
        | None => Some false
        | Some x =>
          n ← node_at (zsl_mem z) x;
          Some (m_zslValueLteMax (score n) range)
        end
    end.

Definition m_zslFirstInRange z (range : m_zrangespec) : option (option zloc) :=
  inrange ← zslIsInRange z range;
  if negb (inrange : bool) then Some None
  else
    update ← zsl_search z (λ n _, negb (m_zslValueGteMin (score n) range));
    x ← next_of (zsl_mem z) update;
    x ← x; (* assert *)
    n ← node_at (zsl_mem z) x;
    if negb (m_zslValueLteMax (score n) range) then Some None else Some (Some x).

Definition m_zslLastInRange z (range : m_zrangespec) : option (option zloc) :=
  inrange ← zslIsInRange z range;
  if negb (inrange : bool) then Some None
  else
    update ← zsl_search z (λ n _, m_zslValueLteMax (score n) range);
    '(x, _) ← update !! 0%nat;
    n ← node_at (zsl_mem z) x;
    if negb (m_zslValueGteMin (score n) range) then Some None else Some (Some x).

(** [while (x && ...)] of the two range deletions: [more] is the condition on
    the node and on [traversed]. *)
Fixpoint delete_while (fuel : nat) z (x : option zloc) (update : list (zloc * Z))
    (more : m_zskiplistNode S -> Z -> bool) (traversed removed : Z) :
    option (Z * list S * m_zskiplist S) :=
  match x with
  | None => Some (removed, [], z)
  | Some x =>
    n ← node_at (zsl_mem z) x;
    if more n traversed then
      match fuel with
      | O => None
      | Datatypes.S fuel =>
        c ← level_at (zsl_mem z) x 0;
        z ← m_zslDeleteNode z x update;
        '(freed, z) ← free_node_of z x;
        '(removed, freed', z) ←
          delete_while fuel z (forward c) update more (traversed + 1) (u64 (removed + 1));
        Some (removed, freed ++ freed', z)
      end
    else Some (removed, [], z)
  end.

Definition m_zslDeleteRangeByScore z (range : m_zrangespec) : option (Z * list S * m_zskiplist S) :=
  update ← zsl_search z (λ n _, if minex range then score n <=? min range else score n <? min range);
  x ← next_of (zsl_mem z) update;
  delete_while (Z.to_nat (zsl_length z)) z x update
    (λ n _, if maxex range then score n <? max range else score n <=? max range) 0 0.

Definition m_zslDeleteRangeByRank z (start last : Z) : option (Z * list S * m_zskiplist S) :=
  update ← zsl_search z (λ _ traversed, traversed <? start);
  '(_, traversed) ← update !! 0%nat;
  x ← next_of (zsl_mem z) update;
  delete_while (Z.to_nat (zsl_length z)) z x update (λ _ traversed, traversed <=? last)
    (traversed + 1) 0.

(** [for (i = zsl->level - 1; i >= 0; i--)] of [m_zslGetElementByRank], which
    stops at the level where the rank is reached. *)
Fixpoint rank_descend (fuel : nat) m (rank : Z) (i : nat) (x : zloc) (traversed : Z) :
    option (option zloc) :=
  match i with
  | O => Some None
  | Datatypes.S i =>
    '(x, traversed) ← zsl_walk fuel m (λ _ traversed, traversed <=? rank) i x traversed;
    if traversed =? rank then Some (Some x) else rank_descend fuel m rank i x traversed
  end.

Definition m_zslGetElementByRank z (rank : Z) : option (option zloc) :=
  rank_descend (Z.to_nat (zsl_length z)) (zsl_mem z) rank (zsl_level z) (zsl_header z) 0.
End skiplist.
