(* ===== verification/SkipListInv.v ===== *)
(** * SkipListInv: the shape of a skip list

    [zsl_repr z l] says that the memory of [z] holds exactly the items [l], in
    this order: at each level a node points to the next node that has this
    level, and the span of the pointer is the distance it covers.  The lemmas
    say what the searches find and what relinking one level does. *)

From S2P Require Import Prelude.
From S2P Require Import SkipList.
Local Open Scope Z_scope.

(** A node as the levels see it: its address and its height. *)
Notation tower := (zloc * nat)%type (only parsing).

(** What level [i] of a node holds, given the towers behind it: the next tower
    that reaches the level, at its distance; without one, the distance to the
    end of the list. *)
Fixpoint fwd (i : nat) (suffix : list tower) : zskiplistLevel :=
  match suffix with
  | [] => ZLevel None 0
  | (p, h) :: suffix =>
    if decide (i < h)%nat then ZLevel (Some p) 1
    else ZLevel (forward (fwd i suffix)) (span (fwd i suffix) + 1)
  end.

Definition low (i : nat) (t : tower) : Prop := (t.2 <= i)%nat.
#[export] Instance low_dec i t : Decision (low i t).
Proof. unfold low. apply _. Defined.

(** Level [i] of all the towers that have it. *)
Definition level_ok (i : nat) (ls : gmap (zloc * nat) zskiplistLevel) (ts : list tower) : Prop :=
  ∀ A p h B, ts = A ++ (p, h) :: B -> (i < h)%nat -> ls !! (p, i) = Some (fwd i B).

(** ** Lists of towers *)
Lemma fwd_skip i B R :
  Forall (low i) B ->
  fwd i (B ++ R) = ZLevel (forward (fwd i R)) (span (fwd i R) + Z.of_nat (length B)).
Proof.
  induction 1 as [|[p h] B Hlow _ IH]; cbn [app fwd length].
  - rewrite Z.add_0_r. by destruct (fwd i R).
  - unfold low in Hlow. cbn in Hlow. rewrite decide_False by lia. rewrite IH.
    cbn [forward span]. f_equal. lia.
Qed.

Lemma fwd_stop i B R R' : ¬ Forall (low i) B -> fwd i (B ++ R) = fwd i (B ++ R').
Proof.
  induction B as [|[p h] B IH]; intros Hn; [by destruct Hn|]. cbn [app fwd].
  case_decide as Hh; [done|]. rewrite IH; [done|].
  intros HB. apply Hn. constructor; [unfold low; cbn; lia|done].
Qed.

Lemma fwd_None i B : Forall (low i) B -> fwd i B = ZLevel None (Z.of_nat (length B)).
Proof. intros HB. rewrite <- (app_nil_r B) at 1. rewrite fwd_skip by done. done. Qed.

Lemma fwd_Some i B : ¬ Forall (low i) B ->
  ∃ C p h D, B = C ++ (p, h) :: D ∧ (i < h)%nat ∧ Forall (low i) C ∧
    fwd i B = ZLevel (Some p) (Z.of_nat (length C) + 1).
Proof.
  induction B as [|[p h] B IH]; intros Hn; [by destruct Hn|]. cbn [fwd].
  case_decide as Hh.
  - exists [], p, h, B. split_and!; [done|done|done|]. done.
  - destruct IH as (C & p' & h' & D & -> & Hh' & HC & E).
    { intros HB. apply Hn. constructor; [unfold low; cbn; lia|done]. }
    exists ((p, h) :: C), p', h', D. rewrite E. cbn [forward span length app].
    split_and!; [done|done|constructor; [unfold low; cbn; lia|done]|]. f_equal. lia.
Qed.

Lemma fwd_span i B : 0 <= span (fwd i B) <= Z.of_nat (length B).
Proof.
  induction B as [|[p h] B IH]; cbn [fwd length]; [simpl; lia|].
  case_decide; cbn [span]; lia.
Qed.

Lemma fwd_forward_in i B p : forward (fwd i B) = Some p -> p ∈ B.*1.
Proof.
  induction B as [|[q h] B IH]; cbn [fwd]; [done|]. case_decide; cbn [forward].
  - intros [= ->]. by left.
  - intros E. right. by apply IH.
Qed.

(** Where an element of [P ++ n :: Q] is. *)
Lemma split3 {A} (X Y P Q : list A) (x n : A) :
  X ++ x :: Y = P ++ n :: Q ->
  (∃ C, P = X ++ x :: C ∧ Y = C ++ n :: Q) ∨ (X = P ∧ x = n ∧ Y = Q) ∨
  (∃ C, X = P ++ n :: C ∧ Q = C ++ x :: Y).
Proof.
  revert P. induction X as [|a X IH]; intros P; destruct P as [|b P]; cbn [app]; intros [= E1 E2]; subst.
  - right. by left.
  - left. by exists P.
  - right. right. by exists X.
  - destruct (IH P E2) as [(C & -> & ->)|[(-> & -> & ->)|(C & -> & ->)]].
    + left. by exists C.
    + right. by left.
    + right. right. by exists C.
Qed.

Lemma split2 {A} (X Y P Q : list A) (x : A) :
  X ++ x :: Y = P ++ Q ->
  (∃ C, P = X ++ x :: C ∧ Y = C ++ Q) ∨ (∃ C, X = P ++ C ∧ Q = C ++ x :: Y).
Proof.
  revert P. induction X as [|a X IH]; intros P; destruct P as [|b P]; cbn [app].
  - intros <-. right. by exists [].
  - intros [= -> ->]. left. by exists P.
  - intros <-. right. by exists (a :: X).
  - intros [= -> E]. destruct (IH P E) as [(C & -> & ->)|(C & -> & ->)].
    + left. by exists C.
    + right. by exists C.
Qed.

Lemma nodup_decomp (A B A' B' : list tower) p h h' :
  NoDup (A ++ (p, h) :: B).*1 -> A ++ (p, h) :: B = A' ++ (p, h') :: B' -> A = A' ∧ h = h' ∧ B = B'.
Proof.
  intros Hnd E. apply split3 in E as [(C & -> & ->)|[(-> & [= ->] & ->)|(C & -> & ->)]]; [|done|];
    exfalso; revert Hnd; rewrite ?fmap_app, ?fmap_cons, ?fmap_app; cbn;
    rewrite ?fmap_app; cbn; rewrite ?NoDup_app, ?NoDup_cons.
  - intros (_ & _ & [Hn _]). apply Hn, elem_of_app. right. by left.
  - intros (_ & Hd & _). apply (Hd p); [|by left]. apply elem_of_app. right. by left.
Qed.

(** ** One level *)
Lemma level_ok_insert_ne i j p c ls ts :
  i ≠ j -> level_ok i ls ts -> level_ok i (<[(p, j) := c]> ls) ts.
Proof.
  intros Hij Hok A q h B E Hh. rewrite lookup_insert_ne by congruence. by eapply Hok.
Qed.

(** The cell [update[i]] points at: the last tower of the prefix [P] that
    reaches the level, with its position as rank. *)
Definition upd_ok (i : nat) (P : list tower) (u : zloc) (r : Z) : Prop :=
  ∃ h A B, P = A ++ (u, h) :: B ∧ (i < h)%nat ∧ Forall (low i) B ∧ r = Z.of_nat (length A).

Lemma upd_ok_cell i ls P Q u r :
  level_ok i ls (P ++ Q) -> upd_ok i P u r ->
  ls !! (u, i) = Some (ZLevel (forward (fwd i Q))
    (span (fwd i Q) + (Z.of_nat (length P) - 1 - r))).
Proof.
  intros Hok (h & A & B & -> & Hh & HB & ->).
  rewrite (Hok A u h (B ++ Q)) by (done || by rewrite <- app_assoc).
  rewrite fwd_skip by done. do 2 f_equal. rewrite length_app. cbn [length]. lia.
Qed.

(** A tower before [update[i]] cannot see past it. *)
Lemma upd_ok_before i P u r A p h B :
  NoDup P.*1 -> upd_ok i P u r -> P = A ++ (p, h) :: B -> (i < h)%nat -> p ≠ u ->
  ¬ Forall (low i) B.
Proof.
  intros Hnd (hu & A0 & B0 & EP & Hhu & HB0 & _) E Hh Hne HB. rewrite EP in E.
  apply split3 in E as [(C & -> & ->)|[(_ & [= -> _] & _)|(C & -> & ->)]].
  - apply Forall_app in HB0 as [_ HB0]. apply Forall_cons in HB0 as [Hl _]. unfold low in Hl. cbn in Hl. lia.
  - done.
  - apply Forall_app in HB as [_ HB]. apply Forall_cons in HB as [Hl _]. unfold low in Hl. cbn in Hl. lia.
Qed.

Lemma upd_ok_at i P u r A h B :
  NoDup P.*1 -> upd_ok i P u r -> P = A ++ (u, h) :: B ->
  Forall (low i) B ∧ Z.of_nat (length B) = Z.of_nat (length P) - 1 - r.
Proof.
  intros Hnd (hu & A0 & B0 & EP & Hhu & HB0 & ->) E. rewrite EP in Hnd, E.
  destruct (nodup_decomp _ _ _ _ _ _ _ Hnd E) as (-> & -> & ->).
  split; [done|]. rewrite EP, length_app. cbn [length]. lia.
Qed.

Lemma not_in_split (P Q A : list tower) p h B n :
  P ++ Q = A ++ (p, h) :: B -> n ∉ (P ++ Q).*1 -> p ≠ n.
Proof.
  intros -> Hn <-. apply Hn. rewrite fmap_app. apply elem_of_app. right. by left.
Qed.

(** Linking a new tower [(n, lv)] into a level it reaches. *)
Lemma link_one i ls P Q n lv u r :
  NoDup (P ++ Q).*1 -> n ∉ (P ++ Q).*1 -> (i < lv)%nat ->
  level_ok i ls (P ++ Q) -> upd_ok i P u r ->
  let d := Z.of_nat (length P) - 1 - r in
  level_ok i (<[(u, i) := ZLevel (Some n) (d + 1)]>
               (<[(n, i) := ZLevel (forward (fwd i Q)) (span (fwd i Q))]> ls)) (P ++ (n, lv) :: Q).
Proof.
  intros Hnd Hn Hlv Hok Hu d A p h B E Hh.
  assert (NoDup P.*1) as HndP by (rewrite fmap_app in Hnd; by apply NoDup_app in Hnd as (? & _)).
  assert (u ∈ P.*1) as Hup.
  { destruct Hu as (hu & A0 & B0 & -> & _). rewrite fmap_app. apply elem_of_app. right. by left. }
  assert (u ≠ n) as Hun.
  { intros ->. apply Hn. rewrite fmap_app. apply elem_of_app. by left. }
  symmetry in E. apply split3 in E as [(C & EP & ->)|[(-> & [= -> ->] & ->)|(C & -> & ->)]].
  - destruct (decide (p = u)) as [->|Hne].
    + rewrite lookup_insert_eq. destruct (upd_ok_at _ _ _ _ _ _ _ HndP Hu EP) as [HC Hlen].
      rewrite fwd_skip by done. cbn [fwd]. rewrite decide_True by done. cbn. do 2 f_equal. lia.
    + assert (p ≠ n) as Hpn by (eapply (not_in_split P Q); [|done]; rewrite EP, <- app_assoc; done).
      rewrite !lookup_insert_ne by congruence.
      rewrite (Hok A p h (C ++ Q)) by (done || by rewrite EP, <- app_assoc).
      f_equal. apply fwd_stop. by eapply upd_ok_before.
  - rewrite lookup_insert_ne, lookup_insert_eq by congruence. by destruct (fwd i Q).
  - assert (p ≠ n ∧ p ≠ u) as [Hpn Hpu].
    { rewrite fmap_app, fmap_app, fmap_cons in Hnd, Hn. cbn in Hnd, Hn. split.
      - intros ->. apply Hn. rewrite !elem_of_app. right. right. by left.
      - intros ->. apply NoDup_app in Hnd as (_ & Hd & _). apply (Hd u Hup).
        apply elem_of_app. right. by left. }
    rewrite !lookup_insert_ne by congruence. apply (Hok (P ++ C) p h B); [|done]. by rewrite <- app_assoc.
Qed.

(** A level the new tower does not reach: one span grows. *)
Lemma bump_one i ls P Q n lv u r :
  NoDup (P ++ Q).*1 -> (lv <= i)%nat ->
  level_ok i ls (P ++ Q) -> upd_ok i P u r ->
  level_ok i (<[(u, i) := ZLevel (forward (fwd i Q))
       (span (fwd i Q) + (Z.of_nat (length P) - 1 - r) + 1)]> ls) (P ++ (n, lv) :: Q).
Proof.
  intros Hnd Hlv Hok Hu A p h B E Hh.
  assert (NoDup P.*1) as HndP by (rewrite fmap_app in Hnd; by apply NoDup_app in Hnd as (? & _)).
  assert (u ∈ P.*1) as Hup.
  { destruct Hu as (hu & A0 & B0 & -> & _). rewrite fmap_app. apply elem_of_app. right. by left. }
  symmetry in E. apply split3 in E as [(C & EP & ->)|[(-> & [= -> ->] & ->)|(C & -> & ->)]]; [|lia|].
  - destruct (decide (p = u)) as [->|Hne].
    + rewrite lookup_insert_eq. destruct (upd_ok_at _ _ _ _ _ _ _ HndP Hu EP) as [HC Hlen].
      rewrite fwd_skip by done. cbn [fwd]. rewrite decide_False by lia. cbn [forward span].
      do 2 f_equal. lia.
    + rewrite lookup_insert_ne by congruence.
      rewrite (Hok A p h (C ++ Q)) by (done || by rewrite EP, <- app_assoc).
      f_equal. apply fwd_stop. by eapply upd_ok_before.
  - assert (p ≠ u) as Hpu.
    { intros ->. rewrite !fmap_app in Hnd. apply NoDup_app in Hnd as (_ & Hd & _).
      apply (Hd u Hup). apply elem_of_app. right. by left. }
    rewrite lookup_insert_ne by congruence. apply (Hok (P ++ C) p h B); [|done]. by rewrite <- app_assoc.
Qed.

(** Taking a tower out of a level: the two cases of [m_zslDeleteNode]. *)
Lemma unlink_one i ls P Q n lv u r :
  NoDup (P ++ (n, lv) :: Q).*1 -> level_ok i ls (P ++ (n, lv) :: Q) -> upd_ok i P u r ->
  level_ok i (<[(u, i) := ZLevel (forward (fwd i Q))
       (span (fwd i Q) + (Z.of_nat (length P) - 1 - r))]> ls) (P ++ Q).
Proof.
  intros Hnd Hok Hu A p h B E Hh.
  assert (NoDup P.*1) as HndP by (rewrite fmap_app in Hnd; by apply NoDup_app in Hnd as (? & _)).
  assert (u ∈ P.*1) as Hup.
  { destruct Hu as (hu & A0 & B0 & -> & _). rewrite fmap_app. apply elem_of_app. right. by left. }
  symmetry in E. apply split2 in E as [(C & EP & ->)|(C & -> & ->)].
  - destruct (decide (p = u)) as [->|Hne].
    + rewrite lookup_insert_eq. destruct (upd_ok_at _ _ _ _ _ _ _ HndP Hu EP) as [HC Hlen].
      rewrite fwd_skip by done. do 2 f_equal. lia.
    + rewrite lookup_insert_ne by congruence.
      rewrite (Hok A p h (C ++ (n, lv) :: Q)) by (done || by rewrite EP, <- app_assoc).
      f_equal. apply fwd_stop. by eapply upd_ok_before.
  - assert (p ≠ u) as Hpu.
    { intros ->. rewrite !fmap_app, fmap_cons, fmap_app in Hnd. apply NoDup_app in Hnd as (_ & Hd & _).
      apply (Hd u Hup). right. apply elem_of_app. right. by left. }
    rewrite lookup_insert_ne by congruence.
    apply (Hok (P ++ (n, lv) :: C) p h B); [|done]. by rewrite <- app_assoc.
Qed.

(** ** The whole list *)
Record zitem (S : Type) := ZItem { zi_loc : zloc; zi_height : nat; zi_score : Z; zi_mem : S }.
Arguments ZItem {S} _ _ _ _.
Arguments zi_loc {S} _.
Arguments zi_height {S} _.
Arguments zi_score {S} _.
Arguments zi_mem {S} _.

Section repr.
Context {S : Type} {X : gset zloc}.
Implicit Types (m : zmem S) (z : m_zskiplist S) (it : zitem S) (l : list (zitem S)).

Definition tower_of it : tower := (zi_loc it, zi_height it).

Definition towers z l : list tower := (zsl_header z, ZSKIPLIST_MAXLEVEL) :: (tower_of <$> l).

(** The address of the item before the [k]-th. *)
Definition prev_loc l (k : nat) : option zloc :=
  match k with O => None | Datatypes.S k => zi_loc <$> l !! k end.

Definition nodes_ok (ns : gmap zloc (m_zskiplistNode S)) l : Prop :=
  ∀ k it, l !! k = Some it ->
    ns !! zi_loc it = Some (ZNode (Some (zi_mem it)) (zi_score it) (prev_loc l k)).

(** [X]: nodes unlinked and not released yet. *)
Record zsl_repr z l : Prop := {
  repr_level : (1 <= zsl_level z <= ZSKIPLIST_MAXLEVEL)%nat;
  repr_heights : Forall (λ it, 1 <= zi_height it <= zsl_level z)%nat l;
  repr_top : (zsl_level z = 1)%nat ∨ Exists (λ it, zi_height it = zsl_level z) l;
  repr_nodup : NoDup (zsl_header z :: (zi_loc <$> l));
  repr_levels i : (i < zsl_level z)%nat -> level_ok i (zlevels (zsl_mem z)) (towers z l);
  repr_unused i : (zsl_level z <= i < ZSKIPLIST_MAXLEVEL)%nat ->
    ∃ s, zlevels (zsl_mem z) !! (zsl_header z, i) = Some (ZLevel None s);
  repr_nodes : nodes_ok (znodes (zsl_mem z)) l;
  repr_header : znodes (zsl_mem z) !! zsl_header z = Some (ZNode None 0 None);
  repr_dom : dom (znodes (zsl_mem z)) = list_to_set (zsl_header z :: (zi_loc <$> l)) ∪ X;
  repr_tail : zsl_tail z = zi_loc <$> last l;
  repr_length : zsl_length z = Z.of_nat (length l);
  repr_small : Z.of_nat (length l) < 2 ^ 32 - 1
}.

Lemma towers_fst z l : (towers z l).*1 = zsl_header z :: (zi_loc <$> l).
Proof. unfold towers. rewrite fmap_cons, <- list_fmap_compose. done. Qed.

Lemma towers_app z pre post :
  towers z (pre ++ post) = towers z pre ++ (tower_of <$> post).
Proof. unfold towers. by rewrite fmap_app. Qed.

(** ** Searching *)

(** A condition that holds on the items of [pre] and on no item behind. *)
Definition adv_ok (adv : m_zskiplistNode S -> Z -> bool) (pre post : list (zitem S)) : Prop :=
  ∀ k it n, (pre ++ post) !! k = Some it -> member n = Some (zi_mem it) -> score n = zi_score it ->
    adv n (Z.of_nat k + 1) = bool_decide (k < length pre)%nat.

Lemma tower_lookup l k p h :
  (tower_of <$> l) !! k = Some (p, h) ->
  ∃ it, l !! k = Some it ∧ zi_loc it = p ∧ zi_height it = h.
Proof. rewrite list_lookup_fmap_Some. intros (it & [= -> ->] & E). by exists it. Qed.

Lemma zsl_walk_unfold fuel m adv i x rank :
  zsl_walk fuel m adv i x rank =
  c ← level_at m x i;
  match forward c with
  | None => Some (x, rank)
  | Some y =>
    n ← node_at m y;
    if adv n (rank + span c) then
      match fuel with
      | O => None
      | Datatypes.S fuel => zsl_walk fuel m adv i y (rank + span c)
      end
    else Some (x, rank)
  end.
Proof. by destruct fuel. Qed.

Lemma lookup_middle_at {A} (P Q : list A) x : (P ++ x :: Q) !! length P = Some x.
Proof. by rewrite lookup_app_r, Nat.sub_diag by done. Qed.

(** The node of the item at an index, and what the condition says of it. *)
Lemma adv_at adv z pre post k it :
  zsl_repr z (pre ++ post) -> adv_ok adv pre post -> (pre ++ post) !! k = Some it ->
  ∃ n, node_at (zsl_mem z) (zi_loc it) = Some n ∧
    adv n (Z.of_nat k + 1) = bool_decide (k < length pre)%nat.
Proof.
  intros Hz Hadv Hk. eexists. split; [by apply (repr_nodes _ _ Hz)|]. by eapply Hadv.
Qed.

Lemma walk_ok fuel adv z pre post i A x h B :
  zsl_repr z (pre ++ post) -> adv_ok adv pre post -> (i < zsl_level z)%nat ->
  towers z pre = A ++ (x, h) :: B -> (i < h)%nat -> (length B <= fuel)%nat ->
  ∃ x' r', zsl_walk fuel (zsl_mem z) adv i x (Z.of_nat (length A)) = Some (x', r') ∧
    upd_ok i (towers z pre) x' r'.
Proof.
  intros Hz Hadv Hi. revert A x h B.
  induction fuel as [fuel IH] using lt_wf_ind; intros A x h B E Hh Hfuel.
  pose proof (repr_levels _ _ Hz i Hi) as Hok. rewrite towers_app, E in Hok.
  set (Q := tower_of <$> post) in *.
  assert (level_at (zsl_mem z) x i = Some (fwd i (B ++ Q))) as Hc.
  { apply (Hok A x h); [by rewrite <- app_assoc|done]. }
  assert (length A + Datatypes.S (length B) = Datatypes.S (length pre))%nat as Hlen.
  { pose proof (f_equal length E) as El. unfold towers in El. cbn [length] in El.
    rewrite length_fmap, length_app in El. cbn [length] in El. lia. }
  rewrite zsl_walk_unfold, Hc. cbn [mbind option_bind].
  destruct (decide (Forall (low i) B)) as [HB|HB].
  - assert (upd_ok i (towers z pre) x (Z.of_nat (length A))) as Hupd by (by exists h, A, B).
    rewrite fwd_skip by done. cbn [forward span].
    destruct (decide (Forall (low i) Q)) as [HQ|HQ]; [rewrite fwd_None by done; by eexists _, _|].
    destruct (fwd_Some i Q HQ) as (C & p & h' & D & EQ & _ & _ & ->). cbn [forward span].
    destruct (tower_lookup post (length C) p h') as (it & Hit & Hp & _).
    { fold Q. rewrite EQ. apply lookup_middle_at. }
    destruct (adv_at adv z pre post (length pre + length C) it Hz Hadv) as (n & Hn & Ha).
    { rewrite lookup_app_r by lia. rewrite <- Hit. f_equal. lia. }
    rewrite <- Hp, Hn. cbn [mbind option_bind].
    replace (Z.of_nat (length A) + _) with (Z.of_nat (length pre + length C) + 1) by lia.
    rewrite Ha, bool_decide_false by lia. by eexists _, _.
  - rewrite (fwd_stop i B Q []), app_nil_r by done.
    destruct (fwd_Some i B HB) as (C & p & h' & D & EB & Hh' & HC & ->). cbn [forward span].
    rewrite EB in E. assert (towers z pre = (A ++ (x, h) :: C) ++ (p, h') :: D) as E'.
    { by rewrite <- app_assoc. }
    destruct (tower_lookup pre (length A + length C) p h') as (it & Hit & Hp & _).
    { change ((tower_of <$> pre) !! (length A + length C)%nat)
        with (towers z pre !! Datatypes.S (length A + length C)). rewrite E'.
      replace (Datatypes.S (length A + length C)) with (length (A ++ (x, h) :: C));
        [apply lookup_middle_at|]. rewrite length_app. cbn [length]. lia. }
    destruct (adv_at adv z pre post (length A + length C) it Hz Hadv) as (n & Hn & Ha).
    { by apply lookup_app_l_Some. }
    apply (f_equal length) in EB. rewrite length_app in EB. cbn [length] in EB.
    rewrite <- Hp, Hn. cbn [mbind option_bind].
    replace (Z.of_nat (length A) + (Z.of_nat (length C) + 1))
      with (Z.of_nat (length (A ++ (x, h) :: C))) by (rewrite length_app; cbn [length]; lia).
    replace (Z.of_nat (length A + length C) + 1) with (Z.of_nat (length (A ++ (x, h) :: C))) in Ha
      by (rewrite length_app; cbn [length]; lia).
    rewrite Ha, bool_decide_true by lia. destruct fuel as [|fuel]; [lia|].
    rewrite Hp. apply (IH fuel ltac:(lia) _ _ _ _ E' Hh'). lia.
Qed.

Lemma descend_ok fuel adv z pre post i x r h A B :
  zsl_repr z (pre ++ post) -> adv_ok adv pre post -> (i <= zsl_level z)%nat ->
  towers z pre = A ++ (x, h) :: B -> (i <= h)%nat -> r = Z.of_nat (length A) ->
  (length pre <= fuel)%nat ->
  ∃ ups, zsl_descend fuel (zsl_mem z) adv i x r = Some ups ∧ length ups = i ∧
    ∀ j u r, ups !! j = Some (u, r) -> upd_ok j (towers z pre) u r.
Proof.
  intros Hz Hadv Hi E Hh -> Hfuel. revert x h A B Hi E Hh.
  induction i as [|i IH]; intros x h A B Hi E Hh; cbn [zsl_descend]; [by exists []|].
  assert (length B <= fuel)%nat as HB.
  { apply (f_equal length) in E. unfold towers in E. cbn [length] in E.
    rewrite length_fmap, length_app in E. cbn [length] in E. lia. }
  destruct (walk_ok fuel adv z pre post i A x h B Hz Hadv Hi E Hh HB) as (x' & r' & -> & Hu).
  cbn [mbind option_bind]. pose proof Hu as (h' & A' & B' & E' & Hh' & _ & ->).
  destruct (IH x' h' A' B') as (ups & -> & Hlen & Hups); [lia|done|lia|].
  cbn [mbind option_bind]. eexists. split; [done|]. split.
  - rewrite length_app. simpl. lia.
  - intros j u r Hj. destruct (decide (j < length ups)%nat).
    + apply Hups. by rewrite lookup_app_l in Hj.
    + rewrite lookup_app_r in Hj by lia. apply list_lookup_singleton_Some in Hj as [Hj [= <- <-]].
      by replace j with i by lia.
Qed.

(** The [update] array of every operation: for each level the last node of the
    prefix that reaches it, with its rank. *)
Lemma search_ok adv z pre post :
  zsl_repr z (pre ++ post) -> adv_ok adv pre post ->
  ∃ ups, zsl_search z adv = Some ups ∧ length ups = zsl_level z ∧
    ∀ j u r, ups !! j = Some (u, r) -> upd_ok j (towers z pre) u r.
Proof.
  intros Hz Hadv. unfold zsl_search. pose proof (repr_level _ _ Hz).
  eapply (descend_ok _ adv z pre post _ _ 0 ZSKIPLIST_MAXLEVEL []); try done; [lia|].
  rewrite (repr_length _ _ Hz), Nat2Z.id, length_app. lia.
Qed.

(** At level 0 the search ends at the last node of the prefix. *)
Lemma upd_ok_0 z pre post u r :
  zsl_repr z (pre ++ post) -> upd_ok 0 (towers z pre) u r ->
  r = Z.of_nat (length pre) ∧
  u = match zi_loc <$> last pre with Some p => p | None => zsl_header z end.
Proof.
  intros Hz (h & A & B & E & Hh & HB & ->).
  assert (B = []) as ->.
  { destruct B as [|[p hp] B]; [done|]. apply Forall_cons in HB as [Hl _]. unfold low in Hl. cbn in Hl.
    destruct A as [|a A]; [|]; unfold towers in E; cbn [app] in E; injection E as E1 E2.
    - assert (tower_of <$> pre = (p, hp) :: B) as Ep by done.
      destruct (tower_lookup pre 0 p hp) as (it & Hit & _ & Hhp); [by rewrite Ep|].
      pose proof (repr_heights _ _ Hz) as Hall. apply Forall_app in Hall as [Hall _].
      apply (Forall_lookup_1 _ _ _ _ Hall) in Hit. cbn in Hit. lia.
    - destruct (tower_lookup pre (length A + 1) p hp) as (it & Hit & _ & Hhp).
      { rewrite E2, lookup_app_r by lia. by replace (length A + 1 - length A)%nat with 1%nat by lia. }
      pose proof (repr_heights _ _ Hz) as Hall. apply Forall_app in Hall as [Hall _].
      apply (Forall_lookup_1 _ _ _ _ Hall) in Hit. cbn in Hit. lia. }
  split.
  - apply (f_equal length) in E. unfold towers in E. cbn [length] in E.
    rewrite length_fmap, length_app in E. cbn [length] in E. lia.
  - destruct pre as [|it pre _] using rev_ind.
    + destruct A; [by injection E as ->|]. unfold towers in E. cbn in E. injection E as _ E.
      by destruct A.
    + rewrite last_snoc. cbn. unfold towers in E. rewrite fmap_app in E.
      change ((zsl_header z, ZSKIPLIST_MAXLEVEL) :: (tower_of <$> pre) ++ (tower_of <$> [it]))
        with (((zsl_header z, ZSKIPLIST_MAXLEVEL) :: (tower_of <$> pre)) ++ [tower_of it]) in E.
      apply app_inj_tail in E as [_ E]. by injection E as -> _.
Qed.

Lemma next_of_ok z pre post ups :
  zsl_repr z (pre ++ post) -> length ups = zsl_level z ->
  (∀ j u r, ups !! j = Some (u, r) -> upd_ok j (towers z pre) u r) ->
  next_of (zsl_mem z) ups = Some (zi_loc <$> head post).
Proof.
  intros Hz Hlen Hups. pose proof (repr_level _ _ Hz). unfold next_of.
  destruct (lookup_lt_is_Some_2 ups 0) as [[u r] Hu]; [lia|].
  rewrite Hu. cbn [mbind option_bind].
  pose proof (repr_levels _ _ Hz 0 ltac:(lia)) as Hok. rewrite towers_app in Hok.
  unfold level_at. rewrite (upd_ok_cell 0 _ _ _ u r Hok (Hups _ _ _ Hu)).
  cbn [mbind option_bind forward]. f_equal. destruct post as [|it post]; [done|].
  cbn. pose proof (repr_heights _ _ Hz) as Hall. apply Forall_app in Hall as [_ Hall].
  apply Forall_cons in Hall as [Hh _]. by rewrite decide_True by lia.
Qed.
End repr.

Arguments zsl_repr {S} X z l.
