(* ===== verification/SkipListSpec.v ===== *)
(** * SkipListSpec: the operations of a skip list against the list it holds

    Insertion and deletion keep [zsl_repr], spans included, and put in or take
    out one item; ranges and ranks are those of the list. *)

From Stdlib Require Import Sorting.Sorted.
From S2P Require Import Prelude.
From S2P Require Import SkipList.
From S2P Require Import SkipListInv.
Local Open Scope Z_scope.

(** Cells of different levels are different. *)
Ltac ne_cell :=
  let E := fresh "E" in intros E; injection E; intros; lia.

(** ** Loops over the levels *)
Lemma level_ok_ext i ls ls' ts :
  (∀ p, ls' !! (p, i) = ls !! (p, i)) -> level_ok i ls ts -> level_ok i ls' ts.
Proof. intros E Hok A p h B ET Hh. rewrite E. by eapply Hok. Qed.

Lemma alloc_levels_lookup x k ls p j :
  alloc_levels x k ls !! (p, j) =
  if decide (p = x ∧ (j < k)%nat) then Some (ZLevel None 0) else ls !! (p, j).
Proof.
  induction k as [|k IH]; cbn [alloc_levels]; [by rewrite decide_False by lia|].
  destruct (decide ((x, k) = (p, j))) as [[= <- <-]|Hne].
  - rewrite lookup_insert_eq, decide_True by (split; [done|lia]). done.
  - rewrite lookup_insert_ne, IH by done.
    destruct (decide (p = x ∧ (j < k)%nat)) as [[-> ?]|Hn].
    + rewrite decide_True by (split; [done|lia]). done.
    + rewrite decide_False; [done|]. intros [-> ?]. apply Hn. split; [done|].
      destruct (decide (j = k)) as [->|]; [by destruct Hne|lia].
Qed.

Section loops.
Context {S : Type}.
Implicit Types (m : zmem S).

Lemma store_level_ok m p i c0 c :
  zlevels m !! (p, i) = Some c0 ->
  store_level m p i c = Some (ZMem (znodes m) (<[(p, i) := c]> (zlevels m))).
Proof. intros E. unfold store_level, level_at. by rewrite E. Qed.

Lemma grow_levels_ok k m h i len :
  (∀ j, (i <= j < i + k)%nat -> ∃ s, zlevels m !! (h, j) = Some (ZLevel None s)) ->
  ∃ m', grow_levels k m h i len = Some m' ∧ znodes m' = znodes m ∧
    ∀ p j, zlevels m' !! (p, j) =
      if decide (p = h ∧ (i <= j < i + k)%nat) then Some (ZLevel None len) else zlevels m !! (p, j).
Proof.
  revert m i. induction k as [|k IH]; intros m i Hh; cbn [grow_levels].
  - exists m. split_and!; [done..|]. intros p j. by rewrite decide_False by lia.
  - destruct (Hh i) as [s Hs]; [lia|]. unfold level_at. rewrite Hs. cbn [mbind option_bind forward].
    rewrite (store_level_ok _ _ _ _ _ Hs). cbn [mbind option_bind].
    destruct (IH (ZMem (znodes m) (<[(h, i) := ZLevel None len]> (zlevels m))) (Datatypes.S i))
      as (m' & -> & Hn & Hl).
    { intros j Hj. cbn [zlevels]. rewrite lookup_insert_ne by ne_cell. apply Hh. lia. }
    exists m'. split_and!; [done..|]. intros p j. rewrite Hl. cbn [zlevels].
    destruct (decide (p = h ∧ (Datatypes.S i <= j < Datatypes.S i + k)%nat)) as [[-> ?]|Hn1].
    + rewrite decide_True by (split; [done|lia]). done.
    + destruct (decide ((h, i) = (p, j))) as [[= <- <-]|Hne].
      * rewrite lookup_insert_eq, decide_True by (split; [done|lia]). done.
      * rewrite lookup_insert_ne, decide_False; [done| |done]. intros [-> ?].
        destruct (decide (i = j)) as [->|]; [done|]. apply Hn1. split; [done|lia].
Qed.

Lemma link_levels_ok k m ups n lv P Q i :
  NoDup (P ++ Q).*1 -> n ∉ (P ++ Q).*1 -> (i + k <= lv)%nat ->
  Z.of_nat (length (P ++ Q)) < 2 ^ 32 ->
  (∀ j, (i <= j < i + k)%nat -> is_Some (zlevels m !! (n, j))) ->
  (∀ j, (i <= j < i + k)%nat -> level_ok j (zlevels m) (P ++ Q) ∧
     ∃ u r, ups !! j = Some (u, r) ∧ upd_ok j P u r) ->
  ∃ m', link_levels k m ups n (Z.of_nat (length P) - 1) i = Some m' ∧ znodes m' = znodes m ∧
    (∀ j, (i <= j < i + k)%nat -> level_ok j (zlevels m') (P ++ (n, lv) :: Q)) ∧
    (∀ j p, ¬ (i <= j < i + k)%nat -> zlevels m' !! (p, j) = zlevels m !! (p, j)).
Proof.
  intros Hnd Hn Hlv Hsmall. revert m i Hlv. induction k as [|k IH]; intros m i Hlv Hcell Hlev;
    cbn [link_levels]; [exists m; split_and!; [done..|lia|done]|].
  destruct (Hlev i) as (Hok & u & r & Hu & Hupd); [lia|].
  rewrite Hu. cbn [mbind option_bind]. unfold level_at. rewrite (upd_ok_cell _ _ _ _ _ _ Hok Hupd).
  cbn [mbind option_bind forward span].
  destruct (Hcell i) as [c0 Hc0]; [lia|]. rewrite (store_level_ok _ _ _ _ _ Hc0).
  cbn [mbind option_bind].
  assert (u ≠ n) as Hun.
  { intros ->. apply Hn. destruct Hupd as (h & A & B & -> & _). rewrite !fmap_app, !elem_of_app.
    left. right. by left. }
  erewrite store_level_ok; cycle 1.
  { cbn [zlevels]. rewrite lookup_insert_ne by congruence. by apply upd_ok_cell. }
  cbn [mbind option_bind znodes zlevels].
  assert (0 <= Z.of_nat (length P) - 1 - r < Z.of_nat (length P)) as Hd.
  { destruct Hupd as (h & A & B & -> & _ & _ & ->). rewrite length_app. cbn [length]. lia. }
  rewrite length_app in Hsmall. pose proof (fwd_span i Q) as Hsp.
  rewrite (u32_small (Z.of_nat (length P) - 1 - r)) by lia.
  rewrite (u32_small (_ + 1)), u64_small by lia.
  rewrite Z.add_simpl_r.
  pose proof (link_one i (zlevels m) P Q n lv u r Hnd Hn ltac:(lia) Hok Hupd) as Hnew.
  destruct (IH (ZMem (znodes m) (<[(u, i) := ZLevel (Some n) (Z.of_nat (length P) - 1 - r + 1)]>
      (<[(n, i) := ZLevel (forward (fwd i Q)) (span (fwd i Q))]> (zlevels m)))) (Datatypes.S i))
    as (m' & -> & Hns & Hin & Hout).
  { lia. }
  { intros j Hj. cbn [zlevels]. rewrite !lookup_insert_ne by ne_cell. apply Hcell. lia. }
  { intros j Hj. cbn [zlevels]. destruct (Hlev j) as [Hokj Huj]; [lia|]. split; [|done].
    apply level_ok_insert_ne; [lia|]. by apply level_ok_insert_ne; [lia|]. }
  exists m'. split_and!; [done..| |].
  - intros j Hj. destruct (decide (j = i)) as [->|]; [|apply Hin; lia].
    apply (level_ok_ext _ _ _ _ (λ p, Hout i p ltac:(lia))). exact Hnew.
  - intros j p Hj. rewrite Hout by lia. cbn [zlevels].
    by rewrite !lookup_insert_ne by ne_cell.
Qed.

Lemma bump_spans_ok k m ups n lv P Q i :
  NoDup (P ++ Q).*1 -> (lv <= i)%nat -> Z.of_nat (length (P ++ Q)) < 2 ^ 32 ->
  (∀ j, (i <= j < i + k)%nat -> level_ok j (zlevels m) (P ++ Q) ∧
     ∃ u r, ups !! j = Some (u, r) ∧ upd_ok j P u r) ->
  ∃ m', bump_spans k m ups i = Some m' ∧ znodes m' = znodes m ∧
    (∀ j, (i <= j < i + k)%nat -> level_ok j (zlevels m') (P ++ (n, lv) :: Q)) ∧
    (∀ j p, ¬ (i <= j < i + k)%nat -> zlevels m' !! (p, j) = zlevels m !! (p, j)).
Proof.
  intros Hnd Hlv Hsmall. revert m i Hlv. induction k as [|k IH]; intros m i Hlv Hlev;
    cbn [bump_spans]; [exists m; split_and!; [done..|lia|done]|].
  destruct (Hlev i) as (Hok & u & r & Hu & Hupd); [lia|].
  rewrite Hu. cbn [mbind option_bind]. unfold level_at.
  pose proof (upd_ok_cell _ _ _ _ _ _ Hok Hupd) as Hc. rewrite Hc.
  cbn [mbind option_bind forward span]. rewrite (store_level_ok _ _ _ _ _ Hc). cbn [mbind option_bind].
  assert (0 <= Z.of_nat (length P) - 1 - r < Z.of_nat (length P)) as Hd.
  { destruct Hupd as (h & A & B & -> & _ & _ & ->). rewrite length_app. cbn [length]. lia. }
  rewrite length_app in Hsmall. pose proof (fwd_span i Q) as Hsp. rewrite u64_small by lia.
  pose proof (bump_one i (zlevels m) P Q n lv u r Hnd Hlv Hok Hupd) as Hnew.
  destruct (IH (ZMem (znodes m) (<[(u, i) := ZLevel (forward (fwd i Q))
      (span (fwd i Q) + (Z.of_nat (length P) - 1 - r) + 1)]> (zlevels m))) (Datatypes.S i))
    as (m' & -> & Hns & Hin & Hout).
  { lia. }
  { intros j Hj. cbn [zlevels]. destruct (Hlev j) as [Hokj Huj]; [lia|]. split; [|done].
    by apply level_ok_insert_ne; [lia|]. }
  exists m'. split_and!; [done..| |].
  - intros j Hj. destruct (decide (j = i)) as [->|]; [|apply Hin; lia].
    apply (level_ok_ext _ _ _ _ (λ p, Hout i p ltac:(lia))). exact Hnew.
  - intros j p Hj. rewrite Hout by lia. cbn [zlevels].
    by rewrite !lookup_insert_ne by ne_cell.
Qed.

Lemma unlink_levels_ok k m ups n lv P Q i :
  NoDup (P ++ (n, lv) :: Q).*1 -> Z.of_nat (length (P ++ Q)) < 2 ^ 32 ->
  (∀ j, (i <= j < i + k)%nat -> level_ok j (zlevels m) (P ++ (n, lv) :: Q) ∧
     ∃ u r, ups !! j = Some (u, r) ∧ upd_ok j P u r) ->
  ∃ m', unlink_levels k m ups n i = Some m' ∧ znodes m' = znodes m ∧
    (∀ j, (i <= j < i + k)%nat -> level_ok j (zlevels m') (P ++ Q)) ∧
    (∀ j, (i <= j < i + k)%nat -> (j < lv)%nat -> zlevels m' !! (n, j) = Some (fwd j Q)) ∧
    (∀ j p, ¬ (i <= j < i + k)%nat -> zlevels m' !! (p, j) = zlevels m !! (p, j)).
Proof.
  intros Hnd Hsmall. revert m i. induction k as [|k IH]; intros m i Hlev;
    cbn [unlink_levels]; [exists m; split_and!; [done..|lia|lia|done]|].
  destruct (Hlev i) as (Hok & u & r & Hu & Hupd); [lia|].
  rewrite Hu. cbn [mbind option_bind]. unfold level_at.
  pose proof (upd_ok_cell _ _ _ _ _ _ Hok Hupd) as Hc. rewrite Hc.
  cbn [mbind option_bind forward span].
  assert (0 <= Z.of_nat (length P) - 1 - r < Z.of_nat (length P)) as Hd.
  { destruct Hupd as (h & A & B & -> & _ & _ & ->). rewrite length_app. cbn [length]. lia. }
  rewrite length_app in Hsmall. pose proof (fwd_span i Q) as Hsp.
  assert (u ≠ n ∧ n ∉ Q.*1) as [Hun HnQ].
  { rewrite fmap_app, fmap_cons in Hnd. apply NoDup_app in Hnd as (_ & Hdis & [HnQ _]%NoDup_cons).
    split; [|done]. intros ->. apply (Hdis n); [|by left].
    destruct Hupd as (h & A & B & -> & _). rewrite fmap_app, elem_of_app. right. by left. }
  set (c' := ZLevel (forward (fwd i Q)) (span (fwd i Q) + (Z.of_nat (length P) - 1 - r))).
  assert ((if decide (forward (fwd i ((n, lv) :: Q)) = Some n) then
             cx ← zlevels m !! (n, i);
             store_level m u i (ZLevel (forward cx) (u64 (span (fwd i ((n, lv) :: Q)) +
               (Z.of_nat (length P) - 1 - r) + u64 (span cx - 1))))
           else store_level m u i (ZLevel (forward (fwd i ((n, lv) :: Q)))
               (u64 (span (fwd i ((n, lv) :: Q)) + (Z.of_nat (length P) - 1 - r) - 1)))) =
          Some (ZMem (znodes m) (<[(u, i) := c']> (zlevels m)))) as ->.
  { cbn [fwd]. destruct (decide (i < lv)%nat) as [Hi|Hi]; cbn [forward span].
    - rewrite decide_True by done. rewrite (Hok P n lv Q) by done. cbn [mbind option_bind].
      rewrite (store_level_ok _ _ _ _ _ Hc). unfold c', u64. do 5 f_equal.
      rewrite Z.add_mod_idemp_r by lia. rewrite Z.mod_small by lia. lia.
    - rewrite decide_False by (intros E; apply fwd_forward_in in E; done).
      rewrite (store_level_ok _ _ _ _ _ Hc). unfold c'. rewrite u64_small by lia. do 5 f_equal. lia. }
  cbn [mbind option_bind].
  pose proof (unlink_one i (zlevels m) P Q n lv u r Hnd Hok Hupd) as Hnew. fold c' in Hnew.
  destruct (IH (ZMem (znodes m) (<[(u, i) := c']> (zlevels m))) (Datatypes.S i))
    as (m' & -> & Hns & Hin & Hcx & Hout).
  { intros j Hj. cbn [zlevels]. destruct (Hlev j) as [Hokj Huj]; [lia|]. split; [|done].
    by apply level_ok_insert_ne; [lia|]. }
  exists m'. split_and!; [done..| | |].
  - intros j Hj. destruct (decide (j = i)) as [->|]; [|apply Hin; lia].
    apply (level_ok_ext _ _ _ _ (λ p, Hout i p ltac:(lia))). exact Hnew.
  - intros j Hj Hlv. destruct (decide (j = i)) as [->|]; [|apply Hcx; lia].
    rewrite Hout by lia. cbn [zlevels]. rewrite lookup_insert_ne by congruence. by apply (Hok P n lv).
  - intros j p Hj. rewrite Hout by lia. cbn [zlevels].
    by rewrite lookup_insert_ne by ne_cell.
Qed.
End loops.

(** ** The nodes *)
Section nodes.
Context {S : Type}.
Implicit Types (m : zmem S) (z : m_zskiplist S) (it : zitem S) (l pre post : list (zitem S))
  (ns : gmap zloc (m_zskiplistNode S)).

Definition node_of it (b : option zloc) : m_zskiplistNode S :=
  ZNode (Some (zi_mem it)) (zi_score it) b.

(** The store into the [backward] field of the node behind. *)
Definition fix_backward ns post (b : option zloc) : gmap zloc (m_zskiplistNode S) :=
  match post with [] => ns | y :: _ => <[zi_loc y := node_of y b]> ns end.

Lemma prev_loc_last pre post : prev_loc (pre ++ post) (length pre) = zi_loc <$> last pre.
Proof.
  destruct pre as [|it pre _] using rev_ind; [done|].
  rewrite last_snoc, length_app, Nat.add_comm. cbn [prev_loc length Nat.add].
  by rewrite lookup_app_l, lookup_middle_at by (rewrite length_app; simpl; lia).
Qed.

Lemma prev_loc_app_l pre post post' k :
  (k <= length pre)%nat -> prev_loc (pre ++ post) k = prev_loc (pre ++ post') k.
Proof.
  intros Hk. destruct k as [|k]; [done|]. cbn [prev_loc]. by rewrite !lookup_app_l by lia.
Qed.

Lemma prev_loc_app_r pre post pre' k :
  (0 < k)%nat -> prev_loc (pre ++ post) (length pre + k) = prev_loc (pre' ++ post) (length pre' + k).
Proof.
  intros Hk. destruct k as [|k]; [lia|]. rewrite !Nat.add_succ_r. cbn [prev_loc].
  rewrite !lookup_app_r by lia. do 2 f_equal. lia.
Qed.

(** Splitting an index of [pre ++ mid ++ post]. *)
Lemma lookup_app3 pre it post k it' :
  (pre ++ it :: post) !! k = Some it' ->
  ((k < length pre)%nat ∧ pre !! k = Some it') ∨ (k = length pre ∧ it' = it) ∨
  (∃ k', k = (length pre + Datatypes.S k')%nat ∧ post !! k' = Some it').
Proof.
  intros [Hk|[Hle Hk]]%lookup_app_Some.
  - left. split; [by eapply lookup_lt_Some|done].
  - right. destruct (k - length pre)%nat as [|k'] eqn:E; simpl in Hk.
    + left. split; [lia|congruence].
    + right. exists k'. split; [lia|done].
Qed.

Lemma nodup_loc_ne l i j it1 it2 :
  NoDup (zi_loc <$> l) -> l !! i = Some it1 -> l !! j = Some it2 -> i ≠ j ->
  zi_loc it1 ≠ zi_loc it2.
Proof.
  intros Hnd H1 H2 Hne E. apply Hne. eapply NoDup_lookup; [exact Hnd| |].
  - by rewrite list_lookup_fmap, H1.
  - by rewrite list_lookup_fmap, H2, E.
Qed.

Lemma nodes_insert ns pre it post :
  NoDup (zi_loc <$> (pre ++ it :: post)) -> nodes_ok ns (pre ++ post) ->
  nodes_ok (fix_backward (<[zi_loc it := node_of it (zi_loc <$> last pre)]> ns) post (Some (zi_loc it)))
    (pre ++ it :: post).
Proof.
  intros Hnd Hok k it' Hk.
  assert (∀ y, head post = Some y -> (pre ++ it :: post) !! Datatypes.S (length pre) = Some y) as Hhead.
  { intros y Hy. rewrite lookup_app_r by lia. replace (_ - _)%nat with 1%nat by lia. by destruct post. }
  assert ((pre ++ it :: post) !! length pre = Some it) as Hmid by apply lookup_middle_at.
  assert (k ≠ Datatypes.S (length pre) ->
    fix_backward (<[zi_loc it := node_of it (zi_loc <$> last pre)]> ns) post (Some (zi_loc it)) !! zi_loc it' =
    <[zi_loc it := node_of it (zi_loc <$> last pre)]> ns !! zi_loc it') as Hfix.
  { intros Hne. unfold fix_backward. destruct post as [|y post]; [done|].
    apply lookup_insert_ne. eapply nodup_loc_ne; [done|by apply Hhead|done|done]. }
  destruct (lookup_app3 _ _ _ _ _ Hk) as [[Hlt Hk']|[[-> ->]|(k' & -> & Hk')]].
  - rewrite Hfix by lia.
    rewrite lookup_insert_ne by (eapply nodup_loc_ne; [exact Hnd|exact Hmid|exact Hk|lia]).
    rewrite (Hok k it') by (by apply lookup_app_l_Some).
    f_equal. by rewrite (prev_loc_app_l pre post (it :: post)) by lia.
  - rewrite Hfix, lookup_insert_eq by lia. by rewrite prev_loc_last.
  - destruct k' as [|k'].
    + destruct post as [|y post]; simplify_eq/=. rewrite lookup_insert_eq.
      rewrite Nat.add_succ_r, Nat.add_0_r. cbn [prev_loc]. by rewrite Hmid.
    + rewrite Hfix by lia.
      rewrite lookup_insert_ne by (eapply nodup_loc_ne; [exact Hnd|exact Hmid|exact Hk|lia]).
      rewrite (Hok (length pre + Datatypes.S k')%nat it').
      * f_equal. rewrite !Nat.add_succ_r. cbn [prev_loc]. rewrite !lookup_app_r by lia.
        replace (length pre + k' - length pre)%nat with k' by lia.
        by replace (Datatypes.S (length pre + k') - length pre)%nat with (Datatypes.S k') by lia.
      * rewrite lookup_app_r by lia. rewrite <- Hk'. f_equal. lia.
Qed.

Lemma nodes_delete ns pre it post :
  NoDup (zi_loc <$> (pre ++ it :: post)) -> nodes_ok ns (pre ++ it :: post) ->
  nodes_ok (fix_backward ns post (zi_loc <$> last pre)) (pre ++ post).
Proof.
  intros Hnd Hok k it' Hk.
  assert (∃ k2, (pre ++ it :: post) !! k2 = Some it' ∧
    k2 = if decide (k < length pre)%nat then k else Datatypes.S k) as (k2 & Hk2 & Ek2).
  { eexists. split; [|done]. apply lookup_app_Some in Hk as [Hk|[Hle Hk]].
    - rewrite decide_True by (by eapply lookup_lt_Some). by apply lookup_app_l_Some.
    - rewrite decide_False by lia. rewrite lookup_app_r by lia.
      replace (Datatypes.S k - length pre)%nat with (Datatypes.S (k - length pre)) by lia. done. }
  destruct (decide (k = length pre)) as [->|Hne].
  - rewrite lookup_app_r, Nat.sub_diag in Hk by lia. destruct post as [|y post]; simplify_eq/=.
    rewrite lookup_insert_eq. by rewrite prev_loc_last.
  - assert (fix_backward ns post (zi_loc <$> last pre) !! zi_loc it' = ns !! zi_loc it') as ->.
    { unfold fix_backward. destruct post as [|y post]; [done|]. apply lookup_insert_ne.
      apply (nodup_loc_ne (pre ++ it :: y :: post) (Datatypes.S (length pre)) k2); [done| |done|].
      - rewrite lookup_app_r by lia. by replace (_ - _)%nat with 1%nat by lia.
      - rewrite Ek2. case_decide; lia. }
    rewrite (Hok k2 it' Hk2). f_equal. rewrite Ek2. case_decide.
    + by rewrite (prev_loc_app_l pre (it :: post) post) by lia.
    + cbn [prev_loc]. destruct k as [|k]; [lia|]. cbn [prev_loc].
      rewrite !lookup_app_r by lia. by replace (Datatypes.S k - length pre)%nat
        with (Datatypes.S (k - length pre)) by lia.
Qed.

Lemma nodes_ok_delete ns l p :
  p ∉ (zi_loc <$> l) -> nodes_ok ns l -> nodes_ok (delete p ns) l.
Proof.
  intros Hp Hok k it Hk. rewrite lookup_delete_ne; [by apply Hok|].
  intros ->. apply Hp, list_elem_of_fmap. exists it. split; [done|]. by eapply list_elem_of_lookup_2.
Qed.
End nodes.

(** ** Insertion *)
Section ops.
Context {S : Type} {X : gset zloc} (cmp : S -> S -> Z).
Implicit Types (m : zmem S) (z : m_zskiplist S) (it : zitem S) (l pre post : list (zitem S)).

Lemma header_not_in z l it : zsl_repr X z l -> it ∈ l -> zi_loc it ≠ zsl_header z.
Proof.
  intros Hz Hit E. pose proof (repr_nodup _ _ Hz) as [Hn _]%NoDup_cons.
  apply Hn. rewrite <- E. apply list_elem_of_fmap. by exists it.
Qed.

(** The levels that come into use hold the header only. *)
Lemma grow_spec z pre post ups lv :
  zsl_repr X z (pre ++ post) -> (1 <= lv <= ZSKIPLIST_MAXLEVEL)%nat ->
  length ups = zsl_level z ->
  (∀ j u r, ups !! j = Some (u, r) -> upd_ok j (towers z pre) u r) ->
  let grown := (lv - zsl_level z)%nat in
  let ups' := ups ++ replicate grown (zsl_header z, 0) in
  ∃ m', grow_levels grown (zsl_mem z) (zsl_header z) (zsl_level z) (zsl_length z) = Some m' ∧
    znodes m' = znodes (zsl_mem z) ∧
    (∀ j, (j < Nat.max lv (zsl_level z))%nat ->
       level_ok j (zlevels m') (towers z (pre ++ post)) ∧
       ∃ u r, ups' !! j = Some (u, r) ∧ upd_ok j (towers z pre) u r) ∧
    (∀ j p, (Nat.max lv (zsl_level z) <= j)%nat -> zlevels m' !! (p, j) = zlevels (zsl_mem z) !! (p, j)).
Proof.
  intros Hz Hlv Hlen Hups grown ups'.
  destruct (grow_levels_ok grown (zsl_mem z) (zsl_header z) (zsl_level z) (zsl_length z))
    as (m' & E & Hns & Hl).
  { intros j Hj. apply (repr_unused _ _ Hz). lia. }
  exists m'. split_and!; [done..| |].
  2:{ intros j p Hj. rewrite Hl. rewrite decide_False by lia. done. }
  assert (Forall (λ t : zloc * nat, (t.2 <= zsl_level z)%nat) (tower_of <$> (pre ++ post))) as Hall.
  { apply Forall_fmap. eapply Forall_impl; [apply (repr_heights _ _ Hz)|]. cbn. lia. }
  intros j Hj. destruct (decide (j < zsl_level z)%nat) as [Hold|Hnew].
  - split.
    + eapply level_ok_ext; [|apply (repr_levels _ _ Hz j Hold)].
      intros p. rewrite Hl. by rewrite decide_False by lia.
    + destruct (lookup_lt_is_Some_2 ups j) as [[u r] Hu]; [lia|].
      exists u, r. unfold ups'. rewrite lookup_app_l by lia. split; [done|by apply Hups].
  - split.
    + intros A p h B ET Hh. unfold towers in ET.
      destruct A as [|a A]; cbn [app] in ET; injection ET as E1 E2.
      * subst p B. rewrite Hl, decide_True by (split; [done|lia]).
        rewrite fwd_None, length_fmap, (repr_length _ _ Hz); [done|].
        eapply Forall_impl; [exact Hall|]. unfold low. cbn. lia.
      * rewrite E2 in Hall. apply Forall_app in Hall as [_ Hall].
        apply Forall_cons in Hall as [Hlow _]. cbn in Hlow. lia.
    + exists (zsl_header z), 0. unfold ups'. rewrite lookup_app_r by lia.
      split; [apply lookup_replicate_2; lia|].
      exists ZSKIPLIST_MAXLEVEL, [], (tower_of <$> pre). split_and!; [done|lia| |done].
      rewrite fmap_app in Hall. apply Forall_app in Hall as [Hall _].
      eapply Forall_impl; [exact Hall|]. unfold low. cbn. lia.
Qed.

Lemma map_u32_ups z pre post (ups : list (zloc * Z)) :
  zsl_repr X z (pre ++ post) ->
  (∀ j u r, ups !! j = Some (u, r) -> upd_ok j (towers z pre) u r) ->
  map (λ ur, (ur.1, u32 ur.2)) ups = ups.
Proof.
  intros Hz Hups. apply list_eq. intros j. rewrite list_lookup_fmap.
  destruct (ups !! j) as [[u r]|] eqn:E; [|done]. cbn. rewrite u32_small; [done|].
  destruct (Hups _ _ _ E) as (h & A & B & ET & _ & _ & ->).
  apply (f_equal length) in ET. unfold towers in ET. cbn [length] in ET.
  rewrite length_fmap, length_app in ET. cbn [length] in ET.
  pose proof (repr_small _ _ Hz) as Hs. rewrite length_app in Hs. lia.
Qed.

(** All the cells of the new node and all the spans. *)
Lemma insert_levels z pre post ups lv m n :
  zsl_repr X z (pre ++ post) -> (1 <= lv)%nat ->
  let L := Nat.max lv (zsl_level z) in
  n ∉ (towers z (pre ++ post)).*1 ->
  (∀ j, (j < L)%nat -> level_ok j (zlevels m) (towers z (pre ++ post)) ∧
     ∃ u r, ups !! j = Some (u, r) ∧ upd_ok j (towers z pre) u r) ->
  ∃ m', (m ← link_levels lv (ZMem (znodes m) (alloc_levels n lv (zlevels m))) ups n
                (Z.of_nat (length pre)) 0;
         bump_spans (L - lv) m ups lv) = Some m' ∧
    znodes m' = znodes m ∧
    (∀ j, (j < L)%nat -> level_ok j (zlevels m') (towers z pre ++ (n, lv) :: (tower_of <$> post))) ∧
    (∀ j p, (L <= j)%nat -> p ≠ n -> zlevels m' !! (p, j) = zlevels m !! (p, j)).
Proof.
  intros Hz Hlv1 L Hn Hlev. rewrite towers_app in Hn, Hlev.
  assert (NoDup (towers z pre ++ (tower_of <$> post)).*1) as Hnd
    by (rewrite <- towers_app, towers_fst; apply (repr_nodup _ _ Hz)).
  assert (Z.of_nat (length (towers z pre ++ (tower_of <$> post))) < 2 ^ 32) as Hsmall.
  { rewrite <- towers_app. unfold towers. cbn [length]. rewrite length_fmap.
    pose proof (repr_small _ _ Hz). lia. }
  assert (Z.of_nat (length (towers z pre)) - 1 = Z.of_nat (length pre)) as Hrank.
  { unfold towers. cbn [length]. rewrite length_fmap. lia. }
  set (m2 := ZMem (znodes m) (alloc_levels n lv (zlevels m))).
  assert (∀ j, (j < L)%nat -> level_ok j (zlevels m2) (towers z pre ++ (tower_of <$> post))) as Hok2.
  { intros j Hj A p h B ET Hh. unfold m2. cbn [zlevels]. rewrite alloc_levels_lookup.
    rewrite decide_False; [by apply (proj1 (Hlev j Hj) A p h B)|].
    intros [-> _]. by eapply not_in_split. }
  destruct (link_levels_ok lv m2 ups n lv _ _ 0 Hnd Hn ltac:(lia) Hsmall) as (m3 & E3 & Hn3 & Hin3 & Hout3).
  { intros j Hj. unfold m2. cbn [zlevels]. rewrite alloc_levels_lookup, decide_True by (split; [done|lia]).
    by eexists. }
  { intros j Hj. split; [apply Hok2; unfold L; lia|apply Hlev; unfold L; lia]. }
  rewrite Hrank in E3. rewrite E3. cbn [mbind option_bind].
  destruct (bump_spans_ok (L - lv) m3 ups n lv _ _ lv Hnd ltac:(lia) Hsmall) as (m4 & E4 & Hn4 & Hin4 & Hout4).
  { intros j Hj. split; [|apply Hlev; lia].
    apply (level_ok_ext _ _ _ _ (λ p, Hout3 j p ltac:(lia))). apply Hok2. lia. }
  exists m4. split_and!; [done|by rewrite Hn4, Hn3| |].
  - intros j Hj. destruct (decide (j < lv)%nat).
    + apply (level_ok_ext _ _ _ _ (λ p, Hout4 j p ltac:(lia))). apply Hin3. lia.
    + apply Hin4. lia.
  - intros j p Hj Hp. rewrite Hout4, Hout3 by (unfold L in *; lia). unfold m2. cbn [zlevels].
    by rewrite alloc_levels_lookup, decide_False by (intros [? _]; done).
Qed.

Lemma store_backward_ok m x n b :
  znodes m !! x = Some n ->
  store_backward m x b = Some (ZMem (<[x := ZNode (member n) (score n) b]> (znodes m)) (zlevels m)).
Proof. intros E. unfold store_backward, store_node, node_at. by rewrite E. Qed.

Lemma zip_top_insert l1 l2 it (L : nat) :
  ((L = 1)%nat ∨ (Exists (λ it, zi_height it = L) (l1 ++ l2))) -> (1 <= zi_height it)%nat ->
  (Nat.max (zi_height it) L = 1)%nat ∨
  (Exists (λ it', zi_height it' = Nat.max (zi_height it) L) (l1 ++ it :: l2)).
Proof.
  intros Htop Hh. destruct (decide (zi_height it = Nat.max (zi_height it) L)) as [E|Hne].
  - right. rewrite Exists_app. right. by left.
  - destruct Htop as [->|Hex]; [lia|]. right. replace (Nat.max (zi_height it) L) with L by lia.
    rewrite Exists_app in *. destruct Hex; [by left|right; by right].
Qed.

Lemma fwd_head post (L : nat) :
  Forall (λ it, 1 <= zi_height it <= L)%nat post ->
  forward (fwd 0 (tower_of <$> post)) = zi_loc <$> head post.
Proof.
  destruct post as [|it post]; [done|]. intros [Hh _]%Forall_cons.
  cbn. by rewrite decide_True by lia.
Qed.

Lemma prev_pointer z pre post :
  zsl_repr X z (pre ++ post) ->
  let u0 := match zi_loc <$> last pre with Some p => p | None => zsl_header z end in
  (if decide (u0 = zsl_header z) then None else Some u0) = zi_loc <$> last pre.
Proof.
  intros Hz u0. unfold u0. destruct (last pre) as [it|] eqn:E; cbn; [|by rewrite decide_True].
  rewrite decide_False; [done|]. apply (header_not_in z _ it Hz).
  apply elem_of_app. left. by apply last_Some_elem_of.
Qed.

(** What the final stores of an insertion leave in the nodes, and the tail. *)
Lemma insert_nodes z pre post m it :
  zsl_repr X z (pre ++ post) -> zi_loc it ∉ zsl_header z :: (zi_loc <$> (pre ++ post)) ->
  znodes m = <[zi_loc it := node_of it None]> (znodes (zsl_mem z)) ->
  zlevels m !! (zi_loc it, 0%nat) = Some (fwd 0 (tower_of <$> post)) ->
  link_backward z m (zi_loc it) (zi_loc <$> last pre) =
  Some (ZMem (fix_backward (<[zi_loc it := node_of it (zi_loc <$> last pre)]> (znodes (zsl_mem z)))
                post (Some (zi_loc it))) (zlevels m), zi_loc <$> last (pre ++ it :: post)).
Proof.
  intros Hz Hn Hns Hl. unfold link_backward.
  rewrite (store_backward_ok m (zi_loc it) (node_of it None)) by (rewrite Hns; apply lookup_insert_eq).
  cbn [mbind option_bind]. unfold level_at at 1. cbn [zlevels]. rewrite Hl. cbn [mbind option_bind].
  pose proof (repr_heights _ _ Hz) as Hh. apply Forall_app in Hh as [_ Hh].
  rewrite (fwd_head post _ Hh), Hns, insert_insert_eq.
  rewrite last_app_cons. destruct post as [|y post]; cbn [fmap option_fmap option_map head fix_backward];
    [done|].
  assert (zi_loc y ≠ zi_loc it) as Hne.
  { intros E. apply Hn. right. rewrite fmap_app. apply elem_of_app. right. rewrite <- E. by left. }
  rewrite (store_backward_ok _ (zi_loc y) (node_of y (zi_loc <$> last pre))).
  - cbn [mbind option_bind]. rewrite (repr_tail _ _ Hz), last_app_cons. done.
  - cbn [znodes]. rewrite lookup_insert_ne by done.
    rewrite (repr_nodes _ _ Hz (length pre) y) by apply lookup_middle_at.
    by rewrite prev_loc_last.
Qed.

Lemma dom_fix_backward ns post b :
  (∀ y, y ∈ post -> zi_loc y ∈ dom ns) -> dom (fix_backward (S := S) ns post b) = dom ns.
Proof.
  intros Hin. unfold fix_backward. destruct post as [|y post]; [done|].
  rewrite dom_insert_L. apply subseteq_union_1_L, singleton_subseteq_l. apply Hin. by left.
Qed.

Lemma items_in_dom z l it : zsl_repr X z l -> it ∈ l -> zi_loc it ∈ dom (znodes (zsl_mem z)).
Proof.
  intros Hz Hit. rewrite (repr_dom _ _ Hz), elem_of_union, elem_of_list_to_set. left. right.
  apply list_elem_of_fmap. by exists it.
Qed.

(** [zslInsertAt] puts the new item between the items before it and the
    others. *)
Lemma insert_at_ok z pre post lv sc mem :
  zsl_repr X z (pre ++ post) -> adv_ok (before cmp sc mem) pre post ->
  (1 <= lv <= ZSKIPLIST_MAXLEVEL)%nat -> Z.of_nat (length (pre ++ post)) + 1 < 2 ^ 32 - 1 ->
  ∃ z' n, zslInsertAt cmp lv z sc mem = Some (z', n) ∧ zsl_header z' = zsl_header z ∧
    (n ∉ dom (znodes (zsl_mem z))) ∧ zsl_repr X z' (pre ++ ZItem n lv sc mem :: post).
Proof.
  intros Hz Hadv Hlv Hroom. unfold zslInsertAt.
  destruct (search_ok _ z pre post Hz Hadv) as (ups & -> & Hlen & Hups). cbn [mbind option_bind].
  rewrite (map_u32_ups z pre post ups Hz Hups).
  destruct (grow_spec z pre post ups lv Hz Hlv Hlen Hups) as (m1 & -> & Hn1 & Hlev1 & Hout1).
  cbn [mbind option_bind]. set (ups' := ups ++ replicate (lv - zsl_level z) (zsl_header z, 0)) in *.
  unfold m_zslCreateNode. rewrite Hn1.
  set (n := fresh (dom (znodes (zsl_mem z)))). set (new := ZItem n lv sc mem).
  assert (n ∉ dom (znodes (zsl_mem z))) as Hfresh by apply is_fresh.
  assert (n ∉ zsl_header z :: (zi_loc <$> (pre ++ post))) as Hn.
  { rewrite (repr_dom _ _ Hz), elem_of_union, elem_of_list_to_set in Hfresh. tauto. }
  destruct (Hlev1 0%nat ltac:(lia)) as (_ & u0 & r0 & Hu0 & Hupd0). rewrite Hu0. cbn [mbind option_bind].
  destruct (upd_ok_0 z pre post u0 r0 Hz Hupd0) as [-> ->]. rewrite (prev_pointer z pre post Hz).
  set (mA := ZMem (<[n := ZNode (Some mem) sc None]> (znodes (zsl_mem z))) (zlevels m1)).
  destruct (insert_levels z pre post ups' lv mA n Hz ltac:(lia)) as (m4 & E4 & Hn4 & Hlev4 & Hout4).
  { by rewrite towers_fst. } { done. }
  unfold mA in E4. cbn [znodes zlevels] in E4.
  destruct (link_levels _ _ _ _ _ _) as [m3|]; [|done]. cbn [mbind option_bind] in *.
  rewrite E4. cbn [mbind option_bind].
  pose proof (insert_nodes z pre post m4 new Hz Hn Hn4) as Hfin.
  change (zi_loc new) with n in Hfin.
  rewrite Hfin; [|by apply (Hlev4 0%nat ltac:(lia) (towers z pre) n lv); [|lia]].
  cbn [mbind option_bind]. eexists _, n. split; [reflexivity|]. split; [done|]. split; [done|].
  pose proof (repr_level _ _ Hz) as HL.
  assert (zi_loc <$> (pre ++ new :: post) ≡ₚ n :: (zi_loc <$> (pre ++ post))) as Hperm
    by (rewrite !fmap_app, fmap_cons; by rewrite <- Permutation_middle).
  fold new. split; cbn [zsl_level zsl_header zsl_tail zsl_length zsl_mem znodes zlevels].
  - lia.
  - pose proof (repr_heights _ _ Hz) as Hh. apply Forall_app in Hh as [Hh1 Hh2].
    apply Forall_app. split; [|apply Forall_cons; split; [cbn; lia|]];
      (eapply Forall_impl; [eassumption|cbn; lia]).
  - apply (zip_top_insert pre post new (zsl_level z)); [apply (repr_top _ _ Hz)|cbn; lia].
  - rewrite Hperm, Permutation_swap. apply NoDup_cons. split; [exact Hn|apply (repr_nodup _ _ Hz)].
  - intros i Hi. unfold towers. cbn [zsl_header]. rewrite fmap_app. apply (Hlev4 i Hi).
  - intros i Hi. rewrite Hout4 by (lia || (intros E; apply Hn; rewrite E; by left)).
    unfold mA. cbn [zlevels]. rewrite Hout1 by lia. apply (repr_unused _ _ Hz). lia.
  - apply nodes_insert; [|apply (repr_nodes _ _ Hz)].
    rewrite Hperm. apply NoDup_cons. pose proof (repr_nodup _ _ Hz) as [_ Hnd]%NoDup_cons. split; [|done].
    intros Hin. apply Hn. by right.
  - assert (∀ y, y ∈ post -> zi_loc y ≠ zsl_header z) as Hy.
    { intros y Hy. apply (header_not_in z (pre ++ post)); [done|]. apply elem_of_app. by right. }
    assert (zi_loc new ≠ zsl_header z) by (intros E; apply Hn; cbn in E; rewrite E; by left).
    unfold fix_backward. destruct post as [|y post'].
    + rewrite lookup_insert_ne by done. apply (repr_header _ _ Hz).
    + rewrite !lookup_insert_ne by (done || (apply Hy; by left)). apply (repr_header _ _ Hz).
  - rewrite dom_fix_backward.
    + rewrite dom_insert_L, (repr_dom _ _ Hz). apply set_eq. intros p.
      rewrite !elem_of_union, elem_of_singleton, !elem_of_list_to_set, !elem_of_cons, Hperm, elem_of_cons.
      change (zi_loc new) with n. tauto.
    + intros y Hy. rewrite dom_insert_L, elem_of_union. right.
      apply (items_in_dom z (pre ++ post)); [done|]. apply elem_of_app. by right.
  - done.
  - rewrite (repr_length _ _ Hz), u64_small by lia. rewrite !length_app. cbn [length]. lia.
  - rewrite length_app in *. cbn [length]. lia.
Qed.

(** ** Deletion *)

Lemma lower_level_SS m hd L :
  lower_level m hd (Datatypes.S (Datatypes.S L)) =
  c ← level_at m hd (Datatypes.S L);
  match forward c with
  | None => lower_level m hd (Datatypes.S L)
  | Some _ => Some (Datatypes.S (Datatypes.S L))
  end.
Proof. reflexivity. Qed.

(** The header's cell of a level is NULL exactly when no item reaches it. *)
Lemma lower_level_ok m hd (L : nat) l :
  (1 <= L)%nat -> Forall (λ it, 1 <= zi_height it <= L)%nat l ->
  (∀ j, (j < L)%nat -> zlevels m !! (hd, j) = Some (fwd j (tower_of <$> l))) ->
  ∃ L', lower_level m hd L = Some L' ∧ (1 <= L' <= L)%nat ∧
    Forall (λ it, 1 <= zi_height it <= L')%nat l ∧
    ((L' = 1)%nat ∨ (Exists (λ it, zi_height it = L') l)) ∧
    (∀ j, (L' <= j < L)%nat -> ∃ s, zlevels m !! (hd, j) = Some (ZLevel None s)).
Proof.
  induction L as [|L IH]; intros HL Hall Hc; [lia|].
  destruct L as [|L].
  { exists 1%nat. cbn [lower_level]. split_and!; [done|lia|lia|done|by left|lia]. }
  rewrite lower_level_SS. unfold level_at. rewrite Hc by lia. cbn [mbind option_bind].
  destruct (decide (Forall (low (Datatypes.S L)) (tower_of <$> l))) as [Hlow|Hhigh].
  - rewrite (fwd_None _ _ Hlow). cbn [forward].
    pose proof Hlow as Hlow'. destruct IH as (L' & E & HL' & Hall' & Htop & Hun);
      [lia| |intros; apply Hc; lia|].
    + apply Forall_forall. intros it Hit. rewrite Forall_forall in Hall. specialize (Hall it Hit).
      assert (low (Datatypes.S L) (tower_of it)) as Hl.
      { rewrite Forall_forall in Hlow'. apply Hlow', list_elem_of_fmap. by exists it. }
      unfold low, tower_of in Hl. cbn in Hl, Hall. lia.
    + exists L'. split_and!; try done; try lia. intros j Hj.
      destruct (decide (j = Datatypes.S L)) as [->|]; [|apply Hun; lia].
      rewrite Hc, (fwd_None _ _ Hlow) by lia. by eexists.
  - destruct (fwd_Some _ _ Hhigh) as (C & p & h & D & EB & Hh & _ & ->). cbn [forward].
    exists (Datatypes.S (Datatypes.S L)). split_and!; try done; try lia.
    right. apply Exists_exists.
    destruct (tower_lookup l (length C) p h) as (it & Hit & _ & Hhi).
    { rewrite EB. apply lookup_middle_at. }
    exists it. split; [by eapply list_elem_of_lookup_2|].
    apply (Forall_lookup_1 _ _ _ _ Hall) in Hit. cbn in Hit. lia.
Qed.

(** [m_zslDeleteNode] unlinks the node at every level; the node is still
    allocated afterwards. *)
Lemma delete_node_ok z pre it post ups :
  zsl_repr X z (pre ++ it :: post) -> (zsl_level z <= length ups)%nat ->
  (∀ j u r, ups !! j = Some (u, r) -> upd_ok j (towers z pre) u r) ->
  ∃ z', m_zslDeleteNode z (zi_loc it) ups = Some z' ∧ zsl_header z' = zsl_header z ∧
    zsl_repr ({[zi_loc it]} ∪ X) z' (pre ++ post) ∧
    znodes (zsl_mem z') !! zi_loc it = znodes (zsl_mem z) !! zi_loc it ∧
    (zsl_level z' <= zsl_level z)%nat.
Proof.
  intros Hz Hlen Hups. unfold m_zslDeleteNode.
  pose proof (repr_level _ _ Hz) as HL. pose proof (repr_heights _ _ Hz) as Hall.
  assert (towers z (pre ++ it :: post) = towers z pre ++ (zi_loc it, zi_height it) :: (tower_of <$> post))
    as ET by (by rewrite towers_app).
  pose proof (repr_nodup _ _ Hz) as Hnd. pose proof (repr_small _ _ Hz) as Hsm.
  assert (zi_loc <$> (pre ++ it :: post) ≡ₚ zi_loc it :: (zi_loc <$> (pre ++ post))) as Hperm
    by (rewrite !fmap_app, fmap_cons; by rewrite <- Permutation_middle).
  destruct (unlink_levels_ok (zsl_level z) (zsl_mem z) ups (zi_loc it) (zi_height it)
    (towers z pre) (tower_of <$> post) 0) as (m1 & -> & Hn1 & Hok1 & Hx1 & Hout1).
  { rewrite <- ET, towers_fst. done. }
  { unfold towers. rewrite length_app in *. cbn [length] in *. rewrite !length_fmap. lia. }
  { intros j Hj. rewrite <- ET. split; [apply (repr_levels _ _ Hz); lia|].
    destruct (lookup_lt_is_Some_2 ups j) as [[u r] Hu]; [lia|]. eauto. }
  cbn [mbind option_bind]. rewrite <- towers_app in Hok1.
  apply Forall_app in Hall as Hall'. destruct Hall' as [Hh1 [Hit Hh2]%Forall_cons].
  unfold level_at at 1. rewrite Hx1 by lia. cbn [mbind option_bind]. unfold node_at at 1.
  assert (znodes (zsl_mem z) !! zi_loc it = Some (node_of it (zi_loc <$> last pre))) as Hnode.
  { rewrite (repr_nodes _ _ Hz (length pre) it) by apply lookup_middle_at. by rewrite prev_loc_last. }
  rewrite Hn1, Hnode. cbn [mbind option_bind backward node_of].
  rewrite (fwd_head post _ Hh2).
  assert (match zi_loc <$> head post with
          | Some y => m ← store_backward m1 y (zi_loc <$> last pre); Some (m, zsl_tail z)
          | None => Some (m1, zi_loc <$> last pre)
          end = Some (ZMem (fix_backward (znodes (zsl_mem z)) post (zi_loc <$> last pre)) (zlevels m1),
                      zi_loc <$> last (pre ++ post))) as ->.
  { destruct post as [|y post]; cbn [head fmap option_fmap option_map fix_backward].
    - rewrite app_nil_r, <- Hn1. by destruct m1.
    - rewrite (store_backward_ok _ (zi_loc y) (node_of y (Some (zi_loc it)))).
      + rewrite (repr_tail _ _ Hz), !last_app_cons, last_cons_cons, Hn1. done.
      + rewrite Hn1, (repr_nodes _ _ Hz (Datatypes.S (length pre)) y).
        * cbn [prev_loc]. by rewrite lookup_middle_at.
        * rewrite lookup_app_r by lia. by replace (_ - _)%nat with 1%nat by lia. }
  cbn [mbind option_bind].
  destruct (lower_level_ok (ZMem (fix_backward (znodes (zsl_mem z)) post (zi_loc <$> last pre)) (zlevels m1))
    (zsl_header z) (zsl_level z) (pre ++ post)) as (L' & -> & HL' & HallL & Htop & Hun); [lia| | |].
  { by apply Forall_app. }
  { intros j Hj. cbn [zlevels]. apply (Hok1 j ltac:(lia) [] _ ZSKIPLIST_MAXLEVEL); [done|lia]. }
  cbn [mbind option_bind]. eexists. split; [reflexivity|]. split; [done|].
  cbn [zsl_level zsl_header zsl_tail zsl_length zsl_mem znodes zlevels].
  apply NoDup_cons in Hnd as [Hhd Hnd].
  assert (∀ y, y ∈ post -> zi_loc y ≠ zsl_header z ∧ zi_loc y ≠ zi_loc it) as Hy.
  { intros y Hy. split; intros E.
    - apply Hhd. rewrite <- E, Hperm. right. rewrite fmap_app. apply elem_of_app. right.
      apply list_elem_of_fmap. by exists y.
    - rewrite Hperm in Hnd. apply NoDup_cons in Hnd as [Hn _]. apply Hn.
      rewrite <- E, fmap_app. apply elem_of_app. right. apply list_elem_of_fmap. by exists y. }
  split; [split; cbn [zsl_level zsl_header zsl_tail zsl_length zsl_mem znodes zlevels]|split; [|lia]].
  - lia.
  - done.
  - done.
  - rewrite Hperm in Hnd, Hhd. apply NoDup_cons in Hnd as [_ Hnd]. apply NoDup_cons. split; [|done].
    intros Hin. apply Hhd. by right.
  - intros i Hi. apply Hok1. lia.
  - intros i Hi. destruct (decide (i < zsl_level z)%nat); [apply Hun; lia|].
    rewrite Hout1 by lia. apply (repr_unused _ _ Hz). lia.
  - by apply (nodes_delete _ _ it); [|apply (repr_nodes _ _ Hz)].
  - unfold fix_backward. destruct post as [|y post]; [apply (repr_header _ _ Hz)|].
    rewrite lookup_insert_ne by (apply Hy; by left). apply (repr_header _ _ Hz).
  - rewrite dom_fix_backward.
    + rewrite (repr_dom _ _ Hz). apply set_eq. intros p.
      rewrite !elem_of_union, elem_of_singleton, !elem_of_list_to_set, !elem_of_cons, Hperm, elem_of_cons.
      tauto.
    + intros y Hin. apply (items_in_dom z (pre ++ it :: post)); [done|].
      apply elem_of_app. right. by right.
  - done.
  - rewrite (repr_length _ _ Hz). rewrite length_app in *. cbn [length] in *.
    rewrite u64_small by lia. rewrite length_app. lia.
  - rewrite length_app in *. cbn [length] in *. lia.
  - unfold fix_backward. destruct post as [|y post]; [done|].
    rewrite lookup_insert_ne; [done|]. by apply (proj2 (Hy y ltac:(by left))).
Qed.
End ops.

Section ops2.
Context {S : Type} {X : gset zloc} (cmp : S -> S -> Z).
Implicit Types (m : zmem S) (z : m_zskiplist S) (it : zitem S) (l pre post : list (zitem S)).

(** Releasing a node that is not in the list any more. *)
Lemma free_unlinked_ok z l x n :
  zsl_repr ({[x]} ∪ X) z l -> x ∉ X -> x ∉ zsl_header z :: (zi_loc <$> l) ->
  znodes (zsl_mem z) !! x = Some n ->
  ∃ z', free_node_of z x = Some (match member n with Some s => [s] | None => [] end, z') ∧
    zsl_header z' = zsl_header z ∧ zsl_level z' = zsl_level z ∧ zsl_repr X z' l.
Proof.
  intros Hz HX Hx Hn. unfold free_node_of, m_zslFreeNode, node_at. rewrite Hn. cbn [mbind option_bind].
  eexists. do 3 (split; [reflexivity|]). pose proof Hz as [].
  assert (∀ p i, p ≠ x -> filter (λ c : zloc * nat * zskiplistLevel, c.1.1 ≠ x)
    (zlevels (zsl_mem z)) !! (p, i) = zlevels (zsl_mem z) !! (p, i)) as Hf.
  { intros p i Hp. destruct (zlevels (zsl_mem z) !! (p, i)) as [c|] eqn:E.
    - by apply map_lookup_filter_Some.
    - apply map_lookup_filter_None. by left. }
  assert (zsl_header z ≠ x) as Hhx by (intros E; apply Hx; rewrite E; by left).
  split; cbn [zsl_level zsl_header zsl_tail zsl_length zsl_mem znodes zlevels]; try done.
  - intros i Hi A p h B ET Hh. rewrite Hf; [by apply (repr_levels i Hi A p h B)|].
    intros ->. apply Hx. rewrite <- (towers_fst z l). unfold towers.
    unfold towers in ET. cbn [zsl_header] in ET. rewrite ET, fmap_app. apply elem_of_app. right. by left.
  - intros i Hi. rewrite Hf by done. by apply repr_unused.
  - apply nodes_ok_delete; [|done]. intros Hin. apply Hx. by right.
  - by rewrite lookup_delete_ne by done.
  - rewrite dom_delete_L, repr_dom. apply set_eq. intros p.
    rewrite elem_of_difference, !elem_of_union, elem_of_singleton, elem_of_list_to_set.
    destruct (decide (p = x)) as [->|]; tauto.
Qed.

(** Unlinking and releasing the item behind a prefix. *)
Lemma delete_item_ok z pre it post ups :
  zsl_repr X z (pre ++ it :: post) -> zi_loc it ∉ X -> (zsl_level z <= length ups)%nat ->
  (∀ j u r, ups !! j = Some (u, r) -> upd_ok j (towers z pre) u r) ->
  ∃ z1 z', m_zslDeleteNode z (zi_loc it) ups = Some z1 ∧
    free_node_of z1 (zi_loc it) = Some ([zi_mem it], z') ∧ zsl_header z' = zsl_header z ∧
    zsl_repr X z' (pre ++ post) ∧ zsl_repr ({[zi_loc it]} ∪ X) z1 (pre ++ post) ∧
    (zsl_level z' <= zsl_level z)%nat.
Proof.
  intros Hz HX Hlen Hups.
  destruct (delete_node_ok z pre it post ups Hz Hlen Hups) as (z1 & E1 & Eh1 & Hz1 & Hn1 & HL1).
  assert (znodes (zsl_mem z) !! zi_loc it = Some (node_of it (zi_loc <$> last pre))) as Hnode.
  { rewrite (repr_nodes _ _ Hz (length pre) it) by apply lookup_middle_at. by rewrite prev_loc_last. }
  rewrite Hnode in Hn1.
  destruct (free_unlinked_ok z1 (pre ++ post) (zi_loc it) (node_of it (zi_loc <$> last pre)) Hz1 HX)
    as (z' & E' & Eh' & EL' & Hz'); [|exact Hn1|].
  { rewrite Eh1. pose proof (repr_nodup _ _ Hz) as Hnd.
    rewrite fmap_app, fmap_cons, <- Permutation_middle, <- fmap_app, Permutation_swap in Hnd.
    by apply NoDup_cons in Hnd as [? _]. }
  exists z1, z'. split_and!; [done|done|congruence|done|done|lia].
Qed.

End ops2.

(** ** The order of the items *)

(** [RedisModule_StringCompare] is a total order on the contents. *)
Class StringOrder {S : Type} (cmp : S -> S -> Z) : Prop := {
  cmp_refl a : cmp a a = 0;
  cmp_sym a b : cmp a b < 0 <-> 0 < cmp b a;
  cmp_trans a b c : cmp a b < 0 -> cmp b c < 0 -> cmp a c < 0;
  cmp_eq_l a b c : cmp a b = 0 -> Z.sgn (cmp a c) = Z.sgn (cmp b c)
}.

Section order.
Context {S : Type} (cmp : S -> S -> Z) {HS : StringOrder cmp}.
Implicit Types (z : m_zskiplist S) (it : zitem S) (l pre post : list (zitem S)).

Definition item_lt it1 it2 : Prop :=
  zi_score it1 < zi_score it2 ∨ zi_score it1 = zi_score it2 ∧ cmp (zi_mem it1) (zi_mem it2) < 0.

Definition item_eq it (sc : Z) (mem : S) : Prop := zi_score it = sc ∧ cmp (zi_mem it) mem = 0.

(** Strictly increasing: no two items have the same score and member. *)
Definition zsl_sorted l : Prop := StronglySorted item_lt l.

Definition item_before (sc : Z) (mem : S) it : bool :=
  (zi_score it <? sc) || ((zi_score it =? sc) && (cmp (zi_mem it) mem <? 0)).

Lemma item_before_spec sc mem it :
  item_before sc mem it = true <->
  zi_score it < sc ∨ zi_score it = sc ∧ cmp (zi_mem it) mem < 0.
Proof. unfold item_before. rewrite orb_true_iff, andb_true_iff. lia. Qed.

Lemma cmp_zero_sym a b : cmp a b = 0 -> cmp b a = 0.
Proof using HS. pose proof (cmp_sym a b). pose proof (cmp_sym b a). lia. Qed.

(** A sorted list falls into the items a downward-closed condition holds of,
    and the others. *)
Lemma sorted_partition (P : zitem S -> bool) l :
  (∀ x y, item_lt x y -> P y = true -> P x = true) -> zsl_sorted l ->
  ∃ pre post, l = pre ++ post ∧ Forall (λ it, P it = true) pre ∧ Forall (λ it, P it = false) post.
Proof.
  intros HP. induction 1 as [|it l Hs IH Hall]; [by exists [], []|].
  destruct (P it) eqn:E.
  - destruct IH as (pre & post & -> & Hpre & Hpost). exists (it :: pre), post.
    split_and!; [done|by constructor|done].
  - exists [], (it :: l). split_and!; [done|done|]. constructor; [done|].
    eapply Forall_impl; [exact Hall|]. intros y Hy. cbn in Hy.
    destruct (P y) eqn:Ey; [|done]. by rewrite (HP it y Hy Ey) in E.
Qed.

Lemma item_before_closed sc mem x y :
  item_lt x y -> item_before sc mem y = true -> item_before sc mem x = true.
Proof using HS.
  rewrite !item_before_spec. unfold item_lt.
  pose proof (cmp_trans (zi_mem x) (zi_mem y) mem). lia.
Qed.

(** From a partition of the items to the condition of a search. *)
Lemma adv_ok_items (adv : m_zskiplistNode S -> Z -> bool) (P : zitem S -> bool) pre post :
  (∀ n it r, member n = Some (zi_mem it) -> score n = zi_score it -> adv n r = P it) ->
  Forall (λ it, P it = true) pre -> Forall (λ it, P it = false) post ->
  adv_ok adv pre post.
Proof.
  intros Hadv Hpre Hpost k it n Hk Hm Hs. rewrite (Hadv n it _ Hm Hs).
  apply lookup_app_Some in Hk as [Hk|[Hle Hk]].
  - rewrite bool_decide_true by (by eapply lookup_lt_Some).
    by apply (Forall_lookup_1 _ _ _ _ Hpre Hk).
  - rewrite bool_decide_false by lia. by apply (Forall_lookup_1 _ _ _ _ Hpost Hk).
Qed.

Lemma before_item n it sc mem r :
  member n = Some (zi_mem it) -> score n = zi_score it ->
  before cmp sc mem n r = item_before sc mem it.
Proof. intros Hm Hs. unfold before, item_before, compare_member. by rewrite Hm, Hs. Qed.

Lemma sorted_app_inv l1 l2 :
  zsl_sorted (l1 ++ l2) -> zsl_sorted l1 ∧ zsl_sorted l2 ∧
    ∀ x y, x ∈ l1 -> y ∈ l2 -> item_lt x y.
Proof.
  induction l1 as [|it l1 IH]; cbn [app]; intros Hs.
  - split_and!; [constructor|done|]. by intros x y ?%elem_of_nil.
  - apply StronglySorted_inv in Hs as [Hs Hall]. destruct (IH Hs) as (H1 & H2 & H12).
    apply Forall_app in Hall as [Ha1 Ha2]. split_and!; [by constructor|done|].
    intros x y [->|Hx]%elem_of_cons Hy; [|by apply H12].
    rewrite Forall_forall in Ha2. by apply Ha2.
Qed.

Lemma sorted_app l1 l2 :
  zsl_sorted l1 -> zsl_sorted l2 -> (∀ x y, x ∈ l1 -> y ∈ l2 -> item_lt x y) -> zsl_sorted (l1 ++ l2).
Proof.
  induction 1 as [|it l1 Hs IH Hall]; intros H2 H12; [done|]. cbn. constructor.
  - apply IH; [done|]. intros x y Hx Hy. apply H12; [by right|done].
  - apply Forall_app. split; [done|]. apply Forall_forall. intros y Hy. apply H12; [by left|done].
Qed.

(** Putting a new key between the items before it and the others. *)
Lemma sorted_insert pre post it :
  zsl_sorted (pre ++ post) ->
  Forall (λ x, item_before (zi_score it) (zi_mem it) x = true) pre ->
  Forall (λ x, item_before (zi_score it) (zi_mem it) x = false) post ->
  Forall (λ x, ¬ item_eq x (zi_score it) (zi_mem it)) post ->
  zsl_sorted (pre ++ it :: post).
Proof using HS.
  intros Hs Hpre Hpost Hne. destruct (sorted_app_inv _ _ Hs) as (H1 & H2 & H12).
  rewrite !Forall_forall in *. apply sorted_app; [done| |].
  - constructor; [done|]. apply Forall_forall. intros y Hy.
    specialize (Hpost y Hy). specialize (Hne y Hy). unfold item_lt, item_eq in *.
    apply not_true_iff_false in Hpost. rewrite item_before_spec in Hpost.
    pose proof (cmp_sym (zi_mem it) (zi_mem y)).
    destruct (decide (zi_score it < zi_score y)); [by left|right].
    destruct (decide (cmp (zi_mem y) (zi_mem it) = 0)); [|lia].
    exfalso. apply Hne. split; [lia|done].
  - intros x y Hx [->|Hy]%elem_of_cons; [|by apply H12].
    specialize (Hpre x Hx). by apply item_before_spec in Hpre.
Qed.

Lemma sorted_remove pre it post : zsl_sorted (pre ++ it :: post) -> zsl_sorted (pre ++ post).
Proof.
  intros (H1 & H2 & H12)%sorted_app_inv. apply StronglySorted_inv in H2 as [H2 _].
  apply sorted_app; [done..|]. intros x y Hx Hy. apply H12; [done|by right].
Qed.

(** ** Searching for a key *)
Lemma search_key {X : gset zloc} z l sc mem :
  zsl_repr X z l -> zsl_sorted l ->
  ∃ pre post ups, l = pre ++ post ∧ adv_ok (before cmp sc mem) pre post ∧
    Forall (λ x, item_before sc mem x = true) pre ∧ Forall (λ x, item_before sc mem x = false) post ∧
    zsl_search z (before cmp sc mem) = Some ups ∧ length ups = zsl_level z ∧
    ∀ j u r, ups !! j = Some (u, r) -> upd_ok j (towers z pre) u r.
Proof using HS.
  intros Hz Hs.
  destruct (sorted_partition (item_before sc mem) l (item_before_closed sc mem) Hs)
    as (pre & post & -> & Hpre & Hpost).
  assert (adv_ok (before cmp sc mem) pre post) as Hadv.
  { apply (adv_ok_items _ (item_before sc mem)); [|done..]. intros. by apply before_item. }
  destruct (search_ok _ z pre post Hz Hadv) as (ups & E & Hlen & Hups).
  exists pre, post, ups. by split_and!.
Qed.

(** The head of the items behind the prefix is the only one that can match. *)
Lemma key_at_head pre it post sc mem x :
  zsl_sorted (pre ++ it :: post) ->
  Forall (λ x, item_before sc mem x = true) pre ->
  Forall (λ x, item_before sc mem x = false) (it :: post) ->
  x ∈ pre ++ it :: post -> item_eq x sc mem -> item_eq it sc mem.
Proof using HS.
  intros Hs Hpre Hpost Hx [Esc Ecmp]. apply elem_of_app in Hx as [Hx|[->|Hx]%elem_of_cons]; [|done|].
  - rewrite Forall_forall in Hpre. specialize (Hpre x Hx). rewrite item_before_spec in Hpre. lia.
  - apply sorted_app_inv in Hs as (_ & [_ Hall]%StronglySorted_inv & _).
    apply Forall_cons in Hpost as [Hit _]. apply not_true_iff_false in Hit.
    rewrite item_before_spec in Hit. rewrite Forall_forall in Hall.
    pose proof (Hall x Hx) as Hlt. unfold item_lt in Hlt.
    pose proof (cmp_eq_l (zi_mem x) mem (zi_mem it) Ecmp) as Es.
    pose proof (cmp_sym (zi_mem it) (zi_mem x)). pose proof (cmp_sym (zi_mem it) mem).
    assert (Z.sgn (cmp mem (zi_mem it)) = 1 -> cmp (zi_mem it) mem < 0) as Hsgn by lia.
    exfalso. destruct Hlt as [Hlt|[Hlt Hc]]; [lia|].
    apply Hit. right. split; [lia|]. apply Hsgn. rewrite <- Es. apply Z.sgn_pos. lia.
Qed.
End order.
