(* ===== verification/SkipListProps.v ===== *)
(** * SkipListProps: what the skip list promises

    Sorted insertion and deletion, ranges, ranks and release, as operations on
    the sorted list of items the memory of a skip list holds. *)

From Stdlib Require Import Sorting.Sorted.
From S2P Require Import Prelude.
From S2P Require Import SkipList.
From S2P Require Import SkipListInv.
From S2P Require Import SkipListSpec.
Local Open Scope Z_scope.

(** No more items than an [unsigned int] rank can count. *)
Definition ZSL_MAX : Z := 2 ^ 32 - 2.

(** ** Creation and release *)
Section create.
Context {S : Type}.

Lemma create_repr : zsl_repr ∅ (m_zslCreate (S := S)) [].
Proof.
  split; cbn [m_zslCreate m_zslCreateNode zsl_level zsl_header zsl_tail zsl_length zsl_mem znodes zlevels].
  - unfold ZSKIPLIST_MAXLEVEL. lia.
  - constructor.
  - by left.
  - apply NoDup_singleton.
  - intros i Hi A p h B E Hh. rewrite alloc_levels_lookup.
    destruct A as [|a A]; unfold towers in E; cbn in E; [|by destruct A].
    injection E as <- <- <-. by rewrite decide_True by done.
  - intros i Hi. rewrite alloc_levels_lookup, decide_True by (split; [done|lia]). by eexists.
  - by intros k it.
  - apply lookup_insert_eq.
  - rewrite dom_insert_L, dom_empty_L. by cbn [list_to_set fmap list_fmap].
  - done.
  - done.
  - simpl. lia.
Qed.

(** The chain at level 0 from any point on. *)
Lemma free_nodes_ok (m : zmem S) (l : list (zitem S)) fuel :
  (length l <= fuel)%nat -> NoDup (zi_loc <$> l) ->
  (∀ k it, l !! k = Some it -> ∃ b c, znodes m !! zi_loc it = Some (node_of it b) ∧
     zlevels m !! (zi_loc it, 0%nat) = Some c ∧ forward c = zi_loc <$> l !! Datatypes.S k) ->
  ∃ m', free_nodes fuel m (zi_loc <$> head l) = Some (zi_mem <$> l, m') ∧
    dom (znodes m') = dom (znodes m) ∖ list_to_set (zi_loc <$> l).
Proof.
  revert m l. induction fuel as [|fuel IH]; intros m l Hf Hnd Hok.
  { destruct l; [|simpl in Hf; lia]. exists m. split; [done|]. cbn. by rewrite difference_empty_L. }
  destruct l as [|it l]; [exists m; split; [done|]; cbn; by rewrite difference_empty_L|].
  cbn [head fmap option_fmap option_map free_nodes].
  destruct (Hok 0%nat it eq_refl) as (b & c & Hn & Hc & Hfw).
  unfold level_at. rewrite Hc. cbn [mbind option_bind]. unfold m_zslFreeNode, node_at. rewrite Hn.
  cbn [mbind option_bind member node_of]. rewrite Hfw.
  rewrite fmap_cons in Hnd. apply NoDup_cons in Hnd as [Hnot Hnd].
  set (m1 := ZMem (delete (zi_loc it) (znodes m)) (filter _ (zlevels m))).
  destruct (IH m1 l) as (m' & E & Hdom); [simpl in Hf; lia|done| |].
  { intros k it' Hk. destruct (Hok (Datatypes.S k) it' Hk) as (b' & c' & Hn' & Hc' & Hfw').
    assert (zi_loc it' ≠ zi_loc it) as Hne.
    { intros E. apply Hnot. rewrite <- E. apply list_elem_of_fmap. exists it'. split; [done|].
      by eapply list_elem_of_lookup_2. }
    exists b', c'. unfold m1. cbn [znodes zlevels]. rewrite lookup_delete_ne by done.
    split_and!; [done| |done]. by apply map_lookup_filter_Some. }
  replace (zi_loc <$> (it :: l) !! 1%nat) with (zi_loc <$> head l) by (by destruct l).
  rewrite E. cbn [mbind option_bind]. exists m'. split; [done|].
  rewrite Hdom. unfold m1. cbn [znodes]. rewrite dom_delete_L. cbn [fmap list_fmap list_to_set].
  by rewrite difference_difference_l_L.
Qed.
End create.

Section props.
Context {S : Type} (cmp : S -> S -> Z) {HS : StringOrder cmp}.
Implicit Types (z : m_zskiplist S) (it : zitem S) (l pre post : list (zitem S)).

Lemma random_level_ge fuel rand i k level : random_level_loop fuel rand i k = Some level -> (k <= level)%nat.
Proof.
  revert i k. induction fuel as [|fuel IH]; intros i k; cbn [random_level_loop]; [done|].
  destruct (_ <? _); [intros E%IH; lia|intros [= ->]; done].
Qed.

Lemma random_level_range fuel rand level :
  m_zslRandomLevel fuel rand = Some level -> (1 <= level <= ZSKIPLIST_MAXLEVEL)%nat.
Proof.
  unfold m_zslRandomLevel. destruct (random_level_loop fuel rand 0 1) as [k|] eqn:E; [|done].
  apply random_level_ge in E. cbn [mbind option_bind]. intros [= <-].
  unfold ZSKIPLIST_MAXLEVEL. case_decide; lia.
Qed.

(** ** Properties *)

Lemma zsl_insert_ok fuel rand level z l sc mem :
  zsl_repr ∅ z l -> zsl_sorted cmp l -> Z.of_nat (length l) < ZSL_MAX ->
  m_zslRandomLevel fuel rand = Some level ->
  Forall (λ it, ¬ item_eq cmp it sc mem) l ->
  ∃ z' n pre post, m_zslInsert cmp fuel rand z sc mem = Some (z', n) ∧ l = pre ++ post ∧
    (n ∉ dom (znodes (zsl_mem z))) ∧
    zsl_repr ∅ z' (pre ++ ZItem n level sc mem :: post) ∧
    zsl_sorted cmp (pre ++ ZItem n level sc mem :: post).
Proof using HS.
  intros Hz Hs Hroom Hlv Hne. unfold m_zslInsert. rewrite Hlv. cbn [mbind option_bind].
  destruct (search_key cmp z l sc mem Hz Hs) as (pre & post & ups & -> & Hadv & Hpre & Hpost & _).
  unfold ZSL_MAX in Hroom. apply Forall_app in Hne as [_ Hne].
  destruct (insert_at_ok cmp z pre post level sc mem Hz Hadv) as (z' & n & E & _ & Hn & Hz');
    [by eapply random_level_range|lia|].
  exists z', n, pre, post. split_and!; [done..|]. by apply sorted_insert.
Qed.

(** C14. [m_zslInsert] of a key that is not in the list: the memory then holds
    the same items with the new one at its place in the order, every span and
    pointer right at every level, in a node that was not in use. *)
Theorem m_zslInsert_spec fuel rand level z l sc mem :
  zsl_repr ∅ z l -> zsl_sorted cmp l -> Z.of_nat (length l) < ZSL_MAX ->
  m_zslRandomLevel fuel rand = Some level ->
  Forall (λ it, ¬ item_eq cmp it sc mem) l ->
  ∃ z' n pre post, m_zslInsert cmp fuel rand z sc mem = Some (z', n) ∧ l = pre ++ post ∧
    (n ∉ dom (znodes (zsl_mem z))) ∧
    zsl_repr ∅ z' (pre ++ ZItem n level sc mem :: post) ∧
    zsl_sorted cmp (pre ++ ZItem n level sc mem :: post).
Proof using HS. by apply zsl_insert_ok. Qed.

Lemma zsl_delete_ok z l sc mem :
  zsl_repr ∅ z l -> zsl_sorted cmp l ->
  (∃ pre it post z', l = pre ++ it :: post ∧ item_eq cmp it sc mem ∧
     m_zslDelete cmp z sc mem false = Some (1, [zi_mem it], None, z') ∧
     zsl_repr ∅ z' (pre ++ post) ∧ zsl_sorted cmp (pre ++ post)) ∨
  (Forall (λ it, ¬ item_eq cmp it sc mem) l ∧
   m_zslDelete cmp z sc mem false = Some (0, [], None, z)).
Proof using HS.
  intros Hz Hs. unfold m_zslDelete.
  destruct (search_key cmp z l sc mem Hz Hs) as (pre & post & ups & -> & Hadv & Hpre & Hpost & -> & Hlen & Hups).
  cbn [mbind option_bind]. rewrite (next_of_ok z pre post ups Hz Hlen Hups). cbn [mbind option_bind].
  destruct post as [|it post]; cbn [head fmap option_fmap option_map].
  { right. split; [|done]. rewrite app_nil_r. apply Forall_forall. intros x Hx [E1 E2].
    rewrite Forall_forall in Hpre. specialize (Hpre x Hx). rewrite item_before_spec in Hpre. lia. }
  unfold node_at. rewrite (repr_nodes _ _ Hz (length pre) it) by apply lookup_middle_at.
  cbn [mbind option_bind]. unfold compare_member. cbn [member fmap option_fmap option_map mbind option_bind score].
  destruct ((sc =? zi_score it) && (cmp (zi_mem it) mem =? 0)) eqn:Eq.
  - left. apply andb_true_iff in Eq as [E1%Z.eqb_eq E2%Z.eqb_eq].
    destruct (delete_item_ok z pre it post ups Hz) as (z1 & z' & -> & E & _ & Hz' & _);
      [by apply not_elem_of_empty|lia|done|].
    cbn [mbind option_bind]. rewrite E. cbn [mbind option_bind].
    exists pre, it, post, z'. split_and!; [done|by split|done|done|by eapply sorted_remove].
  - right. split; [|done]. apply Forall_forall. intros x Hx Hxe.
    destruct (key_at_head cmp pre it post sc mem x Hs Hpre Hpost Hx Hxe) as [E1 E2].
    apply andb_false_iff in Eq. lia.
Qed.

(** C20. [m_zslDelete] removes the item with the score and the member, and
    releases its string, once; without one it changes nothing and returns 0. *)
Theorem m_zslDelete_spec z l sc mem :
  zsl_repr ∅ z l -> zsl_sorted cmp l ->
  (∃ pre it post z', l = pre ++ it :: post ∧ item_eq cmp it sc mem ∧
     m_zslDelete cmp z sc mem false = Some (1, [zi_mem it], None, z') ∧
     zsl_repr ∅ z' (pre ++ post) ∧ zsl_sorted cmp (pre ++ post)) ∨
  (Forall (λ it, ¬ item_eq cmp it sc mem) l ∧
   m_zslDelete cmp z sc mem false = Some (0, [], None, z)).
Proof using HS. by apply zsl_delete_ok. Qed.

Lemma zsl_free_ok z l :
  zsl_repr ∅ z l ->
  ∃ m, m_zslFree z = Some (zi_mem <$> l, m) ∧ znodes m = ∅.
Proof.
  intros Hz. pose proof (repr_level _ _ Hz). unfold m_zslFree, level_at.
  pose proof (repr_heights _ _ Hz) as Hh. pose proof (repr_nodup _ _ Hz) as [Hhd Hnd]%NoDup_cons.
  rewrite (repr_levels _ _ Hz 0 ltac:(lia) [] (zsl_header z) ZSKIPLIST_MAXLEVEL (tower_of <$> l))
    by (done || unfold ZSKIPLIST_MAXLEVEL; lia).
  cbn [mbind option_bind]. unfold m_zslFreeNode, node_at. rewrite (repr_header _ _ Hz).
  cbn [mbind option_bind]. rewrite (fwd_head l _ Hh).
  set (m1 := ZMem (delete (zsl_header z) (znodes (zsl_mem z))) (filter _ (zlevels (zsl_mem z)))).
  destruct (free_nodes_ok m1 l (Z.to_nat (zsl_length z))) as (m' & E & Hdom).
  - rewrite (repr_length _ _ Hz). lia.
  - done.
  - intros k it Hk.
    assert (zi_loc it ≠ zsl_header z) as Hne.
    { apply (header_not_in (X := ∅) z l); [done|]. by eapply list_elem_of_lookup_2. }
    pose proof (Forall_lookup_1 _ _ _ _ Hh Hk) as Hhk. cbn in Hhk.
    apply list_elem_of_split_length in Hk as (l1 & l2 & El & Ek). rewrite El, Ek in *.
    exists (prev_loc (l1 ++ it :: l2) (length l1)), (fwd 0 (tower_of <$> l2)).
    unfold m1. cbn [znodes zlevels]. rewrite lookup_delete_ne by done. split_and!.
    + apply (repr_nodes _ _ Hz). apply lookup_middle_at.
    + apply map_lookup_filter_Some. split; [|done].
      apply (repr_levels _ _ Hz 0 ltac:(lia) ((zsl_header z, ZSKIPLIST_MAXLEVEL) :: (tower_of <$> l1))
        (zi_loc it) (zi_height it)); [|lia]. unfold towers. by rewrite fmap_app.
    + apply Forall_app in Hh as [_ [_ Hh]%Forall_cons]. rewrite (fwd_head l2 _ Hh).
      rewrite lookup_app_r by lia. replace (_ - _)%nat with 1%nat by lia. by destruct l2.
  - rewrite E. exists m'. split; [done|]. apply dom_empty_inv_L. rewrite Hdom.
    unfold m1. cbn [znodes]. rewrite dom_delete_L, (repr_dom _ _ Hz). apply set_eq. intros p.
    rewrite !elem_of_difference, elem_of_union, elem_of_singleton, !elem_of_list_to_set, elem_of_cons.
    split; [|by intros ?%not_elem_of_empty]. intros [[[[?|?]|?%not_elem_of_empty] ?] ?]; done.
Qed.

(** [m_zslFree] releases the string of every item exactly once, in the
    order of the list, and every node. *)
Theorem m_zslFree_spec z l :
  zsl_repr ∅ z l ->
  ∃ m, m_zslFree z = Some (zi_mem <$> l, m) ∧ znodes m = ∅.
Proof. apply zsl_free_ok. Qed.

(** The address at a 1-based position; position 0 is the header. *)
Definition last_loc z l : zloc := match zi_loc <$> last l with Some p => p | None => zsl_header z end.

Lemma towers_last z pre A u h : towers z pre = A ++ [(u, h)] -> u = last_loc z pre.
Proof.
  unfold last_loc, towers. destruct pre as [|it pre _] using rev_ind; intros E.
  - destruct A; [by injection E as ->|]. injection E as _ E. by destruct A.
  - rewrite last_snoc. cbn. rewrite fmap_app in E. cbn in E.
    rewrite app_comm_cons in E. apply app_inj_tail in E as [_ E]. by injection E as -> _.
Qed.

Lemma rank_descend_ok fuel z pre post rank i x h A B :
  zsl_repr ∅ z (pre ++ post) -> Z.of_nat (length pre) <= rank ->
  adv_ok (λ _ traversed, traversed <=? rank) pre post ->
  (i <= zsl_level z)%nat -> towers z pre = A ++ (x, h) :: B -> (i <= h)%nat ->
  (length pre <= fuel)%nat -> (i = 0%nat -> Z.of_nat (length pre) ≠ rank) ->
  rank_descend fuel (zsl_mem z) rank i x (Z.of_nat (length A)) =
  Some (if decide (Z.of_nat (length pre) = rank) then Some (last_loc z pre) else None).
Proof.
  intros Hz Hr Hadv. revert x h A B. induction i as [|i IH]; intros x h A B Hi E Hh Hf H0;
    cbn [rank_descend]; [by rewrite decide_False by auto|].
  assert (∀ A' B' t, towers z pre = A' ++ t :: B' -> length A' + length B' = length pre)%nat as Hlen.
  { intros A' B' t E'. apply (f_equal length) in E'. unfold towers in E'. cbn [length] in E'.
    rewrite length_fmap, length_app in E'. cbn [length] in E'. lia. }
  pose proof (Hlen _ _ _ E) as HB.
  destruct (walk_ok fuel _ z pre post i A x h B Hz Hadv Hi E Hh ltac:(lia)) as (x' & r' & -> & Hu).
  cbn [mbind option_bind]. pose proof Hu as (h' & A' & B' & E' & Hh' & _ & ->).
  pose proof (Hlen _ _ _ E') as HB'. destruct (Z.eqb_spec (Z.of_nat (length A')) rank) as [Er|Er].
  - destruct B'; [|cbn [length] in HB'; lia]. rewrite decide_True by (cbn [length] in HB'; lia).
    do 2 f_equal. by eapply towers_last.
  - eapply IH; [lia|done|lia|done|]. intros ->.
    destruct (upd_ok_0 z pre post _ _ Hz Hu) as [<- _]. done.
Qed.

(** [m_zslGetElementByRank] is access by 1-based position: the spans add up
    to the distances, at every height of every node.  Rank 0 is the header. *)
Theorem m_zslGetElementByRank_spec z l rank :
  zsl_repr ∅ z l -> 0 <= rank ->
  m_zslGetElementByRank z rank =
  Some (if decide (rank = 0) then Some (zsl_header z) else zi_loc <$> l !! Z.to_nat (rank - 1)).
Proof.
  intros Hz Hr. pose proof (repr_level _ _ Hz). unfold m_zslGetElementByRank.
  set (k := Z.to_nat rank). rewrite <- (take_drop k l) in Hz.
  assert (length (take k l) = k `min` length l)%nat as Hk by apply length_take.
  rewrite (repr_length _ _ Hz), Nat2Z.id, take_drop.
  erewrite (rank_descend_ok _ z (take k l) (drop k l) rank _ _ ZSKIPLIST_MAXLEVEL []); try done;
    [|lia| |lia|lia|lia].
  - f_equal. unfold last_loc. case_decide as E; case_decide as E'.
    + by replace k with 0%nat by lia.
    + rewrite last_lookup, Hk, lookup_take_lt by lia. replace (k `min` length l)%nat with k by lia.
      replace (Nat.pred k) with (Z.to_nat (rank - 1)) by lia.
      destruct (lookup_lt_is_Some_2 l (Z.to_nat (rank - 1))) as [it ->]; [lia|]. done.
    + exfalso. lia.
    + rewrite (lookup_ge_None_2 l) by lia. done.
  - intros j it n Hj _ _. apply lookup_lt_Some in Hj. rewrite take_drop in Hj.
    rewrite Hk. destruct (Z.leb_spec (Z.of_nat j + 1) rank);
      [rewrite bool_decide_true|rewrite bool_decide_false]; (done || lia).
Qed.
End props.
