(* ===== verification/SkipListRange.v ===== *)
(** * SkipListRange: ranges of a skip list

    The first and the last item of a score range, the deletion of a range of
    scores or of ranks, and the change of a score, as operations on the sorted
    list of items. *)

From S2P Require Import Prelude.
From S2P Require Import SkipList.
From S2P Require Import SkipListInv.
From S2P Require Import SkipListSpec.
From S2P Require Import SkipListProps.
Local Open Scope Z_scope.

(** ** Lists split by a condition *)
Section filters.
Context {A : Type} (P : A -> Prop) `{!∀ x, Decision (P x)}.

Lemma filter_none l : Forall (λ x, ¬ P x) l -> filter P l = [].
Proof. induction 1 as [|x l Hx _ IH]; [done|]. by rewrite filter_cons_False. Qed.

Lemma filter_all l : Forall P l -> filter P l = l.
Proof. induction 1 as [|x l Hx _ IH]; [done|]. by rewrite filter_cons_True, IH. Qed.
End filters.

Section range.
Context {S : Type} (cmp : S -> S -> Z) {HS : StringOrder cmp}.
Implicit Types (z : m_zskiplist S) (it : zitem S) (l pre post mid : list (zitem S)).

(** What a range promises. *)
Definition in_range (r : m_zrangespec) it : bool :=
  m_zslValueGteMin (zi_score it) r && m_zslValueLteMax (zi_score it) r.

Definition inside (r : m_zrangespec) it : Prop := in_range r it = true.
#[export] Instance inside_dec r it : Decision (inside r it).
Proof. unfold inside. apply _. Defined.

Definition below (r : m_zrangespec) it : bool := negb (m_zslValueGteMin (zi_score it) r).
Definition upto (r : m_zrangespec) it : bool := m_zslValueLteMax (zi_score it) r.

Lemma item_lt_score x y : item_lt cmp x y -> zi_score x <= zi_score y.
Proof. unfold item_lt. lia. Qed.

Lemma gte_min_mono r a b : a <= b -> m_zslValueGteMin a r = true -> m_zslValueGteMin b r = true.
Proof. unfold m_zslValueGteMin. destruct (minex r); lia. Qed.

Lemma lte_max_mono r a b : a <= b -> m_zslValueLteMax b r = true -> m_zslValueLteMax a r = true.
Proof. unfold m_zslValueLteMax. destruct (maxex r); lia. Qed.

Lemma below_closed r x y : item_lt cmp x y -> below r y = true -> below r x = true.
Proof.
  unfold below. intros Hlt%item_lt_score. rewrite !negb_true_iff.
  destruct (m_zslValueGteMin (zi_score x) r) eqn:E; [|done].
  by rewrite (gte_min_mono r _ _ Hlt E).
Qed.

Lemma upto_closed r x y : item_lt cmp x y -> upto r y = true -> upto r x = true.
Proof. intros Hlt%item_lt_score. by apply lte_max_mono. Qed.

Lemma sorted_head_le it l x : zsl_sorted cmp (it :: l) -> x ∈ it :: l -> zi_score it <= zi_score x.
Proof.
  intros Hs [->|Hx]%elem_of_cons; [done|]. apply item_lt_score.
  apply (sorted_app_inv cmp [it] l) in Hs as (_ & _ & Hlt). apply Hlt; [by left|done].
Qed.

Lemma sorted_last_le l it x : zsl_sorted cmp (l ++ [it]) -> x ∈ l ++ [it] -> zi_score x <= zi_score it.
Proof.
  intros Hs [Hx|Hx%list_elem_of_singleton]%elem_of_app; [|by subst]. apply item_lt_score.
  apply (sorted_app_inv cmp l [it]) in Hs as (_ & _ & Hlt). apply Hlt; [done|by left].
Qed.

(** ** Single accesses *)
Lemma item_next {X} z pre it post :
  zsl_repr X z (pre ++ it :: post) ->
  ∃ c, level_at (zsl_mem z) (zi_loc it) 0 = Some c ∧ forward c = zi_loc <$> head post.
Proof.
  intros Hz. pose proof (repr_level _ _ Hz).
  pose proof (repr_heights _ _ Hz) as [_ [Hit Hpost]%Forall_cons]%Forall_app.
  eexists. split.
  - apply (repr_levels _ _ Hz 0 ltac:(lia) ((zsl_header z, ZSKIPLIST_MAXLEVEL) :: (tower_of <$> pre))
      (zi_loc it) (zi_height it)); [|lia]. unfold towers. by rewrite fmap_app.
  - by apply (fwd_head post (zsl_level z)).
Qed.

Lemma header_next {X} z l :
  zsl_repr X z l ->
  ∃ c, level_at (zsl_mem z) (zsl_header z) 0 = Some c ∧ forward c = zi_loc <$> head l.
Proof.
  intros Hz. pose proof (repr_level _ _ Hz). eexists. split.
  - apply (repr_levels _ _ Hz 0 ltac:(lia) [] (zsl_header z) ZSKIPLIST_MAXLEVEL (tower_of <$> l));
      [done|unfold ZSKIPLIST_MAXLEVEL; lia].
  - apply (fwd_head l (zsl_level z)). apply (repr_heights _ _ Hz).
Qed.

Lemma item_node {X} z pre it post :
  zsl_repr X z (pre ++ it :: post) ->
  node_at (zsl_mem z) (zi_loc it) = Some (node_of it (zi_loc <$> last pre)).
Proof.
  intros Hz. unfold node_at. rewrite (repr_nodes _ _ Hz (length pre) it) by apply lookup_middle_at.
  by rewrite prev_loc_last.
Qed.

(** [zslIsInRange] says no only when the range is empty in the list, and yes
    only when neither bound excludes all of it. *)
Lemma zslIsInRange_ok {X} z l r :
  zsl_repr X z l -> zsl_sorted cmp l ->
  (zslIsInRange z r = Some false ∧ Forall (λ it, ¬ inside r it) l) ∨
  (zslIsInRange z r = Some true ∧
   ∃ a la, head l = Some a ∧ last l = Some la ∧
     m_zslValueGteMin (zi_score la) r = true ∧ m_zslValueLteMax (zi_score a) r = true).
Proof using HS.
  intros Hz Hs. unfold zslIsInRange. destruct ((_ <? _) || _) eqn:Hempty.
  { left. split; [done|]. apply Forall_forall. intros x _. unfold inside, in_range.
    unfold m_zslValueGteMin, m_zslValueLteMax. destruct (minex r), (maxex r); simpl in *; lia. }
  rewrite (repr_tail _ _ Hz). destruct l as [|la l _] using rev_ind.
  { left. by split. }
  rewrite last_snoc. cbn [fmap option_fmap option_map].
  rewrite (item_node z l la []) by done. cbn [mbind option_bind node_of score].
  destruct (m_zslValueGteMin (zi_score la) r) eqn:Hmin; cbn [negb].
  2:{ left. split; [done|]. apply Forall_forall. intros x Hx. unfold inside, in_range.
      pose proof (sorted_last_le l la x Hs Hx) as Hle.
      destruct (m_zslValueGteMin (zi_score x) r) eqn:E; [|done].
      by rewrite (gte_min_mono r _ _ Hle E) in Hmin. }
  destruct (header_next z _ Hz) as (c & -> & Hc). cbn [mbind option_bind]. rewrite Hc.
  destruct (l ++ [la]) as [|a l'] eqn:El; [by destruct l|]. cbn [head fmap option_fmap option_map].
  rewrite (item_node z [] a l') by done. cbn [mbind option_bind node_of score].
  destruct (m_zslValueLteMax (zi_score a) r) eqn:Hmax.
  - right. split; [done|]. exists a, la. by split_and!.
  - left. split; [done|]. apply Forall_forall. intros x Hx. unfold inside, in_range.
    pose proof (sorted_head_le a l' x Hs Hx) as Hle. rewrite andb_true_iff. intros [_ E].
    by rewrite (lte_max_mono r _ _ Hle E) in Hmax.
Qed.

(** A search by score alone. *)
Lemma search_score {X} z l (P : zitem S -> bool) (adv : m_zskiplistNode S -> Z -> bool) :
  zsl_repr X z l -> zsl_sorted cmp l ->
  (∀ x y, item_lt cmp x y -> P y = true -> P x = true) ->
  (∀ n it r, score n = zi_score it -> adv n r = P it) ->
  ∃ pre post ups, l = pre ++ post ∧
    Forall (λ it, P it = true) pre ∧ Forall (λ it, P it = false) post ∧
    zsl_search z adv = Some ups ∧ length ups = zsl_level z ∧
    ∀ j u r, ups !! j = Some (u, r) -> upd_ok j (towers z pre) u r.
Proof using HS.
  intros Hz Hs Hclosed Hadv.
  destruct (sorted_partition cmp P l Hclosed Hs) as (pre & post & -> & Hpre & Hpost).
  destruct (search_ok adv z pre post Hz) as (ups & E & Hlen & Hups).
  { apply (adv_ok_items adv P); [|done..]. intros n it r _. apply Hadv. }
  exists pre, post, ups. by split_and!.
Qed.

(** ** Properties *)

(** [m_zslFirstInRange] finds the first item whose score is in the range,
    or [NULL] when there is none; its [assert] holds. *)
Theorem m_zslFirstInRange_spec z l r :
  zsl_repr ∅ z l -> zsl_sorted cmp l ->
  m_zslFirstInRange z r = Some (zi_loc <$> head (filter (inside r) l)).
Proof using HS.
  intros Hz Hs. unfold m_zslFirstInRange.
  destruct (zslIsInRange_ok z l r Hz Hs) as [[-> Hno]|(-> & a & la & _ & Hla & Hmin & _)];
    cbn [mbind option_bind negb]; [by rewrite filter_none|].
  destruct (search_score z l (below r) (λ n _, negb (m_zslValueGteMin (score n) r)) Hz Hs
      (below_closed r) ltac:(intros n it rk E; cbv beta; rewrite E; reflexivity))
    as (pre & post & ups & -> & Hpre & Hpost & -> & Hlen & Hups).
  cbn [mbind option_bind]. rewrite (next_of_ok z pre post ups Hz Hlen Hups). cbn [mbind option_bind].
  destruct post as [|it post]; cbn [head fmap option_fmap option_map mbind option_bind].
  { exfalso. rewrite app_nil_r in Hla. apply last_Some_elem_of in Hla.
    rewrite Forall_forall in Hpre. specialize (Hpre la Hla). unfold below in Hpre. by rewrite Hmin in Hpre. }
  rewrite (item_node z pre it post Hz). cbn [mbind option_bind node_of score].
  rewrite filter_app, (filter_none _ pre).
  2:{ eapply Forall_impl; [exact Hpre|]. unfold below, inside, in_range. intros x Hx%negb_true_iff.
      by rewrite Hx. }
  apply sorted_app_inv in Hs as (_ & Hs & _). cbn [app].
  apply Forall_cons in Hpost as [Hit _]. unfold below in Hit. apply negb_false_iff in Hit.
  destruct (m_zslValueLteMax (zi_score it) r) eqn:Hmax; cbn [negb].
  - rewrite filter_cons_True by (unfold inside, in_range; by rewrite Hit, Hmax). done.
  - rewrite filter_none; [done|]. apply Forall_forall. intros x Hx. unfold inside, in_range.
    pose proof (sorted_head_le it post x Hs Hx) as Hle. rewrite andb_true_iff. intros [_ E].
    by rewrite (lte_max_mono r _ _ Hle E) in Hmax.
Qed.

(** [m_zslLastInRange] finds the last item whose score is in the range,
    or [NULL] when there is none; it never takes the header for an item. *)
Theorem m_zslLastInRange_spec z l r :
  zsl_repr ∅ z l -> zsl_sorted cmp l ->
  m_zslLastInRange z r = Some (zi_loc <$> last (filter (inside r) l)).
Proof using HS.
  intros Hz Hs. unfold m_zslLastInRange.
  destruct (zslIsInRange_ok z l r Hz Hs) as [[-> Hno]|(-> & a & la & Ha & _ & _ & Hmax)];
    cbn [mbind option_bind negb]; [by rewrite filter_none|].
  destruct (search_score z l (upto r) (λ n _, m_zslValueLteMax (score n) r) Hz Hs
      (upto_closed r) ltac:(intros n it rk E; cbv beta; rewrite E; reflexivity))
    as (pre & post & ups & -> & Hpre & Hpost & -> & Hlen & Hups).
  cbn [mbind option_bind]. pose proof (repr_level _ _ Hz).
  destruct (lookup_lt_is_Some_2 ups 0) as [[u rk] Hu]; [lia|]. rewrite Hu. cbn [mbind option_bind].
  destruct (upd_ok_0 z pre post u rk Hz (Hups _ _ _ Hu)) as [_ ->].
  destruct pre as [|it pre _] using rev_ind.
  { exfalso. destruct post as [|b post]; cbn in Ha; [done|]. injection Ha as ->.
    apply Forall_cons in Hpost as [Hb _]. unfold upto in Hb. by rewrite Hmax in Hb. }
  rewrite last_snoc. cbn [fmap option_fmap option_map]. rewrite <- app_assoc in Hz. cbn [app] in Hz.
  rewrite (item_node z pre it post Hz). cbn [mbind option_bind node_of score].
  apply sorted_app_inv in Hs as (Hs & _ & _).
  rewrite filter_app, (filter_none _ post), app_nil_r.
  2:{ eapply Forall_impl; [exact Hpost|]. unfold upto, inside, in_range. intros x ->.
      by rewrite andb_false_r. }
  apply Forall_app in Hpre as [_ [Hit _]%Forall_cons]. unfold upto in Hit.
  destruct (m_zslValueGteMin (zi_score it) r) eqn:Hmin; cbn [negb].
  - rewrite filter_app, filter_cons_True by (unfold inside, in_range; by rewrite Hit, Hmin).
    by rewrite filter_nil, last_snoc.
  - rewrite filter_none; [done|]. apply Forall_forall. intros x Hx. unfold inside, in_range.
    pose proof (sorted_last_le pre it x Hs Hx) as Hle.
    destruct (m_zslValueGteMin (zi_score x) r) eqn:E; [|done].
    by rewrite (gte_min_mono r _ _ Hle E) in Hmin.
Qed.
End range.
