(* ===== verification/SkipListUpdate.v ===== *)
(** * SkipListUpdate: range deletions and the change of a score

    Deleting a range of scores or of ranks keeps the rest of the list; a change
    of score keeps the list sorted, in place when the neighbours allow it. *)

From S2P Require Import Prelude.
From S2P Require Import SkipList.
From S2P Require Import SkipListInv.
From S2P Require Import SkipListSpec.
From S2P Require Import SkipListProps.
From S2P Require Import SkipListRange.
Local Open Scope Z_scope.

Section delete.
Context {S : Type} (cmp : S -> S -> Z) {HS : StringOrder cmp}.
Implicit Types (z : m_zskiplist S) (it : zitem S) (l pre post mid rest : list (zitem S)).

(** [more] holds on the nodes of [mid] and not on the first one behind. *)
Definition more_ok (more : m_zskiplistNode S -> Z -> bool) (t : Z) mid rest : Prop :=
  (∀ k it n, mid !! k = Some it -> score n = zi_score it -> more n (t + Z.of_nat k) = true) ∧
  (∀ it n, head rest = Some it -> score n = zi_score it -> more n (t + Z.of_nat (length mid)) = false).

Lemma more_ok_tail more t it mid rest :
  more_ok more t (it :: mid) rest -> more_ok more (t + 1) mid rest.
Proof.
  intros [H1 H2]. split.
  - intros k it' n Hk Hn. rewrite <- (H1 (Datatypes.S k) it' n Hk Hn). f_equal. lia.
  - intros it' n Hh Hn. rewrite <- (H2 it' n Hh Hn). f_equal. cbn [length]. lia.
Qed.

Lemma delete_while_stop fuel z pre rest ups more t removed :
  zsl_repr ∅ z (pre ++ rest) -> more_ok more t [] rest ->
  delete_while fuel z (zi_loc <$> head rest) ups more t removed = Some (removed, [], z).
Proof.
  intros Hz [_ Hstop]. destruct rest as [|it rest]; [by destruct fuel|].
  cbn [length] in Hstop. rewrite Z.add_0_r in Hstop. cbn [head fmap option_fmap option_map].
  destruct fuel; cbn [delete_while]; rewrite (item_node z pre it rest Hz); cbn [mbind option_bind];
    by rewrite (Hstop it (node_of it (zi_loc <$> last pre)) eq_refl eq_refl).
Qed.

Lemma delete_while_ok fuel z pre mid rest ups more t removed :
  zsl_repr ∅ z (pre ++ mid ++ rest) -> (zsl_level z <= length ups)%nat ->
  (∀ j u r, ups !! j = Some (u, r) -> upd_ok j (towers z pre) u r) ->
  more_ok more t mid rest -> (length mid <= fuel)%nat ->
  0 <= removed -> removed + Z.of_nat (length mid) < 2 ^ 64 ->
  ∃ z', delete_while fuel z (zi_loc <$> head (mid ++ rest)) ups more t removed =
      Some (removed + Z.of_nat (length mid), zi_mem <$> mid, z') ∧
    zsl_repr ∅ z' (pre ++ rest).
Proof.
  revert z mid t removed. induction fuel as [|fuel IH];
    intros z mid t removed Hz Hlen Hups Hmore Hf Hr0 Hr.
  all: destruct mid as [|it mid];
    [exists z; cbn [app length fmap list_fmap]; rewrite Z.add_0_r; split; [|done];
     by apply (delete_while_stop _ z pre)|cbn [length] in Hf; try lia].
  cbn [app head fmap option_fmap option_map delete_while].
  rewrite (item_node z pre it (mid ++ rest) Hz). cbn [mbind option_bind].
  pose proof (proj1 Hmore 0%nat it (node_of it (zi_loc <$> last pre)) eq_refl eq_refl) as Hm.
  rewrite Z.add_0_r in Hm. rewrite Hm.
  destruct (item_next z pre it (mid ++ rest) Hz) as (c & -> & Hc). cbn [mbind option_bind].
  destruct (delete_item_ok z pre it (mid ++ rest) ups Hz) as (z1 & z' & -> & E & Hhd & Hz' & _ & Hlv);
    [by apply not_elem_of_empty|done|done|].
  cbn [mbind option_bind]. rewrite E. cbn [mbind option_bind]. rewrite Hc.
  cbn [length] in Hr. rewrite u64_small by lia.
  destruct (IH z' mid (t + 1) (removed + 1)) as (z'' & -> & Hz''); [done|lia| |by eapply more_ok_tail|lia..|].
  { intros j u rk Hj. apply Hups in Hj. unfold towers. by rewrite Hhd. }
  cbn [mbind option_bind]. exists z''. split; [|done]. do 3 f_equal. cbn [length]. lia.
Qed.

(** A sorted list cut by its scores. *)
Lemma range_cut l r :
  zsl_sorted cmp l ->
  ∃ mid rest, l = mid ++ rest ∧ Forall (λ it, upto r it = true) mid ∧
    Forall (λ it, upto r it = false) rest.
Proof using HS. apply sorted_partition. by apply upto_closed. Qed.

(** ** Properties *)

(** [m_zslDeleteRangeByScore] takes out exactly the items whose score is in
    the range, releases their strings in order, and returns how many. *)
Theorem m_zslDeleteRangeByScore_spec z l r :
  zsl_repr ∅ z l -> zsl_sorted cmp l ->
  ∃ z', m_zslDeleteRangeByScore z r =
      Some (Z.of_nat (length (filter (inside r) l)), zi_mem <$> filter (inside r) l, z') ∧
    zsl_repr ∅ z' (filter (λ it, ¬ inside r it) l).
Proof using HS.
  intros Hz Hs. unfold m_zslDeleteRangeByScore.
  destruct (search_score cmp z l (below r)
    (λ n _, if minex r then score n <=? min r else score n <? min r) Hz Hs (below_closed cmp r))
    as (pre & post & ups & -> & Hpre & Hpost & -> & Hlen & Hups).
  { intros n it rk E. rewrite E. unfold below, m_zslValueGteMin. destruct (minex r); lia. }
  cbn [mbind option_bind]. rewrite (next_of_ok z pre post ups Hz Hlen Hups). cbn [mbind option_bind].
  destruct (sorted_app_inv cmp _ _ Hs) as (_ & Hs2 & _).
  destruct (range_cut post r Hs2) as (mid & rest & -> & Hmid & Hrest).
  pose proof (repr_small _ _ Hz) as Hsm. rewrite (repr_length _ _ Hz), Nat2Z.id.
  rewrite !length_app in Hsm |- *. apply Forall_app in Hpost as [Hpm Hpr].
  destruct (delete_while_ok (length pre + (length mid + length rest)) z pre mid rest ups
    (λ n _, if maxex r then score n <? max r else score n <=? max r) 0 0) as (z' & -> & Hz');
    [done|lia|done| |lia..|].
  - split.
    + intros k it n Hk E. rewrite E. by apply (Forall_lookup_1 _ _ _ _ Hmid Hk).
    + intros it n Hh E. rewrite E. apply head_Some_elem_of in Hh. rewrite Forall_forall in Hrest.
      by apply Hrest.
  - assert (filter (inside r) (pre ++ mid ++ rest) = mid ∧
      filter (λ it, ¬ inside r it) (pre ++ mid ++ rest) = pre ++ rest) as [-> ->]; [|by exists z'].
    assert (Forall (λ it, ¬ inside r it) pre) as H1.
    { eapply Forall_impl; [exact Hpre|]. unfold below, inside, in_range. intros x Hx%negb_true_iff.
      by rewrite Hx. }
    assert (Forall (inside r) mid) as H2.
    { apply Forall_forall. intros x Hx. rewrite Forall_forall in Hmid, Hpm.
      specialize (Hmid x Hx). specialize (Hpm x Hx). unfold below in Hpm. apply negb_false_iff in Hpm.
      unfold upto in Hmid. unfold inside, in_range. by rewrite Hmid, Hpm. }
    assert (Forall (λ it, ¬ inside r it) rest) as H3.
    { eapply Forall_impl; [exact Hrest|]. unfold upto, inside, in_range. intros x ->.
      by rewrite andb_false_r. }
    assert (Forall (λ it, ¬ ¬ inside r it) mid) as H2'.
    { eapply Forall_impl; [exact H2|]. cbv beta. tauto. }
    rewrite !filter_app. rewrite (filter_none _ pre H1), (filter_all _ mid H2), (filter_none _ rest H3).
    rewrite (filter_all _ pre H1), (filter_none _ mid H2'), (filter_all _ rest H3).
    by rewrite app_nil_r.
Qed.

(** [m_zslDeleteRangeByRank] takes out the items at the 1-based positions
    from [start] to [last], both included, and returns how many. *)
Theorem m_zslDeleteRangeByRank_spec z l start last :
  zsl_repr ∅ z l -> 0 <= start -> 0 <= last ->
  let k := Z.to_nat (start - 1) in
  let mid := take (Z.to_nat last - k) (drop k l) in
  ∃ z', m_zslDeleteRangeByRank z start last =
      Some (Z.of_nat (length mid), zi_mem <$> mid, z') ∧
    zsl_repr ∅ z' (take k l ++ drop (Z.to_nat last - k) (drop k l)).
Proof.
  intros Hz Hst Hla k mid. unfold m_zslDeleteRangeByRank.
  pose proof (repr_small _ _ Hz) as Hsm. rewrite (repr_length _ _ Hz), Nat2Z.id.
  pose proof (repr_level _ _ Hz) as Hlv.
  set (pre := take k l). set (post := drop k l). assert (l = pre ++ post) as El by (symmetry; apply take_drop).
  assert (length pre = k `min` length l)%nat as Hk by apply length_take.
  rewrite El in Hz. destruct (search_ok (λ _ traversed, traversed <? start) z pre post Hz)
    as (ups & -> & Hlen & Hups).
  { intros j it n Hj _ _. apply lookup_lt_Some in Hj. rewrite <- El in Hj. rewrite Hk.
    destruct (Z.ltb_spec (Z.of_nat j + 1) start);
      [rewrite bool_decide_true|rewrite bool_decide_false]; (done || lia). }
  cbn [mbind option_bind]. destruct (lookup_lt_is_Some_2 ups 0) as [[u rk] Hu]; [lia|].
  rewrite (next_of_ok z pre post ups Hz Hlen Hups), Hu. cbn [mbind option_bind].
  destruct (upd_ok_0 z pre post u rk Hz (Hups _ _ _ Hu)) as [-> _].
  set (rest := drop (Z.to_nat last - k) post). assert (post = mid ++ rest) as Ep by (symmetry; apply take_drop).
  assert (length mid = (Z.to_nat last - k) `min` length post)%nat as Hm by apply length_take.
  assert (length post = length l - k)%nat as Hp by apply length_drop.
  rewrite Ep in Hz |- *.
  destruct (delete_while_ok (length l) z pre mid rest ups (λ _ traversed, traversed <=? last)
    (Z.of_nat (length pre) + 1) 0) as (z' & E & Hz'); [done|lia|done| |lia..|].
  - split.
    + intros j it n Hj _. apply lookup_lt_Some in Hj. lia.
    + intros it n Hh _. apply head_Some_elem_of, list_elem_of_lookup in Hh as [j Hj].
      apply lookup_lt_Some in Hj. unfold rest in Hj. rewrite length_drop in Hj. lia.
  - exists z'. split; [|done]. rewrite E. done.
Qed.
End delete.

Section update.
Context {S : Type} (cmp : S -> S -> Z) {HS : StringOrder cmp}.
Implicit Types (z : m_zskiplist S) (it : zitem S) (l pre post : list (zitem S)).

Definition with_mem z (m : zmem S) : m_zskiplist S :=
  Zsl (zsl_header z) (zsl_tail z) (zsl_length z) (zsl_level z) m.

Definition rescored it (sc : Z) : zitem S := ZItem (zi_loc it) (zi_height it) sc (zi_mem it).

(** A node out of the list may be overwritten. *)
Lemma store_unlinked_ok {X} z l x n :
  zsl_repr ({[x]} ∪ X) z l -> x ∉ zsl_header z :: (zi_loc <$> l) ->
  ∃ m, store_node (zsl_mem z) x n = Some m ∧ znodes m !! x = Some n ∧
    zsl_repr ({[x]} ∪ X) (with_mem z m) l.
Proof.
  intros Hz Hx. pose proof Hz as []. unfold store_node, node_at.
  assert (x ∈ dom (znodes (zsl_mem z))) as Hd.
  { rewrite repr_dom, !elem_of_union, elem_of_singleton. tauto. }
  apply elem_of_dom in Hd as [n0 Hn0]. rewrite Hn0. cbn [mbind option_bind].
  eexists. split; [reflexivity|]. cbn [znodes]. split; [by rewrite lookup_insert_eq|].
  apply not_elem_of_cons in Hx as [Hxh Hxl].
  split; cbn [with_mem zsl_level zsl_header zsl_tail zsl_length zsl_mem znodes zlevels]; try done.
  - intros k it Hk. rewrite lookup_insert_ne; [by apply repr_nodes|]. intros ->. apply Hxl.
    apply list_elem_of_fmap. exists it. split; [done|]. by eapply list_elem_of_lookup_2.
  - by rewrite lookup_insert_ne by done.
  - rewrite dom_insert_lookup_L by done. done.
Qed.

(** A score changed in place. *)
Lemma rescore_ok {X} z pre it post sc :
  zsl_repr X z (pre ++ it :: post) ->
  ∃ m, store_node (zsl_mem z) (zi_loc it) (ZNode (Some (zi_mem it)) sc (zi_loc <$> last pre)) = Some m ∧
    zsl_repr X (with_mem z m) (pre ++ rescored it sc :: post).
Proof.
  intros Hz. pose proof (item_node z pre it post Hz) as Hn. pose proof Hz as [].
  unfold store_node. rewrite Hn. cbn [mbind option_bind]. eexists. split; [reflexivity|].
  assert (zi_loc <$> (pre ++ rescored it sc :: post) = zi_loc <$> (pre ++ it :: post)) as El
    by (by rewrite !fmap_app).
  assert (tower_of <$> (pre ++ rescored it sc :: post) = tower_of <$> (pre ++ it :: post)) as Et
    by (by rewrite !fmap_app).
  assert (∀ k, prev_loc (pre ++ rescored it sc :: post) k = prev_loc (pre ++ it :: post) k) as Ep.
  { intros [|k]; [done|]. cbn [prev_loc]. by rewrite <- !list_lookup_fmap, El. }
  split; cbn [with_mem zsl_level zsl_header zsl_tail zsl_length zsl_mem znodes zlevels]; try done.
  - apply Forall_app in repr_heights as [H1 [H2 H3]%Forall_cons]. apply Forall_app. split; [done|].
    by constructor.
  - destruct repr_top as [Ht|Ht]; [by left|right]. rewrite Exists_app, Exists_cons in Ht |- *. done.
  - by rewrite El.
  - intros i Hi. unfold towers. rewrite Et. by apply repr_levels.
  - apply NoDup_cons in repr_nodup as [_ Hnd]. intros k it' Hk. rewrite Ep.
    destruct (lookup_app3 _ _ _ _ _ Hk) as [[Hlt Hk']|[[-> ->]|(k' & -> & Hk')]].
    + rewrite lookup_insert_ne; [apply repr_nodes; by apply lookup_app_l_Some|].
      apply (nodup_loc_ne _ (length pre) k it it' Hnd); [apply lookup_middle_at| |lia].
      by apply lookup_app_l_Some.
    + cbn [rescored zi_loc]. rewrite lookup_insert_eq. cbn. by rewrite prev_loc_last.
    + assert ((pre ++ it :: post) !! (length pre + Datatypes.S k')%nat = Some it') as Hk2.
      { rewrite lookup_app_r by lia. by replace (_ - _)%nat with (Datatypes.S k') by lia. }
      rewrite lookup_insert_ne; [by apply repr_nodes|].
      apply (nodup_loc_ne _ (length pre) _ it it' Hnd (lookup_middle_at _ _ _) Hk2). lia.
  - rewrite lookup_insert_ne; [done|]. apply (header_not_in (X := X) z (pre ++ it :: post)); [done|].
    apply elem_of_app. right. by left.
  - by rewrite El, dom_insert_lookup_L.
  - rewrite repr_tail. destruct post as [|b post _] using rev_ind.
    + by rewrite !last_snoc.
    + rewrite !app_comm_cons, !app_assoc. by rewrite !last_snoc.
  - rewrite repr_length, !length_app. done.
  - rewrite length_app in repr_small |- *. done.
Qed.

Lemma sorted_pair A x C y B : zsl_sorted cmp (A ++ x :: C ++ y :: B) -> item_lt cmp x y.
Proof using HS.
  intros (_ & Hs & _)%sorted_app_inv. apply (sorted_app_inv cmp [x] (C ++ y :: B)) in Hs as (_ & _ & H).
  apply H; [by left|]. apply elem_of_app. right. by left.
Qed.

Lemma sorted_unique pre it post pre' it' post' sc mem :
  zsl_sorted cmp (pre ++ it :: post) -> item_eq cmp it sc mem -> item_eq cmp it' sc mem ->
  pre ++ it :: post = pre' ++ it' :: post' -> pre = pre' ∧ it = it' ∧ post = post'.
Proof using HS.
  assert (∀ x y, item_eq cmp x sc mem -> item_eq cmp y sc mem -> ¬ item_lt cmp x y) as Hno.
  { intros x y [Ex Cx] [Ey Cy] [Hlt|[_ Hlt]]; [lia|].
    pose proof (cmp_eq_l (zi_mem x) mem (zi_mem y) Cx) as Es.
    rewrite (cmp_zero_sym cmp _ _ Cy) in Es. apply Z.sgn_null_iff in Es. lia. }
  intros Hs H1 H2 E. apply split3 in E as [(C & -> & ->)|[(-> & -> & ->)|(C & -> & ->)]]; [|done|]; exfalso.
  - apply (Hno it it' H1 H2). by apply sorted_pair in Hs.
  - rewrite <- app_assoc in Hs. cbn [app] in Hs. apply (Hno it' it H2 H1). by apply sorted_pair in Hs.
Qed.

(** The neighbours that allow a change in place. *)
Lemma sorted_rescore pre it post sc :
  zsl_sorted cmp (pre ++ it :: post) ->
  (∀ p, last pre = Some p -> zi_score p < sc) -> (∀ q, head post = Some q -> sc < zi_score q) ->
  zsl_sorted cmp (pre ++ rescored it sc :: post).
Proof using HS.
  intros Hs Hp Hq. destruct (sorted_app_inv cmp _ _ Hs) as (H1 & H2 & H12).
  apply (sorted_app_inv cmp [it] post) in H2 as (_ & H2 & _).
  assert (∀ x, x ∈ pre -> zi_score x < sc) as Hbelow.
  { intros x Hx. destruct pre as [|p pre _] using rev_ind; [by apply elem_of_nil in Hx|].
    pose proof (sorted_last_le cmp pre p x H1 Hx). specialize (Hp p (last_snoc _ _)). lia. }
  assert (∀ x, x ∈ post -> sc < zi_score x) as Habove.
  { intros x Hx. destruct post as [|q post]; [by apply elem_of_nil in Hx|].
    pose proof (sorted_head_le cmp q post x H2 Hx). specialize (Hq q eq_refl). lia. }
  apply sorted_app; [done| |].
  - apply (sorted_app cmp [rescored it sc] post); [repeat constructor|done|].
    intros x y ->%list_elem_of_singleton Hy. left. cbn. by apply Habove.
  - intros x y Hx [->|Hy]%elem_of_cons; [left; by apply Hbelow|].
    apply H12; [done|by right].
Qed.

(** Moving an item that is already unlinked: insertion, then release. *)
Lemma move_ok fuel rand level z l x sc mem s b :
  zsl_repr ({[x]} ∪ ∅) z l -> x ∉ zsl_header z :: (zi_loc <$> l) ->
  zsl_sorted cmp l -> Z.of_nat (length l) < ZSL_MAX ->
  m_zslRandomLevel fuel rand = Some level -> Forall (λ y, ¬ item_eq cmp y sc mem) l ->
  ∃ z1 n m1 m2 pre post, m_zslInsert cmp fuel rand z sc mem = Some (z1, n) ∧ l = pre ++ post ∧
    store_node (zsl_mem z1) x (ZNode None s b) = Some m1 ∧ m_zslFreeNode m1 x = Some ([], m2) ∧
    zsl_repr ∅ (with_mem z1 m2) (pre ++ ZItem n level sc mem :: post) ∧
    zsl_sorted cmp (pre ++ ZItem n level sc mem :: post).
Proof using HS.
  intros Hz Hx Hs Hroom Hlv Hne. unfold m_zslInsert. rewrite Hlv. cbn [mbind option_bind].
  destruct (search_key cmp z l sc mem Hz Hs) as (pre & post & ups & -> & Hadv & Hpre & Hpost & _).
  unfold ZSL_MAX in Hroom. apply Forall_app in Hne as [_ Hne].
  destruct (insert_at_ok cmp z pre post level sc mem Hz Hadv) as (z1 & n & E & Hhd & Hn & Hz1);
    [by eapply random_level_range|lia|].
  assert (x ∉ zsl_header z1 :: (zi_loc <$> pre ++ ZItem n level sc mem :: post)) as Hx1.
  { rewrite Hhd. rewrite not_elem_of_cons, fmap_app, not_elem_of_app in Hx |- *.
    rewrite fmap_cons, not_elem_of_cons. destruct Hx as (H1 & H2 & H3). split_and!; [done..| |done].
    cbn [zi_loc]. intros <-. apply Hn. rewrite (repr_dom _ _ Hz), !elem_of_union, elem_of_singleton. tauto. }
  destruct (store_unlinked_ok z1 _ x (ZNode None s b) Hz1 Hx1) as (m1 & Em1 & Hxm & Hz2).
  destruct (free_unlinked_ok (with_mem z1 m1) _ x (ZNode None s b) Hz2 (not_elem_of_empty x) Hx1 Hxm)
    as (z' & Ef & _ & _ & Hz').
  unfold free_node_of in Ef. cbn [with_mem zsl_mem member] in Ef.
  destruct (m_zslFreeNode m1 x) as [[fr m2]|] eqn:Efr; cbn [mbind option_bind] in Ef; [|done].
  injection Ef as -> Ez. exists z1, n, m1, m2, pre, post. split_and!; [done..| |].
  - rewrite <- Ez in Hz'. exact Hz'.
  - by apply sorted_insert.
Qed.

(** [m_zslUpdateScore] of an item that is in the list, to a key that is
    not: the asserts hold, the item is changed in place or moved to its place
    in the order, and the list is otherwise the same; no string is released. *)
Theorem m_zslUpdateScore_spec fuel rand level z pre it post cur mem new :
  zsl_repr ∅ z (pre ++ it :: post) -> zsl_sorted cmp (pre ++ it :: post) ->
  item_eq cmp it cur mem -> Forall (λ x, ¬ item_eq cmp x new (zi_mem it)) (pre ++ post) ->
  Z.of_nat (length (pre ++ post)) < ZSL_MAX -> m_zslRandomLevel fuel rand = Some level ->
  ∃ z' n h pre' post', m_zslUpdateScore cmp fuel rand z cur mem new = Some (n, z') ∧
    pre ++ post = pre' ++ post' ∧ zsl_repr ∅ z' (pre' ++ ZItem n h new (zi_mem it) :: post') ∧
    zsl_sorted cmp (pre' ++ ZItem n h new (zi_mem it) :: post').
Proof using HS.
  intros Hz Hs Hit Hne Hroom Hlv. unfold m_zslUpdateScore.
  destruct (search_key cmp z _ cur mem Hz Hs) as (pre0 & post0 & ups & El & _ & Hpre & Hpost & -> & Hlen & Hups).
  assert (pre0 = pre ∧ post0 = it :: post) as [-> ->].
  { destruct post0 as [|it0 post0].
    - exfalso. rewrite app_nil_r in El. rewrite <- El, Forall_forall in Hpre.
      assert (it ∈ pre ++ it :: post) as Hin by (apply elem_of_app; right; by left).
      specialize (Hpre it Hin). rewrite item_before_spec in Hpre. destruct Hit. lia.
    - assert (item_eq cmp it0 cur mem) as Hit0.
      { rewrite El in Hs. apply (key_at_head cmp pre0 it0 post0 cur mem it Hs Hpre Hpost); [|done].
        rewrite <- El. apply elem_of_app. right. by left. }
      destruct (sorted_unique _ _ _ _ _ _ _ _ Hs Hit Hit0 El) as (-> & -> & ->). done. }
  clear El. cbn [mbind option_bind]. rewrite (next_of_ok z pre _ ups Hz Hlen Hups).
  cbn [mbind option_bind head fmap option_fmap option_map].
  rewrite (item_node z pre it post Hz). cbn [mbind option_bind node_of score backward member].
  unfold compare_member. cbn [node_of member fmap option_fmap option_map mbind option_bind].
  destruct Hit as [<- Hc]. rewrite Hc, !Z.eqb_refl. cbn [andb negb].
  assert ((match zi_loc <$> last pre with
           | None => Some true
           | Some b => nb ← node_at (zsl_mem z) b; Some (score nb <? new) end) =
          Some (match last pre with None => true | Some p => zi_score p <? new end)) as ->.
  { destruct pre as [|p pre0 _] using rev_ind; [done|]. rewrite last_snoc. cbn [fmap option_fmap option_map].
    rewrite <- app_assoc in Hz. cbn [app] in Hz. by rewrite (item_node z pre0 p (it :: post) Hz). }
  destruct (item_next z pre it post Hz) as (c & -> & Hfw). cbn [mbind option_bind]. rewrite Hfw.
  assert ((match zi_loc <$> head post with
           | None => Some true
           | Some f => nf ← node_at (zsl_mem z) f; Some (new <? score nf) end) =
          Some (match head post with None => true | Some q => new <? zi_score q end)) as ->.
  { destruct post as [|q post]; [done|]. cbn [head fmap option_fmap option_map].
    rewrite (cons_middle it), app_assoc in Hz. by rewrite (item_node z (pre ++ [it]) q post Hz). }
  cbn [mbind option_bind]. destruct (_ && _) eqn:Hin.
  - apply andb_true_iff in Hin as [Hp Hq].
    destruct (rescore_ok z pre it post new Hz) as (m & -> & Hz'). cbn [mbind option_bind].
    exists (with_mem z m), (zi_loc it), (zi_height it), pre, post. split_and!; [done..|].
    apply sorted_rescore; [done| |].
    + intros p Ep. rewrite Ep in Hp. lia.
    + intros q Eq. rewrite Eq in Hq. lia.
  - destruct (delete_node_ok z pre it post ups Hz) as (z1 & -> & Hhd & Hz1 & _); [lia|done|].
    cbn [mbind option_bind].
    pose proof (repr_nodup _ _ Hz) as Hnd.
    assert (zi_loc it ∉ zsl_header z1 :: (zi_loc <$> pre ++ post)) as Hx.
    { rewrite Hhd. rewrite fmap_app, fmap_cons, <- Permutation_middle, <- fmap_app, Permutation_swap in Hnd.
      by apply NoDup_cons in Hnd as [? _]. }
    destruct (move_ok fuel rand level z1 (pre ++ post) (zi_loc it) new (zi_mem it) (zi_score it)
      (zi_loc <$> last pre) Hz1 Hx (sorted_remove cmp _ _ _ Hs) Hroom Hlv Hne)
      as (z2 & n & m1 & m2 & pre' & post' & -> & E & Em1 & Em2 & Hz' & Hs').
    cbn [mbind option_bind]. rewrite Em1. cbn [mbind option_bind]. rewrite Em2. cbn [mbind option_bind].
    exists (with_mem z2 m2), n, level, pre', post'. by split_and!.
Qed.
End update.
