(* ===== verification/SkipListExamples.v ===== *)
(** * SkipListExamples: the theorems of the skip list at a concrete list

    Members are byte strings compared as Redis compares them: byte by byte, a
    proper prefix first.  The list of the examples is made by insertions. *)

From Stdlib Require Import Sorting.Sorted.
From S2P Require Import Prelude.
From S2P Require Import SkipList.
From S2P Require Import SkipListInv.
From S2P Require Import SkipListSpec.
From S2P Require Import SkipListProps.
From S2P Require Import SkipListRange.
From S2P Require Import SkipListUpdate.
Local Open Scope Z_scope.

(** ** An order of strings *)
Fixpoint bytes_compare (a b : list byte) : Z :=
  match a, b with
  | [], [] => 0
  | [], _ => -1
  | _, [] => 1
  | x :: a, y :: b =>
    if bval x <? bval y then -1 else if bval y <? bval x then 1 else bytes_compare a b
  end.

#[export] Instance bytes_order : StringOrder bytes_compare.
Proof.
  split.
  - intros a. induction a as [|x a IH]; [done|]. cbn. by rewrite Z.ltb_irrefl.
  - intros a. induction a as [|x a IH]; intros [|y b]; cbn; [lia..|].
    specialize (IH b). destruct (Z.ltb_spec (bval x) (bval y)), (Z.ltb_spec (bval y) (bval x)); lia.
  - intros a. induction a as [|x a IH]; intros [|y b] [|w c]; cbn; try lia.
    specialize (IH b c).
    destruct (Z.ltb_spec (bval x) (bval y)), (Z.ltb_spec (bval y) (bval x)),
      (Z.ltb_spec (bval y) (bval w)), (Z.ltb_spec (bval w) (bval y)),
      (Z.ltb_spec (bval x) (bval w)), (Z.ltb_spec (bval w) (bval x)); lia.
  - intros a. induction a as [|x a IH]; intros [|y b] [|w c]; cbn; try lia.
    specialize (IH b c).
    destruct (Z.ltb_spec (bval x) (bval y)), (Z.ltb_spec (bval y) (bval x)),
      (Z.ltb_spec (bval y) (bval w)), (Z.ltb_spec (bval w) (bval y)),
      (Z.ltb_spec (bval x) (bval w)), (Z.ltb_spec (bval w) (bval x)); lia.
Qed.

(** ** A list of three items *)
Definition insert_ex (level : nat) (z : m_zskiplist (list byte)) (sc : Z) (mem : list byte) :=
  match zslInsertAt bytes_compare level z sc mem with Some (z', _) => z' | None => z end.

Definition ex_zsl : m_zskiplist (list byte) :=
  insert_ex 2 (insert_ex 1 (insert_ex 1 m_zslCreate 10 [x61]) 10 [x62]) 30 [x61].

Definition ex_items (n1 n2 n3 : zloc) : list (zitem (list byte)) :=
  [ZItem n1 1 10 [x61]; ZItem n2 1 10 [x62]; ZItem n3 2 30 [x61]].

(** [rand] that stops at once: level 1. *)
Definition ex_rand (_ : nat) : Z := 0xFFFF.

Lemma insert_ex_ok z l level sc mem :
  zsl_repr ∅ z l -> Forall (λ it, item_before bytes_compare sc mem it = true) l ->
  (1 <= level <= ZSKIPLIST_MAXLEVEL)%nat -> Z.of_nat (length l) + 1 < 2 ^ 32 - 1 ->
  ∃ n, zsl_repr ∅ (insert_ex level z sc mem) (l ++ [ZItem n level sc mem]).
Proof.
  intros Hz Hl Hlv Hroom. rewrite <- (app_nil_r l) in Hz.
  destruct (insert_at_ok bytes_compare z l [] level sc mem Hz) as (z' & n & E & _ & _ & Hz');
    [|done|by rewrite app_nil_r|].
  - apply (adv_ok_items (before bytes_compare sc mem) (item_before bytes_compare sc mem)); [|done|done].
    intros m it r. apply before_item.
  - exists n. unfold insert_ex. by rewrite E.
Qed.

Lemma ex_repr : ∃ n1 n2 n3, zsl_repr ∅ ex_zsl (ex_items n1 n2 n3).
Proof.
  assert (Forall (λ it, item_before bytes_compare 10 [x61] it = true) []) as H0 by constructor.
  destruct (insert_ex_ok m_zslCreate [] 1 10 [x61] create_repr H0) as (n1 & H1);
    [unfold ZSKIPLIST_MAXLEVEL; lia|simpl; lia|].
  destruct (insert_ex_ok _ _ 1 10 [x62] H1) as (n2 & H2);
    [by repeat constructor|unfold ZSKIPLIST_MAXLEVEL; lia|simpl; lia|].
  destruct (insert_ex_ok _ _ 2 30 [x61] H2) as (n3 & H3);
    [by repeat constructor|unfold ZSKIPLIST_MAXLEVEL; lia|simpl; lia|].
  by exists n1, n2, n3.
Qed.

Lemma ex_sorted n1 n2 n3 : zsl_sorted bytes_compare (ex_items n1 n2 n3).
Proof.
  repeat apply SSorted_cons; try apply SSorted_nil; rewrite ?Forall_cons, ?Forall_nil;
    split_and?; try exact I. all: unfold item_lt; cbn. all: lia.
Qed.

(** ** The theorems there *)
Lemma m_zslInsert_spec_witness : ∃ l z' n pre post,
  zsl_repr ∅ ex_zsl l ∧ m_zslInsert bytes_compare 5 ex_rand ex_zsl 20 [x63] = Some (z', n) ∧
  l = pre ++ post ∧ zsl_repr ∅ z' (pre ++ ZItem n 1 20 [x63] :: post).
Proof.
  destruct ex_repr as (n1 & n2 & n3 & Hz).
  destruct (m_zslInsert_spec bytes_compare 5 ex_rand 1 ex_zsl (ex_items n1 n2 n3) 20 [x63] Hz
    (ex_sorted n1 n2 n3)) as (z' & n & pre & post & E & El & _ & Hz' & _);
    [done|done|unfold ex_items; rewrite ?Forall_cons, ?Forall_nil; split_and?; try exact I; intros [E _]; discriminate E|].
  exists (ex_items n1 n2 n3), z', n, pre, post. exact (conj Hz (conj E (conj El Hz'))).
Defined.

Lemma m_zslDelete_spec_witness : ∃ n1 n2 n3,
  (∃ pre it post z', ex_items n1 n2 n3 = pre ++ it :: post ∧ item_eq bytes_compare it 10 [x62] ∧
     m_zslDelete bytes_compare ex_zsl 10 [x62] false = Some (1, [zi_mem it], None, z') ∧
     zsl_repr ∅ z' (pre ++ post) ∧ zsl_sorted bytes_compare (pre ++ post)) ∨
  (Forall (λ it, ¬ item_eq bytes_compare it 10 [x62]) (ex_items n1 n2 n3) ∧
   m_zslDelete bytes_compare ex_zsl 10 [x62] false = Some (0, [], None, ex_zsl)).
Proof.
  destruct ex_repr as (n1 & n2 & n3 & Hz). exists n1, n2, n3.
  exact (m_zslDelete_spec bytes_compare ex_zsl (ex_items n1 n2 n3) 10 [x62] Hz (ex_sorted n1 n2 n3)).
Defined.

Lemma m_zslFree_spec_witness :
  ∃ m, m_zslFree ex_zsl = Some ([[x61]; [x62]; [x61]], m) ∧ znodes m = ∅.
Proof.
  destruct ex_repr as (n1 & n2 & n3 & Hz).
  exact (m_zslFree_spec ex_zsl (ex_items n1 n2 n3) Hz).
Defined.

Lemma m_zslGetElementByRank_spec_witness : ∃ n1 n2 n3,
  m_zslGetElementByRank ex_zsl 2 =
  Some (if decide (2 = 0) then Some (zsl_header ex_zsl)
        else zi_loc <$> ex_items n1 n2 n3 !! Z.to_nat (2 - 1)).
Proof.
  destruct ex_repr as (n1 & n2 & n3 & Hz). exists n1, n2, n3.
  apply (m_zslGetElementByRank_spec ex_zsl (ex_items n1 n2 n3) 2 Hz). lia.
Defined.

Definition ex_range : m_zrangespec := RangeSpec 5 10 false false.

Lemma m_zslFirstInRange_spec_witness : ∃ n1 n2 n3,
  m_zslFirstInRange ex_zsl ex_range = Some (zi_loc <$> head (filter (inside ex_range) (ex_items n1 n2 n3))).
Proof.
  destruct ex_repr as (n1 & n2 & n3 & Hz). exists n1, n2, n3.
  exact (m_zslFirstInRange_spec bytes_compare ex_zsl (ex_items n1 n2 n3) ex_range Hz (ex_sorted n1 n2 n3)).
Defined.

Lemma m_zslLastInRange_spec_witness : ∃ n1 n2 n3,
  m_zslLastInRange ex_zsl ex_range = Some (zi_loc <$> last (filter (inside ex_range) (ex_items n1 n2 n3))).
Proof.
  destruct ex_repr as (n1 & n2 & n3 & Hz). exists n1, n2, n3.
  exact (m_zslLastInRange_spec bytes_compare ex_zsl (ex_items n1 n2 n3) ex_range Hz (ex_sorted n1 n2 n3)).
Defined.

Lemma m_zslDeleteRangeByScore_spec_witness : ∃ n1 n2 n3 z',
  m_zslDeleteRangeByScore ex_zsl ex_range = Some (2, [[x61]; [x62]], z') ∧
  zsl_repr ∅ z' (filter (λ it, ¬ inside ex_range it) (ex_items n1 n2 n3)).
Proof.
  destruct ex_repr as (n1 & n2 & n3 & Hz). exists n1, n2, n3.
  exact (m_zslDeleteRangeByScore_spec bytes_compare ex_zsl (ex_items n1 n2 n3) ex_range Hz (ex_sorted n1 n2 n3)).
Defined.

Lemma m_zslDeleteRangeByRank_spec_witness : ∃ n1 n2 n3 z',
  m_zslDeleteRangeByRank ex_zsl 2 3 = Some (2, [[x62]; [x61]], z') ∧
  zsl_repr ∅ z' (take 1 (ex_items n1 n2 n3)).
Proof.
  destruct ex_repr as (n1 & n2 & n3 & Hz). exists n1, n2, n3.
  exact (m_zslDeleteRangeByRank_spec ex_zsl (ex_items n1 n2 n3) 2 3 Hz ltac:(done) ltac:(done)).
Defined.

Lemma m_zslUpdateScore_spec_witness : ∃ n2 n3 z' n h pre' post',
  m_zslUpdateScore bytes_compare 5 ex_rand ex_zsl 10 [x61] 40 = Some (n, z') ∧
  [ZItem n2 1 10 [x62]; ZItem n3 2 30 [x61]] = pre' ++ post' ∧
  zsl_repr ∅ z' (pre' ++ ZItem n h 40 [x61] :: post') ∧
  zsl_sorted bytes_compare (pre' ++ ZItem n h 40 [x61] :: post').
Proof.
  destruct ex_repr as (n1 & n2 & n3 & Hz). exists n2, n3.
  apply (m_zslUpdateScore_spec bytes_compare 5 ex_rand 1 ex_zsl [] (ZItem n1 1 10 [x61])
    [ZItem n2 1 10 [x62]; ZItem n3 2 30 [x61]] 10 [x61] 40 Hz (ex_sorted n1 n2 n3)); [done| |done|done].
  cbn [app]; rewrite ?Forall_cons, ?Forall_nil; split_and?; try exact I; intros [E _]; discriminate E.
Defined.
