(* ===== verification/AdList.v ===== *)
(** * AdList: the doubly linked list of dep/list.c

    The nodes of all lists live in one heap, a map from addresses to nodes; a
    list is its header.  [None] is undefined behaviour: an access to a node
    that is not allocated.  [RedisModule_Alloc] does not return [NULL] (the
    server stops when memory runs out), so the branches for it are not taken.
    The values a list's [free] method is called with are returned. *)

From S2P Require Import Prelude.
Local Open Scope Z_scope.

(** The address of a node. *)
Definition lloc : Type := positive.
#[export] Instance lloc_eq_dec : EqDecision lloc := Pos.eq_dec.
#[export] Instance lloc_countable : Countable lloc := pos_countable.

Record m_listNode (V : Type) := LNode { n_prev : option lloc; n_next : option lloc; n_value : V }.
Arguments LNode {V} _ _ _.
Arguments n_prev {V} _.
Arguments n_next {V} _.
Arguments n_value {V} _.

Inductive direction := AL_START_HEAD | AL_START_TAIL.
#[export] Instance direction_eq_dec : EqDecision direction.
Proof. solve_decision. Defined.

Record m_listIter := LIter { it_next : option lloc; it_direction : direction }.

(** [free] is only whether the method is there: it returns nothing. *)
Record alist (V : Type) := AList {
  l_head : option lloc;
  l_tail : option lloc;
  l_dup : option (V -> option V);
  l_free : bool;
  l_match : option (V -> V -> bool);
  l_len : Z
}.
Arguments AList {V} _ _ _ _ _ _.
Arguments l_head {V} _.
Arguments l_tail {V} _.
Arguments l_dup {V} _.
Arguments l_free {V} _.
Arguments l_match {V} _.
Arguments l_len {V} _.

Section adlist.
Context {V : Type} `{EqDecision V}.
Notation lheap := (gmap lloc (m_listNode V)).
Implicit Types (h : lheap) (l : alist V) (p : lloc).

(** ** Memory accesses *)
Definition set_next h p (nx : option lloc) : option lheap :=
  n ← h !! p; Some (<[p := LNode (n_prev n) nx (n_value n)]> h).

Definition set_prev h p (pv : option lloc) : option lheap :=
  n ← h !! p; Some (<[p := LNode pv (n_next n) (n_value n)]> h).

(** [if (node != NULL) node->next = nx], and the same of [prev]. *)
Definition set_next_of h (o : option lloc) (nx : option lloc) : option lheap :=
  match o with Some p => set_next h p nx | None => Some h end.

Definition set_prev_of h (o : option lloc) (pv : option lloc) : option lheap :=
  match o with Some p => set_prev h p pv | None => Some h end.

(** A list with other ends and another length. *)
Definition with_ends l (hd tl : option lloc) (len : Z) : alist V :=
  AList hd tl (l_dup l) (l_free l) (l_match l) len.

Definition call_free l (v : V) : list V := if l_free l then [v] else [].

(** ** Creation and release *)
Definition m_listCreate : alist V := AList None None None false None 0.

(** [while (len--)]: the values freed, and the heap. *)
Fixpoint empty_loop (len : nat) h l (current : option lloc) : option (list V * lheap) :=
  match len with
  | O => Some ([], h)
  | S len =>
    p ← current;
    n ← h !! p;
    '(freed, h) ← empty_loop len (delete p h) l (n_next n);
    Some (call_free l (n_value n) ++ freed, h)
  end.

Definition m_listEmpty h l : option (list V * lheap * alist V) :=
  '(freed, h) ← empty_loop (Z.to_nat (l_len l)) h l (l_head l);
  Some (freed, h, with_ends l None None 0).

Definition m_listRelease h l : option (list V * lheap) :=
  '(freed, h, _) ← m_listEmpty h l;
  Some (freed, h).

(** ** Insertion and deletion *)
Definition m_listAddNodeHead h l (v : V) : option (lheap * alist V) :=
  let node := fresh (dom h) in
  if decide (l_len l = 0) then
    Some (<[node := LNode None None v]> h, with_ends l (Some node) (Some node) (u64 (l_len l + 1)))
  else
    hd ← l_head l;
    h ← set_prev (<[node := LNode None (l_head l) v]> h) hd (Some node);
    Some (h, with_ends l (Some node) (l_tail l) (u64 (l_len l + 1))).

Definition m_listAddNodeTail h l (v : V) : option (lheap * alist V) :=
  let node := fresh (dom h) in
  if decide (l_len l = 0) then
    Some (<[node := LNode None None v]> h, with_ends l (Some node) (Some node) (u64 (l_len l + 1)))
  else
    tl ← l_tail l;
    h ← set_next (<[node := LNode (l_tail l) None v]> h) tl (Some node);
    Some (h, with_ends l (l_head l) (Some node) (u64 (l_len l + 1))).

Definition m_listInsertNode h l (old_node : lloc) (v : V) (after : bool) : option (lheap * alist V) :=
  let node := fresh (dom h) in
  old ← h !! old_node;
  let '(pv, nx, hd, tl) :=
    if after then
      (Some old_node, n_next old, l_head l,
       if decide (l_tail l = Some old_node) then Some node else l_tail l)
    else
      (n_prev old, Some old_node,
       if decide (l_head l = Some old_node) then Some node else l_head l, l_tail l) in
  h ← set_next_of (<[node := LNode pv nx v]> h) pv (Some node);
  h ← set_prev_of h nx (Some node);
  Some (h, with_ends l hd tl (u64 (l_len l + 1))).

(** The values freed, the heap and the list. *)
Definition m_listDelNode h l p : option (list V * lheap * alist V) :=
  n ← h !! p;
  h ← set_next_of h (n_prev n) (n_next n);
  let hd := match n_prev n with Some _ => l_head l | None => n_next n end in
  h ← set_prev_of h (n_next n) (n_prev n);
  let tl := match n_next n with Some _ => l_tail l | None => n_prev n end in
  Some (call_free l (n_value n), delete p h, with_ends l hd tl (u64 (l_len l - 1))).

(** ** Iterators *)
Definition m_listGetIterator l (dir : direction) : m_listIter :=
  LIter (if decide (dir = AL_START_HEAD) then l_head l else l_tail l) dir.

Definition m_listRewind l : m_listIter := LIter (l_head l) AL_START_HEAD.
Definition m_listRewindTail l : m_listIter := LIter (l_tail l) AL_START_TAIL.

Definition m_listNext h (iter : m_listIter) : option (option lloc * m_listIter) :=
  match it_next iter with
  | None => Some (None, iter)
  | Some current =>
    n ← h !! current;
    Some (Some current,
      LIter (if decide (it_direction iter = AL_START_HEAD) then n_next n else n_prev n)
        (it_direction iter))
  end.

(** ** Copies, searches and access by index *)

(** [while ((node = m_listNext(&iter)) != NULL)] of [m_listDup]: the values
    freed, the heap, and the copy or [NULL].  A list has [len] nodes, so
    [len] + 1 rounds are enough, here and in the search. *)
Fixpoint dup_loop (fuel : nat) h (copy : alist V) (iter : m_listIter) :
    option (list V * lheap * option (alist V)) :=
  '(node, iter) ← m_listNext h iter;
  match node with
  | None => Some ([], h, Some copy)
  | Some p =>
    match fuel with
    | O => None
    | S fuel =>
      n ← h !! p;
      match (match l_dup copy with Some dup => dup (n_value n) | None => Some (n_value n) end) with
      | None => '(freed, h) ← m_listRelease h copy; Some (freed, h, None)
      | Some v => '(h, copy) ← m_listAddNodeTail h copy v; dup_loop fuel h copy iter
      end
    end
  end.

Definition m_listDup h (orig : alist V) : option (list V * lheap * option (alist V)) :=
  dup_loop (Z.to_nat (l_len orig)) h (AList None None (l_dup orig) (l_free orig) (l_match orig) 0)
    (m_listRewind orig).

Definition matches l (v key : V) : bool :=
  match l_match l with Some m => m v key | None => bool_decide (key = v) end.

Fixpoint search_loop (fuel : nat) h l (key : V) (iter : m_listIter) : option (option lloc) :=
  '(node, iter) ← m_listNext h iter;
  match node with
  | None => Some None
  | Some p =>
    n ← h !! p;
    if matches l (n_value n) key then Some (Some p)
    else match fuel with O => None | S fuel => search_loop fuel h l key iter end
  end.

Definition m_listSearchKey h l (key : V) : option (option lloc) :=
  search_loop (Z.to_nat (l_len l)) h l key (m_listRewind l).

(** [while (index-- && n)]. *)
Fixpoint index_loop (fuel : nat) h (dir : direction) (index : Z) (n : option lloc) :
    option (option lloc) :=
  if decide (index = 0) then Some n
  else match n with
       | None => Some None
       | Some p =>
         match fuel with
         | O => None
         | S fuel =>
           node ← h !! p;
           index_loop fuel h dir (index - 1)
             (if decide (dir = AL_START_HEAD) then n_next node else n_prev node)
         end
       end.

(** [index] is a [long]; its negation overflows at the least one. *)
Definition m_listIndex h l (index : Z) : option (option lloc) :=
  if decide (index < 0) then
    if decide (index = LLONG_MIN) then None
    else index_loop (Z.to_nat (l_len l)) h AL_START_TAIL (- index - 1) (l_tail l)
  else index_loop (Z.to_nat (l_len l)) h AL_START_HEAD index (l_head l).

(** ** Rotation and concatenation *)
Definition m_listRotate h l : option (lheap * alist V) :=
  if l_len l <=? 1 then Some (h, l)
  else
    tail ← l_tail l;
    nt ← h !! tail;
    tl ← n_prev nt;
    h ← set_next h tl None;
    hd ← l_head l;
    h ← set_prev h hd (Some tail);
    h ← set_prev h tail None;
    h ← set_next h tail (Some hd);
    Some (h, with_ends l (Some tail) (Some tl) (l_len l)).

(** The heap, [l] and [o]. *)
Definition m_listJoin h l (o : alist V) : option (lheap * alist V * alist V) :=
  h ← set_prev_of h (l_head o) (l_tail l);
  h ← set_next_of h (l_tail l) (l_head o);
  let hd := match l_tail l with Some _ => l_head l | None => l_head o end in
  let tl := match l_tail o with Some t => Some t | None => l_tail l end in
  Some (h, with_ends l hd tl (u64 (l_len l + l_len o)), with_ends o None None 0).
End adlist.
