(* ===== verification/AdListInv.v ===== *)
(** * AdListInv: the shape of a doubly linked list

    [dseg h pv ns nx]: the heap holds the nodes [ns], linked in this order, with
    [pv] before the first one and [nx] behind the last one.  The lemmas say what
    the relinking of an end does, and that other nodes do not matter. *)

From S2P Require Import Prelude.
From S2P Require Import AdList.
Local Open Scope Z_scope.

Section inv.
Context {V : Type} `{EqDecision V}.
Notation lheap := (gmap lloc (m_listNode V)).
Notation node := (lloc * V)%type (only parsing).
Implicit Types (h : lheap) (l : alist V) (p : lloc) (ns A B : list (lloc * V)).

(** The address of the first node, or what comes behind. *)
Definition hd_or ns (nx : option lloc) : option lloc :=
  match ns with [] => nx | (q, _) :: _ => Some q end.

Fixpoint last_or (pv : option lloc) ns : option lloc :=
  match ns with [] => pv | (q, _) :: ns => last_or (Some q) ns end.

Fixpoint dseg h (pv : option lloc) ns (nx : option lloc) : Prop :=
  match ns with
  | [] => True
  | (p, v) :: ns => h !! p = Some (LNode pv (hd_or ns nx) v) ∧ dseg h (Some p) ns nx
  end.

Lemma hd_or_app A B nx : hd_or (A ++ B) nx = hd_or A (hd_or B nx).
Proof. by destruct A as [|[]]. Qed.

Lemma last_or_app pv A B : last_or pv (A ++ B) = last_or (last_or pv A) B.
Proof. revert pv. induction A as [|[] A IH]; intros pv; [done|]. cbn. apply IH. Qed.

Lemma dseg_app h pv A B nx :
  dseg h pv (A ++ B) nx <-> dseg h pv A (hd_or B nx) ∧ dseg h (last_or pv A) B nx.
Proof.
  revert pv. induction A as [|[p v] A IH]; intros pv; cbn [app dseg last_or]; [tauto|].
  rewrite IH, hd_or_app. tauto.
Qed.

(** Two heaps that agree on the nodes of a segment. *)
Lemma dseg_agree h h' pv ns nx :
  (∀ p, p ∈ ns.*1 -> h' !! p = h !! p) -> dseg h pv ns nx -> dseg h' pv ns nx.
Proof.
  revert pv. induction ns as [|[p v] ns IH]; intros pv Hag; cbn [dseg]; [done|].
  intros [Hp Hns]. split; [by rewrite Hag by (rewrite fmap_cons; by left)|].
  apply IH; [|done]. intros q Hq. apply Hag. rewrite fmap_cons. by right.
Qed.

Lemma dseg_insert h pv ns nx p n : p ∉ ns.*1 -> dseg h pv ns nx -> dseg (<[p := n]> h) pv ns nx.
Proof.
  intros Hp. apply dseg_agree. intros q Hq. rewrite lookup_insert_ne; [done|]. by intros ->.
Qed.

Lemma dseg_lookup h pv ns nx p : dseg h pv ns nx -> p ∈ ns.*1 -> is_Some (h !! p).
Proof.
  revert pv. induction ns as [|[q v] ns IH]; intros pv; cbn [dseg]; [by intros _ ?%elem_of_nil|].
  intros [Hq Hns]. rewrite fmap_cons. intros [->|Hp]%elem_of_cons; [by eexists|by eapply IH].
Qed.

Lemma last_or_elem pv ns p : last_or pv ns = Some p -> pv = Some p ∨ p ∈ ns.*1.
Proof.
  revert pv. induction ns as [|[q v] ns IH]; intros pv; cbn [last_or]; [by left|].
  rewrite fmap_cons. intros [E|Hp]%IH; [injection E as <-|]; right; [by left|by right].
Qed.

Lemma hd_or_elem ns nx p : hd_or ns nx = Some p -> nx = Some p ∨ p ∈ ns.*1.
Proof. destruct ns as [|[q v] ns]; cbn; [by left|]. intros [= ->]. right. by left. Qed.

(** Setting [next] of the last node: the segment ends elsewhere. *)
Lemma set_next_last h pv A nx nx' :
  NoDup A.*1 -> dseg h pv A nx ->
  ∃ h', set_next_of h (last_or None A) nx' = Some h' ∧ dseg h' pv A nx' ∧
    (∀ q, q ∉ A.*1 -> h' !! q = h !! q) ∧ dom h' = dom h.
Proof.
  intros Hnd Hs. destruct A as [|[p v] A _] using rev_ind; [by exists h|].
  rewrite last_or_app. cbn [last_or set_next_of].
  rewrite fmap_app in Hnd. apply NoDup_app in Hnd as (_ & Hd & _).
  apply dseg_app in Hs as [HA [Hp _]]. cbn [hd_or] in Hp. unfold set_next. rewrite Hp.
  cbn [mbind option_bind n_prev n_value]. eexists. split; [reflexivity|]. split_and!.
  - apply dseg_app. cbn [dseg hd_or]. split; [|by rewrite lookup_insert_eq].
    apply dseg_insert; [|done]. intros Hin. apply (Hd p Hin). by left.
  - intros q Hq. rewrite lookup_insert_ne; [done|]. intros ->. apply Hq.
    rewrite fmap_app, elem_of_app. right. by left.
  - apply dom_insert_lookup_L. by rewrite Hp.
Qed.

(** Setting [prev] of the first node. *)
Lemma set_prev_first h pv pv' B nx :
  NoDup B.*1 -> dseg h pv B nx ->
  ∃ h', set_prev_of h (hd_or B None) pv' = Some h' ∧ dseg h' pv' B nx ∧
    (∀ q, q ∉ B.*1 -> h' !! q = h !! q) ∧ dom h' = dom h.
Proof.
  intros Hnd Hs. destruct B as [|[p v] B]; [by exists h|].
  rewrite fmap_cons in Hnd. apply NoDup_cons in Hnd as [Hp Hnd]. destruct Hs as [Hn HB].
  cbn [hd_or set_prev_of]. unfold set_prev. rewrite Hn. cbn [mbind option_bind n_next n_value].
  eexists. split; [reflexivity|]. split_and!.
  - cbn [dseg]. rewrite lookup_insert_eq. split; [done|]. by apply dseg_insert.
  - intros q Hq. rewrite lookup_insert_ne; [done|]. intros ->. apply Hq. by left.
  - apply dom_insert_lookup_L. by rewrite Hn.
Qed.

(** The neighbours of a gap relinked to each other or to a node in the gap. *)
Lemma relink h A B nx pv :
  NoDup (A ++ B).*1 -> dseg h None A pv -> dseg h nx B None ->
  ∀ toA toB, ∃ h1 h2, set_next_of h (last_or None A) toA = Some h1 ∧
    set_prev_of h1 (hd_or B None) toB = Some h2 ∧
    dseg h2 None A toA ∧ dseg h2 toB B None ∧
    (∀ q, q ∉ (A ++ B).*1 -> h2 !! q = h !! q) ∧ dom h2 = dom h.
Proof.
  intros Hnd HA HB toA toB. rewrite fmap_app in Hnd. apply NoDup_app in Hnd as (HndA & Hd & HndB).
  destruct (set_next_last h None A pv toA HndA HA) as (h1 & E1 & HA1 & Hf1 & Hd1).
  assert (dseg h1 nx B None) as HB1.
  { eapply dseg_agree; [|exact HB]. intros q Hq. apply Hf1. intros HqA. by apply (Hd q). }
  destruct (set_prev_first h1 nx toB B None HndB HB1) as (h2 & E2 & HB2 & Hf2 & Hd2).
  exists h1, h2. split_and!; [done..| |done| |congruence].
  - eapply dseg_agree; [|exact HA1]. intros q Hq. apply Hf2. by apply Hd.
  - intros q Hq. rewrite fmap_app, not_elem_of_app in Hq. rewrite Hf2, Hf1 by tauto. done.
Qed.

(** ** The whole list *)
Record list_repr h l ns : Prop := {
  lr_nodup : NoDup ns.*1;
  lr_seg : dseg h None ns None;
  lr_head : l_head l = hd_or ns None;
  lr_tail : l_tail l = last_or None ns;
  lr_len : l_len l = Z.of_nat (length ns);
  lr_small : Z.of_nat (length ns) < 2 ^ 64
}.

(** Everything but the nodes given is as it was. *)
Definition frame h h' ns ns' : Prop :=
  (∀ q, q ∉ ns.*1 -> q ∉ ns'.*1 -> h' !! q = h !! q) ∧
  dom h' = (dom h ∖ list_to_set ns.*1) ∪ list_to_set ns'.*1.
End inv.
