(* ===== verification/AdListProps.v ===== *)
(** * AdListProps: what the doubly linked list promises

    Every operation on the heap refines an operation on the sequence of the
    list's nodes, and touches no other node; the searches, the access by index
    and the iterators read that sequence; a copy and a concatenation give the
    sequences they should. *)

From S2P Require Import Prelude.
From S2P Require Import AdList.
From S2P Require Import AdListInv.
Local Open Scope Z_scope.

(** ** Operations, and what they do to the sequence of nodes *)
Inductive list_op (V : Type) :=
  | AddHead (v : V)
  | AddTail (v : V)
  | InsertNode (old_node : lloc) (v : V) (after : bool)
  | DelNode (p : lloc)
  | Rotate
  | Empty.
Arguments AddHead {V} _.
Arguments AddTail {V} _.
Arguments InsertNode {V} _ _ _.
Arguments DelNode {V} _.
Arguments Rotate {V}.
Arguments Empty {V}.

Section props.
Context {V : Type} `{EqDecision V}.
Notation lheap := (gmap lloc (m_listNode V)).
Implicit Types (h : lheap) (l : alist V) (p n : lloc) (ns A B : list (lloc * V)) (op : list_op V).

Definition apply_op h l op : option (list V * lheap * alist V) :=
  match op with
  | AddHead v => '(h, l) ← m_listAddNodeHead h l v; Some ([], h, l)
  | AddTail v => '(h, l) ← m_listAddNodeTail h l v; Some ([], h, l)
  | InsertNode old_node v after => '(h, l) ← m_listInsertNode h l old_node v after; Some ([], h, l)
  | DelNode p => m_listDelNode h l p
  | Rotate => '(h, l) ← m_listRotate h l; Some ([], h, l)
  | Empty => m_listEmpty h l
  end.

Fixpoint seq_insert (old_node n : lloc) (v : V) (after : bool) ns : list (lloc * V) :=
  match ns with
  | [] => []
  | (p, w) :: ns =>
    if decide (p = old_node) then
      if after then (p, w) :: (n, v) :: ns else (n, v) :: (p, w) :: ns
    else (p, w) :: seq_insert old_node n v after ns
  end.

(** [n]: the address of the new node. *)
Definition seq_op n op ns : list (lloc * V) :=
  match op with
  | AddHead v => (n, v) :: ns
  | AddTail v => ns ++ [(n, v)]
  | InsertNode old_node v after => seq_insert old_node n v after ns
  | DelNode p => filter (λ x, x.1 ≠ p) ns
  | Rotate => match last ns with Some x => x :: take (length ns - 1) ns | None => [] end
  | Empty => []
  end.

(** The nodes an operation releases. *)
Definition seq_freed op ns : list (lloc * V) :=
  match op with
  | DelNode p => filter (λ x, x.1 = p) ns
  | Empty => ns
  | _ => []
  end.

Definition op_ok op ns : Prop :=
  match op with
  | InsertNode p _ _ | DelNode p => p ∈ ns.*1
  | _ => True
  end.

(** ** Linking and unlinking *)
Lemma not_in_seg h ns pv nx p : dseg h pv ns nx -> h !! p = None -> p ∉ ns.*1.
Proof. intros Hs Hp Hin. destruct (dseg_lookup _ _ _ _ _ Hs Hin). congruence. Qed.

Lemma link_ok h A B p v :
  NoDup (A ++ B).*1 -> dseg h None (A ++ B) None -> h !! p = None ->
  ∃ h2 h3, set_next_of (<[p := LNode (last_or None A) (hd_or B None) v]> h) (last_or None A) (Some p) = Some h2 ∧
    set_prev_of h2 (hd_or B None) (Some p) = Some h3 ∧ dseg h3 None (A ++ (p, v) :: B) None ∧
    (∀ q, q ≠ p -> q ∉ (A ++ B).*1 -> h3 !! q = h !! q) ∧ dom h3 = {[p]} ∪ dom h.
Proof.
  intros Hnd Hs Hp. pose proof (not_in_seg _ _ _ _ _ Hs Hp) as Hnot. pose proof Hnot as Hnot2.
  rewrite fmap_app, not_elem_of_app in Hnot2. destruct Hnot2 as [HpA HpB].
  apply dseg_app in Hs as [HA HB].
  set (h1 := <[p := LNode (last_or None A) (hd_or B None) v]> h).
  destruct (relink h1 A B (last_or None A) (hd_or B None) Hnd) with (toA := Some p) (toB := Some p)
    as (h2 & h3 & E2 & E3 & HA3 & HB3 & Hf & Hd); [by apply dseg_insert..|].
  exists h2, h3. split_and!; [done|done| | |].
  - apply dseg_app. cbn [hd_or dseg last_or]. split_and!; [done| |done].
    rewrite Hf by done. unfold h1. by rewrite lookup_insert_eq.
  - intros q Hq Hin. rewrite Hf by done. unfold h1. by rewrite lookup_insert_ne.
  - rewrite Hd. unfold h1. by rewrite dom_insert_L.
Qed.

Lemma unlink_ok h A B p v :
  NoDup (A ++ (p, v) :: B).*1 -> dseg h None (A ++ (p, v) :: B) None ->
  h !! p = Some (LNode (last_or None A) (hd_or B None) v) ∧
  ∃ h1 h2, set_next_of h (last_or None A) (hd_or B None) = Some h1 ∧
    set_prev_of h1 (hd_or B None) (last_or None A) = Some h2 ∧
    dseg (delete p h2) None (A ++ B) None ∧
    (∀ q, q ∉ (A ++ B).*1 -> h2 !! q = h !! q) ∧ dom h2 = dom h.
Proof.
  intros Hnd Hs. apply dseg_app in Hs as [HA [Hp HB]]. cbn [hd_or last_or] in *. split; [done|].
  rewrite fmap_app, fmap_cons in Hnd. cbn [fst] in Hnd. rewrite <- Permutation_middle in Hnd.
  apply NoDup_cons in Hnd as [Hnot Hnd]. rewrite <- fmap_app in Hnot, Hnd.
  destruct (relink h A B (Some p) (Some p) Hnd HA HB (hd_or B None) (last_or None A))
    as (h1 & h2 & E1 & E2 & HA2 & HB2 & Hf & Hd).
  exists h1, h2. split_and!; [done|done| |done|done].
  eapply dseg_agree; [|apply dseg_app; split; [exact HA2|exact HB2]].
  intros q Hq. rewrite lookup_delete_ne; [done|]. by intros ->.
Qed.

(** The list after a linking. *)
Lemma repr_link h l A B p v h' hd tl :
  list_repr h l (A ++ B) -> h !! p = None -> Z.of_nat (length (A ++ B)) + 1 < 2 ^ 64 ->
  dseg h' None (A ++ (p, v) :: B) None -> hd = hd_or (A ++ (p, v) :: B) None ->
  tl = last_or None (A ++ (p, v) :: B) ->
  list_repr h' (with_ends l hd tl (u64 (l_len l + 1))) (A ++ (p, v) :: B).
Proof.
  intros [Hnd Hs _ _ Hlen _] Hp Hsm Hs' -> ->. pose proof (not_in_seg _ _ _ _ _ Hs Hp) as Hnot.
  rewrite length_app in *.
  split; cbn [with_ends l_head l_tail l_len]; [|done|done|done| |].
  - rewrite fmap_app, fmap_cons, <- Permutation_middle, <- fmap_app. by apply NoDup_cons.
  - rewrite Hlen, u64_small by lia. rewrite length_app. cbn [length]. lia.
  - rewrite length_app. cbn [length]. lia.
Qed.

(** What a linking touches. *)
Definition linked h h' p ns : Prop :=
  (∀ q, q ≠ p -> q ∉ ns.*1 -> h' !! q = h !! q) ∧ dom h' = {[p]} ∪ dom h.

Lemma fresh_None h : h !! (fresh (dom h)) = None.
Proof. apply not_elem_of_dom, is_fresh. Qed.

Lemma add_head_ok h l ns v :
  list_repr h l ns -> Z.of_nat (length ns) + 1 < 2 ^ 64 ->
  ∃ h' l' p, m_listAddNodeHead h l v = Some (h', l') ∧ h !! p = None ∧
    list_repr h' l' ((p, v) :: ns) ∧ linked h h' p ns.
Proof.
  intros Hl Hsm. pose proof Hl as [Hnd Hs Hhd Htl Hlen _]. unfold m_listAddNodeHead.
  pose proof (fresh_None h) as Hp. set (p := fresh (dom h)) in *.
  destruct (link_ok h [] ns p v Hnd Hs Hp) as (h2 & h3 & E2 & E3 & Hs3 & Hf & Hd). cbn in E2. injection E2 as <-.
  destruct ns as [|[q w] ns].
  - rewrite decide_True by done. eexists _, _, p. split; [reflexivity|]. split; [done|].
    cbn in E3. injection E3 as <-. split; [|by split].
    by apply (repr_link h l [] [] p v).
  - rewrite decide_False by (rewrite Hlen; simpl; lia). rewrite Hhd. cbn [hd_or mbind option_bind] in *.
    cbn [set_prev_of] in E3. rewrite E3. cbn [mbind option_bind]. eexists _, _, p. split; [reflexivity|].
    split; [done|]. split; [|by split]. by apply (repr_link h l [] ((q, w) :: ns) p v).
Qed.

Lemma add_tail_ok h l ns v :
  list_repr h l ns -> Z.of_nat (length ns) + 1 < 2 ^ 64 ->
  ∃ h' l' p, m_listAddNodeTail h l v = Some (h', l') ∧ h !! p = None ∧
    list_repr h' l' (ns ++ [(p, v)]) ∧ linked h h' p ns ∧ l_dup l' = l_dup l ∧ l_free l' = l_free l.
Proof.
  intros Hl Hsm. pose proof Hl as [Hnd Hs Hhd Htl Hlen _]. unfold m_listAddNodeTail.
  pose proof (fresh_None h) as Hp. set (p := fresh (dom h)) in *. rewrite <- (app_nil_r ns) in Hnd, Hs.
  destruct (link_ok h ns [] p v Hnd Hs Hp) as (h2 & h3 & E2 & E3 & Hs3 & Hf & Hd). cbn in E3. injection E3 as <-.
  rewrite app_nil_r in Hf. rewrite <- (app_nil_r ns) in Hl, Hsm.
  destruct ns as [|x ns _] using rev_ind.
  - rewrite decide_True by done. eexists _, _, p. split; [reflexivity|]. split; [done|].
    cbn in E2. injection E2 as <-. split_and!; [|by split|done|done].
    by apply (repr_link h l [] [] p v).
  - rewrite decide_False by (rewrite Hlen, length_app; simpl; lia).
    destruct x as [q w]. rewrite last_or_app in *. cbn [last_or] in *. rewrite Htl. cbn [mbind option_bind].
    cbn [set_next_of hd_or] in E2. rewrite E2. cbn [mbind option_bind]. eexists _, _, p. split; [reflexivity|].
    split; [done|]. split_and!; [|by split|done|done].
    apply (repr_link h l (ns ++ [(q, w)]) [] p v); try done.
    + rewrite Hhd. by rewrite !hd_or_app.
    + by rewrite !last_or_app.
Qed.

(** The node an operation names. *)
Lemma split_node ns p : p ∈ ns.*1 -> ∃ A v B, ns = A ++ (p, v) :: B.
Proof.
  intros ([q v] & -> & Hx)%list_elem_of_fmap. apply list_elem_of_split in Hx as (A & B & ->).
  by exists A, v, B.
Qed.

Lemma nodup_middle A p v B :
  NoDup (A ++ (p, v) :: B).*1 -> (p ∉ A.*1) ∧ (p ∉ B.*1).
Proof.
  rewrite fmap_app, fmap_cons. cbn [fst]. rewrite <- Permutation_middle. intros [Hn _]%NoDup_cons.
  by rewrite not_elem_of_app in Hn.
Qed.

Lemma seq_insert_split p n v after A w B :
  p ∉ A.*1 ->
  seq_insert p n v after (A ++ (p, w) :: B) =
  if after then A ++ (p, w) :: (n, v) :: B else A ++ (n, v) :: (p, w) :: B.
Proof.
  induction A as [|[q u] A IH]; intros Hp; cbn [app seq_insert].
  - rewrite decide_True by done. by destruct after.
  - rewrite fmap_cons, not_elem_of_cons in Hp. cbn [fst] in Hp. rewrite decide_False by (intros ->; tauto).
    rewrite IH by tauto. by destruct after.
Qed.

Lemma last_or_nonempty pv pv' B : B ≠ [] -> last_or pv B = last_or pv' B.
Proof. destruct B as [|[q w] B]; [done|]. done. Qed.

Lemma insert_node_ok h l ns old v after :
  list_repr h l ns -> Z.of_nat (length ns) + 1 < 2 ^ 64 -> old ∈ ns.*1 ->
  ∃ h' l' p, m_listInsertNode h l old v after = Some (h', l') ∧ h !! p = None ∧
    list_repr h' l' (seq_insert old p v after ns) ∧ linked h h' p ns.
Proof.
  intros Hl Hsm Hold. destruct (split_node ns old Hold) as (A & w & B & ->).
  pose proof Hl as [Hnd Hs Hhd Htl Hlen _]. destruct (nodup_middle _ _ _ _ Hnd) as [HoA HoB].
  pose proof (unlink_ok h A B old w Hnd Hs) as [Hn _]. unfold m_listInsertNode.
  pose proof (fresh_None h) as Hp. set (p := fresh (dom h)) in *. rewrite Hn. cbn [mbind option_bind n_next n_prev].
  destruct after.
  - assert (A ++ (old, w) :: B = (A ++ [(old, w)]) ++ B) as E by (by rewrite <- app_assoc).
    rewrite E in Hnd, Hs, Hl, Hsm.
    destruct (link_ok h (A ++ [(old, w)]) B p v Hnd Hs Hp) as (h2 & h3 & E2 & E3 & Hs3 & Hf & Hd).
    rewrite last_or_app in E2. cbn [last_or] in E2. rewrite E2. cbn [mbind option_bind]. rewrite E3.
    cbn [mbind option_bind]. eexists _, _, p. split; [reflexivity|]. split; [done|].
    rewrite seq_insert_split by done. rewrite E. split; [|by split].
    replace (A ++ (old, w) :: (p, v) :: B) with ((A ++ [(old, w)]) ++ (p, v) :: B) by (by rewrite <- app_assoc).
    apply (repr_link h l (A ++ [(old, w)]) B p v); [done..| |].
    + rewrite Hhd, <- app_assoc, !hd_or_app. done.
    + rewrite Htl, !last_or_app. cbn [last_or]. destruct B as [|[q u] B]; cbn [last_or]; [by rewrite decide_True|].
      rewrite decide_False; [done|]. intros [Ec|Hin]%last_or_elem.
      * injection Ec as ->. apply HoB. by left.
      * apply HoB. by right.
  - destruct (link_ok h A ((old, w) :: B) p v Hnd Hs Hp) as (h2 & h3 & E2 & E3 & Hs3 & Hf & Hd).
    cbn [hd_or] in E2, E3. rewrite E2. cbn [mbind option_bind]. rewrite E3.
    cbn [mbind option_bind]. eexists _, _, p. split; [reflexivity|]. split; [done|].
    rewrite seq_insert_split by done. split; [|by split].
    apply (repr_link h l A ((old, w) :: B) p v); [done..| |].
    + rewrite Hhd, !hd_or_app. destruct A as [|[q u] A]; cbn [hd_or]; [by rewrite decide_True|].
      rewrite decide_False; [done|]. intros [= ->]. apply HoA. by left.
    + rewrite Htl, !last_or_app. done.
Qed.

Lemma del_node_ok h l A p v B :
  list_repr h l (A ++ (p, v) :: B) ->
  ∃ h' l', m_listDelNode h l p = Some (call_free l v, h', l') ∧ list_repr h' l' (A ++ B) ∧
    (∀ q, q ≠ p -> q ∉ (A ++ B).*1 -> h' !! q = h !! q) ∧ dom h' = dom h ∖ {[p]} ∧ l_free l' = l_free l.
Proof.
  intros [Hnd Hs Hhd Htl Hlen Hsm]. destruct (unlink_ok h A B p v Hnd Hs) as (Hn & h1 & h2 & E1 & E2 & Hs2 & Hf & Hd).
  unfold m_listDelNode. rewrite Hn. cbn [mbind option_bind n_next n_prev n_value]. rewrite E1.
  cbn [mbind option_bind]. rewrite E2. cbn [mbind option_bind]. eexists _, _. split; [reflexivity|].
  rewrite fmap_app, fmap_cons in Hnd. cbn [fst] in Hnd. rewrite <- Permutation_middle in Hnd.
  apply NoDup_cons in Hnd as [Hnot Hnd]. rewrite <- fmap_app in Hnot, Hnd.
  rewrite length_app in Hlen, Hsm. cbn [length] in Hlen, Hsm. split_and!; [| | |done].
  - split; cbn [with_ends l_head l_tail l_len]; [done|done| | | |].
    + rewrite hd_or_app in *. destruct A as [|[q u] A _] using rev_ind; [done|].
      rewrite last_or_app. cbn [last_or]. rewrite Hhd. by rewrite !hd_or_app.
    + rewrite Htl, !last_or_app. cbn [last_or]. destruct B as [|[q u] B]; [done|]. done.
    + rewrite Hlen, u64_small by lia. rewrite length_app. lia.
    + rewrite length_app. lia.
  - intros q Hq Hin. rewrite lookup_delete_ne by done. by apply Hf.
  - rewrite dom_delete_L, Hd. done.
Qed.

Lemma filter_split A p v B :
  NoDup (A ++ (p, v) :: B).*1 ->
  filter (λ x, x.1 ≠ p) (A ++ (p, v) :: B) = A ++ B ∧
  filter (λ x, x.1 = p) (A ++ (p, v) :: B) = [(p, v)].
Proof.
  intros [HA HB]%nodup_middle.
  assert (∀ C : list (lloc * V), p ∉ C.*1 ->
    filter (λ x, x.1 ≠ p) C = C ∧ filter (λ x, x.1 = p) C = []) as Hout.
  { induction C as [|[q u] C IH]; intros Hp; [done|]. rewrite fmap_cons, not_elem_of_cons in Hp.
    cbn [fst] in Hp. destruct IH as [E1 E2]; [tauto|].
    rewrite filter_cons_True by (cbn; intros ->; tauto). rewrite filter_cons_False by (cbn; intros ->; tauto).
    by rewrite E1, E2. }
  destruct (Hout A HA) as [E1 E2]. destruct (Hout B HB) as [E3 E4].
  rewrite !filter_app, filter_cons_False, filter_cons_True by (cbn; tauto).
  by rewrite E1, E2, E3, E4.
Qed.

Definition values l ns : list V := if l_free l then ns.*2 else [].

Lemma empty_loop_ok h l pv ns :
  NoDup ns.*1 -> dseg h pv ns None ->
  ∃ h', empty_loop (length ns) h l (hd_or ns None) = Some (values l ns, h') ∧
    (∀ q, q ∉ ns.*1 -> h' !! q = h !! q) ∧ dom h' = dom h ∖ list_to_set ns.*1.
Proof.
  revert h pv. induction ns as [|[p v] ns IH]; intros h pv Hnd Hs; cbn [length empty_loop].
  { exists h. unfold values. cbn. split_and!; [by destruct (l_free l)|done|].
    by rewrite difference_empty_L. }
  cbn [hd_or mbind option_bind]. destruct Hs as [Hp Hs]. rewrite Hp. cbn [mbind option_bind n_next n_value].
  rewrite fmap_cons in Hnd. apply NoDup_cons in Hnd as [Hnot Hnd]. cbn [fst] in Hnot.
  destruct (IH (delete p h) (Some p) Hnd) as (h' & -> & Hf & Hd).
  { eapply dseg_agree; [|exact Hs]. intros q Hq. rewrite lookup_delete_ne; [done|]. by intros ->. }
  cbn [mbind option_bind]. eexists. split; [|split].
  - unfold values, call_free. by destruct (l_free l).
  - intros q Hq. rewrite fmap_cons, not_elem_of_cons in Hq. cbn [fst] in Hq.
    rewrite Hf by tauto. rewrite lookup_delete_ne; [done|]. intros ->. tauto.
  - rewrite Hd, dom_delete_L, fmap_cons. cbn [list_to_set fst]. by rewrite difference_difference_l_L.
Qed.

Lemma empty_ok h l ns :
  list_repr h l ns ->
  ∃ h' l', m_listEmpty h l = Some (values l ns, h', l') ∧ list_repr h' l' [] ∧
    (∀ q, q ∉ ns.*1 -> h' !! q = h !! q) ∧ dom h' = dom h ∖ list_to_set ns.*1.
Proof.
  intros [Hnd Hs Hhd Htl Hlen _]. unfold m_listEmpty. rewrite Hlen, Nat2Z.id, Hhd.
  destruct (empty_loop_ok h l None ns Hnd Hs) as (h' & -> & Hf & Hd). cbn [mbind option_bind].
  eexists h', _. split; [reflexivity|]. split_and!; [|done|done]. split; try done. constructor.
Qed.

Lemma rotate_ok h l A t v :
  list_repr h l (A ++ [(t, v)]) -> A ≠ [] ->
  ∃ h' l', m_listRotate h l = Some (h', l') ∧ list_repr h' l' ((t, v) :: A) ∧
    (∀ q, q ∉ (A ++ [(t, v)]).*1 -> h' !! q = h !! q) ∧ dom h' = dom h.
Proof.
  intros [Hnd Hs Hhd Htl Hlen Hsm] HA. unfold m_listRotate.
  destruct (nodup_middle _ _ _ _ Hnd) as [HtA _]. pose proof Hnd as HndA.
  rewrite fmap_app in HndA. apply NoDup_app in HndA as (HndA & _ & _).
  rewrite length_app in Hlen, Hsm. cbn [length] in Hlen, Hsm.
  assert (0 < length A)%nat by (destruct A; [done|simpl; lia]).
  destruct (Z.leb_spec (l_len l) 1); [lia|]. rewrite Htl, last_or_app. cbn [last_or mbind option_bind].
  apply dseg_app in Hs as [HsA [Ht _]]. cbn [hd_or last_or] in *. rewrite Ht. cbn [mbind option_bind n_prev].
  destruct (set_next_last h None A (Some t) None HndA HsA) as (h1 & E1 & Hs1 & Hf1 & Hd1).
  destruct (set_prev_first h1 None (Some t) A None HndA Hs1) as (h2 & E2 & Hs2 & Hf2 & Hd2).
  rewrite hd_or_app in Hhd. destruct (last_or None A) as [q|] eqn:Eq.
  2:{ exfalso. destruct A as [|[x w] A _] using rev_ind; [done|]. rewrite last_or_app in Eq. done. }
  cbn [mbind option_bind]. cbn [set_next_of] in E1. rewrite E1. cbn [mbind option_bind].
  destruct A as [|[a w] A']; [done|]. cbn [hd_or set_prev_of] in E2, Hhd. rewrite Hhd.
  cbn [mbind option_bind]. rewrite E2. cbn [mbind option_bind].
  assert (h2 !! t = Some (LNode (Some q) None v)) as Ht2 by (by rewrite Hf2, Hf1 by done).
  unfold set_prev at 1. rewrite Ht2. cbn [mbind option_bind n_next n_value].
  unfold set_next. rewrite lookup_insert_eq. cbn [mbind option_bind n_prev n_value].
  rewrite insert_insert_eq. eexists _, _. split; [reflexivity|]. split_and!.
  - split; cbn [with_ends l_head l_tail l_len]; [| |done| | |].
    + rewrite fmap_cons. apply NoDup_cons. by split.
    + cbn [dseg hd_or]. rewrite lookup_insert_eq. split; [done|].
      by apply (dseg_insert h2 (Some t) ((a, w) :: A')).
    + rewrite <- Eq. done.
    + rewrite Hlen. cbn [length]. lia.
    + cbn [length] in *. lia.
  - intros x Hx. rewrite fmap_app, not_elem_of_app in Hx. destruct Hx as [Hx1 Hx2].
    rewrite lookup_insert_ne by (intros <-; apply Hx2; by left). by rewrite Hf2, Hf1.
  - rewrite dom_insert_lookup_L by (by rewrite Ht2). congruence.
Qed.

Lemma rotate_short h l ns : list_repr h l ns -> (length ns <= 1)%nat -> m_listRotate h l = Some (h, l).
Proof.
  intros [_ _ _ _ Hlen _] Hl. unfold m_listRotate. by destruct (Z.leb_spec (l_len l) 1); [|lia].
Qed.

(** ** Properties *)

(** C29. Every operation of the list refines the operation on the sequence of its
    nodes: insertion at either end and beside a node, deletion, rotation,
    emptying.  It reads no node that is not there, hands each value it
    releases to the [free] method once, and leaves every other node alone. *)
Theorem list_op_refines h l ns op :
  list_repr h l ns -> Z.of_nat (length ns) + 1 < 2 ^ 64 -> op_ok op ns ->
  ∃ n freed h' l', apply_op h l op = Some (freed, h', l') ∧ h !! n = None ∧
    list_repr h' l' (seq_op n op ns) ∧ freed = values l (seq_freed op ns) ∧
    ∀ q, q ≠ n -> q ∉ ns.*1 -> h' !! q = h !! q.
Proof.
  intros Hl Hsm Hop. unfold values. destruct op as [v|v|old v after|p| |]; cbn [apply_op seq_op seq_freed op_ok] in *.
  - destruct (add_head_ok h l ns v Hl Hsm) as (h' & l' & n & -> & Hn & Hl' & Hf & _).
    exists n, [], h', l'. split_and!; [done..|by destruct (l_free l)|done].
  - destruct (add_tail_ok h l ns v Hl Hsm) as (h' & l' & n & -> & Hn & Hl' & [Hf _] & _).
    exists n, [], h', l'. split_and!; [done..|by destruct (l_free l)|done].
  - destruct (insert_node_ok h l ns old v after Hl Hsm Hop) as (h' & l' & n & -> & Hn & Hl' & Hf & _).
    exists n, [], h', l'. split_and!; [done..|by destruct (l_free l)|done].
  - destruct (split_node ns p Hop) as (A & v & B & ->).
    destruct (filter_split A p v B (lr_nodup _ _ _ Hl)) as [-> ->].
    destruct (del_node_ok h l A p v B Hl) as (h' & l' & -> & Hl' & Hf & _).
    eexists (fresh (dom h)), _, h', l'. split_and!; [done|apply fresh_None|done|done|].
    intros q _ Hq. rewrite fmap_app, fmap_cons, not_elem_of_app, not_elem_of_cons in Hq. cbn [fst] in Hq.
    apply Hf; [tauto|]. rewrite fmap_app, not_elem_of_app. tauto.
  - destruct ns as [|[t v] A _] using rev_ind.
    { rewrite (rotate_short h l [] Hl) by (simpl; lia). exists (fresh (dom h)), [], h, l.
      split_and!; [done|apply fresh_None|done|by destruct (l_free l)|done]. }
    rewrite last_snoc, length_app, Nat.add_sub, take_app_length.
    destruct A as [|a A].
    { rewrite (rotate_short h l [(t, v)] Hl) by (simpl; lia). exists (fresh (dom h)), [], h, l.
      split_and!; [done|apply fresh_None|done|by destruct (l_free l)|done]. }
    destruct (rotate_ok h l (a :: A) t v Hl) as (h' & l' & -> & Hl' & Hf & _); [done|].
    exists (fresh (dom h)), [], h', l'. split_and!; [done|apply fresh_None|done|by destruct (l_free l)|].
    intros q _ Hq. by apply Hf.
  - destruct (empty_ok h l ns Hl) as (h' & l' & -> & Hl' & Hf & _).
    eexists (fresh (dom h)), _, h', l'. split_and!; [done|apply fresh_None|done|done|].
    intros q _ Hq. by apply Hf.
Qed.
End props.

(** ** Searches, access by index, copies and concatenation *)
Section read.
Context {V : Type} `{EqDecision V}.
Notation lheap := (gmap lloc (m_listNode V)).
Implicit Types (h : lheap) (l : alist V) (p : lloc) (ns A B : list (lloc * V)).

(** ** Iterators *)
Lemma next_forward h A B :
  dseg h None (A ++ B) None ->
  m_listNext h (LIter (hd_or B None) AL_START_HEAD) =
  Some (fst <$> head B, LIter (hd_or (tail B) None) AL_START_HEAD).
Proof.
  intros Hs. apply dseg_app in Hs as [_ Hs]. unfold m_listNext. destruct B as [|[p v] B]; [done|].
  cbn [hd_or it_next it_direction dseg] in *. destruct Hs as [Hp _]. rewrite Hp. done.
Qed.

Lemma node_middle h A p v B :
  dseg h None (A ++ (p, v) :: B) None -> h !! p = Some (LNode (last_or None A) (hd_or B None) v).
Proof. intros Hs. by apply dseg_app in Hs as [_ [Hp _]]. Qed.

Lemma search_loop_ok fuel h l key A B :
  dseg h None (A ++ B) None -> (length B <= fuel)%nat ->
  search_loop fuel h l key (LIter (hd_or B None) AL_START_HEAD) =
  Some (fst <$> head (filter (λ x, matches l x.2 key = true) B)).
Proof.
  revert A B. induction fuel as [|fuel IH]; intros A B Hs Hf; cbn [search_loop];
    rewrite (next_forward h A B Hs); cbn [mbind option_bind].
  - destruct B; [done|simpl in Hf; lia].
  - destruct B as [|[p v] B]; [done|]. cbn [head tail fmap option_fmap option_map fst].
    rewrite (node_middle h A p v B Hs). cbn [mbind option_bind n_value].
    destruct (matches l v key) eqn:Em.
    + by rewrite filter_cons_True.
    + rewrite filter_cons_False by (cbn; congruence). apply (IH (A ++ [(p, v)])).
      * by rewrite <- app_assoc.
      * simpl in Hf. lia.
Qed.

Lemma index_forward fuel h i A B :
  dseg h None (A ++ B) None -> (length B <= fuel)%nat -> 0 <= i ->
  index_loop fuel h AL_START_HEAD i (hd_or B None) = Some (fst <$> B !! Z.to_nat i).
Proof.
  revert i A B. induction fuel as [|fuel IH]; intros i A B Hs Hf Hi; cbn [index_loop].
  { destruct B; [|simpl in Hf; lia]. cbn. by case_decide. }
  case_decide as Hz; [subst i; by destruct B as [|[]]|].
  destruct B as [|[p v] B]; [done|]. cbn [hd_or].
  rewrite (node_middle h A p v B Hs). cbn [mbind option_bind n_next].
  rewrite decide_True by done. rewrite (IH (i - 1) (A ++ [(p, v)]) B);
    [|by rewrite <- app_assoc|simpl in Hf; lia|lia].
  replace (Z.to_nat i) with (S (Z.to_nat (i - 1))) by lia. done.
Qed.

Lemma index_backward fuel h i A B :
  dseg h None (A ++ B) None -> (length A <= fuel)%nat -> 0 <= i ->
  index_loop fuel h AL_START_TAIL i (last_or None A) = Some (fst <$> reverse A !! Z.to_nat i).
Proof.
  revert i A B. induction fuel as [|fuel IH]; intros i A B Hs Hf Hi; cbn [index_loop].
  { destruct A; [|simpl in Hf; lia]. cbn. by case_decide. }
  destruct A as [|[p v] A _] using rev_ind; [by case_decide|].
  rewrite last_or_app, reverse_snoc. cbn [last_or].
  case_decide as Hz; [by subst i|]. rewrite <- app_assoc in Hs. cbn [app] in Hs.
  rewrite (node_middle h A p v B Hs). cbn [mbind option_bind n_prev].
  rewrite decide_False by done. rewrite length_app in Hf. simpl in Hf.
  rewrite (IH (i - 1) A ((p, v) :: B)); [|done|lia|lia].
  replace (Z.to_nat i) with (S (Z.to_nat (i - 1))) by lia. done.
Qed.

(** ** Copies *)
Definition copy_value l (v : V) : option V := match l_dup l with Some dup => dup v | None => Some v end.

(** What the copy shares with the original, and the copied nodes. *)
Definition disjoint_nodes A B : Prop := ∀ p, p ∈ A.*1 -> p ∉ B.*1.

Lemma dup_loop_ok fuel h copy A B C :
  dseg h None (A ++ B) None -> (length B <= fuel)%nat ->
  list_repr h copy C -> disjoint_nodes (A ++ B) C -> Z.of_nat (length C + length B) + 1 < 2 ^ 64 ->
  ∃ freed h' r, dup_loop fuel h copy (LIter (hd_or B None) AL_START_HEAD) = Some (freed, h', r) ∧
    (∀ q, q ∈ dom h -> q ∉ C.*1 -> h' !! q = h !! q) ∧
    match r with
    | Some c => ∃ C', list_repr h' c (C ++ C') ∧ mapM (copy_value copy) B.*2 = Some C'.*2 ∧
        freed = [] ∧ disjoint_nodes (A ++ B) (C ++ C')
    | None => mapM (copy_value copy) B.*2 = None ∧ dom h' = dom h ∖ list_to_set C.*1
    end.
Proof.
  revert h copy A B C. induction fuel as [|fuel IH]; intros h copy A B C Hs Hf Hc Hdis Hsm;
    cbn [dup_loop]; rewrite (next_forward h A B Hs); cbn [mbind option_bind].
  { destruct B; [|simpl in Hf; lia]. exists [], h, (Some copy). split_and!; [done|done|].
    exists []. rewrite app_nil_r. by split_and!. }
  destruct B as [|[p v] B].
  { exists [], h, (Some copy). split_and!; [done|done|]. exists []. rewrite app_nil_r. by split_and!. }
  cbn [head tail fmap option_fmap option_map fst]. rewrite (node_middle h A p v B Hs).
  cbn [mbind option_bind n_value]. rewrite fmap_cons. cbn [snd mapM]. fold (copy_value copy v).
  destruct (copy_value copy v) as [w|].
  - cbn [length] in Hsm, Hf.
    destruct (add_tail_ok h copy C w Hc) as (h1 & c1 & n & -> & Hn & Hc1 & [Hf1 Hd1] & Edup & _); [lia|].
    cbn [mbind option_bind].
    assert (∀ q, q ∈ dom h -> q ≠ n) as Hne by (intros q Hq ->; by apply not_elem_of_dom in Hn).
    assert (∀ q, q ∈ (A ++ (p, v) :: B).*1 -> q ∈ dom h) as Hdom.
    { intros q Hq. apply elem_of_dom. by eapply dseg_lookup. }
    destruct (IH h1 c1 (A ++ [(p, v)]) B (C ++ [(n, w)])) as (freed & h' & r & E & Hf' & Hr).
    + rewrite <- app_assoc. cbn [app]. eapply dseg_agree; [|exact Hs].
      intros q Hq. apply Hf1; [by apply Hne, Hdom|by apply Hdis].
    + lia.
    + done.
    + rewrite <- app_assoc. cbn [app]. intros q Hq. rewrite fmap_app, not_elem_of_app.
      split; [by apply Hdis|]. intros ->%list_elem_of_singleton. by apply (Hne n); [apply Hdom|].
    + rewrite length_app. simpl. lia.
    + exists freed, h', r. split; [done|]. split.
      * intros q Hq HqC. rewrite Hf'; [by apply Hf1; [apply Hne|]| |].
        -- rewrite Hd1, elem_of_union. by right.
        -- rewrite fmap_app, not_elem_of_app. split; [done|].
           intros ->%list_elem_of_singleton. by apply (Hne n).
      * unfold copy_value in Hr |- *. rewrite Edup in Hr. rewrite <- app_assoc in Hr. cbn [app] in Hr.
        destruct r as [c|].
        -- destruct Hr as (C' & Hc' & Em & Efr & Hdis'). exists ((n, w) :: C').
           rewrite <- app_assoc in Hc', Hdis'. cbn [app] in Hc', Hdis'.
           split_and!; [done| |done|done]. rewrite Em. done.
        -- destruct Hr as [Em Hd']. split; [by rewrite Em|]. rewrite Hd', Hd1, fmap_app, list_to_set_app_L.
           cbn [list_to_set fmap list_fmap fst].
           apply set_eq. intros x. rewrite !elem_of_difference, !elem_of_union, elem_of_empty, elem_of_singleton.
           split; [tauto|]. intros [Hx HxC]. split; [tauto|]. intros [?|[->|[]]]; [done|]. by apply (Hne n).
  - destruct (empty_ok h copy C Hc) as (h' & c' & E & _ & Hf' & Hd'). unfold m_listRelease. rewrite E.
    cbn [mbind option_bind]. eexists _, h', None. split; [reflexivity|]. split; [|done].
    intros q _ Hq. by apply Hf'.
Qed.

Lemma repr_agree h h' l ns :
  (∀ p, p ∈ ns.*1 -> h' !! p = h !! p) -> list_repr h l ns -> list_repr h' l ns.
Proof. intros Hag [H1 H2 H3 H4 H5 H6]. split; try done. by eapply dseg_agree. Qed.

(** ** Properties *)

(** [m_listDup] copies the list, value by value with the [dup] method, into
    new nodes, and leaves the original as it was; when [dup] fails on a value
    it returns [NULL] and has released every node it made. *)
Theorem m_listDup_spec h l ns :
  list_repr h l ns -> 2 * Z.of_nat (length ns) + 1 < 2 ^ 64 ->
  ∃ freed h' r, m_listDup h l = Some (freed, h', r) ∧ list_repr h' l ns ∧
    match r with
    | Some c => ∃ ns', list_repr h' c ns' ∧ mapM (copy_value l) ns.*2 = Some ns'.*2 ∧
        disjoint_nodes ns ns'
    | None => mapM (copy_value l) ns.*2 = None ∧ dom h' = dom h
    end.
Proof.
  intros Hl Hsm. pose proof Hl as [Hnd Hs Hhd _ Hlen _]. unfold m_listDup, m_listRewind.
  rewrite Hlen, Nat2Z.id, Hhd. set (copy := AList _ _ _ _ _ _).
  destruct (dup_loop_ok (length ns) h copy [] ns []) as (freed & h' & r & E & Hf & Hr); [done|done| | |simpl; lia|].
  - split; try done. constructor.
  - intros q _ Hq. by apply elem_of_nil in Hq.
  - exists freed, h', r. split; [done|]. split.
    + eapply repr_agree; [|exact Hl]. intros q Hq. apply Hf; [|by intros ?%elem_of_nil].
      apply elem_of_dom. by eapply dseg_lookup.
    + destruct r as [c|]; [destruct Hr as (C' & ? & ? & _ & ?); by exists C'|].
      destruct Hr as [Hr1 Hr2]. split; [done|]. rewrite Hr2. cbn. by rewrite difference_empty_L.
Qed.

(** [m_listSearchKey] returns the first node that matches the key, by the
    [match] method or by the pointer, or [NULL]. *)
Theorem m_listSearchKey_spec h l ns key :
  list_repr h l ns ->
  m_listSearchKey h l key = Some (fst <$> head (filter (λ x, matches l x.2 key = true) ns)).
Proof.
  intros [_ Hs Hhd _ Hlen _]. unfold m_listSearchKey, m_listRewind. rewrite Hlen, Nat2Z.id, Hhd.
  by apply (search_loop_ok _ h l key []).
Qed.

(** [m_listIndex] is access by position, from the head for an index from 0
    on and from the tail for a negative one; it returns [NULL] out of range. *)
Theorem m_listIndex_spec h l ns i :
  list_repr h l ns -> LLONG_MIN < i <= LLONG_MAX ->
  m_listIndex h l i =
  Some (fst <$> if decide (i < 0) then reverse ns !! Z.to_nat (- i - 1) else ns !! Z.to_nat i).
Proof.
  intros [_ Hs Hhd Htl Hlen _] Hi. unfold m_listIndex. rewrite Hlen, Nat2Z.id, Hhd, Htl.
  case_decide.
  - rewrite decide_False by lia. rewrite <- (app_nil_r ns) in Hs.
    by apply (index_backward _ h _ ns []); [done..|lia].
  - by apply (index_forward _ h _ []); [done..|lia].
Qed.

(** [m_listJoin] appends the nodes of the second list to the first and
    leaves the second empty. *)
Theorem m_listJoin_spec h l o A B :
  list_repr h l A -> list_repr h o B -> disjoint_nodes A B ->
  Z.of_nat (length A + length B) < 2 ^ 64 ->
  ∃ h' l' o', m_listJoin h l o = Some (h', l', o') ∧ list_repr h' l' (A ++ B) ∧ list_repr h' o' [] ∧
    dom h' = dom h.
Proof.
  intros [HndA HsA HhdA HtlA HlenA _] [HndB HsB HhdB HtlB HlenB _] Hdis Hsm. unfold m_listJoin.
  rewrite HhdB, HtlA.
  destruct (set_prev_first h None (last_or None A) B None HndB HsB) as (h1 & -> & Hs1 & Hf1 & Hd1).
  cbn [mbind option_bind].
  assert (dseg h1 None A None) as HsA1.
  { eapply dseg_agree; [|exact HsA]. intros q Hq. apply Hf1. by apply Hdis. }
  destruct (set_next_last h1 None A None (hd_or B None) HndA HsA1) as (h2 & -> & Hs2 & Hf2 & Hd2).
  cbn [mbind option_bind]. eexists h2, _, _. split; [reflexivity|]. split_and!; [| |congruence].
  - split; cbn [with_ends l_head l_tail l_len].
    + rewrite fmap_app. apply NoDup_app. by split_and!.
    + apply dseg_app. split; [done|]. eapply dseg_agree; [|exact Hs1].
      intros q Hq. apply Hf2. intros HqA. by apply (Hdis q).
    + rewrite hd_or_app, HhdA. destruct A as [|[q v] A _] using rev_ind; [done|].
      rewrite last_or_app. cbn [last_or]. by rewrite !hd_or_app.
    + rewrite last_or_app, HtlB. destruct B as [|[q v] B _] using rev_ind; [done|].
      by rewrite !last_or_app.
    + rewrite HlenA, HlenB, u64_small by lia. rewrite length_app. lia.
    + rewrite length_app. lia.
  - split; try done. constructor.
Qed.
End read.

(** ** Witnesses: a list of three integers *)
Definition ex_add (s : gmap lloc (m_listNode Z) * alist Z) (v : Z) :=
  match m_listAddNodeTail s.1 s.2 v with Some s' => s' | None => s end.

Definition ex_hl : gmap lloc (m_listNode Z) * alist Z :=
  ex_add (ex_add (ex_add (∅, m_listCreate) 10) 20) 30.

Lemma ex_add_ok s ns v :
  list_repr s.1 s.2 ns -> Z.of_nat (length ns) + 1 < 2 ^ 64 ->
  ∃ p, list_repr (ex_add s v).1 (ex_add s v).2 (ns ++ [(p, v)]).
Proof.
  intros Hl Hsm. destruct (add_tail_ok s.1 s.2 ns v Hl Hsm) as (h' & l' & p & E & _ & Hl' & _).
  exists p. unfold ex_add. by rewrite E.
Qed.

Lemma ex_hl_repr : ∃ n1 n2 n3, list_repr ex_hl.1 ex_hl.2 [(n1, 10); (n2, 20); (n3, 30)].
Proof.
  assert (list_repr (V := Z) ∅ m_listCreate []) as H0 by (split; try done; constructor).
  destruct (ex_add_ok (∅, m_listCreate) [] 10 H0) as (n1 & H1); [simpl; lia|].
  destruct (ex_add_ok _ _ 20 H1) as (n2 & H2); [simpl; lia|].
  destruct (ex_add_ok _ _ 30 H2) as (n3 & H3); [simpl; lia|]. by exists n1, n2, n3.
Qed.

Lemma list_op_refines_witness : ∃ n1 n2 n3 n freed h' l',
  apply_op ex_hl.1 ex_hl.2 (DelNode n2) = Some (freed, h', l') ∧
  list_repr h' l' (seq_op n (DelNode n2) [(n1, 10); (n2, 20); (n3, 30)]).
Proof.
  destruct ex_hl_repr as (n1 & n2 & n3 & Hl). exists n1, n2, n3.
  destruct (list_op_refines ex_hl.1 ex_hl.2 [(n1, 10); (n2, 20); (n3, 30)] (DelNode n2) Hl)
    as (n & freed & h' & l' & E & _ & Hl' & _); [simpl; lia|right; left|].
  exists n, freed, h', l'. exact (conj E Hl').
Defined.

Lemma m_listDup_spec_witness : ∃ n1 n2 n3 freed h' r,
  m_listDup ex_hl.1 ex_hl.2 = Some (freed, h', r) ∧ list_repr h' ex_hl.2 [(n1, 10); (n2, 20); (n3, 30)].
Proof.
  destruct ex_hl_repr as (n1 & n2 & n3 & Hl). exists n1, n2, n3.
  destruct (m_listDup_spec ex_hl.1 ex_hl.2 [(n1, 10); (n2, 20); (n3, 30)] Hl)
    as (freed & h' & r & E & Hl' & _); [simpl; lia|].
  exists freed, h', r. exact (conj E Hl').
Defined.

Lemma m_listSearchKey_spec_witness : ∃ n2, m_listSearchKey ex_hl.1 ex_hl.2 20 = Some (Some n2).
Proof.
  destruct ex_hl_repr as (n1 & n2 & n3 & Hl). exists n2.
  exact (m_listSearchKey_spec ex_hl.1 ex_hl.2 [(n1, 10); (n2, 20); (n3, 30)] 20 Hl).
Defined.

Lemma m_listIndex_spec_witness : ∃ n3, m_listIndex ex_hl.1 ex_hl.2 (-1) = Some (Some n3).
Proof.
  destruct ex_hl_repr as (n1 & n2 & n3 & Hl). exists n3.
  apply (m_listIndex_spec ex_hl.1 ex_hl.2 [(n1, 10); (n2, 20); (n3, 30)] (-1) Hl).
  unfold LLONG_MIN, LLONG_MAX. lia.
Defined.

Lemma m_listJoin_spec_witness : ∃ n1 n2 n3 h' l' o',
  m_listJoin ex_hl.1 ex_hl.2 m_listCreate = Some (h', l', o') ∧
  list_repr h' l' ([(n1, 10); (n2, 20); (n3, 30)] ++ []).
Proof.
  destruct ex_hl_repr as (n1 & n2 & n3 & Hl). exists n1, n2, n3.
  destruct (m_listJoin_spec ex_hl.1 ex_hl.2 m_listCreate [(n1, 10); (n2, 20); (n3, 30)] [] Hl)
    as (h' & l' & o' & E & Hl' & _).
  - split; try done. constructor.
  - intros q _ Hq. by apply elem_of_nil in Hq.
  - simpl. lia.
  - exists h', l', o'. exact (conj E Hl').
Defined.
