(* ===== verification/Slots.v ===== *)
(** * Slots: the key index of redisxslot.c

    Each database keeps the names of its keys in one hash table per slot, and
    the names of its tagged keys in one skip list, by the checksum of their
    tags.  This file models that state, its creation and release, and the two
    updates [Slots_Add] and [Slots_Del].

    The strings are Redis's: what the code uses of them is the class
    [RedisStrings].  A function returns what it does to reference counts as a
    list of [str_event]s.  The operations are the ones of one thread, the
    server's; the [pthread_rwlock]s around them have no counterpart. *)

From S2P Require Import Prelude.
From S2P Require Import Crc32.
From S2P Require Import KeySlot.
From S2P Require Import Dict.
From S2P Require Import SkipList.
Local Open Scope Z_scope.

(** ** [RedisModuleString] *)
Class RedisStrings (S : Type) := {
  str_eq_dec :: EqDecision S;
  (* [RedisModule_StringPtrLen] *)
  content : S -> list byte;
  RedisModule_StringCompare : S -> S -> Z;
  RedisModule_StringToLongLong : S -> option Z;
  RedisModule_CreateStringFromLongLong : Z -> S;
  RedisModule_CreateStringFromString : S -> S;
  (* [NULL] where the server has no such function *)
  RedisModule_HoldString : option (S -> S);
  RedisModule_RetainString : bool
}.

(** A string created with the context of the call, a reference taken, and a
    reference given back. *)
Inductive str_event (S : Type) := Created (s : S) | Held (s : S) | Freed (s : S).
Arguments Created {S} _.
Arguments Held {S} _.
Arguments Freed {S} _.

(** ** State *)
Record slots_meta_info := MetaInfo {
  hash_slots_size : Z; (* uint32_t *)
  databases : Z;
  activerehashing : bool;
  async : bool;
  cronloops : Z;
  slots_dump_threads : Z;
  slots_mgrt_threads : Z;
  slots_restore_threads : Z
}.

Record db_slot_info (S : Type) := DbSlotInfo {
  slotkey_table_rehashing : Z;
  slotkey_tables : list (dict S S);
  tagged_key_list : m_zskiplist S
}.
Arguments DbSlotInfo {S} _ _ _.
Arguments slotkey_table_rehashing {S} _.
Arguments slotkey_tables {S} _.
Arguments tagged_key_list {S} _.

(** The globals; [db_slot_infos] is empty for [NULL].  The last three are the
    statics of crc32.c and dict.c. *)
Record slots_state (S : Type) := SlotsState {
  g_slots_meta_info : slots_meta_info;
  db_slot_infos : list (db_slot_info S);
  crc32tab : list Z;
  dict_hash_function_seed : list byte;
  dict_can_resize : bool
}.
Arguments SlotsState {S} _ _ _ _ _.
Arguments g_slots_meta_info {S} _.
Arguments db_slot_infos {S} _.
Arguments crc32tab {S} _.
Arguments dict_hash_function_seed {S} _.
Arguments dict_can_resize {S} _.

Section slots.
Context {S : Type} `{RedisStrings S}.
Implicit Types (st : slots_state S) (di : db_slot_info S) (key : S).

(** ** The callbacks of the tables *)

(** The seed is 16 bytes; [(int)len] is the length, a string having less than
    2^31 bytes. *)
Definition dictModuleStrHash (seed : list byte) key : Z :=
  default 0 (m_dictGenHashFunction seed (content key)).

Definition dictModuleStrKeyCompare (key1 key2 : S) : bool :=
  if negb (Nat.eqb (length (content key1)) (length (content key2))) then false
  else bool_decide (content key1 = content key2).

Definition dictModuleKeyDestructor (val : option S) : list (str_event S) :=
  match val with Some val => [Freed val] | None => [] end.

Definition dictModuleValueDestructor (val : option S) : list (str_event S) :=
  match val with Some val => [Freed val] | None => [] end.

Definition hashSlotDictType (seed : list byte) : m_dictType S S :=
  DictType (dictModuleStrHash seed) None None (Some dictModuleStrKeyCompare) true true.

(** What the callbacks of a table do when the table calls them. *)
Definition destroy (ev : dict_event S S) : list (str_event S) :=
  match ev with
  | FreeKey k => dictModuleKeyDestructor (Some k)
  | FreeVal v => dictModuleValueDestructor v
  | Callback => []
  end.

(** ** Creation and release *)
Definition new_db_slot_info (seed : list byte) (size : Z) : db_slot_info S :=
  DbSlotInfo 0 (replicate (Z.to_nat size) (m_dictCreate (hashSlotDictType seed))) m_zslCreate.

(** The numbers of threads that dump and restore are not set: they stay 0. *)
Definition Slots_Init (seed : list byte) (tab0 : list Z) (hash_slots_size databases num_threads : Z)
    (activerehashing async : bool) : slots_state S :=
  SlotsState (MetaInfo hash_slots_size databases activerehashing async 0 0 num_threads 0)
    (replicate (Z.to_nat databases) (new_db_slot_info seed hash_slots_size))
    (crc32_init tab0) seed true.

Fixpoint release_tables (tables : list (dict S S)) : option (list (str_event S)) :=
  match tables with
  | [] => Some []
  | d :: tables =>
    freed ← m_dictRelease d;
    rest ← release_tables tables;
    Some ((freed ≫= destroy) ++ rest)
  end.

Fixpoint release_dbs (infos : list (db_slot_info S)) : option (list (str_event S)) :=
  match infos with
  | [] => Some []
  | di :: infos =>
    freed ← release_tables (slotkey_tables di);
    '(tagged, _) ← m_zslFree (tagged_key_list di);
    rest ← release_dbs infos;
    Some (freed ++ map Freed tagged ++ rest)
  end.

Definition Slots_Free st : option (list (str_event S) * slots_state S) :=
  freed ← release_dbs (db_slot_infos st);
  Some (freed, SlotsState (g_slots_meta_info st) [] (crc32tab st) (dict_hash_function_seed st)
                 (dict_can_resize st)).

(** ** Updates *)
Definition takeAndRef (str : S) : list (str_event S) * S :=
  match RedisModule_HoldString with
  | Some hold => ([Held (hold str)], hold str)
  | None => if RedisModule_RetainString then ([Held str], str) else ([], str)
  end.

(** [slots_num(kstr, &crc, &hastag)] of a key. *)
Definition key_slot st key : slot_info :=
  slots_num (crc32tab st) (hash_slots_size (g_slots_meta_info st)) (content key).

Definition set_info st (db : nat) di : slots_state S :=
  SlotsState (g_slots_meta_info st) (<[db := di]> (db_slot_infos st)) (crc32tab st)
    (dict_hash_function_seed st) (dict_can_resize st).

Definition set_table di (slot : nat) (d : dict S S) : db_slot_info S :=
  DbSlotInfo (slotkey_table_rehashing di) (<[slot := d]> (slotkey_tables di)) (tagged_key_list di).

Definition set_tagged di (z : m_zskiplist S) : db_slot_info S :=
  DbSlotInfo (slotkey_table_rehashing di) (slotkey_tables di) z.

(** [fuel] and [rand]: the draws of the skip list. *)
Definition Slots_Add (fuel : nat) (rand : nat -> Z) st (db : nat) key :
    option (list (str_event S) * slots_state S) :=
  let n := key_slot st key in
  let slot := Z.to_nat (si_slot n) in
  let sval := RedisModule_CreateStringFromLongLong (si_crc n) in
  di ← db_slot_infos st !! db;
  d ← slotkey_tables di !! slot;
  let '(ev_key, k) := takeAndRef key in
  '(r, d) ← m_dictAdd (dict_can_resize st) d k sval;
  let di := set_table di slot d in
  let evs := Created sval :: ev_key in
  if decide (r ≠ DICT_OK) then Some (evs, set_info st db di)
  else if si_hastag n then
    let '(ev_key', k') := takeAndRef key in
    '(z, _) ← m_zslInsert RedisModule_StringCompare fuel rand (tagged_key_list di) (si_crc n) k';
    Some (evs ++ ev_key', set_info st db (set_tagged di z))
  else Some (evs, set_info st db di).

Definition Slots_Del st (db : nat) key : option (list (str_event S) * slots_state S) :=
  let n := key_slot st key in
  let slot := Z.to_nat (si_slot n) in
  di ← db_slot_infos st !! db;
  d ← slotkey_tables di !! slot;
  '(r, freed, d) ← m_dictDelete d key;
  let di := set_table di slot d in
  let evs := freed ≫= destroy in
  if decide (r ≠ DICT_OK) then Some (evs, set_info st db di)
  else if si_hastag n then
    '(_, freed', _, z) ← m_zslDelete RedisModule_StringCompare (tagged_key_list di) (si_crc n) key false;
    Some (evs ++ map Freed freed', set_info st db (set_tagged di z))
  else Some (evs, set_info st db di).
End slots.
