(* ===== verification/SlotsInv.v ===== *)
(** * SlotsInv: what the key index of a database stands for

    [db_repr] relates a database's tables and tagged list to the set of key
    names it holds; the lemmas say how one table and the tagged list follow an
    update of the set. *)

From S2P Require Import Prelude.
From S2P Require Import SipHash.
From S2P Require Import KeySlot.
From S2P Require Import Dict.
From S2P Require Import DictInv.
From S2P Require Import DictSpec.
From S2P Require Import DictProps.
From S2P Require Import SkipList.
From S2P Require Import SkipListInv.
From S2P Require Import SkipListSpec.
From S2P Require Import SkipListProps.
From S2P Require Import Slots.
Local Open Scope Z_scope.

(** What the documentation of Redis says of its strings: comparison is an order
    of the contents, a number read from one is a [long long], a held or copied
    string has the same content. *)
Class RedisStringsOk (S : Type) `{RedisStrings S} : Prop := {
  compare_order :: StringOrder RedisModule_StringCompare;
  compare_content (a b : S) : RedisModule_StringCompare a b = 0 <-> content a = content b;
  string_ll (s : S) z : RedisModule_StringToLongLong s = Some z -> is_i64 z;
  hold_content hold (s : S) : RedisModule_HoldString = Some hold -> content (hold s) = content s;
  copy_content (s : S) : content (RedisModule_CreateStringFromString s) = content s
}.

Notation name := (list byte) (only parsing).

Section inv.
Context {S : Type} `{HS : RedisStrings S} {HR : RedisStringsOk S}.
Implicit Types (st : slots_state S) (di : db_slot_info S) (key : S) (ks : gset name) (x : name).

Lemma take_content key : content (takeAndRef key).2 = content key.
Proof using HR.
  unfold takeAndRef. destruct RedisModule_HoldString as [hold|] eqn:E; cbn [snd]; [by apply hold_content|].
  by destruct RedisModule_RetainString.
Qed.

#[export] Instance hash_slot_type_ok seed : DictTypeOk (hashSlotDictType (S := S) seed) content.
Proof.
  split; cbn [hashSlotDictType hashFunction].
  - intros k. unfold dictModuleStrHash, m_dictGenHashFunction.
    destruct (siphash (content k) seed) as [h|] eqn:E; [by eapply siphash_is_u64|].
    unfold is_u64. cbn [default]. lia.
  - intros k1 k2 E. unfold dictModuleStrHash. by rewrite E.
  - intros k1 k2. unfold dictCompareKeys. cbn [keyCompare hashSlotDictType].
    unfold dictModuleStrKeyCompare.
    destruct (Nat.eqb_spec (length (content k1)) (length (content k2))) as [El|El]; cbn [negb].
    + apply bool_decide_eq_true.
    + split; [done|]. intros E. by rewrite E in El.
  - done.
Qed.

(** ** The set of names of a database *)
Definition name_slot st x : slot_info :=
  slots_num (crc32tab st) (hash_slots_size (g_slots_meta_info st)) x.

Definition in_slot st (s : nat) x : Prop := si_slot (name_slot st x) = Z.of_nat s.
#[export] Instance in_slot_dec st s x : Decision (in_slot st s x).
Proof. unfold in_slot. apply _. Defined.

Definition table_repr st ks (s : nat) (d : dict S S) : Prop :=
  dict_wf content d ∧ d_type d = hashSlotDictType (dict_hash_function_seed st) ∧
  dom (dict_map content d) = filter (in_slot st s) ks.

Definition item_name (it : zitem S) : name := content (zi_mem it).

Definition scores_ok st (l : list (zitem S)) : Prop :=
  Forall (λ it, zi_score it = si_crc (name_slot st (item_name it))) l.

Definition tagged_repr st ks (z : m_zskiplist S) : Prop :=
  ∃ l, zsl_repr ∅ z l ∧ zsl_sorted RedisModule_StringCompare l ∧
    scores_ok st l ∧
    ∀ x, x ∈ (item_name <$> l) <-> x ∈ ks ∧ si_hastag (name_slot st x) = true.

Record db_repr st di ks : Prop := {
  db_count : length (slotkey_tables di) = Z.to_nat (hash_slots_size (g_slots_meta_info st));
  db_table s d : slotkey_tables di !! s = Some d -> table_repr st ks s d;
  db_tagged : tagged_repr st ks (tagged_key_list di)
}.

(** The state of the module: one set per database. *)
Record slots_repr st (kss : list (gset name)) : Prop := {
  sr_size : 1 <= hash_slots_size (g_slots_meta_info st) <= 65536;
  sr_databases : length (db_slot_infos st) = Z.to_nat (databases (g_slots_meta_info st));
  sr_dbs : Forall2 (db_repr st) (db_slot_infos st) kss
}.

(** ** Sets and filters *)
Lemma filter_add_in (P : name -> Prop) `{!∀ x, Decision (P x)} ks x :
  P x -> filter P ({[x]} ∪ ks) = {[x]} ∪ filter P ks.
Proof.
  intros Hx. apply set_eq. intros y. rewrite elem_of_union, !elem_of_filter, elem_of_union, elem_of_singleton.
  split; [tauto|]. intros [->|?]; tauto.
Qed.

Lemma filter_add_out (P : name -> Prop) `{!∀ x, Decision (P x)} ks x :
  ¬ P x -> filter P ({[x]} ∪ ks) = filter P ks.
Proof.
  intros Hx. apply set_eq. intros y. rewrite !elem_of_filter, elem_of_union, elem_of_singleton.
  split; [|tauto]. intros [? [->|?]]; tauto.
Qed.

Lemma filter_del (P : name -> Prop) `{!∀ x, Decision (P x)} ks x :
  filter P (ks ∖ {[x]}) = filter P ks ∖ {[x]}.
Proof.
  apply set_eq. intros y. rewrite elem_of_difference, !elem_of_filter, elem_of_difference. tauto.
Qed.

(** ** One table *)
Lemma table_entries st ks s d :
  table_repr st ks s d -> (length (entries d) <= size ks)%nat.
Proof.
  intros (Hwf & _ & Hdom). rewrite <- (dict_map_size content d) by apply (wf_nodup _ _ Hwf).
  rewrite <- size_dom, Hdom. apply subseteq_size. intros y. rewrite elem_of_filter. tauto.
Qed.

Lemma table_lookup st ks s d x :
  table_repr st ks s d -> in_slot st s x -> is_Some (dict_map content d !! x) <-> x ∈ ks.
Proof. intros (_ & _ & Hdom) Hx. rewrite <- elem_of_dom, Hdom, elem_of_filter. tauto. Qed.

Lemma table_add st can ks s d k v :
  table_repr st ks s d -> in_slot st s (content k) -> Z.of_nat (size ks) + 1 < MAX_ENTRIES ->
  ∃ r d', m_dictAdd can d k v = Some (r, d') ∧ table_repr st ({[content k]} ∪ ks) s d' ∧
    (r = DICT_OK <-> content k ∉ ks).
Proof.
  intros Ht Hk Hsz. pose proof (table_entries _ _ _ _ Ht) as Hle.
  pose proof (table_lookup _ _ _ _ _ Ht Hk) as Hin. destruct Ht as (Hwf & ET & Hdom).
  destruct (add_ok content can d k v Hwf ltac:(lia)) as (r & d' & -> & Hwf' & ET' & Hm).
  exists r, d'. split; [done|].
  destruct (dict_map content d !! content k) as [kv|] eqn:E; destruct Hm as [-> Hm].
  - split; [|split; [done|intros Hn; destruct Hn; apply Hin; eauto]].
    split_and!; [done|congruence|]. rewrite Hm, Hdom.
    assert (content k ∈ ks) as Hks by (apply Hin; eauto).
    f_equal. apply set_eq. intros y. rewrite elem_of_union, elem_of_singleton.
    split; [tauto|]. intros [->|?]; tauto.
  - split.
    + split_and!; [done|congruence|]. rewrite Hm, dom_insert_L, Hdom. by rewrite filter_add_in.
    + split; [|done]. intros _ Hks%Hin. destruct Hks as [? Hks]. congruence.
Qed.

Lemma table_add_other st ks s d x :
  table_repr st ks s d -> ¬ in_slot st s x -> table_repr st ({[x]} ∪ ks) s d.
Proof. intros (Hwf & ET & Hdom) Hx. split_and!; [done..|]. by rewrite filter_add_out. Qed.

Lemma table_del st ks s d key :
  table_repr st ks s d ->
  ∃ r freed d', m_dictDelete d key = Some (r, freed, d') ∧
    table_repr st (ks ∖ {[content key]}) s d' ∧
    (in_slot st s (content key) -> r = DICT_OK <-> content key ∈ ks) ∧
    (r = DICT_OK -> ∃ k v, content k = content key ∧ freed = [FreeKey k; FreeVal v]) ∧
    (r ≠ DICT_OK -> freed = []).
Proof.
  intros Ht. pose proof (table_lookup _ _ _ _ (content key) Ht) as Hin. destruct Ht as (Hwf & ET & Hdom).
  destruct (dict_delete_ok content d key Hwf) as (r & freed & d' & -> & Hwf' & ET' & Hm & Hr).
  exists r, freed, d'. split; [done|]. split.
  { split_and!; [done|congruence|]. by rewrite Hm, dom_delete_L, Hdom, filter_del. }
  destruct (dict_map content d !! content key) as [[k v]|] eqn:E; destruct Hr as [-> ->].
  - split_and!; [|intros _|done].
    + intros Hk. split; [intros _; apply (Hin Hk); eauto|done].
    + exists k, v. rewrite ET. split; [|done]. apply dict_map_lookup in E as (e & _ & Ee);
        [|apply (wf_nodup _ _ Hwf)]. by injection Ee as <- <- _.
  - split_and!; [|done|done]. intros Hk. split; [done|]. intros Hks%Hin; [|done].
    destruct Hks as [? Hks]. done.
Qed.

Lemma table_del_other st ks s d x :
  table_repr st ks s d -> ¬ in_slot st s x -> table_repr st (ks ∖ {[x]}) s d.
Proof.
  intros (Hwf & ET & Hdom) Hx. split_and!; [done..|]. rewrite filter_del, Hdom.
  apply set_eq. intros y. rewrite elem_of_difference, elem_of_filter, elem_of_singleton.
  split; [|tauto]. intros [? ?]. split; [done|]. by intros ->.
Qed.

Lemma table_create st s :
  table_repr st ∅ s (m_dictCreate (hashSlotDictType (dict_hash_function_seed st))).
Proof.
  split_and!; [apply create_wf; apply _|done|]. apply set_eq. intros y.
  rewrite elem_of_filter, elem_of_dom. split; [by intros []|]. by intros [_ ?%not_elem_of_empty].
Qed.

(** ** The tagged list *)
Lemma tagged_nodup st l :
  zsl_sorted RedisModule_StringCompare l -> scores_ok st l -> NoDup (item_name <$> l).
Proof using HR.
  intros Hs. induction Hs as [|it l Hs IH Hall]; intros Hsc; [constructor|].
  apply Forall_cons in Hsc as [Hit Hsc]. rewrite fmap_cons. apply NoDup_cons. split; [|by apply IH].
  intros (y & Ey & Hy)%list_elem_of_fmap. unfold scores_ok in Hsc. rewrite Forall_forall in Hall, Hsc.
  specialize (Hall y Hy). specialize (Hsc y Hy). cbv beta in Hsc. rewrite <- Ey, <- Hit in Hsc.
  apply compare_content in Ey. unfold item_lt in Hall. lia.
Qed.

Lemma tagged_length st ks l :
  zsl_sorted RedisModule_StringCompare l -> scores_ok st l ->
  (∀ x, x ∈ (item_name <$> l) -> x ∈ ks) -> (length l <= size ks)%nat.
Proof using HR.
  intros Hs Hsc Hin. pose proof (tagged_nodup st l Hs Hsc) as Hnd.
  rewrite <- (length_fmap item_name l). rewrite <- (size_list_to_set (C := gset name) _ Hnd).
  apply subseteq_size. intros x. rewrite elem_of_list_to_set. apply Hin.
Qed.

Lemma tagged_add st ks z k fuel rand level :
  tagged_repr st ks z -> content k ∉ ks -> si_hastag (name_slot st (content k)) = true ->
  Z.of_nat (size ks) < ZSL_MAX -> m_zslRandomLevel fuel rand = Some level ->
  ∃ z' n, m_zslInsert RedisModule_StringCompare fuel rand z
      (si_crc (name_slot st (content k))) k = Some (z', n) ∧
    tagged_repr st ({[content k]} ∪ ks) z'.
Proof using HR.
  intros (l & Hz & Hs & Hsc & Hin) Hk Htag Hsz Hlv.
  assert (length l <= size ks)%nat as Hlen.
  { apply (tagged_length st ks l Hs Hsc). intros x Hx. by apply Hin. }
  destruct (zsl_insert_ok RedisModule_StringCompare fuel rand level z l
    (si_crc (name_slot st (content k))) k Hz Hs) as (z' & n & pre & post & E & -> & _ & Hz' & Hs');
    [lia|done| |].
  { apply Forall_forall. intros it Hit [_ Ec]. apply Hk. apply compare_content in Ec. rewrite <- Ec.
    apply Hin. apply list_elem_of_fmap. by exists it. }
  exists z', n. split; [done|]. eexists. split; [exact Hz'|]. split; [exact Hs'|]. split.
  - apply Forall_app in Hsc as [H1 H2]. apply Forall_app. split; [done|]. by constructor.
  - intros x. specialize (Hin x). rewrite fmap_app, elem_of_app in Hin |- *.
    rewrite fmap_cons, elem_of_cons, elem_of_union, elem_of_singleton. change (item_name _) with (content k) at 1.
    split; [|tauto]. intros [?|[->|?]]; tauto.
Qed.

Lemma tagged_add_other st ks z x :
  tagged_repr st ks z -> x ∈ ks ∨ si_hastag (name_slot st x) = false ->
  tagged_repr st ({[x]} ∪ ks) z.
Proof.
  intros (l & Hz & Hs & Hsc & Hin) Hx. exists l. split_and!; [done..|]. intros y. rewrite Hin.
  rewrite elem_of_union, elem_of_singleton. split; [tauto|].
  intros [[->|?] Ht]; [|done]. destruct Hx as [?|Hx]; [done|congruence].
Qed.

Lemma tagged_del st ks z key :
  tagged_repr st ks z -> si_hastag (name_slot st (content key)) = true ->
  ∃ r freed z', m_zslDelete RedisModule_StringCompare z (si_crc (name_slot st (content key))) key false
      = Some (r, freed, None, z') ∧ tagged_repr st (ks ∖ {[content key]}) z' ∧
    (content key ∈ ks -> ∃ k, content k = content key ∧ freed = [k]).
Proof using HR.
  intros (l & Hz & Hs & Hsc & Hin) Htag. pose proof (tagged_nodup st l Hs Hsc) as Hnd.
  destruct (zsl_delete_ok RedisModule_StringCompare z l (si_crc (name_slot st (content key))) key Hz Hs)
    as [(pre & it & post & z' & -> & [_ Hc] & -> & Hz' & Hs')|[Hno ->]].
  - apply compare_content in Hc. eexists _, _, z'. split; [done|]. split; [|intros _; by exists (zi_mem it)].
    exists (pre ++ post). split_and!; [done..| |].
    + apply Forall_app in Hsc as [H1 [_ H2]%Forall_cons]. by apply Forall_app.
    + intros x. specialize (Hin x). rewrite fmap_app, elem_of_app in Hin |- *.
      rewrite fmap_cons, elem_of_cons in Hin. rewrite elem_of_difference, elem_of_singleton.
      rewrite fmap_app, fmap_cons in Hnd. apply NoDup_app in Hnd as (_ & Hd & [Hnot _]%NoDup_cons).
      change (content (zi_mem it)) with (item_name it) in Hc. rewrite <- Hc.
      destruct (decide (x = item_name it)) as [->|Hne].
      * split; [|tauto]. intros [Hx|Hx]; [|by destruct Hnot].
        exfalso. apply (Hd _ Hx). by left.
      * tauto.
  - assert (content key ∉ ks) as Hn.
    { intros Hk. assert (content key ∈ (item_name <$> l)) as Hx by (by apply Hin).
      apply list_elem_of_fmap in Hx as (it & Ei & Hit). unfold scores_ok in Hsc.
      rewrite Forall_forall in Hno, Hsc.
      apply (Hno it Hit). split; [|by apply compare_content]. rewrite (Hsc it Hit). by rewrite Ei. }
    eexists _, _, z. split; [done|]. split; [|done]. exists l. split_and!; [done..|].
    intros x. rewrite Hin, elem_of_difference, elem_of_singleton. split; [|tauto].
    intros [Hx ?]. split_and!; [done| |done]. by intros ->.
Qed.

Lemma tagged_del_other st ks z x :
  tagged_repr st ks z -> x ∉ ks ∨ si_hastag (name_slot st x) = false ->
  tagged_repr st (ks ∖ {[x]}) z.
Proof.
  intros (l & Hz & Hs & Hsc & Hin) Hx. exists l. split_and!; [done..|]. intros y. rewrite Hin.
  rewrite elem_of_difference, elem_of_singleton. split; [|tauto].
  intros [Hy Ht]. split_and!; [done| |done]. intros ->. destruct Hx as [?|Hx]; [done|congruence].
Qed.

Lemma tagged_create st : tagged_repr st ∅ m_zslCreate.
Proof.
  exists []. split_and!; [apply create_repr|constructor|constructor|]. intros x.
  rewrite elem_of_nil. split; [done|]. by intros [?%not_elem_of_empty _].
Qed.
End inv.
