(* ===== verification/SlotsProps.v ===== *)
(** * SlotsProps: what the key index promises

    [Slots_Add] and [Slots_Del] refine insertion into and removal from the set
    of key names of a database; creation gives the empty sets, and release
    gives every string back once. *)

From S2P Require Import Prelude.
From S2P Require Import Crc32.
From S2P Require Import KeySlot.
From S2P Require Import Dict.
From S2P Require Import DictInv.
From S2P Require Import DictSpec.
From S2P Require Import DictProps.
From S2P Require Import SkipList.
From S2P Require Import SkipListInv.
From S2P Require Import SkipListSpec.
From S2P Require Import SkipListProps.
From S2P Require Import Slots.
From S2P Require Import SlotsInv.
Local Open Scope Z_scope.

Section props.
Context {S : Type} `{HS : RedisStrings S} {HR : RedisStringsOk S}.
Implicit Types (st : slots_state S) (di : db_slot_info S) (key : S) (ks : gset (list byte)).
Implicit Types (kss : list (gset (list byte))).

(** The table a key belongs to. *)
Lemma key_table st di ks x :
  1 <= hash_slots_size (g_slots_meta_info st) <= 65536 -> db_repr st di ks ->
  ∃ d, slotkey_tables di !! Z.to_nat (si_slot (name_slot st x)) = Some d ∧
    table_repr st ks (Z.to_nat (si_slot (name_slot st x))) d ∧
    in_slot st (Z.to_nat (si_slot (name_slot st x))) x.
Proof.
  intros Hsz Hdb. pose proof (slot_range (crc32tab st) _ x Hsz) as Hr.
  change (slots_num (crc32tab st) (hash_slots_size (g_slots_meta_info st)) x) with (name_slot st x) in Hr.
  destruct (lookup_lt_is_Some_2 (slotkey_tables di) (Z.to_nat (si_slot (name_slot st x)))) as [d Hd].
  { rewrite (db_count _ _ _ Hdb). lia. }
  exists d. split_and!; [done|by apply (db_table _ _ _ Hdb)|]. unfold in_slot. lia.
Qed.

(** The tables that the key is not in. *)
Lemma tables_update st ks ks' tables s d' :
  (∀ s' d, tables !! s' = Some d -> table_repr st ks s' d) ->
  table_repr st ks' s d' -> (s < length tables)%nat ->
  (∀ s' d, s' ≠ s -> table_repr st ks s' d -> table_repr st ks' s' d) ->
  ∀ s' d, <[s := d']> tables !! s' = Some d -> table_repr st ks' s' d.
Proof.
  intros Hall Hs Hlt Hother s' d Hd. destruct (decide (s' = s)) as [->|Hne].
  - rewrite list_lookup_insert_eq in Hd by done. by injection Hd as <-.
  - rewrite list_lookup_insert_ne in Hd by done. apply Hother; [done|]. by apply Hall.
Qed.

Lemma in_slot_unique st s s' x : in_slot st s x -> s' ≠ s -> ¬ in_slot st s' x.
Proof. unfold in_slot. intros -> Hne E. lia. Qed.

(** The tables and the lists of the others do not matter to a database. *)
Lemma db_repr_set_info st db di' di ks : db_repr st di ks -> db_repr (set_info st db di') di ks.
Proof. intros [H1 H2 H3]. split; [exact H1|exact H2|exact H3]. Qed.

Lemma state_update st kss db di ks ks' di' :
  slots_repr st kss -> db_slot_infos st !! db = Some di -> kss !! db = Some ks ->
  db_repr st di' ks' -> slots_repr (set_info st db di') (<[db := ks']> kss).
Proof.
  intros [Hsz Hn Hdbs] Hdi Hks Hdb. split; [done| |].
  - cbn [set_info db_slot_infos g_slots_meta_info]. by rewrite length_insert.
  - cbn [set_info db_slot_infos]. apply Forall2_insert; [|by apply db_repr_set_info].
    eapply Forall2_impl; [exact Hdbs|]. intros di0 ks0. apply db_repr_set_info.
Qed.

Lemma state_lookup st kss db ks :
  slots_repr st kss -> kss !! db = Some ks ->
  ∃ di, db_slot_infos st !! db = Some di ∧ db_repr st di ks.
Proof.
  intros [_ _ Hdbs] Hks. destruct (Forall2_lookup_r _ _ _ _ _ Hdbs Hks) as (di & Hdi & Hdb).
  by exists di.
Qed.

(** ** The two updates *)
Lemma slots_add_ok fuel rand level st kss db ks key :
  slots_repr st kss -> kss !! db = Some ks ->
  Z.of_nat (size ks) < ZSL_MAX -> m_zslRandomLevel fuel rand = Some level ->
  ∃ evs st', Slots_Add fuel rand st db key = Some (evs, st') ∧
    slots_repr st' (<[db := {[content key]} ∪ ks]> kss) ∧
    g_slots_meta_info st' = g_slots_meta_info st ∧
    evs = Created (RedisModule_CreateStringFromLongLong (si_crc (key_slot st key))) ::
          (takeAndRef key).1 ++
          (if decide ((content key ∉ ks) ∧ si_hastag (key_slot st key) = true)
           then (takeAndRef key).1 else []).
Proof using HR.
  intros Hst Hks Hsz Hlv. pose proof (sr_size _ _ Hst) as Hsize.
  destruct (state_lookup _ _ _ _ Hst Hks) as (di & Hdi & Hdb). unfold Slots_Add. rewrite Hdi.
  change (key_slot st key) with (name_slot st (content key)).
  destruct (key_table st di ks (content key) Hsize Hdb) as (d & Hd & Ht & Hin).
  cbn [mbind option_bind]. rewrite Hd. cbn [mbind option_bind].
  set (s := Z.to_nat (si_slot (name_slot st (content key)))) in *.
  pose proof (take_content key) as Hk. destruct (takeAndRef key) as [ev_key k] eqn:Etk. cbn [snd fst] in *.
  rewrite <- Hk in Hin. unfold ZSL_MAX in Hsz.
  destruct (table_add st (dict_can_resize st) ks s d k
    (RedisModule_CreateStringFromLongLong (si_crc (name_slot st (content key)))) Ht Hin)
    as (r & d' & -> & Ht' & Hr); [unfold MAX_ENTRIES; lia|].
  rewrite Hk in *. cbn [mbind option_bind].
  assert (∀ s' d0, <[s := d']> (slotkey_tables di) !! s' = Some d0 ->
    table_repr st ({[content key]} ∪ ks) s' d0) as Htables.
  { apply (tables_update st ks); [apply (db_table _ _ _ Hdb)|done|by eapply lookup_lt_Some|].
    intros s' d0 Hne Ht0. apply table_add_other; [done|]. by apply (in_slot_unique st s). }
  assert (length (<[s := d']> (slotkey_tables di)) = Z.to_nat (hash_slots_size (g_slots_meta_info st))) as Hlen.
  { rewrite length_insert. apply (db_count _ _ _ Hdb). }
  pose proof (db_tagged _ _ _ Hdb) as Htag.
  destruct (decide (r ≠ DICT_OK)) as [Hne|Hok%dec_stable].
  - assert (content key ∈ ks) as Hin' by (apply dec_stable; tauto).
    eexists _, _. split; [reflexivity|]. split_and!; [|done|].
    + eapply state_update; [done..|]. split; [done|done|]. apply tagged_add_other; [done|by left].
    + rewrite decide_False by tauto. by rewrite app_nil_r.
  - apply Hr in Hok. destruct (si_hastag (name_slot st (content key))) eqn:Eh.
    + cbn [set_table tagged_key_list].
      destruct (tagged_add st ks (tagged_key_list di) k fuel rand level Htag) as (z' & n & E & Htag');
        [by rewrite Hk..|unfold ZSL_MAX; lia|done|].
      rewrite Hk in E, Htag'. rewrite E. cbn [mbind option_bind].
      eexists _, _. split; [reflexivity|]. split_and!; [|done|].
      * eapply state_update; [done..|]. split; [done|done|done].
      * by rewrite decide_True by done.
    + eexists _, _. split; [reflexivity|]. split_and!; [|done|].
      * eapply state_update; [done..|]. split; [done|done|]. apply tagged_add_other; [done|by right].
      * rewrite decide_False by (intros [_ ?]; done). by rewrite app_nil_r.
Qed.

Lemma slots_del_ok st kss db ks key :
  slots_repr st kss -> kss !! db = Some ks ->
  ∃ evs st', Slots_Del st db key = Some (evs, st') ∧
    slots_repr st' (<[db := ks ∖ {[content key]}]> kss) ∧
    g_slots_meta_info st' = g_slots_meta_info st ∧
    (content key ∉ ks -> evs = []) ∧
    (content key ∈ ks -> ∃ k v tagged, content k = content key ∧
       evs = Freed k :: dictModuleValueDestructor v ++ map Freed tagged ∧
       if si_hastag (key_slot st key) then ∃ k', content k' = content key ∧ tagged = [k']
       else tagged = []).
Proof using HR.
  intros Hst Hks. pose proof (sr_size _ _ Hst) as Hsize.
  destruct (state_lookup _ _ _ _ Hst Hks) as (di & Hdi & Hdb). unfold Slots_Del. rewrite Hdi.
  change (key_slot st key) with (name_slot st (content key)).
  destruct (key_table st di ks (content key) Hsize Hdb) as (d & Hd & Ht & Hin).
  cbn [mbind option_bind]. rewrite Hd. cbn [mbind option_bind].
  set (s := Z.to_nat (si_slot (name_slot st (content key)))) in *.
  destruct (table_del st ks s d key Ht) as (r & freed & d' & -> & Ht' & Hr & Hok & Hno).
  specialize (Hr Hin). cbn [mbind option_bind].
  assert (∀ s' d0, <[s := d']> (slotkey_tables di) !! s' = Some d0 ->
    table_repr st (ks ∖ {[content key]}) s' d0) as Htables.
  { apply (tables_update st ks); [apply (db_table _ _ _ Hdb)|done|by eapply lookup_lt_Some|].
    intros s' d0 Hne Ht0. apply table_del_other; [done|]. by apply (in_slot_unique st s). }
  assert (length (<[s := d']> (slotkey_tables di)) = Z.to_nat (hash_slots_size (g_slots_meta_info st))) as Hlen.
  { rewrite length_insert. apply (db_count _ _ _ Hdb). }
  pose proof (db_tagged _ _ _ Hdb) as Htag.
  destruct (decide (r ≠ DICT_OK)) as [Hne|Heq%dec_stable].
  - rewrite (Hno Hne). eexists _, _. split; [reflexivity|]. split_and!; [|done|done|tauto].
    eapply state_update; [done..|]. split; [done|done|]. apply tagged_del_other; [done|]. left. tauto.
  - destruct (Hok Heq) as (k & v & Ek & ->). apply Hr in Heq.
    cbn [mbind list_bind destroy dictModuleKeyDestructor app]. rewrite app_nil_r.
    destruct (si_hastag (name_slot st (content key))) eqn:Eh.
    + cbn [set_table tagged_key_list].
      destruct (tagged_del st ks (tagged_key_list di) key Htag Eh) as (r' & freed' & z' & -> & Htag' & Hf).
      cbn [mbind option_bind]. destruct (Hf Heq) as (k' & Ek' & ->).
      eexists _, _. split; [reflexivity|]. split_and!; [|done|tauto|].
      * eapply state_update; [done..|]. by split.
      * intros _. exists k, v, [k']. split_and!; [done|done|]. by exists k'.
    + eexists _, _. split; [reflexivity|]. split_and!; [|done|tauto|].
      * eapply state_update; [done..|]. split; [done|done|]. apply tagged_del_other; [done|by right].
      * intros _. exists k, v, []. split_and!; [done| |done]. by rewrite app_nil_r.
Qed.

(** ** Creation and release *)
Lemma db_repr_create st :
  1 <= hash_slots_size (g_slots_meta_info st) ->
  db_repr st (new_db_slot_info (dict_hash_function_seed st) (hash_slots_size (g_slots_meta_info st))) ∅.
Proof using HR.
  intros Hsz. split; cbn [new_db_slot_info slotkey_tables tagged_key_list].
  - apply length_replicate.
  - intros s d [-> _]%lookup_replicate_1. apply table_create.
  - apply tagged_create.
Qed.

Lemma slots_init_ok seed tab0 size dbs threads act asy :
  1 <= size <= 65536 ->
  slots_repr (Slots_Init seed tab0 size dbs threads act asy) (replicate (Z.to_nat dbs) ∅).
Proof using HR.
  intros Hsz. split; [done|apply length_replicate|]. cbn [Slots_Init db_slot_infos].
  apply Forall2_same_length_lookup. rewrite !length_replicate. split; [done|].
  intros i di ks [-> _]%lookup_replicate_1 [-> _]%lookup_replicate_1.
  apply (db_repr_create (Slots_Init seed tab0 size dbs threads act asy)). apply Hsz.
Qed.

Definition table_frees (d : dict S S) : list (str_event S) :=
  (entries d ≫= free_entry (d_type d)) ≫= destroy.

Lemma release_ok (d : dict S S) :
  dict_wf content d -> m_dictRelease d = Some (entries d ≫= free_entry (d_type d)).
Proof.
  intros Hwf. pose proof (used_range _ d Hwf) as (? & ? & ?). unfold m_dictRelease.
  rewrite (clear_ok d (ht0 d)) by (apply (wf_ht0 _ _ Hwf) || lia). cbn [mbind option_bind].
  rewrite (clear_ok d (ht1 d)) by (apply (wf_ht1 _ _ Hwf) || lia). cbn [mbind option_bind].
  unfold entries. by rewrite bind_app.
Qed.

Lemma release_tables_ok tables :
  Forall (dict_wf content) tables -> release_tables tables = Some (tables ≫= table_frees).
Proof.
  induction 1 as [|d tables Hd _ IH]; [done|]. cbn [release_tables].
  rewrite (release_ok d Hd). cbn [mbind option_bind]. rewrite IH. done.
Qed.

Lemma release_dbs_ok st infos kss :
  Forall2 (db_repr st) infos kss ->
  ∃ ls, Forall2 (λ di l, zsl_repr ∅ (tagged_key_list di) l) infos ls ∧
    release_dbs infos = Some (concat (zip_with (λ di l,
      (slotkey_tables di ≫= table_frees) ++ map Freed (zi_mem <$> l)) infos ls)).
Proof.
  induction 1 as [|di ks infos kss Hdb _ (ls & Hls & IH)]; [by exists []|].
  destruct (db_tagged _ _ _ Hdb) as (l & Hz & _). exists (l :: ls). split; [by constructor|].
  cbn [release_dbs]. rewrite release_tables_ok.
  - cbn [mbind option_bind]. destruct (zsl_free_ok _ _ Hz) as (m & -> & _).
    cbn [mbind option_bind]. rewrite IH. cbn [mbind option_bind zip_with concat].
    by rewrite <- app_assoc.
  - apply Forall_lookup. intros s d Hd. apply (db_table _ _ _ Hdb s d Hd).
Qed.
End props.
