(* ===== verification/Events.v ===== *)
(** * Events: the event handlers of module.c

    The keyspace notifications keep the index up to date, a flush empties it,
    and the cron loop resizes and rehashes its tables.  The statics of the
    handlers are records of their own.  What the handlers ask Redis for is an
    argument: the selected database, the context flags, the clock, [ei->hz]. *)

From S2P Require Import Prelude.
From S2P Require Import Dict.
From S2P Require Import SkipList.
From S2P Require Import Slots.
Local Open Scope Z_scope.

(** ** Data *)
Inductive cmd_flag_t := CMD_NONE | CMD_RENAME | CMD_MOVE.

#[export] Instance cmd_flag_eq_dec : EqDecision cmd_flag_t.
Proof. solve_decision. Defined.

(** The statics of [NotifyGenericCallback]. *)
Record notify_statics (S : Type) := Notify {
  from_key : option S;
  to_key : option S;
  from_dbid : Z;
  to_dbid : Z;
  cmd_flag : cmd_flag_t
}.
Arguments Notify {S} _ _ _ _ _.
Arguments from_key {S} _.
Arguments to_key {S} _.
Arguments from_dbid {S} _.
Arguments to_dbid {S} _.
Arguments cmd_flag {S} _.

Definition notify_init {S : Type} : notify_statics S := Notify None None 0 0 CMD_NONE.

(** The statics of [dbSlotCron], all [unsigned int]. *)
Record cron_statics := Cron { resize_db : Z; resize_db_slot : Z; rehash_db : Z }.

Definition CRON_DBS_PER_CALL : Z := 16.
Definition CRON_DB_SLOTS_PER_CALL : Z := 1024.
Definition HASHTABLE_MIN_FILL : Z := 10.

Inductive flush_subevent := REDISMODULE_SUBEVENT_FLUSHDB_START | REDISMODULE_SUBEVENT_FLUSHDB_END.

Section events.
Context {S : Type} `{RedisStrings S}.
Implicit Types (st : slots_state S) (di : db_slot_info S) (key : S) (ns : notify_statics S).

(** An index into the databases; a negative one is out of bounds. *)
Definition db_index (db : Z) : option nat := if decide (0 <= db) then Some (Z.to_nat db) else None.

(** ** Flushes *)

(** [for (slot = 0; slot < (int)hash_slots_size; slot++)]. *)
Fixpoint flush_slots (n slot : nat) di : option (list (str_event S) * db_slot_info S) :=
  match n with
  | O => Some ([], di)
  | Datatypes.S n =>
    d ← slotkey_tables di !! slot;
    if decide (dictSize d = 0) then flush_slots n (Datatypes.S slot) di
    else
      '(freed, d) ← m_dictEmpty d false;
      '(rest, di) ← flush_slots n (Datatypes.S slot) (set_table di slot d);
      Some ((freed ≫= destroy) ++ rest, di)
  end.

Definition flush_tagged di : option (list (str_event S) * db_slot_info S) :=
  if decide (zsl_length (tagged_key_list di) = 0) then Some ([], di)
  else
    '(freed, _) ← m_zslFree (tagged_key_list di);
    Some (map Freed freed, set_tagged di m_zslCreate).

Definition flush_db st (db : nat) : option (list (str_event S) * slots_state S) :=
  di ← db_slot_infos st !! db;
  '(evs, di) ← flush_slots (Z.to_nat (hash_slots_size (g_slots_meta_info st))) 0 di;
  '(evs', di) ← flush_tagged di;
  Some (evs ++ evs', set_info st db di).

(** [for (db = 0; db < databases; db++)]. *)
Fixpoint flush_dbs (n db : nat) st : option (list (str_event S) * slots_state S) :=
  match n with
  | O => Some ([], st)
  | Datatypes.S n =>
    '(evs, st) ← flush_db st db;
    '(rest, st) ← flush_dbs n (Datatypes.S db) st;
    Some (evs ++ rest, st)
  end.

Definition FlushdbCallback st (sub : flush_subevent) (dbnum : Z) :
    option (list (str_event S) * slots_state S) :=
  match sub with
  | REDISMODULE_SUBEVENT_FLUSHDB_END => Some ([], st)
  | REDISMODULE_SUBEVENT_FLUSHDB_START =>
    if decide (dbnum ≠ -1) then db ← db_index (i32 dbnum); flush_db st db
    else flush_dbs (Z.to_nat (databases (g_slots_meta_info st))) 0 st
  end.

Definition ShutdownCallback st : option (list (str_event S) * slots_state S) := Slots_Free st.

(** ** Keyspace notifications *)
Section notify.
Context (fuel : nat) (rand : nat -> Z).

Definition NotifyTypeChangeCallback st (db : Z) key : option (list (str_event S) * slots_state S) :=
  db ← db_index db; Slots_Add fuel rand st db key.

(** The [if] chain that saves the first half of a pair of events. *)
Definition save_event ns (dbid : Z) (event : string) key : list (str_event S) * notify_statics S :=
  if decide (event = "rename_from"%string) then
    let k := RedisModule_CreateStringFromString key in
    ([Held k], Notify (Some k) (to_key ns) (from_dbid ns) (to_dbid ns) (cmd_flag ns))
  else if decide (event = "rename_to"%string) then
    let k := RedisModule_CreateStringFromString key in
    ([Held k], Notify (from_key ns) (Some k) (from_dbid ns) (to_dbid ns) CMD_RENAME)
  else if decide (event = "move_from"%string) then
    ([], Notify (from_key ns) (to_key ns) dbid (to_dbid ns) (cmd_flag ns))
  else if decide (event = "move_to"%string) then
    ([], Notify (from_key ns) (to_key ns) (from_dbid ns) dbid CMD_MOVE)
  else ([], ns).

(** [if (k) { RedisModule_FreeString(NULL, k); k = NULL; }] *)
Definition release (k : option S) : list (str_event S) :=
  match k with Some k => [Freed k] | None => [] end.

(** The body of the callback; a [NULL] key would be read: [None]. *)
Definition notify_generic st ns (dbid : Z) (event : string) key :
    option (list (str_event S) * slots_state S * notify_statics S) :=
  if decide (event = "del"%string ∨ event = "expired"%string) then
    db ← db_index dbid;
    '(evs, st) ← Slots_Del st db key;
    Some (evs, st, ns)
  else
    let '(evs, ns) := save_event ns dbid event key in
    if decide (cmd_flag ns = CMD_NONE) then Some (evs, st, ns)
    else
      let '(local_from_key, local_to_key, local_from_dbid, local_to_dbid) :=
        if decide (cmd_flag ns = CMD_RENAME) then (from_key ns, to_key ns, dbid, dbid)
        else (Some key, Some key, from_dbid ns, to_dbid ns) in
      k1 ← local_from_key;
      db1 ← db_index local_from_dbid;
      '(evs1, st) ← Slots_Del st db1 k1;
      k2 ← local_to_key;
      db2 ← db_index local_to_dbid;
      '(evs2, st) ← Slots_Add fuel rand st db2 k2;
      let '(evs3, ns) :=
        if decide (cmd_flag ns = CMD_RENAME) then
          (release (to_key ns) ++ release (from_key ns),
           Notify None None (from_dbid ns) (to_dbid ns) (cmd_flag ns))
        else ([], ns) in
      Some (evs ++ evs1 ++ evs2 ++ evs3, st,
            Notify (from_key ns) (to_key ns) (from_dbid ns) (to_dbid ns) CMD_NONE).

(** [RedisModule_AutoMemory]: when the callback returns, the strings created
    with its context are released. *)
Definition auto_memory (evs : list (str_event S)) : list (str_event S) :=
  evs ≫= λ ev, match ev with Created s => [Freed s] | _ => [] end.

Definition NotifyGenericCallback st ns (dbid : Z) (event : string) key :
    option (list (str_event S) * slots_state S * notify_statics S) :=
  '(evs, st, ns) ← notify_generic st ns dbid event key;
  Some (evs ++ auto_memory evs, st, ns).
End notify.

(** ** The cron loop *)
Definition htNeedsResize (d : dict S S) : bool :=
  let size := i64 (dictSlots d) in
  let used := i64 (dictSize d) in
  (DICT_HT_INITIAL_SIZE <? size) && (Z.quot (i64 (used * 100)) size <? HASHTABLE_MIN_FILL).

(** [db_slot_infos[dbid].slotkey_tables[slot]]. *)
Definition table_at st (dbid slot : Z) : option (dict S S) :=
  di ← db_slot_infos st !! Z.to_nat dbid; slotkey_tables di !! Z.to_nat slot.

Definition set_table_at st (dbid slot : Z) (d : dict S S) : option (slots_state S) :=
  di ← db_slot_infos st !! Z.to_nat dbid;
  Some (set_info st (Z.to_nat dbid) (set_table di (Z.to_nat slot) d)).

Definition tryResizeDbSlotHashTables st (dbid slot : Z) : option (slots_state S) :=
  d ← table_at st dbid slot;
  if htNeedsResize d then
    '(_, d) ← m_dictResize (dict_can_resize st) d;
    set_table_at st dbid slot d
  else Some st.

(** [clock]: the readings of the clock during the call. *)
Definition incrementallyDbSlotRehash st (dbid slot : Z) (clock : nat -> Z) :
    option (Z * slots_state S) :=
  d ← table_at st dbid slot;
  if dictIsRehashing d then
    '(_, d) ← m_dictRehashMilliseconds d 1 clock;
    st ← set_table_at st dbid slot d;
    Some (1, st)
  else Some (0, st).

(** [unsigned int % unsigned int]: by zero is undefined. *)
Definition umod (a b : Z) : option Z := if decide (b = 0) then None else Some (a mod b).

(** [for (slot = 0; slot < db_slots_per_call; slot++)]. *)
Fixpoint resize_slots (n : nat) st (db slot : Z) : option (Z * slots_state S) :=
  match n with
  | O => Some (slot, st)
  | Datatypes.S n =>
    st ← tryResizeDbSlotHashTables st db slot;
    slot ← umod (u32 (slot + 1)) (hash_slots_size (g_slots_meta_info st));
    resize_slots n st db slot
  end.

(** [for (db = 0; db < dbs_per_call; db++)]. *)
Fixpoint resize_dbs (n slots : nat) st (db slot : Z) : option (Z * Z * slots_state S) :=
  match n with
  | O => Some (db, slot, st)
  | Datatypes.S n =>
    '(slot, st) ← resize_slots slots st db slot;
    db ← umod (u32 (db + 1)) (u32 (databases (g_slots_meta_info st)));
    resize_dbs n slots st db slot
  end.

(** The inner loop of the rehashing: [n] rounds to go from [slot]; true when
    some work was done. *)
Fixpoint rehash_slots (n : nat) st (rehash_db slot : Z) (clock : nat -> Z) :
    option (bool * Z * slots_state S) :=
  match n with
  | O => Some (false, rehash_db, st)
  | Datatypes.S n =>
    '(work_done, st) ← incrementallyDbSlotRehash st rehash_db slot clock;
    if decide (work_done ≠ 0) then Some (true, rehash_db, st)
    else
      rehash_db ← umod (u32 (rehash_db + 1)) (u32 (databases (g_slots_meta_info st)));
      rehash_slots n st rehash_db (slot + 1) clock
  end.

Fixpoint rehash_dbs (n slots : nat) st (rehash_db : Z) (clock : nat -> Z) :
    option (Z * slots_state S) :=
  match n with
  | O => Some (rehash_db, st)
  | Datatypes.S n =>
    '(done, rehash_db, st) ← rehash_slots slots st rehash_db 0 clock;
    if (done : bool) then Some (rehash_db, st) else rehash_dbs n slots st rehash_db clock
  end.

Definition dbSlotCron st (cs : cron_statics) (active_child : bool) (clock : nat -> Z) :
    option (slots_state S * cron_statics) :=
  let info := g_slots_meta_info st in
  let dbs_per_call := Z.min CRON_DBS_PER_CALL (databases info) in
  let db_slots_per_call := Z.min CRON_DB_SLOTS_PER_CALL (i32 (hash_slots_size info)) in
  '(rdb, rslot, st) ←
    resize_dbs (Z.to_nat dbs_per_call) (Z.to_nat db_slots_per_call) st (resize_db cs) (resize_db_slot cs);
  if negb (activerehashing info) || active_child then Some (st, Cron rdb rslot (rehash_db cs))
  else
    '(hdb, st) ←
      rehash_dbs (Z.to_nat (databases info)) (Z.to_nat (i32 (hash_slots_size info))) st (rehash_db cs) clock;
    Some (st, Cron rdb rslot hdb).

(** [run_with_period(_ms_, _hz_)]: whether the block runs. *)
Definition run_with_period (ms hz cronloops : Z) : option bool :=
  if decide (hz = 0) then None
  else
    let period := Z.quot 1000 hz in
    if ms <=? period then Some true
    else if decide (period = 0) then None
    else
      let n := Z.quot ms period in
      if decide (n = 0) then None else Some (bool_decide (Z.rem cronloops n = 0)).

(** The callback; true when [SlotsMGRT_CloseTimedoutConns] is called.  [cronloops] is
    an [int]: counting it past 2^31 - 1 is not defined. *)
Definition CronLoopCallback st (cs : cron_statics) (active_child : bool) (clock : nat -> Z) (hz : Z) :
    option (bool * slots_state S * cron_statics) :=
  '(st, cs) ← dbSlotCron st cs active_child clock;
  let info := g_slots_meta_info st in
  close ← run_with_period 1000 hz (cronloops info);
  loops ← (if decide (cronloops info + 1 < 2 ^ 31) then Some (cronloops info + 1) else None);
  Some (close,
    SlotsState (MetaInfo (hash_slots_size info) (databases info) (activerehashing info) (async info)
        loops (slots_dump_threads info) (slots_mgrt_threads info) (slots_restore_threads info))
      (db_slot_infos st) (crc32tab st) (dict_hash_function_seed st) (dict_can_resize st), cs).
End events.
