(* ===== verification/EventsProps.v ===== *)
(** * EventsProps: what the event handlers promise

    A flush empties the set of a database or all the sets, a rename and a move
    change the sets as they changed the keyspace, and the cron loop changes
    none.  Together: a run of the module on any sequence of events follows the
    run on the sets. *)

From S2P Require Import Prelude.
From S2P Require Import KeySlot.
From S2P Require Import Dict.
From S2P Require Import DictInv.
From S2P Require Import DictRehash.
From S2P Require Import DictSpec.
From S2P Require Import DictProps.
From S2P Require Import SkipList.
From S2P Require Import SkipListInv.
From S2P Require Import SkipListSpec.
From S2P Require Import SkipListProps.
From S2P Require Import Slots.
From S2P Require Import SlotsInv.
From S2P Require Import SlotsProps.
From S2P Require Import Events.
Local Open Scope Z_scope.

Section props.
Context {S : Type} `{HS : RedisStrings S} {HR : RedisStringsOk S}.
Implicit Types (st : slots_state S) (di : db_slot_info S) (key : S) (ks : gset (list byte)).
Implicit Types (kss : list (gset (list byte))) (ns : notify_statics S).

(** ** Flushes *)
Lemma table_repr_empty st ks s (d : dict S S) :
  table_repr st ks s d -> dict_map content d = ∅ -> table_repr st ∅ s d.
Proof.
  intros (Hwf & ET & _) Em. split_and!; [done..|]. rewrite Em, dom_empty_L. apply set_eq.
  intros y. rewrite elem_of_filter. split; [by intros ?%not_elem_of_empty|by intros [_ ?]].
Qed.

Lemma flush_slots_ok st ks n slot di :
  length (slotkey_tables di) = (slot + n)%nat ->
  (∀ s d, slotkey_tables di !! s = Some d ->
     if decide (s < slot)%nat then table_repr st ∅ s d else table_repr st ks s d) ->
  ∃ evs di', flush_slots n slot di = Some (evs, di') ∧
    length (slotkey_tables di') = (slot + n)%nat ∧ tagged_key_list di' = tagged_key_list di ∧
    ∀ s d, slotkey_tables di' !! s = Some d -> table_repr st ∅ s d.
Proof using HR.
  revert slot di. induction n as [|n IH]; intros slot di Hlen Hall; cbn [flush_slots].
  { exists [], di. split_and!; [done..|]. intros s d Hd. specialize (Hall s d Hd).
    apply lookup_lt_Some in Hd. rewrite decide_True in Hall by lia. done. }
  destruct (lookup_lt_is_Some_2 (slotkey_tables di) slot) as [d Hd]; [lia|].
  rewrite Hd. cbn [mbind option_bind].
  pose proof (Hall slot d Hd) as Ht. rewrite decide_False in Ht by lia.
  pose proof Ht as (Hwf & ET & _).
  case_decide as Hz.
  - rewrite (dictSize_entries content d Hwf) in Hz.
    destruct (IH (Datatypes.S slot) di) as (evs & di' & E & Hlen' & Htg & Hall'); [lia| |].
    + intros s d0 Hd0. destruct (decide (s = slot)) as [->|Hne].
      * rewrite decide_True by lia. rewrite Hd in Hd0. injection Hd0 as <-.
        apply (table_repr_empty st ks); [done|]. unfold dict_map.
        by destruct (entries d); [|simpl in Hz; lia].
      * specialize (Hall s d0 Hd0). do 2 case_decide; (done || lia).
    + exists evs, di'. split_and!; [done|lia|done|done].
  - destruct (dict_empty_ok content d Hwf) as (d' & -> & Hwf' & Em & Ed'). cbn [mbind option_bind].
    destruct (IH (Datatypes.S slot) (set_table di slot d')) as (evs & di' & E & Hlen' & Htg & Hall').
    + cbn [set_table slotkey_tables]. rewrite length_insert. lia.
    + cbn [set_table slotkey_tables]. intros s d0 Hd0. destruct (decide (s = slot)) as [->|Hne].
      * rewrite decide_True by lia. rewrite list_lookup_insert_eq in Hd0 by lia. injection Hd0 as <-.
        apply (table_repr_empty st (filter (λ x, False) ks)); [|done]. split_and!; [done| |].
        -- by rewrite Ed'.
        -- rewrite Em, dom_empty_L. apply set_eq. intros y. rewrite !elem_of_filter.
           split; [by intros ?%not_elem_of_empty|tauto].
      * rewrite list_lookup_insert_ne in Hd0 by done.
        specialize (Hall s d0 Hd0). do 2 case_decide; (done || lia).
    + rewrite E. cbn [mbind option_bind]. eexists _, di'. split; [reflexivity|].
      split_and!; [lia|done|done].
Qed.

Lemma flush_tagged_ok st ks di :
  tagged_repr st ks (tagged_key_list di) ->
  ∃ evs di', flush_tagged di = Some (evs, di') ∧ slotkey_tables di' = slotkey_tables di ∧
    tagged_repr st ∅ (tagged_key_list di').
Proof using HR.
  intros (l & Hz & Hs & Hsc & Hin). unfold flush_tagged. case_decide as Hl.
  - exists [], di. split_and!; [done..|]. rewrite (repr_length _ _ Hz) in Hl.
    destruct l; [|simpl in Hl; lia]. exists []. split_and!; [done..|]. intros x.
    rewrite elem_of_nil. split; [done|]. by intros [?%not_elem_of_empty _].
  - destruct (zsl_free_ok _ _ Hz) as (m & -> & _). cbn [mbind option_bind].
    eexists _, _. split; [reflexivity|]. split; [done|]. apply tagged_create.
Qed.

Lemma flush_db_ok st kss db ks :
  slots_repr st kss -> kss !! db = Some ks ->
  ∃ evs st', flush_db st db = Some (evs, st') ∧ slots_repr st' (<[db := ∅]> kss) ∧
    g_slots_meta_info st' = g_slots_meta_info st.
Proof using HR.
  intros Hst Hks. destruct (state_lookup _ _ _ _ Hst Hks) as (di & Hdi & Hdb). unfold flush_db.
  rewrite Hdi. cbn [mbind option_bind].
  destruct (flush_slots_ok st ks (Z.to_nat (hash_slots_size (g_slots_meta_info st))) 0 di)
    as (evs & di' & -> & Hlen & Htg & Hall); [apply (db_count _ _ _ Hdb)| |].
  { intros s d Hd. rewrite decide_False by lia. by apply (db_table _ _ _ Hdb). }
  cbn [mbind option_bind].
  destruct (flush_tagged_ok st ks di') as (evs' & di'' & -> & Et & Htag).
  { rewrite Htg. apply (db_tagged _ _ _ Hdb). }
  cbn [mbind option_bind]. eexists _, _. split; [reflexivity|]. split; [|done].
  eapply state_update; [done..|]. split; [by rewrite Et|by rewrite Et|done].
Qed.

Lemma flush_dbs_ok n db st kss :
  slots_repr st kss -> (db + n)%nat = length kss ->
  ∃ evs st', flush_dbs n db st = Some (evs, st') ∧
    slots_repr st' (take db kss ++ replicate n ∅) ∧ g_slots_meta_info st' = g_slots_meta_info st.
Proof using HR.
  revert db st kss. induction n as [|n IH]; intros db st kss Hst Hlen; cbn [flush_dbs].
  { exists [], st. rewrite take_ge by lia. cbn [replicate]. by rewrite app_nil_r. }
  destruct (lookup_lt_is_Some_2 kss db) as [ks Hks]; [lia|].
  destruct (flush_db_ok st kss db ks Hst Hks) as (evs & st1 & -> & Hst1 & Hm). cbn [mbind option_bind].
  destruct (IH (Datatypes.S db) st1 (<[db := ∅]> kss) Hst1) as (evs' & st2 & -> & Hst2 & Hm2);
    [rewrite length_insert; lia|].
  cbn [mbind option_bind]. eexists _, st2. split; [reflexivity|]. split; [|congruence].
  replace (take db kss ++ replicate (Datatypes.S n) ∅)
    with (take (Datatypes.S db) (<[db := ∅]> kss) ++ replicate n ∅); [done|].
  rewrite (take_S_r _ _ (∅ : gset (list byte))), take_insert_ge, <- app_assoc by (lia || (rewrite list_lookup_insert_eq by lia; done)).
  done.
Qed.

(** ** The cron loop *)
Definition small kss : Prop := Forall (λ ks, Z.of_nat (size ks) < 2 ^ 31) kss.

Lemma set_table_ok st kss db ks di slot d' :
  slots_repr st kss -> kss !! db = Some ks -> db_slot_infos st !! db = Some di ->
  (slot < length (slotkey_tables di))%nat -> table_repr st ks slot d' ->
  slots_repr (set_info st db (set_table di slot d')) kss.
Proof.
  intros Hst Hks Hdi Hslot Ht. rewrite <- (list_insert_id kss db ks Hks).
  destruct (state_lookup _ _ _ _ Hst Hks) as (di0 & Hdi0 & Hdb). rewrite Hdi in Hdi0. injection Hdi0 as <-.
  eapply state_update; [done..|]. split; cbn [set_table slotkey_tables tagged_key_list].
  - rewrite length_insert. apply (db_count _ _ _ Hdb).
  - apply (tables_update st ks ks); [apply (db_table _ _ _ Hdb)|done|done|done].
  - apply (db_tagged _ _ _ Hdb).
Qed.

(** A valid pair of a database and a slot. *)
Definition pair_ok st (db slot : Z) : Prop :=
  0 <= db < databases (g_slots_meta_info st) ∧ 0 <= slot < hash_slots_size (g_slots_meta_info st).

Lemma table_at_ok st kss db slot :
  slots_repr st kss -> pair_ok st db slot ->
  ∃ di d ks, db_slot_infos st !! Z.to_nat db = Some di ∧ slotkey_tables di !! Z.to_nat slot = Some d ∧
    kss !! Z.to_nat db = Some ks ∧ table_repr st ks (Z.to_nat slot) d.
Proof.
  intros Hst [Hdb Hslot]. pose proof (sr_databases _ _ Hst) as Hn.
  destruct (lookup_lt_is_Some_2 (db_slot_infos st) (Z.to_nat db)) as [di Hdi]; [lia|].
  destruct (Forall2_lookup_l _ _ _ _ _ (sr_dbs _ _ Hst) Hdi) as (ks & Hks & Hr).
  destruct (lookup_lt_is_Some_2 (slotkey_tables di) (Z.to_nat slot)) as [d Hd].
  { rewrite (db_count _ _ _ Hr). lia. }
  exists di, d, ks. split_and!; [done..|]. by apply (db_table _ _ _ Hr).
Qed.

(** A table replaced by one with the same content. *)
Lemma same_table_ok st kss db slot di d d' ks :
  slots_repr st kss -> db_slot_infos st !! Z.to_nat db = Some di ->
  slotkey_tables di !! Z.to_nat slot = Some d -> kss !! Z.to_nat db = Some ks ->
  table_repr st ks (Z.to_nat slot) d -> dict_wf content d' ->
  dict_map content d' = dict_map content d -> d_type d' = d_type d ->
  ∃ st', set_table_at st db slot d' = Some st' ∧ slots_repr st' kss ∧
    g_slots_meta_info st' = g_slots_meta_info st.
Proof.
  intros Hst Hdi Hd Hks (_ & ET & Hdom) Hwf Em Ed. unfold set_table_at. rewrite Hdi.
  cbn [mbind option_bind]. eexists. split; [reflexivity|]. split; [|done].
  eapply set_table_ok; [done..|by eapply lookup_lt_Some|].
  split_and!; [done|congruence|by rewrite Em].
Qed.

Lemma try_resize_ok st kss db slot :
  slots_repr st kss -> small kss -> pair_ok st db slot ->
  ∃ st', tryResizeDbSlotHashTables st db slot = Some st' ∧ slots_repr st' kss ∧
    g_slots_meta_info st' = g_slots_meta_info st.
Proof using HR.
  intros Hst Hsm Hp. destruct (table_at_ok st kss db slot Hst Hp) as (di & d & ks & Hdi & Hd & Hks & Ht).
  unfold tryResizeDbSlotHashTables, table_at. rewrite Hdi. cbn [mbind option_bind].
  rewrite Hd. cbn [mbind option_bind]. destruct (htNeedsResize d); [|by exists st].
  pose proof (table_entries _ _ _ _ Ht) as Hle. pose proof (Forall_lookup_1 _ _ _ _ Hsm Hks) as Hks'.
  cbv beta in Hks'. pose proof (proj1 Ht) as Hwf.
  destruct (dict_resize_ok content (dict_can_resize st) d Hwf) as (r & d' & E & Hwf' & Em & _).
  { rewrite (wf_used _ _ (wf_ht0 _ _ Hwf)). unfold entries in Hle. rewrite length_app in Hle. lia. }
  rewrite E. cbn [mbind option_bind].
  apply (same_table_ok st kss db slot di d d' ks); try done. by eapply resize_type.
Qed.

Lemma incrementally_rehash_ok st kss db slot clock :
  slots_repr st kss -> pair_ok st db slot ->
  ∃ r st', incrementallyDbSlotRehash st db slot clock = Some (r, st') ∧ slots_repr st' kss ∧
    g_slots_meta_info st' = g_slots_meta_info st.
Proof using HR.
  intros Hst Hp. destruct (table_at_ok st kss db slot Hst Hp) as (di & d & ks & Hdi & Hd & Hks & Ht).
  unfold incrementallyDbSlotRehash, table_at. rewrite Hdi. cbn [mbind option_bind].
  rewrite Hd. cbn [mbind option_bind]. destruct (dictIsRehashing d); [|by exists 0, st].
  destruct (rehash_ms_total content d 1 clock (proj1 Ht)) as (n & d' & -> & Hwf' & Hsc).
  cbn [mbind option_bind].
  destruct (same_table_ok st kss db slot di d d' ks) as (st' & -> & Hst' & Hm); try done.
  - apply same_content_map; [apply Ht|done].
  - apply Hsc.
  - cbn [mbind option_bind]. by exists 1, st'.
Qed.

(** The counters of the cron loop, each below its modulus. *)
Definition cron_ok st (cs : cron_statics) : Prop :=
  0 <= resize_db cs < databases (g_slots_meta_info st) ∧
  0 <= resize_db_slot cs < hash_slots_size (g_slots_meta_info st) ∧
  0 <= rehash_db cs < databases (g_slots_meta_info st).

Lemma next_index i n : 0 < n < 2 ^ 31 -> 0 <= i < n -> ∃ j, umod (u32 (i + 1)) n = Some j ∧ 0 <= j < n.
Proof.
  intros Hn Hi. unfold umod. rewrite u32_small, decide_False by lia. eexists. split; [reflexivity|].
  apply Z.mod_pos_bound. lia.
Qed.

Definition meta_ok st : Prop :=
  1 <= hash_slots_size (g_slots_meta_info st) <= 65536 ∧ 0 < databases (g_slots_meta_info st) < 2 ^ 31.

Lemma resize_slots_ok n st kss db slot :
  slots_repr st kss -> small kss -> meta_ok st -> pair_ok st db slot ->
  ∃ slot' st', resize_slots n st db slot = Some (slot', st') ∧ slots_repr st' kss ∧
    g_slots_meta_info st' = g_slots_meta_info st ∧ pair_ok st' db slot'.
Proof using HR.
  revert st slot. induction n as [|n IH]; intros st slot Hst Hsm Hm Hp; cbn [resize_slots]; [by exists slot, st|].
  destruct (try_resize_ok st kss db slot Hst Hsm Hp) as (st1 & -> & Hst1 & Em). cbn [mbind option_bind].
  pose proof Hp as [Hdb Hslot]. rewrite Em.
  destruct (next_index slot (hash_slots_size (g_slots_meta_info st))) as (slot1 & -> & Hr);
    [destruct Hm; lia|done|]. cbn [mbind option_bind].
  destruct (IH st1 slot1 Hst1 Hsm) as (slot' & st' & E & Hst' & Em' & Hp');
    [unfold meta_ok; by rewrite Em|unfold pair_ok; by rewrite Em|].
  exists slot', st'. exact (conj E (conj Hst' (conj (eq_trans Em' Em) Hp'))).
Qed.

Lemma resize_dbs_ok n slots st kss db slot :
  slots_repr st kss -> small kss -> meta_ok st -> pair_ok st db slot ->
  ∃ db' slot' st', resize_dbs n slots st db slot = Some (db', slot', st') ∧ slots_repr st' kss ∧
    g_slots_meta_info st' = g_slots_meta_info st ∧ pair_ok st' db' slot'.
Proof using HR.
  revert st db slot. induction n as [|n IH]; intros st db slot Hst Hsm Hm Hp; cbn [resize_dbs];
    [by exists db, slot, st|].
  destruct (resize_slots_ok slots st kss db slot Hst Hsm Hm Hp) as (slot1 & st1 & -> & Hst1 & Em & [Hdb Hslot]).
  cbn [mbind option_bind]. pose proof (proj2 Hm) as Hdbs. rewrite <- Em in Hdbs.
  rewrite (u32_small (databases _)) by lia.
  destruct (next_index db (databases (g_slots_meta_info st1)) Hdbs Hdb) as (db1 & -> & Hr).
  cbn [mbind option_bind].
  destruct (IH st1 db1 slot1 Hst1 Hsm) as (db' & slot' & st' & E & Hst' & Em' & Hp');
    [unfold meta_ok; by rewrite Em|by split|].
  exists db', slot', st'. exact (conj E (conj Hst' (conj (eq_trans Em' Em) Hp'))).
Qed.

Lemma rehash_slots_ok n st kss db slot clock :
  slots_repr st kss -> meta_ok st -> 0 <= db < databases (g_slots_meta_info st) ->
  0 <= slot -> slot + Z.of_nat n <= hash_slots_size (g_slots_meta_info st) ->
  ∃ done' db' st', rehash_slots n st db slot clock = Some (done', db', st') ∧ slots_repr st' kss ∧
    g_slots_meta_info st' = g_slots_meta_info st ∧ 0 <= db' < databases (g_slots_meta_info st).
Proof using HR.
  revert st db slot. induction n as [|n IH]; intros st db slot Hst Hm Hdb Hslot Hn; cbn [rehash_slots];
    [by exists false, db, st|].
  assert (pair_ok st db slot) as Hp by (split; lia).
  destruct (incrementally_rehash_ok st kss db slot clock Hst Hp) as (r & st1 & -> & Hst1 & Em).
  cbn [mbind option_bind]. case_decide; [rewrite <- Em; by exists true, db, st1; rewrite Em|].
  rewrite Em. destruct Hm as [Hm1 Hm2]. rewrite (u32_small (databases _)) by lia.
  destruct (next_index db (databases (g_slots_meta_info st)) Hm2 Hdb) as (db1 & -> & Hr).
  cbn [mbind option_bind].
  destruct (IH st1 db1 (slot + 1) Hst1) as (d' & db' & st' & E & Hst' & Em' & Hdb');
    [by unfold meta_ok; rewrite Em|by rewrite Em|lia|rewrite Em; lia|].
  rewrite Em in Em', Hdb'. exists d', db', st'. exact (conj E (conj Hst' (conj Em' Hdb'))).
Qed.

Lemma rehash_dbs_ok n slots st kss db clock :
  slots_repr st kss -> meta_ok st -> 0 <= db < databases (g_slots_meta_info st) ->
  Z.of_nat slots <= hash_slots_size (g_slots_meta_info st) ->
  ∃ db' st', rehash_dbs n slots st db clock = Some (db', st') ∧ slots_repr st' kss ∧
    g_slots_meta_info st' = g_slots_meta_info st ∧ 0 <= db' < databases (g_slots_meta_info st).
Proof using HR.
  revert st db. induction n as [|n IH]; intros st db Hst Hm Hdb Hs; cbn [rehash_dbs]; [by exists db, st|].
  destruct (rehash_slots_ok slots st kss db 0 clock Hst Hm Hdb) as (d & db1 & st1 & -> & Hst1 & Em & Hdb1);
    [lia|lia|].
  cbn [mbind option_bind]. destruct d; [by exists db1, st1|].
  destruct (IH st1 db1 Hst1) as (db' & st' & E & Hst' & Em' & Hdb');
    [by unfold meta_ok; rewrite Em|by rewrite Em|by rewrite Em|].
  rewrite Em in Em', Hdb'. exists db', st'. exact (conj E (conj Hst' (conj Em' Hdb'))).
Qed.

Lemma db_slot_cron_ok st kss cs active clock :
  slots_repr st kss -> small kss -> meta_ok st -> cron_ok st cs ->
  ∃ st' cs', dbSlotCron st cs active clock = Some (st', cs') ∧ slots_repr st' kss ∧
    g_slots_meta_info st' = g_slots_meta_info st ∧ cron_ok st' cs'.
Proof using HR.
  intros Hst Hsm Hm (H1 & H2 & H3). unfold dbSlotCron.
  destruct (resize_dbs_ok (Z.to_nat (Z.min CRON_DBS_PER_CALL (databases (g_slots_meta_info st))))
    (Z.to_nat (Z.min CRON_DB_SLOTS_PER_CALL (i32 (hash_slots_size (g_slots_meta_info st)))))
    st kss (resize_db cs) (resize_db_slot cs) Hst Hsm Hm (conj H1 H2))
    as (db1 & slot1 & st1 & -> & Hst1 & Em & [Hp1 Hp2]). cbn [mbind option_bind].
  destruct (_ || _).
  - exists st1, (Cron db1 slot1 (rehash_db cs)). do 3 (split; [done|]). rewrite Em in Hp1, Hp2.
    unfold cron_ok. rewrite Em. done.
  - pose proof (proj1 Hm) as Hsz. rewrite (i32_small (hash_slots_size _)) by lia.
    destruct (rehash_dbs_ok (Z.to_nat (databases (g_slots_meta_info st)))
      (Z.to_nat (hash_slots_size (g_slots_meta_info st))) st1 kss (rehash_db cs) clock Hst1)
      as (hdb & st2 & -> & Hst2 & Em2 & Hh); [by unfold meta_ok; rewrite Em|by rewrite Em|rewrite Em; lia|].
    cbn [mbind option_bind]. rewrite Em in Hp1, Hp2, Hh, Em2.
    exists st2, (Cron db1 slot1 hdb). do 3 (split; [done|]). unfold cron_ok. rewrite Em2. done.
Qed.
End props.
