(* ===== verification/Refinement.v ===== *)
(** * Refinement: the module follows the keyspace

    A run of the module is a sequence of events: keyspace notifications,
    flushes, turns of the cron loop.  Its specification keeps one set of key
    names per database; after every run the module's state represents those sets,
    and every handler returns.  The references to strings are counted in
    Accounts.v. *)

From S2P Require Import Prelude.
From S2P Require Import KeySlot.
From S2P Require Import Dict.
From S2P Require Import SkipList.
From S2P Require Import SkipListInv.
From S2P Require Import SkipListProps.
From S2P Require Import Slots.
From S2P Require Import SlotsInv.
From S2P Require Import SlotsProps.
From S2P Require Import Events.
From S2P Require Import EventsProps.
Local Open Scope Z_scope.

(** ** Runs of the module *)
Inductive module_event (S : Type) :=
  | TypeChange (fuel : nat) (rand : nat -> Z) (db : Z) (key : S)
  | Generic (fuel : nat) (rand : nat -> Z) (db : Z) (event : string) (key : S)
  | Flushdb (sub : flush_subevent) (dbnum : Z)
  | CronLoop (active_child : bool) (clock : nat -> Z) (hz : Z).
Arguments TypeChange {S} _ _ _ _.
Arguments Generic {S} _ _ _ _ _.
Arguments Flushdb {S} _ _.
Arguments CronLoop {S} _ _ _.

Record module_state (S : Type) := Module {
  m_slots : slots_state S;
  m_notify : notify_statics S;
  m_cron : cron_statics
}.
Arguments Module {S} _ _ _.
Arguments m_slots {S} _.
Arguments m_notify {S} _.
Arguments m_cron {S} _.

(** The names per database, the source of a rename and of a move under way; the
    number of slots, which no event changes; the turns of the cron loop so far. *)
Record spec_state := Spec {
  sp_names : list (gset (list byte));
  sp_from : option (list byte);
  sp_db : Z;
  sp_size : Z;
  sp_loops : Z
}.

Section run.
Context {S : Type} `{HS : RedisStrings S}.
Implicit Types (ms : module_state S) (ev : module_event S) (sp : spec_state).

Definition handle ms ev : option (list (str_event S) * module_state S) :=
  match ev with
  | TypeChange fuel rand db key =>
    '(refs, st) ← NotifyTypeChangeCallback fuel rand (m_slots ms) db key;
    Some (refs, Module st (m_notify ms) (m_cron ms))
  | Generic fuel rand db event key =>
    '(refs, st, ns) ← NotifyGenericCallback fuel rand (m_slots ms) (m_notify ms) db event key;
    Some (refs, Module st ns (m_cron ms))
  | Flushdb sub dbnum =>
    '(refs, st) ← FlushdbCallback (m_slots ms) sub dbnum;
    Some (refs, Module st (m_notify ms) (m_cron ms))
  | CronLoop active_child clock hz =>
    '(_, st, cs) ← CronLoopCallback (m_slots ms) (m_cron ms) active_child clock hz;
    Some ([], Module st (m_notify ms) cs)
  end.

Fixpoint run ms (evs : list (module_event S)) : option (list (str_event S) * module_state S) :=
  match evs with
  | [] => Some ([], ms)
  | ev :: evs =>
    '(refs, ms) ← handle ms ev;
    '(refs', ms) ← run ms evs;
    Some (refs ++ refs', ms)
  end.

(** ** The specification *)
Definition add_name (db : Z) (x : list byte) (kss : list (gset (list byte))) :=
  alter (λ ks, {[x]} ∪ ks) (Z.to_nat db) kss.

Definition del_name (db : Z) (x : list byte) (kss : list (gset (list byte))) :=
  alter (λ ks, ks ∖ {[x]}) (Z.to_nat db) kss.

Definition spec_generic sp (db : Z) (event : string) (x : list byte) : spec_state :=
  if decide (event = "del"%string ∨ event = "expired"%string)
  then Spec (del_name db x (sp_names sp)) (sp_from sp) (sp_db sp) (sp_size sp) (sp_loops sp)
  else if decide (event = "rename_from"%string) then Spec (sp_names sp) (Some x) (sp_db sp) (sp_size sp) (sp_loops sp)
  else if decide (event = "rename_to"%string) then
    match sp_from sp with
    | Some from => Spec (add_name db x (del_name db from (sp_names sp))) None (sp_db sp) (sp_size sp) (sp_loops sp)
    | None => sp
    end
  else if decide (event = "move_from"%string) then Spec (sp_names sp) (sp_from sp) db (sp_size sp) (sp_loops sp)
  else if decide (event = "move_to"%string)
  then Spec (add_name db x (del_name (sp_db sp) x (sp_names sp))) (sp_from sp) (sp_db sp) (sp_size sp) (sp_loops sp)
  else sp.

Definition spec_step sp ev : spec_state :=
  match ev with
  | TypeChange _ _ db key => Spec (add_name db (content key) (sp_names sp)) (sp_from sp) (sp_db sp) (sp_size sp) (sp_loops sp)
  | Generic _ _ db event key => spec_generic sp db event (content key)
  | Flushdb REDISMODULE_SUBEVENT_FLUSHDB_END _ => sp
  | CronLoop _ _ _ => Spec (sp_names sp) (sp_from sp) (sp_db sp) (sp_size sp) (sp_loops sp + 1)
  | Flushdb REDISMODULE_SUBEVENT_FLUSHDB_START dbnum =>
    Spec (if decide (dbnum = -1) then replicate (length (sp_names sp)) ∅
          else <[Z.to_nat dbnum := ∅]> (sp_names sp)) (sp_from sp) (sp_db sp) (sp_size sp) (sp_loops sp)
  end.

Definition valid_db sp (db : Z) : Prop := 0 <= db < Z.of_nat (length (sp_names sp)).

(** What Redis guarantees of an event: the database exists, the events of a
    rename come in pairs, [hz] is between 1 and 500; the draws end, and the cron
    loop has not come round 2^31 - 1 times. *)
Definition event_ok sp ev : Prop :=
  small (sp_names sp) ∧
  match ev with
  | TypeChange fuel rand db _ => valid_db sp db ∧ is_Some (m_zslRandomLevel fuel rand)
  | Generic fuel rand db event _ => valid_db sp db ∧ is_Some (m_zslRandomLevel fuel rand) ∧
      (event = "rename_to"%string -> is_Some (sp_from sp))
  | Flushdb _ dbnum => dbnum = -1 ∨ valid_db sp dbnum
  | CronLoop _ _ hz => 1 <= hz <= 500 ∧ sp_loops sp + 1 < 2 ^ 31
  end.

Fixpoint trace_ok sp (evs : list (module_event S)) : Prop :=
  match evs with
  | [] => True
  | ev :: evs => event_ok sp ev ∧ trace_ok (spec_step sp ev) evs
  end.

Definition spec_run sp (evs : list (module_event S)) : spec_state := foldl spec_step sp evs.

(** The state of the module represents the specification's. *)
Record represents ms sp : Prop := {
  rep_slots : slots_repr (m_slots ms) (sp_names sp);
  rep_meta : meta_ok (m_slots ms);
  rep_cron : cron_ok (m_slots ms) (m_cron ms);
  rep_from : content <$> from_key (m_notify ms) = sp_from sp;
  rep_to : to_key (m_notify ms) = None;
  rep_flag : cmd_flag (m_notify ms) = CMD_NONE;
  rep_db : from_dbid (m_notify ms) = sp_db sp;
  rep_db_valid : valid_db sp (sp_db sp);
  rep_size : hash_slots_size (g_slots_meta_info (m_slots ms)) = sp_size sp;
  rep_loops : cronloops (g_slots_meta_info (m_slots ms)) = sp_loops sp;
  rep_pools : slots_dump_threads (g_slots_meta_info (m_slots ms)) = 0 ∧
    slots_restore_threads (g_slots_meta_info (m_slots ms)) = 0
}.

Definition module_init (seed : list byte) (tab0 : list Z) (size dbs threads : Z) (act asy : bool) :
    module_state S :=
  Module (Slots_Init seed tab0 size dbs threads act asy) notify_init (Cron 0 0 0).

Definition spec_init (size dbs : Z) : spec_state := Spec (replicate (Z.to_nat dbs) ∅) None 0 size 0.
End run.

Section props.
Context {S : Type} `{HS : RedisStrings S} {HR : RedisStringsOk S}.
Implicit Types (ms : module_state S) (ev : module_event S) (sp : spec_state) (st : slots_state S).

(** ** Lemmas *)
Lemma alter_insert {A} (f : A -> A) (l : list A) i x : l !! i = Some x -> alter f i l = <[i := f x]> l.
Proof.
  revert i. induction l as [|y l IH]; intros [|i] E; simpl in *; [done|done|by injection E as ->|].
  f_equal. by apply IH.
Qed.

Lemma alter_None {A} (f : A -> A) (l : list A) i : l !! i = None -> alter f i l = l.
Proof.
  revert i. induction l as [|y l IH]; intros [|i] E; simpl in *; [done|done|done|].
  f_equal. by apply IH.
Qed.

Lemma represents_length ms sp :
  represents ms sp -> Z.of_nat (length (sp_names sp)) = databases (g_slots_meta_info (m_slots ms)).
Proof.
  intros Hr. pose proof (rep_slots _ _ Hr) as Hst. pose proof (rep_meta _ _ Hr) as [_ Hm].
  rewrite <- (Forall2_length _ _ _ (sr_dbs _ _ Hst)), (sr_databases _ _ Hst). lia.
Qed.

Lemma db_lookup sp db :
  valid_db sp db -> ∃ ks, sp_names sp !! Z.to_nat db = Some ks ∧ db_index db = Some (Z.to_nat db).
Proof.
  intros Hdb. destruct (lookup_lt_is_Some_2 (sp_names sp) (Z.to_nat db)) as [ks Hks].
  { unfold valid_db in Hdb. lia. }
  exists ks. split; [done|]. unfold db_index. unfold valid_db in Hdb. by rewrite decide_True by lia.
Qed.

(** The two updates, as the specification writes them. *)
Lemma add_step fuel rand st kss db key :
  slots_repr st kss -> small kss -> (Z.to_nat db < length kss)%nat -> is_Some (m_zslRandomLevel fuel rand) ->
  ∃ refs st', Slots_Add fuel rand st (Z.to_nat db) key = Some (refs, st') ∧
    slots_repr st' (add_name db (content key) kss) ∧ g_slots_meta_info st' = g_slots_meta_info st.
Proof using HR.
  intros Hst Hsm Hdb [level Hlv]. destruct (lookup_lt_is_Some_2 kss (Z.to_nat db) Hdb) as [ks Hks].
  pose proof (Forall_lookup_1 _ _ _ _ Hsm Hks) as Hsz. cbv beta in Hsz.
  destruct (slots_add_ok fuel rand level st kss (Z.to_nat db) ks key Hst Hks) as (refs & st' & -> & Hst' & Hm & _);
    [unfold ZSL_MAX; lia|done|].
  exists refs, st'. split_and!; [done| |done]. unfold add_name. by rewrite (alter_insert _ _ _ _ Hks).
Qed.

Lemma del_step st kss db key :
  slots_repr st kss -> (Z.to_nat db < length kss)%nat ->
  ∃ refs st', Slots_Del st (Z.to_nat db) key = Some (refs, st') ∧
    slots_repr st' (del_name db (content key) kss) ∧ g_slots_meta_info st' = g_slots_meta_info st.
Proof using HR.
  intros Hst Hdb. destruct (lookup_lt_is_Some_2 kss (Z.to_nat db) Hdb) as [ks Hks].
  destruct (slots_del_ok st kss (Z.to_nat db) ks key Hst Hks) as (refs & st' & -> & Hst' & Hm & _).
  exists refs, st'. split_and!; [done| |done]. unfold del_name. by rewrite (alter_insert _ _ _ _ Hks).
Qed.

Lemma small_del kss db x : small kss -> small (del_name db x kss).
Proof.
  unfold small, del_name. intros Hsm. destruct (kss !! Z.to_nat db) as [ks|] eqn:E.
  - rewrite (alter_insert _ _ _ _ E). apply Forall_insert; [done|].
    pose proof (Forall_lookup_1 _ _ _ _ Hsm E) as Hks. cbv beta in Hks.
    pose proof (subseteq_size (ks ∖ {[x]}) ks ltac:(apply subseteq_difference_l; done)). lia.
  - by rewrite (alter_None _ _ _ E).
Qed.

(** A deletion followed by an insertion: a rename or a move. *)
Lemma move_step fuel rand st kss db1 db2 k1 k2 :
  slots_repr st kss -> small kss -> (Z.to_nat db1 < length kss)%nat -> (Z.to_nat db2 < length kss)%nat ->
  is_Some (m_zslRandomLevel fuel rand) ->
  ∃ refs1 st1 refs2 st2, Slots_Del st (Z.to_nat db1) k1 = Some (refs1, st1) ∧
    Slots_Add fuel rand st1 (Z.to_nat db2) k2 = Some (refs2, st2) ∧
    slots_repr st2 (add_name db2 (content k2) (del_name db1 (content k1) kss)) ∧
    g_slots_meta_info st2 = g_slots_meta_info st.
Proof using HR.
  intros Hst Hsm H1 H2 Hlv. destruct (del_step st kss db1 k1 Hst H1) as (refs1 & st1 & E1 & Hst1 & Em1).
  destruct (add_step fuel rand st1 (del_name db1 (content k1) kss) db2 k2 Hst1) as (refs2 & st2 & E2 & Hst2 & Em2);
    [by apply small_del|by unfold del_name; rewrite length_alter|done|].
  exists refs1, st1, refs2, st2. split_and!; [done..|congruence].
Qed.

(** A new state of the slots under the same counters and statics. *)
Lemma represents_slots ms sp st' kss' :
  represents ms sp -> slots_repr st' kss' ->
  g_slots_meta_info st' = g_slots_meta_info (m_slots ms) -> length kss' = length (sp_names sp) ->
  represents (Module st' (m_notify ms) (m_cron ms)) (Spec kss' (sp_from sp) (sp_db sp) (sp_size sp) (sp_loops sp)).
Proof.
  intros [_ Hmeta Hcron Hfrom Hto Hflag Hdb Hval Hsize Hloops Hpools] Hst' Em Hlen.
  split; cbn [m_slots m_notify m_cron sp_names sp_from sp_db sp_size sp_loops]; try done.
  - unfold meta_ok. by rewrite Em.
  - unfold cron_ok. by rewrite Em.
  - unfold valid_db in *. cbn [sp_names]. by rewrite Hlen.
  - by rewrite Em.
  - by rewrite Em.
  - by rewrite Em.
Qed.

Lemma flush_step ms sp sub dbnum :
  represents ms sp -> dbnum = -1 ∨ valid_db sp dbnum ->
  ∃ refs ms', handle ms (Flushdb sub dbnum) = Some (refs, ms') ∧
    represents ms' (spec_step (S := S) sp (Flushdb sub dbnum)).
Proof using HR.
  intros Hr Hdb. cbn [handle]. unfold FlushdbCallback.
  destruct sub; cbn [spec_step]; [|exists [], ms; by destruct ms].
  pose proof (represents_length _ _ Hr) as Hlen. pose proof (rep_meta _ _ Hr) as [_ Hmeta].
  destruct (decide (dbnum = -1)) as [->|Hne].
  - rewrite decide_False by (intros []; done).
    destruct (flush_dbs_ok (Z.to_nat (databases (g_slots_meta_info (m_slots ms)))) 0 (m_slots ms) (sp_names sp)
      (rep_slots _ _ Hr)) as (refs & st' & -> & Hst' & Em); [lia|].
    cbn [mbind option_bind]. eexists _, _. split; [reflexivity|].
    replace (Z.to_nat (databases _)) with (length (sp_names sp)) in Hst' by lia.
    apply (represents_slots ms sp); [done|done|done|apply length_replicate].
  - destruct Hdb as [?|Hdb]; [done|]. rewrite decide_True by done.
    rewrite i32_small by (unfold valid_db in Hdb; lia).
    destruct (db_lookup sp dbnum Hdb) as (ks & Hks & ->). cbn [mbind option_bind].
    destruct (flush_db_ok (m_slots ms) (sp_names sp) _ ks (rep_slots _ _ Hr) Hks) as (refs & st' & -> & Hst' & Em).
    cbn [mbind option_bind]. eexists _, _. split; [reflexivity|].
    apply (represents_slots ms sp); [done|done|done|apply length_insert].
Qed.

Lemma type_change_step ms sp fuel rand db key :
  represents ms sp -> event_ok sp (TypeChange fuel rand db key) ->
  ∃ refs ms', handle ms (TypeChange fuel rand db key) = Some (refs, ms') ∧
    represents ms' (spec_step sp (TypeChange fuel rand db key)).
Proof using HR.
  intros Hr (Hsm & Hdb & Hlv). cbn [handle]. unfold NotifyTypeChangeCallback.
  destruct (db_lookup sp db Hdb) as (ks & Hks & ->). cbn [mbind option_bind].
  destruct (add_step fuel rand (m_slots ms) (sp_names sp) db key (rep_slots _ _ Hr) Hsm)
    as (refs & st' & -> & Hst' & Em); [by eapply lookup_lt_Some|done|].
  cbn [mbind option_bind]. eexists _, _. split; [reflexivity|]. cbn [spec_step].
  apply (represents_slots ms sp); [done|done|done|]. unfold add_name. apply length_alter.
Qed.

Lemma run_with_period_ok hz loops : 1 <= hz <= 500 -> is_Some (run_with_period 1000 hz loops).
Proof.
  intros Hhz. unfold run_with_period. rewrite decide_False by lia.
  assert (2 <= Z.quot 1000 hz) as Hq by (apply Z.quot_le_lower_bound; lia).
  destruct (Z.leb_spec 1000 (Z.quot 1000 hz)); [by eexists|]. rewrite decide_False by lia.
  assert (1 <= Z.quot 1000 (Z.quot 1000 hz)) by (apply Z.quot_le_lower_bound; lia).
  rewrite decide_False by lia. by eexists.
Qed.

Lemma cron_step ms sp active clock hz :
  represents ms sp -> event_ok (S := S) sp (CronLoop active clock hz) ->
  ∃ refs ms', handle ms (CronLoop active clock hz) = Some (refs, ms') ∧
    represents ms' (spec_step (S := S) sp (CronLoop active clock hz)).
Proof using HR.
  intros Hr (Hsm & Hhz & Hlp). cbn [handle spec_step]. unfold CronLoopCallback.
  destruct (db_slot_cron_ok (m_slots ms) (sp_names sp) (m_cron ms) active clock (rep_slots _ _ Hr) Hsm
    (rep_meta _ _ Hr) (rep_cron _ _ Hr)) as (st' & cs' & -> & Hst' & Em & Hcs).
  cbn [mbind option_bind].
  destruct (run_with_period_ok hz (cronloops (g_slots_meta_info st')) Hhz) as [b ->].
  pose proof Hr as [_ Hmeta _ Hfrom Hto Hflag Hdb Hval Hsize Hloops Hpools].
  cbn [mbind option_bind]. rewrite Em, Hloops, decide_True by done.
  cbn [mbind option_bind]. eexists _, _. split; [reflexivity|]. rewrite <- Em. unfold meta_ok in Hmeta. rewrite <- Em in Hmeta.
  split; cbn [m_slots m_notify m_cron]; try done.
  - destruct Hst' as [H1 H2 H3]. split; [exact H1|exact H2|].
    eapply Forall2_impl; [exact H3|]. intros di ks [K1 K2 K3]. split; [exact K1|exact K2|exact K3].
  - rewrite <- Hsize, <- Em. done.
  - rewrite Em. exact Hpools.
Qed.

(** The first half of a pair of events: nothing but a static changes. *)
Lemma save_only ms sp fuel rand db event key :
  represents ms sp -> event ≠ "rename_to"%string -> event ≠ "move_to"%string ->
  event ≠ "del"%string -> event ≠ "expired"%string ->
  ∃ refs ns, notify_generic fuel rand (m_slots ms) (m_notify ms) db event key =
    Some (refs, m_slots ms, ns) ∧
    ns = (save_event (m_notify ms) db event key).2 ∧ cmd_flag ns = CMD_NONE.
Proof.
  intros Hr H1 H2 H3 H4. unfold notify_generic. rewrite decide_False by tauto.
  pose proof (rep_flag _ _ Hr) as Hf. unfold save_event.
  rewrite (decide_False (P := event = "rename_to"%string)), (decide_False (P := event = "move_to"%string)) by done.
  destruct (decide (event = "rename_from"%string)); cbn [cmd_flag].
  - rewrite decide_True by done. by eexists _, _.
  - destruct (decide (event = "move_from"%string)); cbn [cmd_flag]; rewrite decide_True by done; by eexists _, _.
Qed.

Lemma delete_event_step ms sp fuel rand db event key :
  represents ms sp -> valid_db sp db -> event = "del"%string ∨ event = "expired"%string ->
  ∃ refs ms', handle ms (Generic fuel rand db event key) = Some (refs, ms') ∧
    represents ms' (spec_step sp (Generic fuel rand db event key)).
Proof using HR.
  intros Hr Hdb He. cbn [handle spec_step]. unfold NotifyGenericCallback, notify_generic, spec_generic.
  rewrite !decide_True by done. destruct (db_lookup sp db Hdb) as (ks & Hks & ->). cbn [mbind option_bind].
  destruct (del_step (m_slots ms) (sp_names sp) db key (rep_slots _ _ Hr)) as (refs & st' & -> & Hst' & Em);
    [by eapply lookup_lt_Some|].
  cbn [mbind option_bind]. eexists _, _. split; [reflexivity|].
  apply (represents_slots ms sp); [done|done|done|]. unfold del_name. apply length_alter.
Qed.

Lemma rename_step ms sp fuel rand db key from :
  represents ms sp -> event_ok sp (Generic fuel rand db "rename_to" key) -> sp_from sp = Some from ->
  ∃ refs ms', handle ms (Generic fuel rand db "rename_to" key) = Some (refs, ms') ∧
    represents ms' (spec_step sp (Generic fuel rand db "rename_to" key)).
Proof using HR.
  intros Hr (Hsm & Hdb & Hlv & _) Hfrom. cbn [handle spec_step]. unfold NotifyGenericCallback, notify_generic, spec_generic.
  rewrite !(decide_False (P := _ ∨ _)) by (intros [E|E]; discriminate E). unfold save_event.
  rewrite !(decide_False (P := "rename_to"%string = "rename_from"%string)) by discriminate.
  rewrite !(decide_True (P := "rename_to"%string = "rename_to"%string)) by reflexivity.
  cbn [cmd_flag from_key to_key from_dbid to_dbid]. rewrite decide_False, decide_True by done.
  pose proof (rep_from _ _ Hr) as Hf. rewrite Hfrom in Hf |- *.
  destruct (from_key (m_notify ms)) as [k1|] eqn:Ek1; [|done]. injection Hf as Hk1.
  cbn [mbind option_bind]. destruct (db_lookup sp db Hdb) as (ks & Hks & ->). cbn [mbind option_bind].
  apply lookup_lt_Some in Hks.
  destruct (move_step fuel rand (m_slots ms) (sp_names sp) db db k1
    (RedisModule_CreateStringFromString key) (rep_slots _ _ Hr) Hsm Hks Hks Hlv)
    as (refs1 & st1 & refs2 & st2 & -> & E2 & Hst2 & Em).
  cbn [mbind option_bind]. rewrite E2. cbn [mbind option_bind from_key to_key from_dbid to_dbid cmd_flag].
  eexists _, _. split; [reflexivity|]. rewrite copy_content, Hk1 in Hst2.
  pose proof (represents_slots ms sp st2 _ Hr Hst2 Em) as Hr'.
  destruct Hr' as [R1 R2 R3 _ _ _ R7 R8 R9 R10 R11]; [unfold add_name, del_name; by rewrite !length_alter|].
  split; cbn [m_slots m_notify m_cron from_key to_key from_dbid cmd_flag sp_from sp_db]; try done.
Qed.

Lemma move_to_step ms sp fuel rand db key :
  represents ms sp -> event_ok sp (Generic fuel rand db "move_to" key) ->
  ∃ refs ms', handle ms (Generic fuel rand db "move_to" key) = Some (refs, ms') ∧
    represents ms' (spec_step sp (Generic fuel rand db "move_to" key)).
Proof using HR.
  intros Hr (Hsm & Hdb & Hlv & _). cbn [handle spec_step]. unfold NotifyGenericCallback, notify_generic, spec_generic.
  rewrite !(decide_False (P := _ ∨ _)) by (intros [E|E]; discriminate E). unfold save_event.
  rewrite !(decide_False (P := "move_to"%string = "rename_from"%string)) by discriminate.
  rewrite !(decide_False (P := "move_to"%string = "rename_to"%string)) by discriminate.
  rewrite !(decide_False (P := "move_to"%string = "move_from"%string)) by discriminate.
  rewrite !(decide_True (P := "move_to"%string = "move_to"%string)) by reflexivity.
  cbn [cmd_flag from_key to_key from_dbid to_dbid].
  rewrite (decide_False (P := CMD_MOVE = CMD_NONE)), (decide_False (P := CMD_MOVE = CMD_RENAME)) by done.
  cbn [mbind option_bind]. rewrite (rep_db _ _ Hr).
  destruct (db_lookup sp (sp_db sp) (rep_db_valid _ _ Hr)) as (ks1 & Hks1 & ->). cbn [mbind option_bind].
  destruct (db_lookup sp db Hdb) as (ks2 & Hks2 & E2). apply lookup_lt_Some in Hks1, Hks2.
  destruct (move_step fuel rand (m_slots ms) (sp_names sp) (sp_db sp) db key key (rep_slots _ _ Hr) Hsm Hks1 Hks2 Hlv)
    as (refs1 & st1 & refs2 & st2 & -> & E3 & Hst2 & Em).
  cbn [mbind option_bind]. rewrite E2. cbn [mbind option_bind]. rewrite E3.
  cbn [mbind option_bind from_key to_key from_dbid to_dbid cmd_flag].
  eexists _, _. split; [reflexivity|].
  pose proof (represents_slots ms sp st2 _ Hr Hst2 Em) as Hr'.
  destruct Hr' as [R1 R2 R3 R4 R5 _ _ R8 R9 R10 R11]; [unfold add_name, del_name; by rewrite !length_alter|].
  split; cbn [m_slots m_notify m_cron from_key to_key from_dbid cmd_flag sp_from sp_db]; try done.
Qed.

Lemma generic_step ms sp fuel rand db event key :
  represents ms sp -> event_ok sp (Generic fuel rand db event key) ->
  ∃ refs ms', handle ms (Generic fuel rand db event key) = Some (refs, ms') ∧
    represents ms' (spec_step sp (Generic fuel rand db event key)).
Proof using HR.
  intros Hr Hok. pose proof Hok as (Hsm & Hdb & Hlv & Hrename).
  destruct (decide (event = "rename_to"%string)) as [->|H1].
  { destruct (Hrename eq_refl) as [from Hfrom]. by apply (rename_step ms sp fuel rand db key from). }
  destruct (decide (event = "move_to"%string)) as [->|H2]; [by apply move_to_step|].
  destruct (decide (event = "del"%string ∨ event = "expired"%string)) as [He|He];
    [by apply delete_event_step|].
  destruct (save_only ms sp fuel rand db event key Hr H1 H2) as (refs & ns & E & Ens & Hf); [tauto..|].
  cbn [handle spec_step]. unfold NotifyGenericCallback. rewrite E. cbn [mbind option_bind]. eexists _, _. split; [reflexivity|].
  unfold spec_generic. rewrite decide_False by done.
  rewrite (decide_False (P := event = "rename_to"%string)), (decide_False (P := event = "move_to"%string)) by done.
  pose proof Hr as [R1 R2 R3 R4 R5 R6 R7 R8 R9 R10 R11]. unfold save_event in Ens.
  rewrite (decide_False (P := event = "rename_to"%string)), (decide_False (P := event = "move_to"%string))
    in Ens by done.
  destruct (decide (event = "rename_from"%string)); [|destruct (decide (event = "move_from"%string))];
    cbn [snd] in Ens; subst ns;
    split; cbn [m_slots m_notify m_cron from_key to_key from_dbid cmd_flag sp_from sp_db sp_names]; try done.
  cbn [fmap option_fmap option_map]. by rewrite copy_content.
Qed.

Lemma handle_ok ms sp ev :
  represents ms sp -> event_ok sp ev ->
  ∃ refs ms', handle ms ev = Some (refs, ms') ∧ represents ms' (spec_step sp ev).
Proof using HR.
  intros Hr Hok. destruct ev; [by apply type_change_step|by apply generic_step| |by apply cron_step].
  destruct Hok as [_ Hdb]. by apply flush_step.
Qed.

Lemma init_represents seed tab0 size dbs threads act asy :
  1 <= size <= 65536 -> 0 < dbs < 2 ^ 31 ->
  represents (module_init (S := S) seed tab0 size dbs threads act asy) (spec_init size dbs).
Proof using HR.
  intros Hsz Hdbs. split; cbn [module_init spec_init m_slots m_notify m_cron sp_names sp_from sp_db notify_init
    from_key to_key cmd_flag from_dbid]; try done.
  - by apply slots_init_ok.
  - unfold cron_ok. cbn. lia.
  - unfold valid_db, spec_init. cbn [sp_names sp_db]. rewrite length_replicate. lia.
Qed.

Lemma run_ok ms sp evs :
  represents ms sp -> trace_ok sp evs ->
  ∃ refs ms', run ms evs = Some (refs, ms') ∧ represents ms' (spec_run sp evs).
Proof using HR.
  revert ms sp. induction evs as [|ev evs IH]; intros ms sp Hr Hok; cbn [run]; [by exists [], ms|].
  destruct Hok as [Hev Hevs]. destruct (handle_ok ms sp ev Hr Hev) as (refs & ms1 & -> & Hr1).
  cbn [mbind option_bind]. destruct (IH ms1 (spec_step sp ev) Hr1 Hevs) as (refs' & ms' & -> & Hr').
  cbn [mbind option_bind]. by exists (refs ++ refs'), ms'.
Qed.

(** ** Properties *)

(** [Slots_Init] gives a state that represents empty databases, for every
    slot count and database count the module accepts. *)
Theorem Slots_Init_spec seed tab0 size dbs threads act asy :
  1 <= size <= 65536 -> 0 < dbs < 2 ^ 31 ->
  represents (module_init (S := S) seed tab0 size dbs threads act asy) (spec_init size dbs).
Proof using HR. apply init_represents. Qed.

(** C4. [Slots_Add] adds the key to the set of its database: it stores the name
    in the table of the key's slot, and a tagged name in the list too.  It
    takes one reference for the table and one for the list; for a key that is
    there already, the reference and the new value string are not given
    back. *)
Theorem Slots_Add_spec fuel rand level st kss db ks key :
  slots_repr st kss -> kss !! db = Some ks ->
  Z.of_nat (size ks) < ZSL_MAX -> m_zslRandomLevel fuel rand = Some level ->
  ∃ evs st', Slots_Add fuel rand st db key = Some (evs, st') ∧
    slots_repr st' (<[db := {[content key]} ∪ ks]> kss) ∧
    g_slots_meta_info st' = g_slots_meta_info st ∧
    evs = Created (RedisModule_CreateStringFromLongLong (si_crc (key_slot st key))) ::
          (takeAndRef key).1 ++
          (if decide ((content key ∉ ks) ∧ si_hastag (key_slot st key) = true)
           then (takeAndRef key).1 else []).
Proof using HR. apply slots_add_ok. Qed.

(** C11. [Slots_Del] removes the key from the set of its database, and gives back
    the table's key and value and the list's member, once each; a key that is
    not there changes nothing. *)
Theorem Slots_Del_spec st kss db ks key :
  slots_repr st kss -> kss !! db = Some ks ->
  ∃ evs st', Slots_Del st db key = Some (evs, st') ∧
    slots_repr st' (<[db := ks ∖ {[content key]}]> kss) ∧
    g_slots_meta_info st' = g_slots_meta_info st ∧
    (content key ∉ ks -> evs = []) ∧
    (content key ∈ ks -> ∃ k v tagged, content k = content key ∧
       evs = Freed k :: dictModuleValueDestructor v ++ map Freed tagged ∧
       if si_hastag (key_slot st key) then ∃ k', content k' = content key ∧ tagged = [k']
       else tagged = []).
Proof using HR. apply slots_del_ok. Qed.

(** C31. [Slots_Free] gives back every key and value of every table and every
    member of every tagged list, once each, and leaves no database. *)
Theorem Slots_Free_spec st kss :
  slots_repr st kss ->
  ∃ ls evs st', Slots_Free st = Some (evs, st') ∧ db_slot_infos st' = [] ∧
    Forall2 (λ di l, zsl_repr ∅ (tagged_key_list di) l) (db_slot_infos st) ls ∧
    evs = concat (zip_with (λ di l,
      (slotkey_tables di ≫= table_frees) ++ map Freed (zi_mem <$> l)) (db_slot_infos st) ls).
Proof using HR.
  intros Hst. destruct (release_dbs_ok st _ _ (sr_dbs _ _ Hst)) as (ls & Hls & E).
  unfold Slots_Free. rewrite E. cbn [mbind option_bind]. by eexists ls, _, _.
Qed.

(** C25. A turn of the cron loop resizes and rehashes tables without a change of
    the sets, and its counters stay valid indices. *)
Theorem dbSlotCron_spec st kss cs active clock :
  slots_repr st kss -> small kss -> meta_ok st -> cron_ok st cs ->
  ∃ st' cs', dbSlotCron st cs active clock = Some (st', cs') ∧ slots_repr st' kss ∧
    g_slots_meta_info st' = g_slots_meta_info st ∧ cron_ok st' cs'.
Proof using HR. apply db_slot_cron_ok. Qed.
End props.
