(* ===== verification/Accounts.v ===== *)
(** * Accounts: the references to strings that a run takes and gives back

    What the module holds are the keys and values of its tables, the members of its
    lists and the two keys of a rename under way.  An account compares, for each
    string, how often it was held or taken before with how often it is held or has
    been given back after: what is left over on the one side leaks, on the other side
    it is given back once too often. *)

From S2P Require Import Prelude.
From S2P Require Import KeySlot.
From S2P Require Import Dict.
From S2P Require Import DictInv.
From S2P Require Import DictRehash.
From S2P Require Import DictSpec.
From S2P Require Import DictProps.
From S2P Require Import SkipList.
From S2P Require Import SkipListInv.
From S2P Require Import SkipListProps.
From S2P Require Import Slots.
From S2P Require Import SlotsInv.
From S2P Require Import SlotsProps.
From S2P Require Import Events.
From S2P Require Import EventsProps.
From S2P Require Import Refinement.
Local Open Scope Z_scope.

Section accounts.
Context {S : Type} `{HS : RedisStrings S} {HR : RedisStringsOk S}.
Implicit Types (st : slots_state S) (di : db_slot_info S) (d : dict S S) (key s : S) (z : m_zskiplist S).
Implicit Types (evs refs : list (str_event S)) (ms : module_state S) (sp : spec_state) (ev : module_event S).

(** ** What is held, taken and given back *)
Definition entry_strings (e : m_dictEntry S S) : list S := de_key e :: option_list (de_val e).

Definition dict_strings d : list S := entries d ≫= entry_strings.

(** The members of a list, as [m_zslFree] gives them back. *)
Definition zsl_strings z : list S := match m_zslFree z with Some (freed, _) => freed | None => [] end.

Definition db_strings di : list S := concat (dict_strings <$> slotkey_tables di) ++ zsl_strings (tagged_key_list di).

Definition slots_strings st : list S := concat (db_strings <$> db_slot_infos st).

Definition held ms : list S :=
  slots_strings (m_slots ms) ++ option_list (from_key (m_notify ms)) ++ option_list (to_key (m_notify ms)).

Definition taken evs : list S := omap (λ x, match x with Created s | Held s => Some s | Freed _ => None end) evs.

Definition given_back evs : list S := omap (λ x, match x with Freed s => Some s | _ => None end) evs.

(** The functions that take a reference are there: Redis 4.0.0 and later. *)
Definition takes_references : Prop := is_Some (RedisModule_HoldString (S := S)) ∨ RedisModule_RetainString (S := S) = true.

(** ** How often the accounts are not balanced *)
Definition has_name (db : Z) (x : list byte) (kss : list (gset (list byte))) : bool :=
  match kss !! Z.to_nat db with Some ks => bool_decide (x ∈ ks) | None => false end.

(** The second event of a rename or a move: whether the new name is there already,
    when the old one is gone. *)
Definition target_there sp ev : option bool :=
  match ev with
  | Generic _ _ db event key =>
    if decide (event = "rename_to"%string)
    then (λ from, has_name db (content key) (del_name db from (sp_names sp))) <$> sp_from sp
    else if decide (event = "move_to"%string)
    then Some (has_name db (content key) (del_name (sp_db sp) (content key) (sp_names sp)))
    else None
  | _ => None
  end.

(** A completed rename or move gives the new value back once too often. *)
Definition event_over sp ev : nat := match target_there sp ev with Some false => 1 | _ => 0 end.

(** What is lost: the reference to a key that is there already, and its new value
    where no automatic memory takes it; the old name of a rename whose second
    event does not come. *)
Definition event_leaks sp ev : nat :=
  match ev with
  | TypeChange _ _ db key => if has_name db (content key) (sp_names sp) then 2 else 0
  | Generic _ _ _ event _ =>
    if decide (event = "rename_from"%string) then length (option_list (sp_from sp))
    else match target_there sp ev with Some true => 1 | _ => 0 end
  | _ => 0
  end.

Fixpoint run_over sp (es : list (module_event S)) : nat :=
  match es with [] => 0 | ev :: es => (event_over sp ev + run_over (spec_step sp ev) es)%nat end.

Fixpoint run_leaks sp (es : list (module_event S)) : nat :=
  match es with [] => 0 | ev :: es => (event_leaks sp ev + run_leaks (spec_step sp ev) es)%nat end.

(** The value [Slots_Add] makes for a name. *)
Definition is_crc_string s : Prop := ∃ n, s = RedisModule_CreateStringFromLongLong n.

(** ** Counting *)
Definition cnt s (l : list S) : nat := count_occ str_eq_dec l s.
#[local] Arguments cnt : simpl never.

Lemma cnt_app s l1 l2 : cnt s (l1 ++ l2) = (cnt s l1 + cnt s l2)%nat.
Proof. apply count_occ_app. Qed.

Lemma cnt_cons s x l : cnt s (x :: l) = (cnt s [x] + cnt s l)%nat.
Proof. apply (cnt_app s [x]). Qed.

Lemma cnt_nil s : cnt s [] = 0%nat.
Proof. done. Qed.

Lemma cnt_perm l1 l2 : l1 ≡ₚ l2 <-> ∀ s, cnt s l1 = cnt s l2.
Proof. apply (Permutation_count_occ str_eq_dec). Qed.

Lemma cnt_insert {A} (f : A -> list S) l i x y s :
  l !! i = Some x ->
  (cnt s (concat (f <$> <[i := y]> l)) + cnt s (f x) = cnt s (concat (f <$> l)) + cnt s (f y))%nat.
Proof.
  revert i. induction l as [|a l IH]; intros [|i] Hi; try done; cbn.
  - injection Hi as ->. rewrite !cnt_app. lia.
  - rewrite !cnt_app, <- !Nat.add_assoc. f_equal. exact (IH i Hi).
Qed.

Lemma taken_app evs1 evs2 : taken (evs1 ++ evs2) = taken evs1 ++ taken evs2.
Proof. apply omap_app. Qed.

Lemma given_back_app evs1 evs2 : given_back (evs1 ++ evs2) = given_back evs1 ++ given_back evs2.
Proof. apply omap_app. Qed.

Lemma taken_freed l : taken (map Freed l) = [].
Proof. by induction l. Qed.

Lemma given_back_freed l : given_back (map Freed l) = l.
Proof. induction l as [|s l IH]; [done|]. cbn. by f_equal. Qed.

(** An account of a step from [before] to [after]: [over] is given back though it
    is neither held nor taken, or is still held; [leaked] is lost. *)
Definition balance (before after : list S) evs (over leaked : list S) : Prop :=
  ∀ s, (cnt s before + cnt s (taken evs) + cnt s over = cnt s after + cnt s (given_back evs) + cnt s leaked)%nat.

Lemma balance_trans l1 l2 l3 evs1 evs2 over1 over2 leaked1 leaked2 :
  balance l1 l2 evs1 over1 leaked1 -> balance l2 l3 evs2 over2 leaked2 ->
  balance l1 l3 (evs1 ++ evs2) (over1 ++ over2) (leaked1 ++ leaked2).
Proof.
  intros H1 H2 s. specialize (H1 s). specialize (H2 s). rewrite taken_app, given_back_app, !cnt_app. lia.
Qed.

Lemma balance_perm before after evs over leaked :
  balance before after evs over leaked <->
  before ++ taken evs ++ over ≡ₚ after ++ given_back evs ++ leaked.
Proof.
  rewrite cnt_perm. unfold balance. split; intros H s; specialize (H s); rewrite !cnt_app in *; lia.
Qed.

(** ** Tables and lists *)
Definition kv_strings (kv : S * option S) : list S := kv.1 :: option_list kv.2.

Lemma dict_strings_map d s :
  dict_wf content d -> cnt s (dict_strings d) = cnt s (concat (kv_strings <$> (map_to_list (dict_map content d)).*2)).
Proof.
  intros Hwf. apply cnt_perm. unfold dict_strings, dict_map.
  assert (NoDup ((entry_kv content <$> entries d).*1)) as Hnd.
  { rewrite entry_kv_fst. apply (wf_nodup _ _ Hwf). }
  rewrite (map_to_list_to_map _ Hnd). rewrite <- !list_fmap_compose.
  apply reflexive_eq. unfold mbind. clear. induction (entries d) as [|e es IH]; [done|]. cbn. by rewrite IH.
Qed.

Lemma same_strings d d' s :
  dict_wf content d -> dict_wf content d' -> dict_map content d' = dict_map content d ->
  cnt s (dict_strings d') = cnt s (dict_strings d).
Proof. intros H1 H2 E. by rewrite !dict_strings_map, E. Qed.

Lemma map_insert_strings (m : gmap (list byte) (S * option S)) i kv s :
  m !! i = None ->
  cnt s (concat (kv_strings <$> (map_to_list (<[i := kv]> m)).*2)) =
  (cnt s (kv_strings kv) + cnt s (concat (kv_strings <$> (map_to_list m).*2)))%nat.
Proof.
  intros Hi. rewrite <- cnt_app. apply cnt_perm. by rewrite (map_to_list_insert m i kv Hi).
Qed.

Lemma map_delete_strings (m : gmap (list byte) (S * option S)) i kv s :
  m !! i = Some kv ->
  cnt s (concat (kv_strings <$> (map_to_list m).*2)) =
  (cnt s (kv_strings kv) + cnt s (concat (kv_strings <$> (map_to_list (delete i m)).*2)))%nat.
Proof.
  intros Hi. rewrite <- cnt_app. apply cnt_perm. by rewrite <- (map_to_list_delete m i kv Hi).
Qed.

Lemma zsl_strings_repr z l : zsl_repr ∅ z l -> zsl_strings z = zi_mem <$> l.
Proof. intros Hz. unfold zsl_strings. by destruct (zsl_free_ok _ _ Hz) as (m & -> & _). Qed.

Lemma cnt_set_table di slot d d' s :
  slotkey_tables di !! slot = Some d ->
  (cnt s (db_strings (set_table di slot d')) + cnt s (dict_strings d) = cnt s (db_strings di) + cnt s (dict_strings d'))%nat.
Proof.
  intros Hd. unfold db_strings. cbn [set_table slotkey_tables tagged_key_list]. rewrite !cnt_app.
  pose proof (cnt_insert dict_strings _ _ _ d' s Hd). lia.
Qed.

Lemma cnt_set_tagged di z s :
  (cnt s (db_strings (set_tagged di z)) + cnt s (zsl_strings (tagged_key_list di)) =
   cnt s (db_strings di) + cnt s (zsl_strings z))%nat.
Proof. unfold db_strings. cbn [set_tagged slotkey_tables tagged_key_list]. rewrite !cnt_app. lia. Qed.

Lemma cnt_set_info st db di di' s :
  db_slot_infos st !! db = Some di ->
  (cnt s (slots_strings (set_info st db di')) + cnt s (db_strings di) =
   cnt s (slots_strings st) + cnt s (db_strings di'))%nat.
Proof. intros Hdi. unfold slots_strings. cbn [set_info db_slot_infos]. by apply cnt_insert. Qed.

(** ** The updates *)
Lemma take_events key : takes_references -> (takeAndRef key).1 = [Held (takeAndRef key).2].
Proof using Type.
  intros [[hold Hh]|Hr]; unfold takeAndRef; [by rewrite Hh|]. destruct RedisModule_HoldString; [done|by rewrite Hr].
Qed.

Definition crc_string st key : S := RedisModule_CreateStringFromLongLong (si_crc (key_slot st key)).

Lemma table_add_account st can ks slot d k v r d' s :
  table_repr st ks slot d -> in_slot st slot (content k) -> Z.of_nat (size ks) + 1 < MAX_ENTRIES ->
  m_dictAdd can d k v = Some (r, d') ->
  (r = DICT_OK <-> content k ∉ ks) ∧
  cnt s (dict_strings d') = (cnt s (dict_strings d) + if decide (r = DICT_OK) then cnt s [k; v] else 0)%nat.
Proof using HR.
  intros Ht Hk Hsz E. destruct (table_add st can ks slot d k v Ht Hk Hsz) as (r0 & d0 & E0 & _ & Hr).
  rewrite E in E0. injection E0 as <- <-. split; [done|].
  pose proof (table_entries _ _ _ _ Ht) as Hle. destruct Ht as (Hwf & ET & _).
  destruct (add_ok content can d k v Hwf ltac:(lia)) as (r0 & d0 & E0 & Hwf' & _ & Hm).
  rewrite E in E0. injection E0 as <- <-.
  destruct (dict_map content d !! content k) as [kv|] eqn:Ek; destruct Hm as [-> Hm].
  - rewrite decide_False by done. rewrite (same_strings d d' s Hwf Hwf' Hm). lia.
  - rewrite decide_True by done. rewrite (dict_strings_map d' s Hwf'), Hm, map_insert_strings by done.
    rewrite <- (dict_strings_map d s Hwf), ET. cbn [kv_strings fst snd option_list]. rewrite Nat.add_comm. f_equal.
Qed.

Lemma add_account fuel rand level st kss db ks key evs st' :
  takes_references -> slots_repr st kss -> kss !! db = Some ks ->
  Z.of_nat (size ks) < ZSL_MAX -> m_zslRandomLevel fuel rand = Some level ->
  Slots_Add fuel rand st db key = Some (evs, st') ->
  balance (slots_strings st) (slots_strings st') evs []
    (if decide (content key ∈ ks) then [crc_string st key; (takeAndRef key).2] else []) ∧
  auto_memory evs = [Freed (crc_string st key)].
Proof using HR.
  intros Href Hst Hks Hsz Hlv E. pose proof (take_events key Href) as Hev.
  destruct (slots_add_ok fuel rand level st kss db ks key Hst Hks Hsz Hlv) as (evs0 & st0 & E0 & _ & _ & Eevs).
  rewrite E in E0. injection E0 as <- <-. rewrite Hev in Eevs. unfold crc_string. split.
  2: { rewrite Eevs. cbn. by case_decide. }
  pose proof (sr_size _ _ Hst) as Hsize. destruct (state_lookup _ _ _ _ Hst Hks) as (di & Hdi & Hdb).
  unfold Slots_Add in E. rewrite Hdi in E. change (key_slot st key) with (name_slot st (content key)) in *.
  destruct (key_table st di ks (content key) Hsize Hdb) as (d & Hd & Ht & Hin).
  cbn [mbind option_bind] in E. rewrite Hd in E. cbn [mbind option_bind] in E.
  set (slot := Z.to_nat (si_slot (name_slot st (content key)))) in *.
  pose proof (take_content key) as Hk. destruct (takeAndRef key) as [ev_key k] eqn:Etk. cbn [snd fst] in *.
  set (v := RedisModule_CreateStringFromLongLong (si_crc (name_slot st (content key)))) in *.
  destruct (m_dictAdd (dict_can_resize st) d k v) as [[r d']|] eqn:Ea; [|done]. cbn [mbind option_bind] in E.
  rewrite <- Hk in Hin. unfold ZSL_MAX in Hsz.
  assert (∀ s, (r = DICT_OK <-> content k ∉ ks) ∧
    cnt s (dict_strings d') = (cnt s (dict_strings d) + if decide (r = DICT_OK) then cnt s [k; v] else 0)%nat) as Hacc.
  { intros s. apply (table_add_account st (dict_can_resize st) ks slot d k v r d' s Ht Hin); [unfold MAX_ENTRIES; lia|done]. }
  assert (∀ s, cnt s (taken evs) = (cnt s [v; k] + if decide ((content key ∉ ks) ∧ si_hastag (name_slot st (content key)) = true)
    then cnt s [k] else 0)%nat) as Htaken.
  { intros s. rewrite Eevs. destruct (decide (_ ∧ _)); [exact (cnt_app s [v; k] [k])|by rewrite Nat.add_0_r]. }
  assert (∀ s, cnt s (given_back evs) = 0%nat) as Hback.
  { intros s. rewrite Eevs. by destruct (decide (_ ∧ _)). }
  clear Eevs. intros s. rewrite Htaken, Hback. destruct (Hacc s) as [Hr Hs]. clear Hacc Htaken Hback. rewrite Hk in Hr.
  pose proof (cnt_set_table di slot d d' s Hd) as Hst1.
  destruct (decide (r ≠ DICT_OK)) as [Hne|Heq%dec_stable].
  - assert (content key ∈ ks) as Hin' by (apply dec_stable; tauto). rewrite (decide_True (P := _ ∈ _)) by done.
    rewrite decide_False in Hs by done. rewrite (decide_False (P := _ ∧ _)) by tauto. injection E as _ <-.
    pose proof (cnt_set_info st db di (set_table di slot d') s Hdi). rewrite cnt_nil. lia.
  - pose proof (proj1 Hr Heq) as Hn. rewrite (decide_False (P := _ ∈ _)) by done. rewrite decide_True in Hs by done.
    assert (cnt s [k; v] = cnt s [v; k]) as Hswap by (rewrite !(cnt_cons s _ [_]); lia).
    destruct (si_hastag (name_slot st (content key))) eqn:Eh.
    + rewrite decide_True by done. destruct (db_tagged _ _ _ Hdb) as (l & Hz & Hs' & Hsc & Hmem).
      destruct (zsl_insert_ok RedisModule_StringCompare fuel rand level (tagged_key_list di) l
        (si_crc (name_slot st (content key))) k Hz Hs') as (z' & n & pre & post & Ez & -> & _ & Hz' & _).
      { pose proof (tagged_length st ks l Hs' Hsc) as Hl. unfold ZSL_MAX. specialize (Hl ltac:(intros x Hx; by apply Hmem)). lia. }
      { done. }
      { apply Forall_forall. intros it Hit [_ Ec]. apply Hn. apply compare_content in Ec. rewrite <- Hk, <- Ec.
        apply Hmem. apply list_elem_of_fmap. by exists it. }
      change (tagged_key_list (set_table di slot d')) with (tagged_key_list di) in E. rewrite Ez in E. cbn [mbind option_bind] in E. injection E as _ <-.
      pose proof (cnt_set_info st db di (set_tagged (set_table di slot d') z') s Hdi) as H1.
      pose proof (cnt_set_tagged (set_table di slot d') z' s) as H2. cbn [set_table tagged_key_list] in H2.
      change (DbSlotInfo _ _ _) with (set_table di slot d') in H2.
      rewrite (zsl_strings_repr _ _ Hz), (zsl_strings_repr _ _ Hz'), !fmap_app, !cnt_app, fmap_cons, (cnt_cons s _ (_ <$> post)) in H2.
      cbn [zi_mem] in H2. rewrite cnt_nil. lia.
    + rewrite decide_False by (intros [_ ?]; done). injection E as _ <-.
      pose proof (cnt_set_info st db di (set_table di slot d') s Hdi). rewrite cnt_nil. lia.
Qed.

(** What a table's destructors give back is what goes from it. *)
Lemma given_back_destroy k v : given_back ([FreeKey k; FreeVal v] ≫= destroy) = kv_strings (k, v).
Proof. by destruct v. Qed.

Lemma frees_only evs : Forall (λ x, ∃ s, x = Freed s) evs -> taken evs = [] ∧ auto_memory evs = [].
Proof. induction 1 as [|x evs [s ->] _ [IH1 IH2]]; [done|]. split; [exact IH1|exact IH2]. Qed.

Lemma destroy_frees (freed : list (dict_event S S)) : Forall (λ x, ∃ s, x = Freed s) (freed ≫= destroy).
Proof.
  induction freed as [|[k|[v|]|] freed IH]; [constructor|..]; try exact IH; (constructor; [by eexists|exact IH]).
Qed.

Lemma map_frees l : Forall (λ x, ∃ s, x = Freed (S := S) s) (map Freed l).
Proof. induction l as [|s l IH]; [constructor|]. constructor; [by eexists|done]. Qed.

Lemma table_del_account st ks slot d key r freed d' s :
  table_repr st ks slot d -> m_dictDelete d key = Some (r, freed, d') ->
  cnt s (dict_strings d) = (cnt s (dict_strings d') + cnt s (given_back (freed ≫= destroy)))%nat.
Proof using HR.
  intros (Hwf & ET & _) E. destruct (dict_delete_ok content d key Hwf) as (r0 & freed0 & d0 & E0 & Hwf' & _ & Hm & Hr).
  rewrite E in E0. injection E0 as <- <- <-.
  destruct (dict_map content d !! content key) as [[k v]|] eqn:Ek; destruct Hr as [_ ->].
  - rewrite ET. change (_ ++ _) with [FreeKey k; FreeVal v]. rewrite given_back_destroy.
    rewrite (dict_strings_map d s Hwf), (dict_strings_map d' s Hwf'), Hm, (map_delete_strings _ _ _ s Ek). lia.
  - rewrite (same_strings d d' s Hwf Hwf'); [cbn; rewrite cnt_nil; lia|]. by rewrite Hm, delete_id.
Qed.

Lemma del_account st kss db ks key evs st' :
  slots_repr st kss -> kss !! db = Some ks -> Slots_Del st db key = Some (evs, st') ->
  balance (slots_strings st) (slots_strings st') evs [] [] ∧ auto_memory evs = [].
Proof using HR.
  intros Hst Hks E. pose proof (sr_size _ _ Hst) as Hsize. destruct (state_lookup _ _ _ _ Hst Hks) as (di & Hdi & Hdb).
  unfold Slots_Del in E. rewrite Hdi in E. change (key_slot st key) with (name_slot st (content key)) in *.
  destruct (key_table st di ks (content key) Hsize Hdb) as (d & Hd & Ht & Hin).
  cbn [mbind option_bind] in E. rewrite Hd in E. cbn [mbind option_bind] in E.
  set (slot := Z.to_nat (si_slot (name_slot st (content key)))) in *.
  destruct (m_dictDelete d key) as [[[r freed] d']|] eqn:Ed; [|done]. cbn [mbind option_bind] in E.
  pose proof (λ s, table_del_account st ks slot d key r freed d' s Ht Ed) as Hs.
  assert (∀ evs', Forall (λ x, ∃ s, x = Freed s) evs' -> (∀ s, cnt s (slots_strings st) = (cnt s (slots_strings st') + cnt s (given_back evs'))%nat) ->
    balance (slots_strings st) (slots_strings st') evs' [] [] ∧ auto_memory evs' = []) as Hfin.
  { intros evs' Hf H. destruct (frees_only evs' Hf) as [Ht' Ha]. split; [|done]. intros s. rewrite Ht', !cnt_nil, H. lia. }
  destruct (decide (r ≠ DICT_OK)) as [Hne|Hok].
  - injection E as <- <-. apply Hfin; [apply destroy_frees|]. intros s.
    pose proof (cnt_set_table di slot d d' s Hd). pose proof (cnt_set_info st db di (set_table di slot d') s Hdi).
    specialize (Hs s). lia.
  - destruct (si_hastag (name_slot st (content key))) eqn:Eh.
    + destruct (db_tagged _ _ _ Hdb) as (l & Hz & Hs' & Hsc & Hmem).
      change (tagged_key_list (set_table di slot d')) with (tagged_key_list di) in E.
      assert (∃ r' freed' u z', m_zslDelete RedisModule_StringCompare (tagged_key_list di)
          (si_crc (name_slot st (content key))) key false = Some (r', freed', u, z') ∧
        ∀ s, cnt s (zsl_strings (tagged_key_list di)) = (cnt s (zsl_strings z') + cnt s freed')%nat) as (r' & freed' & u & z' & Ez & Hz').
      { destruct (zsl_delete_ok RedisModule_StringCompare (tagged_key_list di) l (si_crc (name_slot st (content key))) key Hz Hs')
          as [(pre & it & post & z' & -> & _ & Ez & Hz' & _)|[_ Ez]]; (do 4 eexists; split; [exact Ez|]); intros s.
        - rewrite (zsl_strings_repr _ _ Hz), (zsl_strings_repr _ _ Hz'), !fmap_app, fmap_cons, !cnt_app, (cnt_cons s _ (_ <$> post)). lia.
        - rewrite cnt_nil. lia. }
      rewrite Ez in E. cbn [mbind option_bind] in E. injection E as <- <-.
      apply Hfin; [apply Forall_app_2; [apply destroy_frees|apply map_frees]|]. intros s.
      rewrite given_back_app, given_back_freed, cnt_app. specialize (Hs s). specialize (Hz' s).
      pose proof (cnt_set_info st db di (set_tagged (set_table di slot d') z') s Hdi) as H1.
      pose proof (cnt_set_tagged (set_table di slot d') z' s) as H2. cbn [set_table tagged_key_list] in H2.
      change (DbSlotInfo _ _ _) with (set_table di slot d') in H2. pose proof (cnt_set_table di slot d d' s Hd). lia.
    + injection E as <- <-. apply Hfin; [apply destroy_frees|]. intros s.
      pose proof (cnt_set_table di slot d d' s Hd). pose proof (cnt_set_info st db di (set_table di slot d') s Hdi).
      specialize (Hs s). lia.
Qed.

(** ** Flushes *)
Lemma given_back_entries seed (es : list (m_dictEntry S S)) :
  given_back ((es ≫= free_entry (hashSlotDictType seed)) ≫= destroy) = es ≫= entry_strings.
Proof.
  induction es as [|e es IH]; [done|]. rewrite !bind_cons, bind_app, given_back_app, IH. by destruct e as [k [v|]].
Qed.

Lemma flush_slots_account n slot di evs di' :
  (∀ i d, slotkey_tables di !! i = Some d -> ∃ seed, dict_wf content d ∧ d_type d = hashSlotDictType seed) ->
  flush_slots n slot di = Some (evs, di') ->
  Forall (λ x, ∃ s, x = Freed s) evs ∧ tagged_key_list di' = tagged_key_list di ∧
  ∀ s, cnt s (db_strings di) = (cnt s (db_strings di') + cnt s (given_back evs))%nat.
Proof using HR.
  revert slot di evs. induction n as [|n IH]; intros slot di evs Hwf E; cbn [flush_slots] in E.
  { injection E as <- <-. split; [constructor|]. split; [done|]. intros s. cbn. rewrite cnt_nil. lia. }
  destruct (slotkey_tables di !! slot) as [d|] eqn:Hd; [|done]. cbn [mbind option_bind] in E.
  destruct (Hwf slot d Hd) as (seed & Hd' & ET). case_decide as Hz; [by eapply IH|].
  destruct (dict_empty_ok content d Hd') as (d' & Ed & Hwf' & Em & Ed'). rewrite Ed in E. cbn [mbind option_bind] in E.
  destruct (flush_slots n (Datatypes.S slot) (set_table di slot d')) as [[rest di2]|] eqn:E2; [|done].
  cbn [mbind option_bind] in E. injection E as <- <-.
  assert (∀ i d0, slotkey_tables (set_table di slot d') !! i = Some d0 ->
    ∃ seed, dict_wf content d0 ∧ d_type d0 = hashSlotDictType seed) as Hwf2.
  { intros i d0 Hd0. cbn [set_table slotkey_tables] in Hd0.
    apply list_lookup_insert_Some in Hd0 as [(_ & <- & _)|[_ Hd0]]; [exists seed; split; [done|by rewrite Ed', ET]|by eapply Hwf]. }
  destruct (IH _ _ _ Hwf2 E2)
    as (Hf & Htg & Hs).
  split; [apply Forall_app_2; [apply destroy_frees|done]|]. split; [done|]. intros s. specialize (Hs s).
  rewrite given_back_app, cnt_app. pose proof (cnt_set_table di slot d d' s Hd) as H1.
  assert (cnt s (dict_strings d') = 0%nat) as H0 by (by rewrite (dict_strings_map d' s Hwf'), Em).
  rewrite ET, given_back_entries. change (entries d ≫= entry_strings) with (dict_strings d). lia.
Qed.

Lemma flush_tagged_account st ks di evs di' :
  tagged_repr st ks (tagged_key_list di) -> flush_tagged di = Some (evs, di') ->
  Forall (λ x, ∃ s, x = Freed s) evs ∧
  ∀ s, cnt s (db_strings di) = (cnt s (db_strings di') + cnt s (given_back evs))%nat.
Proof using HR.
  intros (l & Hz & _) E. unfold flush_tagged in E. case_decide.
  { injection E as <- <-. split; [constructor|]. intros s. cbn. rewrite cnt_nil. lia. }
  destruct (m_zslFree (tagged_key_list di)) as [[freed m]|] eqn:Ez; [|done]. cbn [mbind option_bind] in E.
  injection E as <- <-. split; [apply map_frees|]. intros s. rewrite given_back_freed.
  pose proof (cnt_set_tagged di m_zslCreate s) as H1.
  rewrite (zsl_strings_repr _ [] create_repr), fmap_nil, cnt_nil in H1.
  unfold zsl_strings in H1. rewrite Ez in H1. lia.
Qed.

(** The account of updates that only give back. *)
Lemma frees_balance st st' evs :
  Forall (λ x, ∃ s, x = Freed s) evs ->
  (∀ s, cnt s (slots_strings st) = (cnt s (slots_strings st') + cnt s (given_back evs))%nat) ->
  balance (slots_strings st) (slots_strings st') evs [] [].
Proof. intros Hf H s. destruct (frees_only evs Hf) as [-> _]. rewrite !cnt_nil, H. lia. Qed.

Lemma flush_db_account st kss db ks evs st' :
  slots_repr st kss -> kss !! db = Some ks -> flush_db st db = Some (evs, st') ->
  balance (slots_strings st) (slots_strings st') evs [] [].
Proof using HR.
  intros Hst Hks E. destruct (state_lookup _ _ _ _ Hst Hks) as (di & Hdi & Hdb). unfold flush_db in E.
  rewrite Hdi in E. cbn [mbind option_bind] in E.
  destruct (flush_slots _ 0 di) as [[evs1 di1]|] eqn:E1; [|done]. cbn [mbind option_bind] in E.
  destruct (flush_slots_account _ _ _ _ _ ltac:(intros i d Hd; destruct (db_table _ _ _ Hdb i d Hd) as (Hwf & ET & _); by eexists) E1)
    as (Hf1 & Htg & Hs1).
  destruct (flush_tagged di1) as [[evs2 di2]|] eqn:E2; [|done]. cbn [mbind option_bind] in E. injection E as <- <-.
  destruct (flush_tagged_account st ks di1 evs2 di2) as [Hf2 Hs2]; [rewrite Htg; apply Hdb|done|].
  apply frees_balance; [by apply Forall_app_2|]. intros s. rewrite given_back_app, cnt_app.
  pose proof (cnt_set_info st db di di2 s Hdi). specialize (Hs1 s). specialize (Hs2 s). lia.
Qed.

Lemma flush_dbs_account n db st kss evs st' :
  slots_repr st kss -> (db + n)%nat = length kss -> flush_dbs n db st = Some (evs, st') ->
  balance (slots_strings st) (slots_strings st') evs [] [].
Proof using HR.
  revert db st kss evs. induction n as [|n IH]; intros db st kss evs Hst Hlen E; cbn [flush_dbs] in E.
  { by injection E as <- <-. }
  destruct (lookup_lt_is_Some_2 kss db) as [ks Hks]; [lia|].
  destruct (flush_db_ok st kss db ks Hst Hks) as (evs1 & st1 & E1 & Hst1 & _). rewrite E1 in E. cbn [mbind option_bind] in E.
  destruct (flush_dbs n (Datatypes.S db) st1) as [[evs2 st2]|] eqn:E2; [|done]. cbn [mbind option_bind] in E.
  injection E as <- <-. apply (balance_trans _ (slots_strings st1) _ _ _ [] [] [] []); [by eapply flush_db_account|].
  apply (IH (Datatypes.S db) st1 (<[db := ∅]> kss)); [done|rewrite length_insert; lia|done].
Qed.

(** ** The cron loop *)
Definition same_held st st' : Prop := ∀ s, cnt s (slots_strings st') = cnt s (slots_strings st).

Lemma same_table_account st kss db slot d d' st' :
  slots_repr st kss -> pair_ok st db slot -> table_at st db slot = Some d -> dict_wf content d' ->
  dict_map content d' = dict_map content d -> set_table_at st db slot d' = Some st' -> same_held st st'.
Proof using HR.
  intros Hst Hp Hd Hwf Em E s. destruct (table_at_ok st kss db slot Hst Hp) as (di & d0 & ks & Hdi & Hd0 & _ & Ht).
  unfold table_at in Hd. unfold set_table_at in E. rewrite Hdi in Hd, E. cbn [mbind option_bind] in Hd, E.
  rewrite Hd0 in Hd. injection Hd as ->. injection E as <-.
  pose proof (same_strings d d' s (proj1 Ht) Hwf Em). pose proof (cnt_set_table di _ d d' s Hd0).
  pose proof (cnt_set_info st _ di (set_table di (Z.to_nat slot) d') s Hdi). lia.
Qed.

Lemma try_resize_account st kss db slot st' :
  slots_repr st kss -> small kss -> pair_ok st db slot ->
  tryResizeDbSlotHashTables st db slot = Some st' -> same_held st st'.
Proof using HR.
  intros Hst Hsm Hp E. destruct (table_at_ok st kss db slot Hst Hp) as (di & d & ks & Hdi & Hd & Hks & Ht).
  unfold tryResizeDbSlotHashTables in E. destruct (table_at st db slot) as [d0|] eqn:Ed; [|done]. pose proof Ed as Ed'.
  unfold table_at in Ed'. rewrite Hdi in Ed'. cbn [mbind option_bind] in Ed'. rewrite Hd in Ed'. injection Ed' as ->.
  cbn [mbind option_bind] in E. destruct (htNeedsResize d0); [|by injection E as <-].
  pose proof (table_entries _ _ _ _ Ht) as Hle. pose proof (Forall_lookup_1 _ _ _ _ Hsm Hks) as Hks'. cbv beta in Hks'.
  pose proof (proj1 Ht) as Hwf. destruct (dict_resize_ok content (dict_can_resize st) d0 Hwf) as (r & d' & E' & Hwf' & Em & _).
  { rewrite (wf_used _ _ (wf_ht0 _ _ Hwf)). unfold entries in Hle. rewrite length_app in Hle. lia. }
  rewrite E' in E. cbn [mbind option_bind] in E. by eapply same_table_account.
Qed.

Lemma incrementally_rehash_account st kss db slot clock r st' :
  slots_repr st kss -> pair_ok st db slot ->
  incrementallyDbSlotRehash st db slot clock = Some (r, st') -> same_held st st'.
Proof using HR.
  intros Hst Hp E. destruct (table_at_ok st kss db slot Hst Hp) as (di & d & ks & Hdi & Hd & Hks & Ht).
  unfold incrementallyDbSlotRehash in E. destruct (table_at st db slot) as [d0|] eqn:Ed; [|done]. pose proof Ed as Ed'.
  unfold table_at in Ed'. rewrite Hdi in Ed'. cbn [mbind option_bind] in Ed'. rewrite Hd in Ed'. injection Ed' as ->.
  cbn [mbind option_bind] in E. destruct (dictIsRehashing d0); [|by injection E as _ <-].
  destruct (rehash_ms_total content d0 1 clock (proj1 Ht)) as (n & d' & E' & Hwf' & Hsc).
  rewrite E' in E. cbn [mbind option_bind] in E.
  destruct (set_table_at st db slot d') as [st1|] eqn:Es; [|done]. cbn [mbind option_bind] in E. injection E as _ <-.
  eapply same_table_account; [done..| |done]. apply same_content_map; [apply Ht|done].
Qed.

Lemma same_held_trans st1 st2 st3 : same_held st1 st2 -> same_held st2 st3 -> same_held st1 st3.
Proof. intros H1 H2 s. by rewrite H2, H1. Qed.

Lemma resize_slots_account n st kss db slot slot' st' :
  slots_repr st kss -> small kss -> meta_ok st -> pair_ok st db slot ->
  resize_slots n st db slot = Some (slot', st') -> same_held st st'.
Proof using HR.
  revert st slot. induction n as [|n IH]; intros st slot Hst Hsm Hm Hp E; cbn [resize_slots] in E; [by injection E as _ <-|].
  destruct (try_resize_ok st kss db slot Hst Hsm Hp) as (st1 & E1 & Hst1 & Em). rewrite E1 in E. cbn [mbind option_bind] in E.
  pose proof Hp as [Hdb Hslot]. rewrite Em in E.
  destruct (next_index slot (hash_slots_size (g_slots_meta_info st))) as (slot1 & E2 & Hr); [destruct Hm; lia|done|].
  rewrite E2 in E. cbn [mbind option_bind] in E.
  apply (same_held_trans _ st1); [by eapply try_resize_account|].
  apply (IH st1 slot1 Hst1 Hsm); [unfold meta_ok; by rewrite Em|unfold pair_ok; by rewrite Em|done].
Qed.

Lemma resize_dbs_account n slots st kss db slot db' slot' st' :
  slots_repr st kss -> small kss -> meta_ok st -> pair_ok st db slot ->
  resize_dbs n slots st db slot = Some (db', slot', st') -> same_held st st'.
Proof using HR.
  revert st db slot. induction n as [|n IH]; intros st db slot Hst Hsm Hm Hp E; cbn [resize_dbs] in E; [by injection E as _ _ <-|].
  destruct (resize_slots_ok slots st kss db slot Hst Hsm Hm Hp) as (slot1 & st1 & E1 & Hst1 & Em & [Hdb Hslot]).
  rewrite E1 in E. cbn [mbind option_bind] in E. pose proof (proj2 Hm) as Hdbs. rewrite <- Em in Hdbs.
  rewrite (u32_small (databases _)) in E by lia.
  destruct (next_index db (databases (g_slots_meta_info st1)) Hdbs Hdb) as (db1 & E2 & Hr).
  rewrite E2 in E. cbn [mbind option_bind] in E.
  apply (same_held_trans _ st1); [by eapply resize_slots_account|].
  apply (IH st1 db1 slot1 Hst1 Hsm); [unfold meta_ok; by rewrite Em|by split|done].
Qed.

Lemma rehash_slots_account n st kss db slot clock done' db' st' :
  slots_repr st kss -> meta_ok st -> 0 <= db < databases (g_slots_meta_info st) ->
  0 <= slot -> slot + Z.of_nat n <= hash_slots_size (g_slots_meta_info st) ->
  rehash_slots n st db slot clock = Some (done', db', st') -> same_held st st'.
Proof using HR.
  revert st db slot. induction n as [|n IH]; intros st db slot Hst Hm Hdb Hslot Hn E; cbn [rehash_slots] in E;
    [by injection E as _ _ <-|].
  assert (pair_ok st db slot) as Hp by (split; lia).
  destruct (incrementally_rehash_ok st kss db slot clock Hst Hp) as (r & st1 & E1 & Hst1 & Em).
  rewrite E1 in E. cbn [mbind option_bind] in E. pose proof (incrementally_rehash_account _ _ _ _ _ _ _ Hst Hp E1) as H1.
  case_decide; [by injection E as _ _ <-|].
  rewrite Em in E. destruct Hm as [Hm1 Hm2]. rewrite (u32_small (databases _)) in E by lia.
  destruct (next_index db (databases (g_slots_meta_info st)) Hm2 Hdb) as (db1 & E2 & Hr).
  rewrite E2 in E. cbn [mbind option_bind] in E. apply (same_held_trans _ st1); [done|].
  apply (IH st1 db1 (slot + 1) Hst1); [by unfold meta_ok; rewrite Em|by rewrite Em|lia|rewrite Em; lia|done].
Qed.

Lemma rehash_dbs_account n slots st kss db clock db' st' :
  slots_repr st kss -> meta_ok st -> 0 <= db < databases (g_slots_meta_info st) ->
  Z.of_nat slots <= hash_slots_size (g_slots_meta_info st) ->
  rehash_dbs n slots st db clock = Some (db', st') -> same_held st st'.
Proof using HR.
  revert st db. induction n as [|n IH]; intros st db Hst Hm Hdb Hs E; cbn [rehash_dbs] in E; [by injection E as _ <-|].
  destruct (rehash_slots_ok slots st kss db 0 clock Hst Hm Hdb) as (d & db1 & st1 & E1 & Hst1 & Em & Hdb1); [lia|lia|].
  rewrite E1 in E. cbn [mbind option_bind] in E.
  assert (same_held st st1) as H1 by (eapply (rehash_slots_account slots st kss db 0); [done..|lia|lia|exact E1]).
  destruct d; [by injection E as _ <-|]. apply (same_held_trans _ st1); [done|].
  apply (IH st1 db1 Hst1); [by unfold meta_ok; rewrite Em|by rewrite Em|by rewrite Em|done].
Qed.

Lemma db_slot_cron_account st kss cs active clock st' cs' :
  slots_repr st kss -> small kss -> meta_ok st -> cron_ok st cs ->
  dbSlotCron st cs active clock = Some (st', cs') -> same_held st st'.
Proof using HR.
  intros Hst Hsm Hm (H1 & H2 & H3) E. unfold dbSlotCron in E.
  destruct (resize_dbs_ok (Z.to_nat (Z.min CRON_DBS_PER_CALL (databases (g_slots_meta_info st))))
    (Z.to_nat (Z.min CRON_DB_SLOTS_PER_CALL (i32 (hash_slots_size (g_slots_meta_info st)))))
    st kss (resize_db cs) (resize_db_slot cs) Hst Hsm Hm (conj H1 H2)) as (db1 & slot1 & st1 & E1 & Hst1 & Em & _).
  rewrite E1 in E. cbn [mbind option_bind] in E. pose proof (resize_dbs_account _ _ _ _ _ _ _ _ _ Hst Hsm Hm (conj H1 H2) E1) as Hs1.
  destruct (_ || _); [by injection E as <- _|]. pose proof (proj1 Hm) as Hsz. rewrite (i32_small (hash_slots_size _)) in E by lia.
  destruct (rehash_dbs _ _ st1 _ clock) as [[hdb st2]|] eqn:E2; [|done]. cbn [mbind option_bind] in E. injection E as <- _.
  apply (same_held_trans _ st1); [done|]. eapply (rehash_dbs_account _ _ st1 kss); [done| | | |exact E2].
  - unfold meta_ok. by rewrite Em.
  - by rewrite Em.
  - rewrite Em. lia.
Qed.

(** ** The handlers *)
Lemma auto_memory_app evs1 evs2 : auto_memory (evs1 ++ evs2) = auto_memory evs1 ++ auto_memory evs2.
Proof. apply bind_app. Qed.

(** The deletion and the insertion of a rename or a move; [NotifyGenericCallback]
    releases the new value when it returns. *)
Lemma move_account fuel rand st kss db1 db2 k1 k2 refs1 st1 refs2 st2 :
  takes_references ->
  slots_repr st kss -> small kss -> (Z.to_nat db1 < length kss)%nat -> (Z.to_nat db2 < length kss)%nat ->
  is_Some (m_zslRandomLevel fuel rand) ->
  Slots_Del st (Z.to_nat db1) k1 = Some (refs1, st1) ->
  Slots_Add fuel rand st1 (Z.to_nat db2) k2 = Some (refs2, st2) ->
  ∃ over leaked, balance (slots_strings st) (slots_strings st2) (refs1 ++ refs2 ++ auto_memory (refs1 ++ refs2)) over leaked ∧
    Forall is_crc_string over ∧
    (if has_name db2 (content k2) (del_name db1 (content k1) kss)
     then length over = 0%nat ∧ length leaked = 1%nat else length over = 1%nat ∧ length leaked = 0%nat).
Proof using HR.
  intros Href Hst Hsm H1 H2 [level Hlv] E1 E2. destruct (lookup_lt_is_Some_2 kss (Z.to_nat db1) H1) as [ks1 Hks1].
  destruct (del_account st kss _ ks1 k1 refs1 st1 Hst Hks1 E1) as [B1 A1].
  destruct (del_step st kss db1 k1 Hst H1) as (refs0 & st0 & E0 & Hst1 & _). rewrite E1 in E0. injection E0 as <- <-.
  assert (Z.to_nat db2 < length (del_name db1 (content k1) kss))%nat as H2' by (by unfold del_name; rewrite length_alter).
  destruct (lookup_lt_is_Some_2 _ _ H2') as [ks2 Hks2].
  pose proof (Forall_lookup_1 _ _ _ _ (small_del kss db1 (content k1) Hsm) Hks2) as Hsz. cbv beta in Hsz.
  destruct (add_account fuel rand level st1 _ _ ks2 k2 refs2 st2 Href Hst1 Hks2) as [B2 A2]; [unfold ZSL_MAX; lia|done..|].
  rewrite auto_memory_app, A1, A2. unfold has_name. rewrite Hks2. cbn [app].
  pose proof (balance_trans _ _ _ _ _ _ _ _ _ B1 B2) as B. cbn [app] in B.
  destruct (decide (content k2 ∈ ks2)) as [Hin|Hn].
  - rewrite bool_decide_eq_true_2 by done. exists [], [(takeAndRef k2).2]. split; [|done]. intros s. specialize (B s).
    rewrite app_assoc, taken_app, given_back_app, !cnt_app. rewrite (cnt_cons s _ [_]) in B. rewrite !cnt_nil in *.
    change (given_back [Freed ?x]) with [x]. lia.
  - rewrite bool_decide_eq_false_2 by done. exists [crc_string st1 k2], []. split.
    + intros s. specialize (B s). rewrite app_assoc, taken_app, given_back_app, !cnt_app. rewrite !cnt_nil in *.
      change (given_back [Freed ?x]) with [x]. lia.
    + split; [|done]. constructor; [by eexists|constructor].
Qed.

(** The account of an event. *)
Definition event_account ms ms' sp ev refs : Prop :=
  ∃ over leaked, balance (held ms) (held ms') refs over leaked ∧ Forall is_crc_string over ∧
    length over = event_over sp ev ∧ length leaked = event_leaks sp ev.

(** The keys of a rename under way do not matter to the rest. *)
Lemma held_slots_balance st st' ns cs refs over leaked :
  balance (slots_strings st) (slots_strings st') refs over leaked ->
  balance (held (Module st ns cs)) (held (Module st' ns cs)) refs over leaked.
Proof. intros H s. specialize (H s). unfold held. cbn [m_slots m_notify]. rewrite !(cnt_app _ (slots_strings _)). lia. Qed.

Lemma quiet_account ms ms' sp ev refs :
  balance (held ms) (held ms') refs [] [] -> event_over sp ev = 0%nat -> event_leaks sp ev = 0%nat ->
  event_account ms ms' sp ev refs.
Proof. intros H Ho Hl. exists [], []. by rewrite Ho, Hl. Qed.

Lemma type_change_account ms sp fuel rand db key refs ms' :
  takes_references -> represents ms sp -> event_ok sp (TypeChange fuel rand db key) ->
  handle ms (TypeChange fuel rand db key) = Some (refs, ms') -> event_account ms ms' sp (TypeChange fuel rand db key) refs.
Proof using HR.
  intros Href Hr (Hsm & Hdb & level & Hlv) E. cbn [handle] in E. unfold NotifyTypeChangeCallback in E.
  destruct (db_lookup sp db Hdb) as (ks & Hks & Ei). rewrite Ei in E. cbn [mbind option_bind] in E.
  destruct (Slots_Add fuel rand (m_slots ms) (Z.to_nat db) key) as [[evs st']|] eqn:Ea; [|done].
  cbn [mbind option_bind] in E. injection E as <- <-.
  pose proof (Forall_lookup_1 _ _ _ _ Hsm Hks) as Hsz. cbv beta in Hsz.
  destruct (add_account fuel rand level (m_slots ms) _ _ ks key evs st' Href (rep_slots _ _ Hr) Hks) as [B _];
    [unfold ZSL_MAX; lia|done..|].
  destruct ms as [st ns cs]. exists [], (if decide (content key ∈ ks) then [crc_string st key; (takeAndRef key).2] else []).
  split; [by apply held_slots_balance|]. split; [constructor|]. split; [done|].
  cbn [event_leaks]. unfold has_name. rewrite Hks. by case_decide; [rewrite bool_decide_eq_true_2|rewrite bool_decide_eq_false_2].
Qed.

Lemma flush_account ms sp sub dbnum refs ms' :
  represents ms sp -> dbnum = -1 ∨ valid_db sp dbnum ->
  handle ms (Flushdb sub dbnum) = Some (refs, ms') -> event_account ms ms' sp (Flushdb sub dbnum) refs.
Proof using HR.
  intros Hr Hdb E. apply quiet_account; [|done..]. cbn [handle] in E.
  destruct (FlushdbCallback (m_slots ms) sub dbnum) as [[evs st']|] eqn:Ef; [|done]. cbn [mbind option_bind] in E.
  injection E as <- <-. destruct ms as [st ns cs]. apply held_slots_balance. cbn [m_slots] in Ef.
  pose proof (represents_length _ _ Hr) as Hlen. pose proof (rep_meta _ _ Hr) as [_ Hmeta].
  pose proof (rep_slots _ _ Hr) as Hst. cbn [m_slots] in *. unfold FlushdbCallback in Ef.
  destruct sub; [|by injection Ef as <- <-]. destruct (decide (dbnum ≠ -1)) as [Hne|_].
  - destruct Hdb as [?|Hdb]; [done|]. rewrite i32_small in Ef by (unfold valid_db in Hdb; lia).
    destruct (db_lookup sp dbnum Hdb) as (ks & Hks & Ei). rewrite Ei in Ef. cbn [mbind option_bind] in Ef.
    by eapply flush_db_account.
  - eapply flush_dbs_account; [done| |done]. lia.
Qed.

Lemma cron_account ms sp active clock hz refs ms' :
  represents ms sp -> event_ok (S := S) sp (CronLoop active clock hz) ->
  handle ms (CronLoop active clock hz) = Some (refs, ms') -> event_account ms ms' sp (CronLoop active clock hz) refs.
Proof using HR.
  intros Hr (Hsm & _ & _) E. apply quiet_account; [|done..]. cbn [handle] in E. unfold CronLoopCallback in E.
  destruct (dbSlotCron _ _ _ _) as [[st1 cs1]|] eqn:Ec; [|done]. cbn [mbind option_bind] in E.
  pose proof (db_slot_cron_account _ _ _ _ _ _ _ (rep_slots _ _ Hr) Hsm (rep_meta _ _ Hr) (rep_cron _ _ Hr) Ec) as Hs.
  destruct (run_with_period _ _ _) as [close|]; [|done]. cbn [mbind option_bind] in E.
  destruct (decide (_ < 2 ^ 31)); [|done]. cbn [mbind option_bind] in E. injection E as <- <-.
  intros s. specialize (Hs s). unfold held, slots_strings in *. cbn [m_slots m_notify db_slot_infos].
  rewrite !(cnt_app _ (concat _)), Hs. done.
Qed.

Lemma not_target sp fuel rand db event key :
  event ≠ "rename_to"%string -> event ≠ "move_to"%string -> target_there sp (Generic fuel rand db event key) = None.
Proof. intros H1 H2. cbn [target_there]. by rewrite !decide_False by done. Qed.

Lemma delete_event_account ms sp fuel rand db event key refs ms' :
  represents ms sp -> valid_db sp db -> event = "del"%string ∨ event = "expired"%string ->
  handle ms (Generic fuel rand db event key) = Some (refs, ms') ->
  event_account ms ms' sp (Generic fuel rand db event key) refs.
Proof using HR.
  intros Hr Hdb He E. apply quiet_account.
  2-3: by destruct He as [-> | ->].
  cbn [handle] in E. unfold NotifyGenericCallback, notify_generic in E. rewrite decide_True in E by done.
  destruct (db_lookup sp db Hdb) as (ks & Hks & Ei). rewrite Ei in E. cbn [mbind option_bind] in E.
  destruct (Slots_Del (m_slots ms) (Z.to_nat db) key) as [[evs st']|] eqn:Ed; [|done].
  cbn [mbind option_bind] in E. injection E as <- <-.
  destruct (del_account _ _ _ ks key evs st' (rep_slots _ _ Hr) Hks Ed) as [B ->]. rewrite app_nil_r.
  destruct ms as [st ns cs]. by apply held_slots_balance.
Qed.

(** The references of the two names of a rename, and automatic memory, which has
    nothing of its own to take. *)
Lemma rename_balance before after k1 c evs over leaked :
  balance before after (evs ++ auto_memory evs) over leaked ->
  balance (before ++ [k1]) after
    (([Held c] ++ evs ++ [Freed c; Freed k1]) ++ auto_memory ([Held c] ++ evs ++ [Freed c; Freed k1])) over leaked.
Proof.
  intros B s. specialize (B s).
  assert (auto_memory ([Held c] ++ evs ++ [Freed c; Freed k1]) = auto_memory evs) as -> by
    (rewrite !auto_memory_app; apply app_nil_r).
  rewrite !taken_app, !given_back_app, !cnt_app in *.
  change (taken [Held c]) with [c]. change (given_back [Held c]) with (@nil S).
  change (taken [Freed c; Freed k1]) with (@nil S). change (given_back [Freed c; Freed k1]) with [c; k1].
  rewrite (cnt_cons s c [k1]), cnt_nil. lia.
Qed.

Lemma rename_account ms sp fuel rand db key refs ms' :
  takes_references -> represents ms sp -> event_ok sp (Generic fuel rand db "rename_to" key) ->
  handle ms (Generic fuel rand db "rename_to" key) = Some (refs, ms') ->
  event_account ms ms' sp (Generic fuel rand db "rename_to" key) refs.
Proof using HR.
  intros Href Hr (Hsm & Hdb & Hlv & Hfrom) E. destruct (Hfrom eq_refl) as [from Ef]. clear Hfrom.
  cbn [handle] in E. unfold NotifyGenericCallback, notify_generic in E.
  rewrite (decide_False (P := _ ∨ _)) in E by (intros [H|H]; discriminate H). unfold save_event in E.
  rewrite (decide_False (P := "rename_to"%string = "rename_from"%string)) in E by discriminate.
  rewrite (decide_True (P := "rename_to"%string = "rename_to"%string)) in E by reflexivity.
  cbn [cmd_flag from_key to_key from_dbid to_dbid] in E.
  rewrite (decide_False (P := CMD_RENAME = CMD_NONE)), (decide_True (P := CMD_RENAME = CMD_RENAME)) in E by done.
  destruct ms as [st [fk tk fd td cf] cs]. cbn [m_slots m_notify from_key to_key from_dbid] in *.
  pose proof (rep_from _ _ Hr) as Hf. rewrite Ef in Hf. pose proof (rep_to _ _ Hr) as Ht. cbn in Hf, Ht. subst tk.
  destruct fk as [k1|]; [|done]. injection Hf as <-. cbn [mbind option_bind] in E.
  destruct (db_lookup sp db Hdb) as (ks & Hks & Ei). rewrite Ei in E. cbn [mbind option_bind] in E.
  apply lookup_lt_Some in Hks. set (c := RedisModule_CreateStringFromString key) in *.
  destruct (Slots_Del st (Z.to_nat db) k1) as [[refs1 st1]|] eqn:E1; [|done]. cbn [mbind option_bind] in E.
  destruct (Slots_Add fuel rand st1 (Z.to_nat db) c) as [[refs2 st2]|] eqn:E2; [|done].
  cbn [mbind option_bind] in E. injection E as <- <-.
  destruct (move_account _ _ _ _ _ _ _ _ _ _ _ _ Href (rep_slots _ _ Hr) Hsm Hks Hks Hlv E1 E2) as (over & leaked & B & Hc & Hn).
  exists over, leaked. split; [|split; [done|]].
  - rewrite app_assoc in B. apply (rename_balance _ _ k1 c) in B. unfold held. cbn [m_slots m_notify from_key to_key option_list].
    rewrite !app_nil_r. rewrite <- (app_assoc refs1) in B. exact B.
  - unfold event_over, event_leaks. cbn [target_there].
    rewrite (decide_False (P := "rename_to"%string = "rename_from"%string)) by discriminate.
    rewrite (decide_True (P := "rename_to"%string = "rename_to"%string)) by reflexivity.
    rewrite Ef. cbn [fmap option_fmap option_map]. unfold c in Hn. rewrite copy_content in Hn. by destruct (has_name _ _ _).
Qed.

Lemma move_to_account ms sp fuel rand db key refs ms' :
  takes_references -> represents ms sp -> event_ok sp (Generic fuel rand db "move_to" key) ->
  handle ms (Generic fuel rand db "move_to" key) = Some (refs, ms') ->
  event_account ms ms' sp (Generic fuel rand db "move_to" key) refs.
Proof using HR.
  intros Href Hr (Hsm & Hdb & Hlv & _) E. cbn [handle] in E. unfold NotifyGenericCallback, notify_generic in E.
  rewrite (decide_False (P := _ ∨ _)) in E by (intros [H|H]; discriminate H). unfold save_event in E.
  rewrite (decide_False (P := "move_to"%string = "rename_from"%string)) in E by discriminate.
  rewrite (decide_False (P := "move_to"%string = "rename_to"%string)) in E by discriminate.
  rewrite (decide_False (P := "move_to"%string = "move_from"%string)) in E by discriminate.
  rewrite (decide_True (P := "move_to"%string = "move_to"%string)) in E by reflexivity.
  cbn [cmd_flag from_key to_key from_dbid to_dbid] in E.
  rewrite (decide_False (P := CMD_MOVE = CMD_NONE)), (decide_False (P := CMD_MOVE = CMD_RENAME)) in E by done.
  destruct ms as [st [fk tk fd td cf] cs]. cbn [m_slots m_notify from_key to_key from_dbid] in *.
  pose proof (rep_db _ _ Hr) as Hd. pose proof (rep_db_valid _ _ Hr) as Hv. cbn [m_notify from_dbid] in Hd. subst fd.
  cbn [mbind option_bind] in E.
  destruct (db_lookup sp (sp_db sp) Hv) as (ks1 & Hks1 & Ei1). rewrite Ei1 in E. cbn [mbind option_bind] in E.
  destruct (db_lookup sp db Hdb) as (ks2 & Hks2 & Ei2). apply lookup_lt_Some in Hks1, Hks2.
  destruct (Slots_Del st (Z.to_nat (sp_db sp)) key) as [[refs1 st1]|] eqn:E1; [|done]. cbn [mbind option_bind] in E.
  rewrite Ei2 in E. cbn [mbind option_bind] in E.
  destruct (Slots_Add fuel rand st1 (Z.to_nat db) key) as [[refs2 st2]|] eqn:E2; [|done].
  cbn [mbind option_bind] in E. injection E as <- <-.
  destruct (move_account _ _ _ _ _ _ _ _ _ _ _ _ Href (rep_slots _ _ Hr) Hsm Hks1 Hks2 Hlv E1 E2) as (over & leaked & B & Hc & Hn).
  exists over, leaked. split; [|split; [done|]].
  - rewrite app_nil_r, <- app_assoc. apply held_slots_balance with (ns := Notify fk tk (sp_db sp) db cf) (cs := cs) in B. exact B.
  - unfold event_over, event_leaks. cbn [target_there].
    rewrite (decide_False (P := "move_to"%string = "rename_from"%string)) by discriminate.
    rewrite (decide_False (P := "move_to"%string = "rename_to"%string)) by discriminate.
    rewrite (decide_True (P := "move_to"%string = "move_to"%string)) by reflexivity. by destruct (has_name _ _ _).
Qed.

(** The first half of a pair of events: the old name of a rename is kept, and the
    one kept before it, if there is one, is lost. *)
Lemma save_account ms sp fuel rand db event key refs ms' :
  represents ms sp -> event ≠ "rename_to"%string -> event ≠ "move_to"%string ->
  event ≠ "del"%string -> event ≠ "expired"%string ->
  handle ms (Generic fuel rand db event key) = Some (refs, ms') ->
  event_account ms ms' sp (Generic fuel rand db event key) refs.
Proof.
  intros Hr H1 H2 H3 H4 E. cbn [handle] in E. unfold NotifyGenericCallback, notify_generic in E.
  rewrite decide_False in E by tauto. pose proof (rep_flag _ _ Hr) as Hf. pose proof (rep_from _ _ Hr) as Hk.
  unfold save_event in E.
  rewrite (decide_False (P := event = "rename_to"%string)), (decide_False (P := event = "move_to"%string)) in E by done.
  destruct ms as [st [fk tk fd td cf] cs]. cbn [m_slots m_notify from_key to_key from_dbid cmd_flag] in *. subst cf.
  destruct (decide (event = "rename_from"%string)) as [->|Hne].
  - cbn [cmd_flag] in E. rewrite decide_True in E by done. cbn [mbind option_bind] in E. injection E as <- <-.
    exists [], (option_list fk). split; [|split; [constructor|split; [done|]]].
    + intros s. unfold held. cbn [m_slots m_notify from_key to_key option_list app].
      rewrite !cnt_app.
      change (taken [Held ?x]) with (option_list (Some x)). change (given_back [Held _]) with (@nil S). lia.
    + cbn [event_leaks]. rewrite decide_True by done. rewrite <- Hk. by destruct fk.
  - apply quiet_account.
    + destruct (decide (event = "move_from"%string)); cbn [cmd_flag] in E; rewrite decide_True in E by done;
        cbn [mbind option_bind] in E; by injection E as <- <-.
    + unfold event_over. by rewrite not_target.
    + unfold event_leaks. rewrite decide_False by done. by rewrite not_target.
Qed.

Lemma handle_account ms sp ev refs ms' :
  takes_references -> represents ms sp -> event_ok sp ev -> handle ms ev = Some (refs, ms') ->
  event_account ms ms' sp ev refs.
Proof using HR.
  intros Href Hr Hok E. destruct ev as [|fuel rand db event key| |]; [by apply type_change_account| |by apply flush_account; [|apply Hok|]|by apply cron_account].
  destruct (decide (event = "rename_to"%string)) as [->|H1]; [by apply rename_account|].
  destruct (decide (event = "move_to"%string)) as [->|H2]; [by apply move_to_account|].
  destruct (decide (event = "del"%string ∨ event = "expired"%string)) as [He|He];
    [apply delete_event_account; [done|apply Hok|done..]|apply save_account; tauto].
Qed.

Lemma run_account ms sp (evs : list (module_event S)) refs ms' :
  takes_references -> represents ms sp -> trace_ok sp evs -> run ms evs = Some (refs, ms') ->
  ∃ over leaked, balance (held ms) (held ms') refs over leaked ∧ Forall is_crc_string over ∧
    length over = run_over sp evs ∧ length leaked = run_leaks sp evs.
Proof using HR.
  intros Href. revert ms sp refs. induction evs as [|ev evs IH]; intros ms sp refs Hr Hok E; cbn [run] in E.
  { injection E as <- <-. by exists [], []. }
  destruct Hok as [Hev Hevs]. destruct (handle_ok ms sp ev Hr Hev) as (refs1 & ms1 & E1 & Hr1). rewrite E1 in E.
  cbn [mbind option_bind] in E. destruct (run ms1 evs) as [[refs2 ms2]|] eqn:E2; [|done]. cbn [mbind option_bind] in E.
  injection E as <- <-. destruct (handle_account ms sp ev refs1 ms1 Href Hr Hev E1) as (o1 & l1 & B1 & C1 & O1 & L1).
  destruct (IH ms1 _ refs2 Hr1 Hevs E2) as (o2 & l2 & B2 & C2 & O2 & L2).
  exists (o1 ++ o2), (l1 ++ l2). rewrite !length_app. cbn [run_over run_leaks].
  split; [by eapply balance_trans|]. split; [by apply Forall_app_2|]. lia.
Qed.

(** ** Properties *)

(** C1. Whatever events come, in any order, from any state that represents the sets
    of names: key creations, deletions, expiries, renames, moves, flushes and turns
    of the cron loop.  The handlers return: no access to the tables and lists is out
    of bounds and no assertion fails; the tables and lists then hold exactly the
    names the keyspace has.  The references to strings are accounted for.  What is
    held before or taken is held afterwards or given back, but for [run_leaks]
    references that are lost; and but for [run_over] of them no reference is given
    back that is still held or was given back before: one for each rename or move
    that completes, whose new value is released with the call though the table has
    it. *)
Theorem module_run_refines ms sp (evs : list (module_event S)) :
  takes_references -> represents ms sp -> trace_ok sp evs ->
  ∃ refs ms' over leaked, run ms evs = Some (refs, ms') ∧ represents ms' (spec_run sp evs) ∧
    held ms ++ taken refs ++ over ≡ₚ held ms' ++ given_back refs ++ leaked ∧
    Forall is_crc_string over ∧ length over = run_over sp evs ∧ length leaked = run_leaks sp evs.
Proof using HR.
  intros Href Hr Hok. destruct (run_ok ms sp evs Hr Hok) as (refs & ms' & E & Hr').
  destruct (run_account ms sp evs refs ms' Href Hr Hok E) as (over & leaked & B & H).
  exists refs, ms', over, leaked. apply balance_perm in B. done.
Qed.
End accounts.
