(* ===== verification/RefinementExamples.v ===== *)
(** * RefinementExamples: the theorems of the index on concrete states

    Strings are byte strings that are held without a copy and compared as
    Redis compares them. *)

From stdpp Require Import pretty.
From S2P Require Import Prelude.
From S2P Require Import Crc32.
From S2P Require Import KeySlot.
From S2P Require Import Numbers.
From S2P Require Import Dict.
From S2P Require Import DictInv.
From S2P Require Import SkipList.
From S2P Require Import SkipListInv.
From S2P Require Import SkipListSpec.
From S2P Require Import SkipListProps.
From S2P Require Import SkipListExamples.
From S2P Require Import Slots.
From S2P Require Import SlotsInv.
From S2P Require Import SlotsProps.
From S2P Require Import Events.
From S2P Require Import EventsProps.
From S2P Require Import Refinement.
From S2P Require Import Accounts.
Local Open Scope Z_scope.

#[export] Instance byte_strings : RedisStrings (list byte) := {
  content s := s;
  RedisModule_StringCompare := bytes_compare;
  RedisModule_StringToLongLong := m_string2ll;
  RedisModule_CreateStringFromLongLong z := bytes_of (pretty z);
  RedisModule_CreateStringFromString s := s;
  RedisModule_HoldString := Some (λ s, s);
  RedisModule_RetainString := true
}.

Lemma bytes_compare_eq a b : bytes_compare a b = 0 <-> a = b.
Proof.
  revert b. induction a as [|x a IH]; intros [|y b]; cbn [bytes_compare]; [done..|].
  destruct (Z.ltb_spec (bval x) (bval y)); [split; [done|intros [= -> ->]; lia]|].
  destruct (Z.ltb_spec (bval y) (bval x)); [split; [done|intros [= -> ->]; lia]|].
  rewrite IH. assert (x = y) as -> by (apply bval_inj; lia). split; [by intros ->|by intros [= ->]].
Qed.

#[export] Instance byte_strings_ok : RedisStringsOk (list byte).
Proof.
  split; [apply bytes_order|apply bytes_compare_eq|by intros s z (_ & _ & Hz)%m_string2ll_iff|by intros hold s [= <-]|done].
Qed.

Definition ex_seed : list byte := bytes_of "0123456789abcdef".
Definition ex_key (s : string) : list byte := bytes_of s.
Definition ex_names : gset (list byte) := {[ex_key "{tag}1"]} ∪ ∅.

(** Two databases of 1024 slots. *)
Definition ex_module : module_state (list byte) := module_init ex_seed [] 1024 2 0 true false.

Definition ex_state : slots_state (list byte) := m_slots ex_module.

Lemma ex_state_repr : slots_repr ex_state [∅; ∅].
Proof. apply (slots_init_ok ex_seed [] 1024 2 0 true false). lia. Qed.

(** A key created, renamed, moved to the other database, a turn of the cron
    loop, and the first database flushed. *)
Definition ex_trace : list (module_event (list byte)) :=
  [TypeChange 5 ex_rand 0 (ex_key "{tag}1"); Generic 5 ex_rand 0 "rename_from" (ex_key "{tag}1");
   Generic 5 ex_rand 0 "rename_to" (ex_key "{tag}2"); Generic 5 ex_rand 0 "move_from" (ex_key "{tag}2");
   Generic 5 ex_rand 1 "move_to" (ex_key "{tag}2"); CronLoop false Z.of_nat 10;
   Flushdb REDISMODULE_SUBEVENT_FLUSHDB_START 0].

Lemma ex_draw : is_Some (m_zslRandomLevel 5 ex_rand).
Proof. exists 1%nat. reflexivity. Qed.

Lemma ex_valid sp db : length (sp_names sp) = 2%nat -> 0 <= db < 2 -> valid_db sp db.
Proof. unfold valid_db. intros ->. done. Qed.

Lemma ex_trace_ok : trace_ok (spec_init 1024 2) ex_trace.
Proof.
  unfold ex_trace. cbn [trace_ok].
  repeat match goal with
  | |- _ ∧ _ => split
  | |- event_ok _ _ => unfold event_ok
  | |- small _ => by apply (bool_decide_unpack (small _)); vm_compute
  | |- valid_db _ _ => apply ex_valid; [vm_compute; reflexivity|lia]
  | |- is_Some (m_zslRandomLevel _ _) => apply ex_draw
  | |- _ -> is_Some _ => intros _; vm_compute; eexists; reflexivity
  | |- _ ∨ _ => right
  | |- True => exact I
  | |- sp_loops _ + 1 < 2 ^ 31 => by vm_compute
  end; try discriminate; lia.
Qed.

(** ** The theorems there *)
Lemma module_run_refines_witness :
  ∃ refs ms' over, run ex_module ex_trace = Some (refs, ms') ∧
    represents ms' (spec_run (spec_init 1024 2) ex_trace) ∧
    held ex_module ++ taken refs ++ over ≡ₚ held ms' ++ given_back refs ∧ length over = 2%nat.
Proof.
  destruct (module_run_refines ex_module (spec_init 1024 2) ex_trace) as (refs & ms' & over & leaked & E & Hr & B & _ & Ho & Hl).
  - left. by eexists.
  - apply (init_represents ex_seed [] 1024 2 0 true false); lia.
  - exact ex_trace_ok.
  - exists refs, ms', over. assert (leaked = []) as -> by (apply nil_length_inv; rewrite Hl; by vm_compute).
    rewrite app_nil_r in B. do 3 (split; [done|]). rewrite Ho. by vm_compute.
Defined.

(** A second write to a key loses its new value and the reference; without a rename
    or a move nothing is given back too often. *)
Example ex_second_write :
  run_leaks (spec_init 1024 2) [TypeChange 5 ex_rand 0 (ex_key "k"); TypeChange 5 ex_rand 0 (ex_key "k")] = 2%nat ∧
  run_over (spec_init 1024 2) [TypeChange 5 ex_rand 0 (ex_key "k"); Generic 5 ex_rand 0 "del" (ex_key "k")] = 0%nat.
Proof. by vm_compute. Qed.

(** The run leaves the renamed key in the second database. *)
Example ex_trace_names : sp_names (spec_run (spec_init 1024 2) ex_trace) = [∅; {[ex_key "{tag}2"]}].
Proof. by apply (bool_decide_unpack _); vm_compute. Qed.

Lemma Slots_Init_spec_witness : represents ex_module (spec_init 1024 2).
Proof. apply (Slots_Init_spec ex_seed [] 1024 2 0 true false); lia. Defined.

Lemma Slots_Add_spec_witness :
  ∃ evs st', Slots_Add 5 ex_rand ex_state 0 (ex_key "{tag}1") = Some (evs, st') ∧
    slots_repr st' [ex_names; ∅].
Proof.
  destruct (Slots_Add_spec 5 ex_rand 1 ex_state [∅; ∅] 0 ∅ (ex_key "{tag}1") ex_state_repr)
    as (evs & st' & E & Hst' & _); [done|done|done|].
  exists evs, st'. exact (conj E Hst').
Defined.

Lemma Slots_Del_spec_witness :
  ∃ st st', slots_repr st [ex_names; ∅] ∧
    ∃ evs, Slots_Del st 0 (ex_key "{tag}1") = Some (evs, st') ∧
      slots_repr st' [ex_names ∖ {[ex_key "{tag}1"]}; ∅].
Proof.
  destruct (slots_add_ok 5 ex_rand 1 ex_state [∅; ∅] 0 ∅ (ex_key "{tag}1") ex_state_repr)
    as (evs0 & st & _ & Hst & _); [done|done|done|].
  destruct (Slots_Del_spec st [ex_names; ∅] 0 ex_names (ex_key "{tag}1") Hst) as (evs & st' & E & Hst' & _);
    [done|].
  exists st, st'. split; [exact Hst|]. exists evs. exact (conj E Hst').
Defined.

Lemma Slots_Free_spec_witness :
  ∃ evs st', Slots_Free ex_state = Some (evs, st') ∧ db_slot_infos st' = [].
Proof.
  destruct (Slots_Free_spec ex_state [∅; ∅] ex_state_repr) as (ls & evs & st' & E & En & _).
  exists evs, st'. exact (conj E En).
Defined.

Lemma dbSlotCron_spec_witness :
  ∃ st' cs', dbSlotCron ex_state (Cron 0 0 0) false Z.of_nat = Some (st', cs') ∧
    slots_repr st' [∅; ∅].
Proof.
  destruct (dbSlotCron_spec ex_state [∅; ∅] (Cron 0 0 0) false Z.of_nat ex_state_repr)
    as (st' & cs' & E & Hst' & _).
  - by apply (bool_decide_unpack (small _)); vm_compute.
  - split; cbn; lia.
  - unfold cron_ok. cbn. lia.
  - exists st', cs'. exact (conj E Hst').
Defined.

(** ** A string released while a table holds it *)

(** A key created and renamed. *)
Definition ex_rename : list (module_event (list byte)) :=
  [TypeChange 5 ex_rand 0 (ex_key "a"); Generic 5 ex_rand 0 "rename_from" (ex_key "a");
   Generic 5 ex_rand 0 "rename_to" (ex_key "b")].

(** The values the tables hold, and the strings released. *)
Definition stored_values (st : slots_state (list byte)) : list (list byte) :=
  concat (map (λ di, concat (map (λ d, omap (M := list) de_val (entries d)) (slotkey_tables di)))
    (db_slot_infos st)).

Definition released (refs : list (str_event (list byte))) : list (list byte) :=
  omap (M := list) (λ ev, match ev with Freed s => Some s | _ => None end) refs.

Definition ex_value : list byte :=
  RedisModule_CreateStringFromLongLong (si_crc (key_slot ex_state (ex_key "b"))).

(** The callback of a rename has automatic memory on, so the value string that
    [Slots_Add] creates with its context and stores for the new key is
    released when the callback returns. *)
Example rename_frees_stored_value :
  match run ex_module ex_rename with
  | Some (refs, ms) =>
    bool_decide (ex_value ∈ released refs) && bool_decide (ex_value ∈ stored_values (m_slots ms))
  | None => false
  end = true.
Proof. vm_compute. reflexivity. Qed.
