(* ===== verification/Commands.v ===== *)
(** * Commands: the commands of module.c that read the index

    SLOTSHASHKEY, SLOTSINFO and SLOTSSCAN, with [SlotsMGRT_Scan] of
    redisxslot.c.  A command takes its arguments, [argv\[0\]] included, and
    returns the replies it makes in order and its status.  [None] is undefined
    behaviour: an index outside the tables, an overflow of a signed number. *)

From S2P Require Import Prelude.
From S2P Require Import KeySlot.
From S2P Require Import Numbers.
From S2P Require Import Dict.
From S2P Require Import DictScan.
From S2P Require Import AdList.
From S2P Require Import Slots.
From S2P Require Import Events.
Local Open Scope Z_scope.

Definition REDISXSLOT_ERRORMSG_SYNTAX : string := "ERR syntax error".

Inductive rm_status := REDISMODULE_OK | REDISMODULE_ERR.

Inductive reply (S : Type) :=
  | ReplyWrongArity
  | ReplyError (msg : string)
  | ReplyArray (len : Z)
  | ReplyLongLong (ll : Z)
  | ReplyStringBuffer (buf : list byte)
  | ReplyString (s : S)
  | ReplySimpleString (msg : string)
  | ReplyNull.
Arguments ReplyWrongArity {S}.
Arguments ReplyError {S} _.
Arguments ReplyArray {S} _.
Arguments ReplyLongLong {S} _.
Arguments ReplySimpleString {S} _.
Arguments ReplyStringBuffer {S} _.
Arguments ReplyString {S} _.
Arguments ReplyNull {S}.

Section commands.
Context {S : Type} `{RedisStrings S}.
Implicit Types (st : slots_state S) (argv : list S) (l : alist S).
Notation lheap := (gmap lloc (m_listNode S)).

Definition wrong_arity : option (list (reply S) * rm_status) := Some ([ReplyWrongArity], REDISMODULE_OK).

Definition syntax_error : option (list (reply S) * rm_status) :=
  Some ([ReplyError REDISXSLOT_ERRORMSG_SYNTAX], REDISMODULE_ERR).

(** "if (argc > i && StringToLongLong(argv[i], &v) != OK)": [None] for the
    error, the default when the argument is missing. *)
Definition arg_ll argv (i : nat) (default : Z) : option Z :=
  match argv !! i with
  | Some s => RedisModule_StringToLongLong s
  | None => Some default
  end.

(** ** SLOTSHASHKEY *)
Definition SlotsHashKey_RedisCommand st argv : option (list (reply S) * rm_status) :=
  if (length argv <? 2)%nat then wrong_arity
  else
    Some (ReplyArray (Z.of_nat (length argv) - 1) ::
          map (λ key, ReplyLongLong (si_slot (key_slot st key))) (tail argv), REDISMODULE_OK).

(** ** SLOTSINFO *)

(** [db_slot_infos\[db\].slotkey_tables\[slot\]]: outside of both arrays,
    undefined. *)
Definition table_of st (db slot : Z) : option (dict S S) :=
  i ← db_index db;
  j ← db_index slot;
  di ← db_slot_infos st !! i;
  slotkey_tables di !! j.

(** The [for] loop: the slots that are not empty, with their sizes. *)
Fixpoint info_loop (fuel : nat) st (db i end_ : Z) : option (list (Z * Z)) :=
  if (i <? end_) && (i <? i32 (hash_slots_size (g_slots_meta_info st))) then
    match fuel with
    | O => None
    | Datatypes.S fuel =>
      d ← table_of st db i;
      let s := i32 (dictSize d) in
      rest ← info_loop fuel st db (i + 1) end_;
      Some (if decide (s = 0) then rest else (i, s) :: rest)
    end
  else Some [].

Definition info_reply (x : Z * Z) : list (reply S) :=
  [ReplyArray 2; ReplyLongLong x.1; ReplyLongLong x.2].

Definition SlotsInfo_RedisCommand st (db : Z) argv : option (list (reply S) * rm_status) :=
  if (4 <=? length argv)%nat then wrong_arity
  else
    match arg_ll argv 1 0 with
    | None => syntax_error
    | Some start =>
      match arg_ll argv 2 0 with
      | None => syntax_error
      | Some count =>
        if decide (start + count < LLONG_MIN ∨ LLONG_MAX < start + count) then None
        else
          slots ← info_loop (Z.to_nat (hash_slots_size (g_slots_meta_info st))) st db (i32 start)
                    (start + count);
          Some (ReplyArray (Z.of_nat (length slots)) :: (slots ≫= info_reply), REDISMODULE_OK)
      end
    end.

(** ** SLOTSSCAN *)

(** [slotsScanRedisModuleKeyCallback] on each entry a scan passes. *)
Definition slotsScanRedisModuleKeyCallback (s : lheap * alist S) (ev : scan_event S S) :
    option (lheap * alist S) :=
  match ev with
  | Fn de => m_listAddNodeTail s.1 s.2 (de_key de)
  | BucketFn _ _ => Some s
  end.

Fixpoint scan_keys (s : lheap * alist S) (evs : list (scan_event S S)) : option (lheap * alist S) :=
  match evs with
  | [] => Some s
  | ev :: evs => s ← slotsScanRedisModuleKeyCallback s ev; scan_keys s evs
  end.

(** [do ... while (cursor != 0 && loops > 0 && listLength(l) < count)]. *)
Fixpoint mgrt_scan_loop (fuel : nat) (d : dict S S) (count cursor loops : Z) (h : lheap) l :
    option (Z * lheap * alist S) :=
  match fuel with
  | O => None
  | Datatypes.S fuel =>
    '(cursor, evs) ← m_dictScan d cursor false;
    '(h, l) ← scan_keys (h, l) evs;
    let loops := loops - 1 in
    if negb (cursor =? 0) && (0 <? loops) && (l_len l <? count)
    then mgrt_scan_loop fuel d count cursor loops h l
    else Some (cursor, h, l)
  end.

(** [count * 10] is an [unsigned long] made a [long]. *)
Definition SlotsMGRT_Scan st (db slot count cursor : Z) (h : lheap) l : option (Z * lheap * alist S) :=
  d ← table_of st db slot;
  let loops := i64 (u64 (count * 10)) in
  mgrt_scan_loop (Z.to_nat (Z.max 1 loops)) d count cursor loops h l.

(** The [do ... while (1)] that replies with the keys and empties the list. *)
Fixpoint reply_keys (fuel : nat) (h : lheap) l : option (list (reply S) * lheap * alist S) :=
  match l_head l with
  | None => Some ([], h, l)
  | Some head =>
    match fuel with
    | O => None
    | Datatypes.S fuel =>
      n ← h !! head;
      '(_, h, l) ← m_listDelNode h l head;
      '(rest, h, l) ← reply_keys fuel h l;
      Some (ReplyString (n_value n) :: rest, h, l)
    end
  end.

Definition tolower (b : byte) : Z := if (65 <=? bval b) && (bval b <=? 90) then bval b + 32 else bval b.

(** [strcasecmp(a, b) == 0]. *)
Definition strcasecmp_eq (a b : list byte) : bool :=
  bool_decide (map tolower (c_str a) = map tolower (c_str b)).

(** The optional [COUNT count]: [None] for the error. *)
Definition scan_count argv : option Z :=
  match argv !! 3%nat, argv !! 4%nat with
  | Some str, Some v =>
    if negb (strcasecmp_eq (content str) (bytes_of "count")) then None
    else v ← RedisModule_StringToLongLong v; if v <? 1 then None else Some v
  | _, _ => Some 10
  end.

(** [buf]: what the stack holds where the reply's buffer is. *)
Definition SlotsScan_RedisCommand st (db : Z) (h : lheap) (buf : list byte) argv :
    option (list (reply S) * rm_status * lheap) :=
  match argv with
  | _ :: slot :: cursor :: rest =>
    if decide (length rest ≠ 0%nat ∧ length rest ≠ 2%nat)
    then Some ([ReplyWrongArity], REDISMODULE_OK, h)
    else
      match RedisModule_StringToLongLong slot, RedisModule_StringToLongLong cursor, scan_count argv with
      | Some slot, Some cursor, Some count =>
        '(next_cursor, h, l) ← SlotsMGRT_Scan st db (i32 slot) (u64 count) (u64 cursor) h m_listCreate;
        '(blen, buf) ← m_ll2string buf (i64 next_cursor);
        let len := l_len l in
        '(keys, h, l) ← reply_keys (Z.to_nat (l_len l)) h l;
        '(_, h) ← m_listRelease h l;
        Some (ReplyArray 2 :: ReplyStringBuffer (take (Z.to_nat blen) buf) :: ReplyArray len :: keys,
              REDISMODULE_OK, h)
      | _, _, _ => Some ([ReplyError REDISXSLOT_ERRORMSG_SYNTAX], REDISMODULE_ERR, h)
      end
  | _ => Some ([ReplyWrongArity], REDISMODULE_OK, h)
  end.
End commands.
