(* ===== verification/CommandsProps.v ===== *)
(** * CommandsProps: what the reading commands reply

    SLOTSINFO replies with the sizes of the sets of names; SLOTSSCAN is a call
    of [m_dictScan] after another on the table of the slot, leaves no node of
    its list behind, and a client that feeds each reply's cursor back sees every
    name that stays in the slot. *)

From S2P Require Import Prelude.
From S2P Require Import KeySlot.
From S2P Require Import Numbers.
From S2P Require Import Dict.
From S2P Require Import DictInv.
From S2P Require Import DictSpec.
From S2P Require Import DictProps.
From S2P Require Import DictScan.
From S2P Require Import AdList.
From S2P Require Import AdListInv.
From S2P Require Import AdListProps.
From S2P Require Import Slots.
From S2P Require Import SlotsInv.
From S2P Require Import SlotsProps.
From S2P Require Import Events.
From S2P Require Import Commands.
Local Open Scope Z_scope.

(** ** Nodes added to a list *)
Section heap.
Context {V : Type}.
Implicit Types (h : gmap lloc (m_listNode V)) (ns : list (lloc * V)).

(** The nodes [ns'] added behind [ns]. *)
Definition grown h h' ns ns' : Prop :=
  (∀ q, q ∉ (ns ++ ns').*1 -> h' !! q = h !! q) ∧
  (∀ q, q ∈ ns'.*1 -> h !! q = None) ∧ dom h' = dom h ∪ list_to_set ns'.*1.

Lemma grown_trans h h1 h2 ns A B :
  grown h h1 ns A -> grown h1 h2 (ns ++ A) B -> grown h h2 ns (A ++ B).
Proof.
  intros (Hf1 & Hn1 & Hd1) (Hf2 & Hn2 & Hd2). split_and!.
  - intros q. rewrite app_assoc. intros Hq. rewrite Hf2 by done. apply Hf1.
    intros Hin. apply Hq. rewrite fmap_app, elem_of_app. by left.
  - intros q. rewrite fmap_app. intros [Hq|Hq]%elem_of_app; [by apply Hn1|].
    specialize (Hn2 q Hq). apply not_elem_of_dom in Hn2. apply not_elem_of_dom. rewrite Hd1 in Hn2.
    by apply not_elem_of_union in Hn2 as [? _].
  - by rewrite Hd2, Hd1, fmap_app, list_to_set_app_L, union_assoc_L.
Qed.

Lemma grown_nil h ns : grown h h ns [].
Proof.
  split_and!; [done|by intros q ?%elem_of_nil|]. cbn [fmap list_fmap list_to_set]. by rewrite union_empty_r_L.
Qed.

Lemma grown_one h h' ns p v : h !! p = None -> linked h h' p ns -> grown h h' ns [(p, v)].
Proof.
  intros Hp [Hf Hd]. split_and!.
  - intros q. rewrite fmap_app, not_elem_of_app, list_fmap_singleton, list_elem_of_singleton.
    intros [Hq1 Hq2]. by apply Hf.
  - intros q. rewrite list_fmap_singleton, list_elem_of_singleton. by intros ->.
  - rewrite Hd. cbn. by rewrite union_empty_r_L, union_comm_L.
Qed.
End heap.

Section props.
Context {S : Type} `{HS : RedisStrings S} {HR : RedisStringsOk S}.
Implicit Types (st : slots_state S) (d : dict S S) (h : gmap lloc (m_listNode S)) (l : alist S).
Implicit Types (ns : list (lloc * S)) (ks : gset (list byte)) (kss : list (gset (list byte))).

(** ** Definitions *)

(** The keys a scan passes, in order. *)
Definition passed_keys (evs : list (scan_event S S)) : list S := de_key <$> passed evs.

(** The names of a slot. *)
Definition slot_names st ks (slot : Z) : gset (list byte) := filter (in_slot st (Z.to_nat slot)) ks.

(** The slots that are not empty from [start] to [end_], with their sizes. *)
Definition slot_sizes st ks (start end_ : Z) : list (Z * Z) :=
  let last := Z.min end_ (hash_slots_size (g_slots_meta_info st)) in
  filter (λ x, x.2 ≠ 0)
    (map (λ i, (i, Z.of_nat (size (slot_names st ks i)))) (seqZ start (last - start))).

(** ** The table of a slot *)
Lemma table_of_ok st kss db ks slot :
  slots_repr st kss -> kss !! db = Some ks ->
  0 <= slot < hash_slots_size (g_slots_meta_info st) ->
  ∃ d, table_of st (Z.of_nat db) slot = Some d ∧ table_repr st ks (Z.to_nat slot) d.
Proof.
  intros Hst Hks Hslot. destruct (state_lookup st kss db ks Hst Hks) as (di & Hdi & Hdb).
  destruct (lookup_lt_is_Some_2 (slotkey_tables di) (Z.to_nat slot)) as [d Hd].
  { rewrite (db_count _ _ _ Hdb). lia. }
  exists d. split; [|by apply (db_table _ _ _ Hdb)].
  unfold table_of, db_index. rewrite !decide_True by lia. cbn [mbind option_bind].
  rewrite Nat2Z.id, Hdi. done.
Qed.

Lemma table_size st ks s d :
  table_repr st ks s d -> dictSize d = Z.of_nat (size (filter (in_slot st s) ks)).
Proof.
  intros (Hwf & _ & Hdom). rewrite (dictSize_entries content) by done.
  rewrite <- (dict_map_size content d) by apply (wf_nodup _ _ Hwf). by rewrite <- size_dom, Hdom.
Qed.

(** ** The loop of SLOTSINFO *)
Lemma info_loop_ok fuel st kss db ks i end_ :
  slots_repr st kss -> kss !! db = Some ks -> Z.of_nat (size ks) < 2 ^ 31 -> 0 <= i ->
  hash_slots_size (g_slots_meta_info st) <= i + Z.of_nat fuel ->
  info_loop fuel st (Z.of_nat db) i end_ = Some (slot_sizes st ks i end_).
Proof.
  intros Hst Hks Hsm. revert i. induction fuel as [|fuel IH]; intros i Hi Hf;
    cbn [info_loop]; pose proof (sr_size _ _ Hst) as Hsz; unfold i32 at 1;
    rewrite signed_small by lia; unfold slot_sizes.
  - destruct (Z.ltb_spec i (hash_slots_size (g_slots_meta_info st))); [lia|].
    rewrite andb_false_r. rewrite seqZ_nil by lia. done.
  - destruct (Z.ltb_spec i end_), (Z.ltb_spec i (hash_slots_size (g_slots_meta_info st)));
      cbn [andb]; try (by rewrite seqZ_nil by lia).
    destruct (table_of_ok st kss db ks i Hst Hks ltac:(lia)) as (d & -> & Hd).
    cbn [mbind option_bind]. rewrite IH by lia. cbn [mbind option_bind].
    rewrite (seqZ_cons i) by lia. cbn [map].
    rewrite (table_size _ _ _ _ Hd). fold (slot_names st ks i).
    assert (Z.of_nat (size (slot_names st ks i)) < 2 ^ 31).
    { assert (slot_names st ks i ⊆ ks) as Hle%subseteq_size; [|lia].
      intros x. unfold slot_names. rewrite elem_of_filter. tauto. }
    unfold i32. rewrite signed_small by lia. unfold slot_sizes. rewrite filter_cons. cbn [snd].
    replace (Z.succ i) with (i + 1) by lia.
    replace (Z.pred (Z.min end_ (hash_slots_size (g_slots_meta_info st)) - i))
      with (Z.min end_ (hash_slots_size (g_slots_meta_info st)) - (i + 1)) by lia.
    repeat case_decide; done || lia.
Qed.

(** ** The list of a scan *)
Lemma scan_keys_ok evs h l ns :
  list_repr h l ns -> Z.of_nat (length ns + length (passed evs)) < 2 ^ 64 ->
  ∃ h' l' ns', scan_keys (h, l) evs = Some (h', l') ∧ list_repr h' l' (ns ++ ns') ∧
    ns'.*2 = passed_keys evs ∧ grown h h' ns ns' ∧ l_free l' = l_free l.
Proof.
  revert h l ns. induction evs as [|[t i|e] evs IH]; intros h l ns Hl Hsm; cbn [scan_keys].
  - exists h, l, []. rewrite app_nil_r. split_and!; try done. apply grown_nil.
  - cbn [slotsScanRedisModuleKeyCallback mbind option_bind]. by apply IH.
  - cbn [slotsScanRedisModuleKeyCallback fst snd]. cbn in Hsm.
    change (length (omap _ evs)) with (length (passed evs)) in Hsm.
    destruct (add_tail_ok h l ns (de_key e) Hl ltac:(lia)) as (h1 & l1 & p & -> & Hp & Hl1 & [Hf Hd] & _ & Efr).
    cbn [mbind option_bind].
    destruct (IH h1 l1 _ Hl1) as (h2 & l2 & ns' & -> & Hl2 & Hk & Hg & Efr2).
    { rewrite length_app. cbn [length]. lia. }
    exists h2, l2, ((p, de_key e) :: ns'). rewrite <- app_assoc in Hl2. split_and!; [done|done| | |congruence].
    + rewrite fmap_cons, Hk. done.
    + by apply (grown_trans h h1 h2 ns [(p, de_key e)] ns'); [apply grown_one|].
Qed.

(** The loop: calls of [m_dictScan] on one table. *)
Lemma mgrt_loop_ok fuel d count cursor loops h l ns :
  dict_wf content d -> is_u64 cursor -> list_repr h l ns -> Z.of_nat (length ns) < 2 ^ 63 ->
  count < 2 ^ 63 -> loops <= Z.of_nat fuel -> (1 <= fuel)%nat ->
  ∃ k v' evs h' l' ns', mgrt_scan_loop fuel d count cursor loops h l = Some (v', h', l') ∧
    (1 <= k)%nat ∧ scan_calls (replicate k d) cursor = Some (v', evs) ∧ is_u64 v' ∧
    list_repr h' l' (ns ++ ns') ∧ ns'.*2 = passed_keys evs ∧ grown h h' ns ns' ∧ l_free l' = l_free l.
Proof.
  intros Hwf. revert cursor loops h l ns. induction fuel as [|fuel IH];
    intros cursor loops h l ns Hc Hl Hsm Hcount Hloops Hf; [lia|]. cbn [mgrt_scan_loop].
  destruct (scan_step content false d cursor Hwf Hc) as (v1 & evs1 & hi & E & Hv1 & _).
  pose proof (scan_passed_length content false d cursor v1 evs1 Hwf Hc E) as Hlen.
  pose proof (wf_small _ _ Hwf) as Hw. unfold MAX_ENTRIES in Hw.
  rewrite E. cbn [mbind option_bind].
  destruct (scan_keys_ok evs1 h l ns Hl ltac:(lia)) as (h1 & l1 & ns1 & -> & Hl1 & Hk1 & Hg1 & Ef1).
  cbn [mbind option_bind]. rewrite (lr_len _ _ _ Hl1).
  destruct (Z.eqb_spec v1 0) as [Hz|Hz]; cbn [negb andb].
  { exists 1%nat, v1, evs1, h1, l1, ns1. split_and!; try done. cbn [replicate scan_calls]. rewrite E.
    cbn [mbind option_bind]. by rewrite decide_True, Hz by done. }
  destruct (Z.ltb_spec 0 (loops - 1)); cbn [andb];
    [destruct (Z.ltb_spec (Z.of_nat (length (ns ++ ns1))) count) as [Hlt|]|].
  2, 3: exists 1%nat, v1, evs1, h1, l1, ns1; split_and!; try done; cbn [replicate scan_calls]; rewrite E;
    cbn [mbind option_bind]; rewrite decide_False by done; cbn; by rewrite app_nil_r.
  destruct (IH v1 (loops - 1) h1 l1 (ns ++ ns1)) as
    (k & v2 & evs2 & h2 & l2 & ns2 & E2 & Hk & Hcalls & Hv2 & Hl2 & Hk2 & Hg2 & Ef2);
    [done|done|lia|done|lia|lia|].
  exists (Datatypes.S k), v2, (evs1 ++ evs2), h2, l2, (ns1 ++ ns2). rewrite app_assoc.
  split_and!; [done|lia| |done|done| | |congruence].
  - cbn [replicate scan_calls]. rewrite E. cbn [mbind option_bind]. rewrite decide_False by done.
    by rewrite Hcalls.
  - unfold passed_keys in *. by rewrite passed_app, !fmap_app, Hk1, Hk2.
  - by eapply grown_trans.
Qed.

(** ** The reply of SLOTSSCAN *)
Lemma reply_keys_ok h l ns :
  list_repr h l ns ->
  ∃ h' l', reply_keys (length ns) h l = Some (map ReplyString ns.*2, h', l') ∧
    list_repr h' l' [] ∧ (∀ q, q ∉ ns.*1 -> h' !! q = h !! q) ∧ dom h' = dom h ∖ list_to_set ns.*1.
Proof.
  revert h l. induction ns as [|[p v] ns IH]; intros h l Hl; cbn [length reply_keys];
    rewrite (lr_head _ _ _ Hl); cbn [hd_or].
  { exists h, l. split_and!; try done. cbn. by rewrite difference_empty_L. }
  destruct (del_node_ok h l [] p v ns Hl) as (h1 & l1 & E1 & Hl1 & Hf & Hd & _).
  destruct (lr_seg _ _ _ Hl) as [-> _]. cbn [mbind option_bind n_value]. rewrite E1.
  cbn [mbind option_bind app] in *. destruct (IH h1 l1 Hl1) as (h2 & l2 & -> & Hl2 & Hf2 & Hd2).
  cbn [mbind option_bind]. exists h2, l2. split_and!; [done|done| |].
  - intros q. rewrite fmap_cons, not_elem_of_cons. intros [Hq1 Hq2]. rewrite Hf2 by done. by apply Hf.
  - rewrite Hd2, Hd, fmap_cons. cbn [list_to_set fst]. by rewrite difference_difference_l_L.
Qed.

(** Nodes added to the heap and removed again. *)
Lemma grown_undone h h1 h2 ns :
  grown h h1 [] ns -> (∀ q, q ∉ ns.*1 -> h2 !! q = h1 !! q) -> dom h2 = dom h1 ∖ list_to_set ns.*1 -> h2 = h.
Proof.
  intros (Hf & Hn & Hd) Hf2 Hd2. apply map_eq. intros q. destruct (decide (q ∈ ns.*1)) as [Hq|Hq].
  - rewrite (Hn q Hq). apply not_elem_of_dom. rewrite Hd2, elem_of_difference, elem_of_list_to_set. tauto.
  - rewrite Hf2 by done. by apply Hf.
Qed.

Lemma list_create_repr h : list_repr h (m_listCreate (V := S)) [].
Proof. split; try done. constructor. Qed.

Lemma mgrt_scan_ok st kss db ks slot count cursor h :
  slots_repr st kss -> kss !! db = Some ks ->
  0 <= slot < hash_slots_size (g_slots_meta_info st) -> 0 <= count < 2 ^ 63 -> is_u64 cursor ->
  ∃ d k v evs h' l ns, table_of st (Z.of_nat db) slot = Some d ∧ table_repr st ks (Z.to_nat slot) d ∧
    SlotsMGRT_Scan st (Z.of_nat db) slot count cursor h m_listCreate = Some (v, h', l) ∧
    (1 <= k)%nat ∧ scan_calls (replicate k d) cursor = Some (v, evs) ∧ is_u64 v ∧
    list_repr h' l ns ∧ ns.*2 = passed_keys evs ∧ grown h h' [] ns.
Proof using HR.
  intros Hst Hks Hslot Hcount Hc. destruct (table_of_ok st kss db ks slot Hst Hks Hslot) as (d & Ed & Hd).
  destruct (mgrt_loop_ok (Z.to_nat (Z.max 1 (i64 (u64 (count * 10))))) d count cursor
    (i64 (u64 (count * 10))) h m_listCreate []) as (k & v & evs & h' & l & ns & E & Hk & Hcalls & Hv & Hl & Hns & Hg & _);
    [apply Hd|done|apply list_create_repr|simpl; lia|lia|lia|lia|].
  exists d, k, v, evs, h', l, ns. unfold SlotsMGRT_Scan. rewrite Ed. cbn [mbind option_bind]. split_and!; done.
Qed.

Definition scan_replies (txt : list byte) (keys : list S) : list (reply S) :=
  ReplyArray 2 :: ReplyStringBuffer txt :: ReplyArray (Z.of_nat (length keys)) :: map ReplyString keys.

(** The arguments of SLOTSSCAN, parsed. *)
Definition scan_args (argv : list S) (slot cursor count : Z) : Prop :=
  (length argv = 3%nat ∨ length argv = 5%nat) ∧
  (s ← argv !! 1%nat; RedisModule_StringToLongLong s) = Some slot ∧
  (s ← argv !! 2%nat; RedisModule_StringToLongLong s) = Some cursor ∧ scan_count argv = Some count.

Lemma scan_count_range argv count : scan_count argv = Some count -> 1 <= count < 2 ^ 63.
Proof using HR.
  unfold scan_count. destruct (argv !! 3%nat), (argv !! 4%nat) as [v|]; try (intros [= <-]; lia).
  destruct (negb _); [done|]. destruct (RedisModule_StringToLongLong v) as [z|] eqn:E; [|done].
  cbn [mbind option_bind]. apply string_ll in E. unfold is_i64 in E.
  destruct (Z.ltb_spec z 1); [done|]. intros [= <-]. lia.
Qed.

(** The command: calls of [m_dictScan] on the table of the slot. *)
Lemma slots_scan_ok st kss db ks slot cursor count h buf argv :
  slots_repr st kss -> kss !! db = Some ks ->
  0 <= slot < hash_slots_size (g_slots_meta_info st) -> scan_args argv slot cursor count ->
  length buf = REDIS_LONGSTR_SIZE ->
  ∃ d k v evs txt, table_of st (Z.of_nat db) slot = Some d ∧ table_repr st ks (Z.to_nat slot) d ∧ (1 <= k)%nat ∧
    scan_calls (replicate k d) (u64 cursor) = Some (v, evs) ∧ is_u64 v ∧ m_string2ll txt = Some (i64 v) ∧
    SlotsScan_RedisCommand st (Z.of_nat db) h buf argv =
      Some (scan_replies txt (passed_keys evs), REDISMODULE_OK, h).
Proof using HR.
  intros Hst Hks Hslot (Hlen & Es & Ec & Ecnt) Hbuf. pose proof (scan_count_range _ _ Ecnt) as Hcnt.
  pose proof (sr_size _ _ Hst) as Hsz.
  destruct argv as [|c [|s1 [|s2 rest]]]; try done. cbn [lookup list_lookup mbind option_bind] in Es, Ec.
  destruct (mgrt_scan_ok st kss db ks slot count (u64 cursor) h Hst Hks Hslot ltac:(lia) (u64_range _))
    as (d & k & v & evs & h1 & l1 & ns & Ed & Hd & E & Hk & Hcalls & Hv & Hl & Hns & Hg).
  destruct (m_ll2string_writes buf (i64 v)) as (txt & Hcan & Hval & Htl & Ebuf);
    [apply (signed_range 64); lia|].
  rewrite decide_True in Ebuf by (unfold REDIS_LONGSTR_SIZE in Hbuf; lia).
  destruct (reply_keys_ok h1 l1 ns Hl) as (h2 & l2 & E2 & Hl2 & Hf2 & Hd2).
  destruct (empty_ok h2 l2 [] Hl2) as (h3 & l3 & E3 & _ & Hf3 & Hd3).
  exists d, k, v, evs, txt. split_and!; try done.
  { apply m_string2ll_iff. split_and!; [done|done|apply (signed_range 64); lia]. }
  cbn [SlotsScan_RedisCommand]. rewrite decide_False by (cbn in Hlen; lia). rewrite Es, Ec, Ecnt.
  unfold i32. rewrite signed_small, (u64_small count) by lia. rewrite E. cbn [mbind option_bind].
  rewrite Ebuf. cbn [mbind option_bind]. rewrite (lr_len _ _ _ Hl), !Nat2Z.id, E2. cbn [mbind option_bind].
  unfold m_listRelease. rewrite E3. cbn [mbind option_bind]. rewrite take_app_length.
  assert (h3 = h) as ->.
  { apply (grown_undone h h1 h3 ns Hg).
    - intros q Hq. rewrite Hf3 by (apply not_elem_of_nil). by apply Hf2.
    - rewrite Hd3, Hd2. cbn. by rewrite difference_empty_L. }
  unfold scan_replies. rewrite <- Hns, length_fmap. done.
Qed.

(** ** A client's iteration *)

Definition reply_cursor (rs : list (reply S)) : option (list byte) :=
  match rs with
  | _ :: ReplyStringBuffer txt :: _ => Some txt
  | _ => None
  end.

Definition reply_names (rs : list (reply S)) : list S :=
  omap (λ r, match r with ReplyString s => Some s | _ => None end) rs.

Lemma scan_replies_names txt keys : reply_names (scan_replies txt keys) = keys.
Proof. unfold reply_names, scan_replies. cbn. induction keys as [|k keys IH]; [done|]. cbn. by f_equal. Qed.

(** The command sent again with each reply's cursor ([send] makes the
    argument), until the cursor is 0 or the client stops: the names replied, and
    whether the iteration is complete.  [sts] is the state each command meets. *)
Fixpoint scan_session (send : list byte -> S) (cmd slot : S) (db : Z) h (buf : list byte)
    (sts : list (slots_state S)) (cursor : S) : option (list S * bool) :=
  match sts with
  | [] => Some ([], false)
  | st :: sts =>
    '(rs, _, h) ← SlotsScan_RedisCommand st db h buf [cmd; slot; cursor];
    txt ← reply_cursor rs;
    if decide (m_string2ll txt = Some 0) then Some (reply_names rs, true)
    else
      '(names, complete) ← scan_session send cmd slot db h buf sts (send txt);
      Some (reply_names rs ++ names, complete)
  end.

Section session.
Context (send : list byte -> S) (send_ll : ∀ txt, RedisModule_StringToLongLong (send txt) = m_string2ll txt).
Context (cmd slot_arg : S) (slot : Z) (slot_ll : RedisModule_StringToLongLong slot_arg = Some slot).
Context (db : nat) (buf : list byte) (buf_size : length buf = REDIS_LONGSTR_SIZE).

Definition meets st (Q : dict S S -> Prop) : Prop :=
  ∃ kss ks, slots_repr st kss ∧ kss !! db = Some ks ∧
    0 <= slot < hash_slots_size (g_slots_meta_info st) ∧
    ∀ d, table_repr st ks (Z.to_nat slot) d -> Q d.

(** Its commands are one sequence of calls of [m_dictScan]. *)
Lemma session_ok (Q : dict S S -> Prop) sts h cursor c :
  Forall (λ st, meets st Q) sts -> RedisModule_StringToLongLong cursor = Some c ->
  ∃ names complete ds v evs, scan_session send cmd slot_arg (Z.of_nat db) h buf sts cursor = Some (names, complete) ∧
    scan_calls ds (u64 c) = Some (v, evs) ∧ names = passed_keys evs ∧ Forall Q ds ∧
    (complete = true -> v = 0 ∧ ds ≠ []).
Proof using HR send_ll slot_ll buf_size.
  intros Hsts. revert cursor c. induction Hsts as [|st sts (kss & ks & Hst & Hks & Hslot & HQ) _ IH];
    intros cursor c Hc; cbn [scan_session].
  { by exists [], false, [], (u64 c), []. }
  destruct (slots_scan_ok st kss db ks slot c 10 h buf [cmd; slot_arg; cursor] Hst Hks Hslot)
    as (d & k & v & evs & txt & _ & Hd & Hk & Hcalls & Hv & Htxt & ->); [|done|].
  { split_and!; [by left|exact slot_ll|exact Hc|done]. }
  cbn [mbind option_bind reply_cursor scan_replies]. fold (scan_replies txt (passed_keys evs)).
  rewrite scan_replies_names, Htxt.
  assert (Forall Q (replicate k d)) as HQd by (apply Forall_replicate; by apply HQ).
  case_decide as Hz.
  - injection Hz as Hz. apply i64_zero in Hz as ->; [|done].
    exists (passed_keys evs), true, (replicate k d), 0, evs. split_and!; try done.
    intros _. split; [done|]. by destruct k; [lia|].
  - assert (v ≠ 0) as Hv0 by (intros ->; by apply Hz).
    destruct (IH (send txt) (i64 v)) as (names & complete & ds & v2 & evs2 & -> & Hcalls2 & -> & HQ2 & Hcomp).
    { by rewrite send_ll. }
    rewrite u64_i64 in Hcalls2 by done. cbn [mbind option_bind].
    eexists _, complete, (replicate k d ++ ds), v2, (evs ++ evs2). split_and!; [reflexivity| | | |].
    + by rewrite (scan_calls_app _ _ _ _ _ Hcalls Hv0), Hcalls2.
    + unfold passed_keys. by rewrite passed_app, fmap_app.
    + by apply Forall_app.
    + intros [-> _]%Hcomp. split; [done|]. by destruct k; [lia|].
Qed.

(** Left alone, the index lets the iteration end. *)
Lemma session_static st kss ks m h cursor c d :
  slots_repr st kss -> kss !! db = Some ks ->
  0 <= slot < hash_slots_size (g_slots_meta_info st) -> RedisModule_StringToLongLong cursor = Some c ->
  table_of st (Z.of_nat db) slot = Some d ->
  let n := 64 - Z.log2 (scan_size d) in
  2 ^ Z.log2 (scan_size d) - rev (u64 c) / 2 ^ n <= Z.of_nat m ->
  ∃ names, scan_session send cmd slot_arg (Z.of_nat db) h buf (replicate m st) cursor = Some (names, true).
Proof using HR send_ll slot_ll buf_size.
  intros Hst Hks Hslot Hc Ed n. destruct (table_of_ok st kss db ks slot Hst Hks Hslot) as (d0 & Ed0 & Hd).
  rewrite Ed in Ed0. injection Ed0 as <-. pose proof (proj1 Hd) as Hwf.
  pose proof (scan_size_log _ d Hwf) as Hn. fold n in Hn. assert (0 < 2 ^ n) by lia.
  assert (2 ^ 64 = 2 ^ Z.log2 (scan_size d) * 2 ^ n) as E64.
  { rewrite <- Z.pow_add_r; [f_equal; unfold n; lia|apply Z.log2_nonneg|lia]. }
  revert cursor c Hc. induction m as [|m IH]; intros cursor c Hc Hm.
  { pose proof (rev_u64 _ (u64_range c)) as Hr. unfold is_u64 in Hr.
    assert (rev (u64 c) / 2 ^ n < 2 ^ Z.log2 (scan_size d)) by (apply Z.div_lt_upper_bound; lia). lia. }
  cbn [replicate scan_session].
  destruct (slots_scan_ok st kss db ks slot c 10 h buf [cmd; slot_arg; cursor] Hst Hks Hslot)
    as (d' & k & v & evs & txt & Ed' & _ & Hk & Hcalls & Hv & Htxt & ->); [|done|].
  { split_and!; [by left|exact slot_ll|exact Hc|done]. }
  rewrite Ed in Ed'. injection Ed' as <-.
  cbn [mbind option_bind reply_cursor scan_replies]. fold (scan_replies txt (passed_keys evs)).
  rewrite Htxt. case_decide as Hz; [by eexists|].
  assert (v ≠ 0) as Hv0 by (intros ->; by apply Hz).
  pose proof (scan_calls_progress _ k d (u64 c) v evs Hwf (u64_range c) Hk Hcalls Hv0) as Hprog.
  cbv zeta in Hprog. fold n in Hprog.
  destruct (IH (send txt) (i64 v)) as [names ->].
  { by rewrite send_ll. }
  { rewrite u64_i64 by done. lia. }
  cbn [mbind option_bind]. by eexists.
Qed.

(** An entry of the table of a slot is a name of the slot. *)
Lemma table_entry_name st ks d e :
  table_repr st ks (Z.to_nat slot) d -> e ∈ entries d -> content (de_key e) ∈ slot_names st ks slot.
Proof using Type.
  intros (Hwf & _ & Hdom) He. unfold slot_names. rewrite <- Hdom. apply elem_of_dom.
  exists (de_key e, de_val e). apply dict_map_lookup; [apply (wf_nodup _ _ Hwf)|]. by exists e.
Qed.

(** C13. A client that sends SLOTSSCAN with cursor 0 and then with the cursor of
    each reply, until that is 0, is told every name that is in the slot at
    every one of its commands, whatever the server adds, removes or rehashes
    between them; no command fails or leaves a node of its list behind. *)
Theorem SlotsScan_session_complete T x sts h cursor :
  RedisModule_StringToLongLong cursor = Some 0 ->
  Forall (λ st, meets st (λ d, dict_wf content d ∧ d_type d = T ∧ is_Some (dict_map content d !! x))) sts ->
  ∃ names complete,
    scan_session send cmd slot_arg (Z.of_nat db) h buf sts cursor = Some (names, complete) ∧
    (complete = true -> x ∈ content <$> names).
Proof using HR send_ll slot_ll buf_size.
  intros Hc Hsts.
  destruct (session_ok _ sts h cursor 0 Hsts Hc) as (names & complete & ds & v & evs & E & Hcalls & -> & HQ & Hcomp).
  exists (passed_keys evs), complete. split; [exact E|]. intros [-> Hne]%Hcomp.
  destruct (scan_complete_ok content T ds evs x Hne HQ Hcalls) as (e & He & <-).
  unfold passed_keys. rewrite <- list_fmap_compose. apply list_elem_of_fmap. exists e.
  split; [done|]. by apply elem_of_passed.
Qed.

(** While the index is left alone, that iteration ends after as many
    commands as the smaller table of the slot has buckets at most, and the names
    it replies are exactly the names of the slot. *)
Theorem SlotsScan_session_static st kss ks h cursor :
  slots_repr st kss -> kss !! db = Some ks ->
  0 <= slot < hash_slots_size (g_slots_meta_info st) -> RedisModule_StringToLongLong cursor = Some 0 ->
  ∃ d names, table_of st (Z.of_nat db) slot = Some d ∧
    scan_session send cmd slot_arg (Z.of_nat db) h buf
      (replicate (Z.to_nat (Z.max 1 (scan_size d))) st) cursor = Some (names, true) ∧
    ∀ x, x ∈ content <$> names <-> x ∈ slot_names st ks slot.
Proof using HR send_ll slot_ll buf_size.
  intros Hst Hks Hslot Hc. destruct (table_of_ok st kss db ks slot Hst Hks Hslot) as (d & Ed & Hd).
  exists d. assert (Forall (λ st', meets st' (table_repr st ks (Z.to_nat slot)))
    (replicate (Z.to_nat (Z.max 1 (scan_size d))) st)) as Hm by (apply Forall_replicate; by exists kss, ks).
  destruct (session_static st kss ks (Z.to_nat (Z.max 1 (scan_size d))) h cursor 0 d) as [names E]; try done.
  { change (rev (u64 0)) with 0. rewrite Zdiv_0_l. pose proof (scan_size_pow d). lia. }
  destruct (session_ok _ _ h cursor 0 Hm Hc) as (names' & complete & ds & v & evs & E' & Hcalls & -> & HQ & Hcomp).
  rewrite E in E'. injection E' as -> <-. exists (passed_keys evs). split_and!; [done|done|].
  destruct (Hcomp eq_refl) as [-> Hne]. intros x. unfold passed_keys.
  rewrite <- list_fmap_compose, list_elem_of_fmap. split.
  - intros (e & -> & He%elem_of_passed). rewrite Forall_forall in HQ.
    destruct (scan_calls_entries content ds (u64 0) 0 evs e) as (d' & Hd' & He').
    { apply Forall_forall. intros d' Hd'. apply (HQ d' Hd'). } { apply u64_range. } { done. } { done. }
    by apply (table_entry_name st ks d'); [apply HQ|].
  - intros Hx. destruct (scan_complete_ok content (hashSlotDictType (dict_hash_function_seed st)) ds evs x Hne)
      as (e & He & <-); [|exact Hcalls|].
    + eapply Forall_impl; [exact HQ|]. intros d' (Hwf & ET & Hdom). split_and!; [done|done|].
      apply elem_of_dom. by rewrite Hdom.
    + exists e. split; [done|]. by apply elem_of_passed.
Qed.
End session.

(** ** The commands *)

(** SLOTSINFO with arguments in range replies with the slots from [start]
    on, [count] of them at most, that are not empty, each with the number of its
    names. *)
Theorem SlotsInfo_spec st kss db ks argv start count :
  slots_repr st kss -> kss !! db = Some ks -> Z.of_nat (size ks) < 2 ^ 31 ->
  (length argv < 4)%nat -> arg_ll argv 1 0 = Some start -> arg_ll argv 2 0 = Some count ->
  0 <= start < 2 ^ 31 -> LLONG_MIN <= start + count <= LLONG_MAX ->
  SlotsInfo_RedisCommand st (Z.of_nat db) argv =
    Some (ReplyArray (Z.of_nat (length (slot_sizes st ks start (start + count)))) ::
          (slot_sizes st ks start (start + count) ≫= info_reply), REDISMODULE_OK).
Proof.
  intros Hst Hks Hsm Hargv Es Ec Hstart Hend. unfold SlotsInfo_RedisCommand.
  destruct (Nat.leb_spec 4 (length argv)); [lia|]. rewrite Es, Ec. rewrite decide_False by lia.
  unfold i32. rewrite signed_small by lia. pose proof (sr_size _ _ Hst).
  rewrite (info_loop_ok _ st kss db ks) by (done || lia). done.
Qed.

(** SLOTSSCAN with arguments in range makes one or more calls of
    [m_dictScan] on the table of the slot, replies with the cursor they end at,
    in decimal, and the keys they pass in order, and frees every node of the list it
    collects them in. *)
Theorem SlotsScan_spec st kss db ks slot cursor count h buf argv :
  slots_repr st kss -> kss !! db = Some ks ->
  0 <= slot < hash_slots_size (g_slots_meta_info st) -> scan_args argv slot cursor count ->
  length buf = REDIS_LONGSTR_SIZE ->
  ∃ d k v evs txt, table_of st (Z.of_nat db) slot = Some d ∧ table_repr st ks (Z.to_nat slot) d ∧ (1 <= k)%nat ∧
    scan_calls (replicate k d) (u64 cursor) = Some (v, evs) ∧ is_u64 v ∧ m_string2ll txt = Some (i64 v) ∧
    SlotsScan_RedisCommand st (Z.of_nat db) h buf argv =
      Some (scan_replies txt (passed_keys evs), REDISMODULE_OK, h).
Proof using HR. apply slots_scan_ok. Qed.
End props.
