(* ===== verification/CommandsExamples.v ===== *)
(** * CommandsExamples: the reading commands on a concrete index

    The index of RefinementExamples with one tagged key, asked with SLOTSINFO
    and iterated with SLOTSSCAN; the cursor of a reply is sent back as it is. *)

From S2P Require Import Prelude.
From S2P Require Import KeySlot.
From S2P Require Import Numbers.
From S2P Require Import Dict.
From S2P Require Import DictInv.
From S2P Require Import DictScan.
From S2P Require Import AdList.
From S2P Require Import SkipListExamples.
From S2P Require Import Slots.
From S2P Require Import SlotsInv.
From S2P Require Import SlotsProps.
From S2P Require Import Commands.
From S2P Require Import CommandsProps.
From S2P Require Import RefinementExamples.
Local Open Scope Z_scope.

Definition ex_filled : slots_state (list byte) :=
  match Slots_Add 5 ex_rand ex_state 0 (ex_key "{tag}1") with Some (_, st) => st | None => ex_state end.

Definition ex_slot : Z := si_slot (name_slot ex_state (ex_key "{tag}1")).
Definition ex_slot_arg : list byte := RedisModule_CreateStringFromLongLong ex_slot.
Definition ex_buf : list byte := replicate REDIS_LONGSTR_SIZE x00.

Lemma ex_filled_repr : slots_repr ex_filled [ex_names; ∅].
Proof.
  unfold ex_filled.
  destruct (slots_add_ok 5 ex_rand 1 ex_state [∅; ∅] 0 ∅ (ex_key "{tag}1") ex_state_repr)
    as (evs & st & -> & Hst & _); [done|done|done|]. exact Hst.
Qed.

Lemma ex_filled_slot : 0 <= ex_slot < hash_slots_size (g_slots_meta_info ex_filled).
Proof. vm_compute. split; [discriminate|reflexivity]. Qed.

Lemma ex_filled_in_slot : in_slot ex_filled (Z.to_nat ex_slot) (ex_key "{tag}1").
Proof. unfold in_slot. vm_compute. reflexivity. Qed.

Lemma ex_filled_meets T :
  T = hashSlotDictType (dict_hash_function_seed ex_filled) ->
  meets ex_slot 0 ex_filled
    (λ d, dict_wf content d ∧ d_type d = T ∧ is_Some (dict_map content d !! ex_key "{tag}1")).
Proof.
  intros ->. exists [ex_names; ∅], ex_names. split; [exact ex_filled_repr|]. split; [reflexivity|].
  split; [exact ex_filled_slot|]. intros d Hd. split; [apply Hd|]. split; [apply Hd|].
  apply (table_lookup _ _ _ _ _ Hd ex_filled_in_slot). unfold ex_names. set_solver.
Qed.

Lemma ex_send_ll (txt : list byte) : RedisModule_StringToLongLong txt = m_string2ll txt.
Proof. reflexivity. Qed.

Lemma ex_slot_ll : RedisModule_StringToLongLong ex_slot_arg = Some ex_slot.
Proof. vm_compute. reflexivity. Qed.

Definition ex_session (sts : list (slots_state (list byte))) : option (list (list byte) * bool) :=
  scan_session (λ txt, txt) (ex_key "slotsscan") ex_slot_arg 0 ∅ ex_buf sts (ex_key "0").

(** The commands do evaluate: the iteration of two buckets per command or more. *)
Example ex_session_names : ex_session (replicate 4 ex_filled) = Some ([ex_key "{tag}1"], true).
Proof. vm_compute. reflexivity. Qed.

Lemma SlotsScan_session_complete_witness :
  ∃ names complete, ex_session (replicate 4 ex_filled) = Some (names, complete) ∧
    (complete = true -> ex_key "{tag}1" ∈ content <$> names).
Proof.
  apply (SlotsScan_session_complete (λ txt, txt) ex_send_ll (ex_key "slotsscan") ex_slot_arg ex_slot
    ex_slot_ll 0 ex_buf eq_refl (hashSlotDictType (dict_hash_function_seed ex_filled))).
  - vm_compute. reflexivity.
  - apply Forall_replicate, ex_filled_meets. reflexivity.
Defined.

Lemma SlotsScan_session_static_witness :
  ∃ d names, table_of ex_filled 0 ex_slot = Some d ∧
    ex_session (replicate (Z.to_nat (Z.max 1 (scan_size d))) ex_filled) = Some (names, true) ∧
    ∀ x, x ∈ content <$> names <-> x ∈ slot_names ex_filled ex_names ex_slot.
Proof.
  apply (SlotsScan_session_static (λ txt, txt) ex_send_ll (ex_key "slotsscan") ex_slot_arg ex_slot
    ex_slot_ll 0 ex_buf eq_refl ex_filled [ex_names; ∅] ex_names ∅ (ex_key "0")).
  - exact ex_filled_repr.
  - reflexivity.
  - exact ex_filled_slot.
  - vm_compute. reflexivity.
Defined.

Lemma SlotsScan_spec_witness :
  ∃ d k v evs txt, table_of ex_filled 0 ex_slot = Some d ∧
    table_repr ex_filled ex_names (Z.to_nat ex_slot) d ∧ (1 <= k)%nat ∧
    scan_calls (replicate k d) (u64 2) = Some (v, evs) ∧ is_u64 v ∧ m_string2ll txt = Some (i64 v) ∧
    SlotsScan_RedisCommand ex_filled 0 ∅ ex_buf
      [ex_key "slotsscan"; ex_slot_arg; ex_key "2"; ex_key "COUNT"; ex_key "3"] =
      Some (scan_replies txt (passed_keys evs), REDISMODULE_OK, ∅).
Proof.
  apply (SlotsScan_spec ex_filled [ex_names; ∅] 0 ex_names ex_slot 2 3).
  - exact ex_filled_repr.
  - reflexivity.
  - exact ex_filled_slot.
  - split; [right; reflexivity|]. split; [vm_compute; reflexivity|].
    split; vm_compute; reflexivity.
  - reflexivity.
Defined.

Lemma SlotsInfo_spec_witness :
  ∃ l, SlotsInfo_RedisCommand ex_filled 0 [ex_key "slotsinfo"; ex_key "0"; ex_key "1024"] =
    Some (ReplyArray (Z.of_nat (length l)) :: (l ≫= info_reply), REDISMODULE_OK).
Proof.
  exists (slot_sizes ex_filled ex_names 0 (0 + 1024)).
  apply (SlotsInfo_spec ex_filled [ex_names; ∅] 0 ex_names _ 0 1024).
  - exact ex_filled_repr.
  - reflexivity.
  - vm_compute. reflexivity.
  - cbn. lia.
  - vm_compute. reflexivity.
  - vm_compute. reflexivity.
  - lia.
  - unfold LLONG_MIN, LLONG_MAX. lia.
Defined.

(** What is replied there. *)
Example ex_info :
  SlotsInfo_RedisCommand ex_filled 0 [ex_key "slotsinfo"; ex_key "0"; ex_key "1024"] =
    Some ([ReplyArray 1; ReplyArray 2; ReplyLongLong ex_slot; ReplyLongLong 1], REDISMODULE_OK).
Proof. vm_compute. reflexivity. Qed.
