(* ===== verification/Statics.v ===== *)
(** * Statics: what no event changes

    The number of slots, the checksum's table and the seed of the hashes are set
    by [Slots_Init] and stay: the slot of a name is the same after every event. *)

From S2P Require Import Prelude.
From S2P Require Import KeySlot.
From S2P Require Import Dict.
From S2P Require Import SkipList.
From S2P Require Import Slots.
From S2P Require Import SlotsInv.
From S2P Require Import Events.
From S2P Require Import Refinement.
Local Open Scope Z_scope.

Record index_conf := Conf { cf_size : Z; cf_table : list Z; cf_seed : list byte }.

(** Takes apart a computation that has returned. *)
Ltac returned :=
  repeat first
    [ progress simplify_eq/=
    | match goal with
      | H : mbind _ ?o = Some _ |- _ => destruct o eqn:?; cbn [mbind option_bind] in H; [|discriminate H]
      | p : (_ * _)%type |- _ => destruct p
      | H : context [if decide ?P then _ else _] |- _ => destruct (decide P)
      | H : (if ?b then _ else _) = Some _ |- _ => destruct b eqn:?
      | H : context [let '(_, _) := ?x in _] |- _ => destruct x eqn:?
      end ].

Section statics.
Context {S : Type} `{HS : RedisStrings S}.
Implicit Types (st : slots_state S) (ms : module_state S) (ev : module_event S).

Definition conf_of st : index_conf :=
  Conf (hash_slots_size (g_slots_meta_info st)) (crc32tab st) (dict_hash_function_seed st).

Lemma name_slot_conf st st' x : conf_of st' = conf_of st -> name_slot st' x = name_slot st x.
Proof. unfold name_slot. by intros [= -> -> _]. Qed.

Lemma add_conf fuel rand st db key evs st' :
  Slots_Add fuel rand st db key = Some (evs, st') -> conf_of st' = conf_of st.
Proof. unfold Slots_Add. intros E. by returned. Qed.

Lemma del_conf st db key evs st' : Slots_Del st db key = Some (evs, st') -> conf_of st' = conf_of st.
Proof. unfold Slots_Del. intros E. by returned. Qed.

Lemma flush_db_conf st db evs st' : flush_db st db = Some (evs, st') -> conf_of st' = conf_of st.
Proof. unfold flush_db. intros E. by returned. Qed.

Lemma flush_dbs_conf n db st evs st' : flush_dbs n db st = Some (evs, st') -> conf_of st' = conf_of st.
Proof.
  revert db st evs. induction n as [|n IH]; intros db st evs E; cbn [flush_dbs] in E; returned; [done|].
  erewrite IH by done. by eapply flush_db_conf.
Qed.

Lemma set_table_conf st db slot d st' : set_table_at st db slot d = Some st' -> conf_of st' = conf_of st.
Proof. unfold set_table_at. intros E. by returned. Qed.

Lemma resize_slots_conf n st db slot slot' st' :
  resize_slots n st db slot = Some (slot', st') -> conf_of st' = conf_of st.
Proof.
  revert st slot. induction n as [|n IH]; intros st slot E; cbn [resize_slots] in E; returned; [done|].
  erewrite IH by done. unfold tryResizeDbSlotHashTables in *. returned; [|done]. by eapply set_table_conf.
Qed.

Lemma resize_dbs_conf n slots st db slot db' slot' st' :
  resize_dbs n slots st db slot = Some (db', slot', st') -> conf_of st' = conf_of st.
Proof.
  revert st db slot. induction n as [|n IH]; intros st db slot E; cbn [resize_dbs] in E; returned; [done|].
  erewrite IH by done. by eapply resize_slots_conf.
Qed.

Lemma rehash_slots_conf n st db slot clock done' db' st' :
  rehash_slots n st db slot clock = Some (done', db', st') -> conf_of st' = conf_of st.
Proof.
  assert (∀ st slot db r st', incrementallyDbSlotRehash st db slot clock = Some (r, st') ->
    conf_of st' = conf_of st) as H1.
  { intros st1 slot1 db1 r st1'. unfold incrementallyDbSlotRehash. intros E. returned; [|done].
    by eapply set_table_conf. }
  revert st db slot. induction n as [|n IH]; intros st db slot E; cbn [rehash_slots] in E; returned; try done.
  - by eapply H1.
  - erewrite IH by done. by eapply H1.
Qed.

Lemma rehash_dbs_conf n slots st db clock db' st' :
  rehash_dbs n slots st db clock = Some (db', st') -> conf_of st' = conf_of st.
Proof.
  revert st db. induction n as [|n IH]; intros st db E; cbn [rehash_dbs] in E; returned; try done.
  - by eapply rehash_slots_conf.
  - erewrite IH by done. by eapply rehash_slots_conf.
Qed.

Lemma cron_conf st cs active clock hz b st' cs' :
  CronLoopCallback st cs active clock hz = Some (b, st', cs') -> conf_of st' = conf_of st.
Proof.
  unfold CronLoopCallback. destruct (dbSlotCron st cs active clock) as [[st1 cs1]|] eqn:E1; [|done].
  cbn [mbind option_bind]. intros E. assert (conf_of st' = conf_of st1) as -> by by returned. clear E.
  unfold dbSlotCron in E1. returned; [by eapply resize_dbs_conf|].
  erewrite rehash_dbs_conf by done. by eapply resize_dbs_conf.
Qed.

Lemma generic_conf fuel rand st ns db event key evs st' ns' :
  NotifyGenericCallback fuel rand st ns db event key = Some (evs, st', ns') -> conf_of st' = conf_of st.
Proof.
  unfold NotifyGenericCallback, notify_generic. intros E. returned; try done.
  - by eapply del_conf.
  - erewrite add_conf by done. by eapply del_conf.
  - erewrite add_conf by done. by eapply del_conf.
Qed.

Lemma handle_conf ms ev evs ms' : handle ms ev = Some (evs, ms') -> conf_of (m_slots ms') = conf_of (m_slots ms).
Proof.
  destruct ev; cbn [handle]; intros E; returned; cbn [m_slots].
  - unfold NotifyTypeChangeCallback in *. returned. by eapply add_conf.
  - by eapply generic_conf.
  - unfold FlushdbCallback in *. destruct sub; returned; [by eapply flush_db_conf|by eapply flush_dbs_conf|done].
  - by eapply cron_conf.
Qed.

Lemma run_conf ms evs refs ms' : run ms evs = Some (refs, ms') -> conf_of (m_slots ms') = conf_of (m_slots ms).
Proof.
  revert ms refs. induction evs as [|ev evs IH]; intros ms refs E; cbn [run] in E; returned; [done|].
  erewrite IH by done. by eapply handle_conf.
Qed.
End statics.
