(* ===== verification/Prog.v ===== *)
(** * Prog: programs on a state that may be undefined

    [prog W A] is a computation on a state [W] that returns an [A], or nothing
    where the code is undefined.  The code that calls the server and the network
    is written in it.  [ensures m w Q] is total correctness: [m] is defined in
    [w] and what it returns satisfies [Q].  [only m w Q] is partial
    correctness, for what holds of the defined runs. *)

From S2P Require Import Prelude.

Definition prog (W A : Type) : Type := W -> option (A * W).

#[export] Instance prog_ret W : MRet (prog W) := λ A a w, Some (a, w).
#[export] Instance prog_bind W : MBind (prog W) :=
  λ A B f m w, match m w with Some (a, w') => f a w' | None => None end.

Definition undefined {W A} : prog W A := λ _, None.
Definition lift {W A} (o : option A) : prog W A := λ w, a ← o; Some (a, w).
Definition get {W A} (f : W -> A) : prog W A := λ w, Some (f w, w).
Definition modify {W} (f : W -> W) : prog W () := λ w, Some ((), f w).

Definition ensures {W A} (m : prog W A) (w : W) (Q : A -> W -> Prop) : Prop :=
  ∃ a w', m w = Some (a, w') ∧ Q a w'.

Definition only {W A} (m : prog W A) (w : W) (Q : A -> W -> Prop) : Prop :=
  ∀ a w', m w = Some (a, w') -> Q a w'.

Section prog.
Context {W : Type}.
Implicit Types (w : W).

Lemma ensures_ret {A} (a : A) w (Q : A -> W -> Prop) : Q a w -> ensures (mret a) w Q.
Proof. intros HQ. by exists a, w. Qed.

Lemma ensures_bind {A B} (m : prog W A) (f : A -> prog W B) w Q :
  ensures m w (λ a w', ensures (f a) w' Q) -> ensures (m ≫= f) w Q.
Proof. intros (a & w1 & E & b & w2 & E2 & HQ). exists b, w2. unfold mbind, prog_bind. by rewrite E. Qed.

Lemma ensures_mono {A} (m : prog W A) w (Q Q' : A -> W -> Prop) :
  ensures m w Q -> (∀ a w', Q a w' -> Q' a w') -> ensures m w Q'.
Proof. intros (a & w' & E & HQ) HQQ. exists a, w'. auto. Qed.

Lemma ensures_get {A} (f : W -> A) w (Q : A -> W -> Prop) : Q (f w) w -> ensures (get f) w Q.
Proof. intros HQ. by exists (f w), w. Qed.

Lemma ensures_modify (f : W -> W) w (Q : () -> W -> Prop) : Q () (f w) -> ensures (modify f) w Q.
Proof. intros HQ. by exists (), (f w). Qed.

Lemma ensures_lift {A} (o : option A) a w (Q : A -> W -> Prop) : o = Some a -> Q a w -> ensures (lift o) w Q.
Proof. intros -> HQ. by exists a, w. Qed.

Lemma only_ret {A} (a : A) w (Q : A -> W -> Prop) : Q a w -> only (mret a) w Q.
Proof. by intros HQ ? ? [= <- <-]. Qed.

Lemma only_bind {A B} (m : prog W A) (f : A -> prog W B) w Q :
  only m w (λ a w', only (f a) w' Q) -> only (m ≫= f) w Q.
Proof.
  intros Hm b w2. unfold mbind, prog_bind. destruct (m w) as [[a w1]|] eqn:E; [|done].
  apply (Hm a w1 E).
Qed.

Lemma only_mono {A} (m : prog W A) w (Q Q' : A -> W -> Prop) :
  only m w Q -> (∀ a w', Q a w' -> Q' a w') -> only m w Q'.
Proof. intros Hm HQQ a w' E. by apply HQQ, Hm. Qed.

Lemma only_get {A} (f : W -> A) w (Q : A -> W -> Prop) : Q (f w) w -> only (get f) w Q.
Proof. by intros HQ ? ? [= <- <-]. Qed.

Lemma only_modify (f : W -> W) w (Q : () -> W -> Prop) : Q () (f w) -> only (modify f) w Q.
Proof. by intros HQ ? ? [= <- <-]. Qed.

Lemma only_lift {A} (o : option A) w (Q : A -> W -> Prop) : (∀ a, o = Some a -> Q a w) -> only (lift o) w Q.
Proof. intros HQ a w'. unfold lift. destruct o as [x|]; [|done]. cbn. intros [= <- <-]. by apply HQ. Qed.

Lemma ensures_only {A} (m : prog W A) w Q : ensures m w (λ _ _, True) -> only m w Q -> ensures m w Q.
Proof. intros (a & w' & E & _) Hm. exists a, w'. split; [done|]. by apply Hm. Qed.
End prog.

(** Takes the first command of a program, under either reading. *)
Ltac prog_bind :=
  match goal with
  | |- ensures (_ ≫= _) _ _ => apply ensures_bind
  | |- only (_ ≫= _) _ _ => apply only_bind
  end.

Ltac prog_step :=
  match goal with
  | |- ensures (mret _) _ _ => apply ensures_ret
  | |- ensures (get _) _ _ => apply ensures_get
  | |- ensures (modify _) _ _ => apply ensures_modify
  | |- only (mret _) _ _ => apply only_ret
  | |- only (get _) _ _ => apply only_get
  | |- only (modify _) _ _ => apply only_modify
  | |- _ => prog_bind
  end; cbv beta.
