(* ===== verification/Server.v ===== *)
(** * Server: what the module asks of the server and of the network

    [RedisServer] is the server the module runs in ([RedisModule_Call] and the
    other functions of redismodule.h the migration uses), [Hiredis] the client
    library it talks to other servers with.  Both are third-party code: a type
    of states and its functions.  [world] is the state of everything; its trace
    lists what the code did outside of its own memory, with the answers.

    A call delivers the keyspace notifications it causes before it returns, and
    the module's own handlers run on them. *)

From S2P Require Import Prelude.
From S2P Require Import Prog.
From S2P Require Import KeySlot.
From S2P Require Import Numbers.
From S2P Require Import Slots.
From S2P Require Import Refinement.
Local Open Scope Z_scope.

(** ** Redis *)

(** [RESTORE] is called with ["clbc"]: the key up to its NUL, the time to live,
    the value, and ["replace"]. *)
Inductive redis_command (S : Type) :=
  | DUMP (key : S)
  | PTTL (key : S)
  | UNLINK (key : S)
  | RESTORE (key : list byte) (ttlms : Z) (val : list byte).
Arguments DUMP {S} _.
Arguments PTTL {S} _.
Arguments UNLINK {S} _.
Arguments RESTORE {S} _ _ _.

(** The reply types; the string is what [RedisModule_CreateStringFromCallReply]
    makes of the reply. *)
Inductive call_reply (S : Type) :=
  | REDISMODULE_REPLY_UNKNOWN
  | REDISMODULE_REPLY_STRING (s : S)
  | REDISMODULE_REPLY_ERROR
  | REDISMODULE_REPLY_INTEGER (i : Z)
  | REDISMODULE_REPLY_ARRAY
  | REDISMODULE_REPLY_NULL.
Arguments REDISMODULE_REPLY_UNKNOWN {S}.
Arguments REDISMODULE_REPLY_STRING {S} _.
Arguments REDISMODULE_REPLY_ERROR {S}.
Arguments REDISMODULE_REPLY_INTEGER {S} _.
Arguments REDISMODULE_REPLY_ARRAY {S}.
Arguments REDISMODULE_REPLY_NULL {S}.

Inductive key_type := KEYTYPE_EMPTY | KEYTYPE_STRING | KEYTYPE_LIST | KEYTYPE_HASH | KEYTYPE_SET
  | KEYTYPE_ZSET | KEYTYPE_MODULE | KEYTYPE_STREAM.

Class RedisServer (S Srv : Type) := {
  (* [None] for a [NULL] reply; with the notifications sent meanwhile *)
  RedisModule_Call : Srv -> Z -> redis_command S ->
    option (call_reply S) * list (module_event S) * Srv;
  RedisModule_KeyType : Srv -> Z -> S -> key_type;
  RedisModule_Milliseconds : Srv -> Z;
  (* what [random] draws during a notification, and how often at most *)
  random_draws : Srv -> nat * (nat -> Z);
  (* the order in which a pool of threads that restores runs so many tasks *)
  pool_order : Srv -> nat -> list nat;
  (* the database selected in a context that belongs to no client *)
  detached_db : Z
}.

(** ** hiredis *)
Inductive redis_reply := REDIS_REPLY_ERROR | REDIS_REPLY_OTHER.

(** The arguments of [redisAppendCommand] with ["SLOTSRESTORE %b %ld %b"]. *)
Record pipeline_args := PipelineArgs { pa_key : list byte; pa_ttl : Z; pa_val : list byte }.

Class Hiredis (Net : Type) := {
  (* the context, [errstr] when its [err] is set *)
  redisConnect : Net -> list byte -> Z -> nat * option (list byte) * Net;
  (* "SELECT %d" *)
  redisSelect : Net -> nat -> Z -> option redis_reply * Net;
  (* whether [err] is set after the command, and the reply *)
  redisCommandArgv : Net -> nat -> list (list byte) -> bool * option redis_reply * Net;
  redisAppendCommand : Net -> nat -> pipeline_args -> Net;
  (* whether it is [REDIS_ERR] *)
  redisGetReply : Net -> nat -> bool * option redis_reply * Net;
  redisFree : Net -> nat -> Net
}.

(** ** The world *)

(** [slot_mgrt_connet_meta] and [db_slot_mgrt_connect]; [timeout] is the
    [timeval]. *)
Record slot_mgrt_connet_meta := ConnMeta {
  mt_db : Z;
  mt_host : list byte;
  mt_port : list byte;
  mt_timeout : Z * Z
}.

Record db_slot_mgrt_connect := Connect {
  cn_meta : slot_mgrt_connet_meta;
  cn_last_time : Z;
  cn_ctx : nat
}.

(** What the code did, with the answers; [TtlStrdup] and [TtlFree] are the
    strings of an argument array by their index, [ValCreated] and [ValFreed] the
    values of the dump objects. *)
Inductive action (S : Type) :=
  | Called (db : Z) (c : redis_command S) (r : option (call_reply S))
  | Notified (db : Z) (key : S)
  | Selected (ctx : nat) (db : Z) (ok : bool)
  | Sent (ctx : nat) (argv : list (list byte)) (ok : bool)
  | Appended (ctx : nat) (args : pipeline_args)
  | GotReply (ctx : nat) (ok : bool)
  | TtlStrdup (i : nat)
  | TtlFree (i : nat)
  | ValCreated (s : S)
  | ValFreed (s : S).
Arguments Called {S} _ _ _.
Arguments Notified {S} _ _.
Arguments Selected {S} _ _ _.
Arguments Sent {S} _ _ _.
Arguments Appended {S} _ _.
Arguments GotReply {S} _ _.
Arguments TtlStrdup {S} _.
Arguments TtlFree {S} _.
Arguments ValCreated {S} _.
Arguments ValFreed {S} _.

(** [w_conns] are the [db_slot_mgrt_connect]s allocated, [w_cache] is
    [slotsmgrt_cached_ctx_connects]. *)
Record world (S Srv Net : Type) := World {
  w_srv : Srv;
  w_mod : module_state S;
  w_net : Net;
  w_conns : gmap nat db_slot_mgrt_connect;
  w_cache : gmap (list byte) nat;
  w_trace : list (action S)
}.
Arguments World {S Srv Net} _ _ _ _ _ _.
Arguments w_srv {S Srv Net} _.
Arguments w_mod {S Srv Net} _.
Arguments w_net {S Srv Net} _.
Arguments w_conns {S Srv Net} _.
Arguments w_cache {S Srv Net} _.
Arguments w_trace {S Srv Net} _.

Section server.
Context {S Srv Net : Type} `{HS : RedisStrings S} `{HV : !RedisServer S Srv} `{HN : !Hiredis Net}.
Implicit Types (w : world S Srv Net).
Notation M := (prog (world S Srv Net)).

Definition set_server w (srv : Srv) (ms : module_state S) : world S Srv Net :=
  World srv ms (w_net w) (w_conns w) (w_cache w) (w_trace w).
Definition set_net w (net : Net) : world S Srv Net :=
  World (w_srv w) (w_mod w) net (w_conns w) (w_cache w) (w_trace w).
Definition set_conns w conns cache : world S Srv Net :=
  World (w_srv w) (w_mod w) (w_net w) conns cache (w_trace w).
Definition log (a : action S) w : world S Srv Net :=
  World (w_srv w) (w_mod w) (w_net w) (w_conns w) (w_cache w) (w_trace w ++ [a]).

Definition did (a : action S) : M () := modify (log a).

(** [RedisModule_Call] on the selected database. *)
Definition call (db : Z) (c : redis_command S) : M (option (call_reply S)) := λ w,
  let '(r, evs, srv) := RedisModule_Call (w_srv w) db c in
  '(_, ms) ← run (w_mod w) evs;
  Some (r, log (Called db c r) (set_server w srv ms)).

(** [RedisModule_NotifyKeyspaceEvent] of a type the module subscribes to with
    [NotifyTypeChangeCallback]. *)
Definition notify (db : Z) (key : S) : M () := λ w,
  let '(fuel, rand) := random_draws (w_srv w) in
  '(_, ms) ← handle (w_mod w) (TypeChange fuel rand db key);
  Some ((), log (Notified db key) (set_server w (w_srv w) ms)).

Definition is_error (r : option redis_reply) : bool :=
  match r with Some REDIS_REPLY_ERROR => true | _ => false end.

(** A reply that is there and is no error. *)
Definition reply_ok (r : option redis_reply) : bool :=
  match r with Some REDIS_REPLY_OTHER => true | _ => false end.

Definition select (ctx : nat) (db : Z) : M (option redis_reply) := λ w,
  let '(r, net) := redisSelect (w_net w) ctx db in
  Some (r, log (Selected ctx db (reply_ok r)) (set_net w net)).

Definition command_argv (ctx : nat) (argv : list (list byte)) : M (bool * option redis_reply) := λ w,
  let '(err, r, net) := redisCommandArgv (w_net w) ctx argv in
  Some ((err, r), log (Sent ctx argv (negb err && reply_ok r)) (set_net w net)).

Definition append_command (ctx : nat) (args : pipeline_args) : M () := λ w,
  Some ((), log (Appended ctx args) (set_net w (redisAppendCommand (w_net w) ctx args))).

Definition get_reply (ctx : nat) : M (bool * option redis_reply) := λ w,
  let '(err, r, net) := redisGetReply (w_net w) ctx in
  Some ((err, r), log (GotReply ctx (negb err && reply_ok r)) (set_net w net)).

Definition meta_info w : slots_meta_info := g_slots_meta_info (m_slots (w_mod w)).

(** The [conn] behind a pointer; a freed one is undefined. *)
Definition conn_at (p : nat) : M db_slot_mgrt_connect := λ w,
  c ← w_conns w !! p; Some (c, w).
End server.
