(* ===== verification/ServerSpec.v ===== *)
(** * ServerSpec: what the server promises, and how traces are read

    [RedisServerOk] is the server's promise to the module: every change of the
    keyspace is notified.  [runs] is total correctness with the piece of trace a
    program adds; [delivered] reads in a trace which keys the other server has
    acknowledged. *)

From S2P Require Import Prelude.
From S2P Require Import KeySlot.
From S2P Require Import Numbers.
From S2P Require Import SkipList.
From S2P Require Import Slots.
From S2P Require Import SlotsInv.
From S2P Require Import Events.
From S2P Require Import EventsProps.
From S2P Require Import Refinement.
From S2P Require Import Statics.
From S2P Require Import Prog.
From S2P Require Import Server.
Local Open Scope Z_scope.

(** ** The server's promise *)
Definition spec_add (sp : spec_state) (db : Z) (x : list byte) : spec_state :=
  Spec (add_name db x (sp_names sp)) (sp_from sp) (sp_db sp) (sp_size sp) (sp_loops sp).

Definition is_restore {S} (c : redis_command S) : bool :=
  match c with RESTORE _ _ _ => true | _ => false end.

(** The answers of RESTORE that are neither missing nor an error. *)
Definition restored {S} (r : option (call_reply S)) : bool :=
  match r with
  | None | Some REDISMODULE_REPLY_NULL | Some REDISMODULE_REPLY_ERROR => false
  | _ => true
  end.

Class RedisServerOk (S Srv : Type) `{RedisStrings S} `{!RedisServer S Srv} := {
  (* the names per database, fewer than an [int] counts *)
  srv_spec : Srv -> spec_state;
  srv_small srv : small (sp_names (srv_spec srv));
  srv_draws srv : is_Some (m_zslRandomLevel (random_draws srv).1 (random_draws srv).2);
  (* what changes the names is notified *)
  call_notifies srv db c r evs srv' :
    RedisModule_Call srv db c = (r, evs, srv') -> is_restore c = false -> valid_db (srv_spec srv) db ->
    trace_ok (srv_spec srv) evs ∧ srv_spec srv' = spec_run (srv_spec srv) evs;
  (* UNLINK answers an integer when it has run: the key is gone, nothing else *)
  unlink_names srv db key r evs srv' :
    RedisModule_Call srv db (UNLINK key) = (r, evs, srv') -> valid_db (srv_spec srv) db ->
    sp_names (srv_spec srv') =
      match r with
      | Some (REDISMODULE_REPLY_INTEGER _) => del_name db (content key) (sp_names (srv_spec srv))
      | _ => sp_names (srv_spec srv)
      end;
  (* RESTORE adds the key with no notification of its type *)
  restore_adds srv db k ttlms val r evs srv' :
    RedisModule_Call srv db (RESTORE k ttlms val) = (r, evs, srv') -> valid_db (srv_spec srv) db ->
    trace_ok (srv_spec srv) evs ∧ spec_run (srv_spec srv) evs = srv_spec srv ∧
    srv_spec srv' = if restored r then spec_add (srv_spec srv) db k else srv_spec srv;
  (* a key that is there has a type *)
  key_type_there srv db key ks :
    sp_names (srv_spec srv) !! Z.to_nat db = Some ks -> content key ∈ ks ->
    RedisModule_KeyType srv db key ≠ KEYTYPE_EMPTY
}.

(** The databases and the slots stay. *)
Definition spec_keeps (sp sp' : spec_state) : Prop :=
  length (sp_names sp') = length (sp_names sp) ∧ sp_size sp' = sp_size sp.

Lemma spec_keeps_trans sp1 sp2 sp3 : spec_keeps sp1 sp2 -> spec_keeps sp2 sp3 -> spec_keeps sp1 sp3.
Proof. intros [H1 H2] [H3 H4]. split; congruence. Qed.

Lemma spec_keeps_db sp sp' db : spec_keeps sp sp' -> valid_db sp db -> valid_db sp' db.
Proof. unfold valid_db. by intros [-> _]. Qed.

Lemma spec_step_keeps {S} `{RedisStrings S} sp (ev : module_event S) : spec_keeps sp (spec_step sp ev).
Proof.
  destruct ev as [fuel rand db key|fuel rand db event key|sub dbnum|]; cbn [spec_step sp_names].
  - split; [apply length_alter|done].
  - unfold spec_generic. repeat case_decide; try (by split); unfold add_name, del_name;
      [by split; cbn; rewrite ?length_alter| |by split; cbn; rewrite ?length_alter].
    destruct (sp_from sp); split; cbn; by rewrite ?length_alter.
  - destruct sub; [|by split]. split; [|done]. cbn. case_decide; [by rewrite length_replicate|by rewrite length_insert].
  - by split.
Qed.

Lemma spec_run_keeps {S} `{RedisStrings S} sp (evs : list (module_event S)) : spec_keeps sp (spec_run sp evs).
Proof.
  revert sp. induction evs as [|ev evs IH]; intros sp; [by split|].
  eapply spec_keeps_trans; [apply spec_step_keeps|apply IH].
Qed.

(** ** Programs with their traces *)
Section runs.
Context {S Srv Net : Type}.
Implicit Types (w : world S Srv Net) (t : list (action S)).
Notation M := (prog (world S Srv Net)).

Definition runs {A} (m : M A) w (P : A -> world S Srv Net -> list (action S) -> Prop) : Prop :=
  ensures m w (λ a w', ∃ t, w_trace w' = w_trace w ++ t ∧ P a w' t).

Lemma runs_bind {A B} (m : M A) (f : A -> M B) w P :
  runs m w (λ a w1 t1, runs (f a) w1 (λ b w2 t2, P b w2 (t1 ++ t2))) -> runs (m ≫= f) w P.
Proof.
  intros Hm. apply ensures_bind. eapply ensures_mono; [exact Hm|]. intros a w1 (t1 & E1 & Hf).
  eapply ensures_mono; [exact Hf|]. intros b w2 (t2 & E2 & HP).
  exists (t1 ++ t2). by rewrite E2, E1, app_assoc.
Qed.

Lemma runs_mono {A} (m : M A) w (P P' : A -> world S Srv Net -> list (action S) -> Prop) :
  runs m w P -> (∀ a w' t, P a w' t -> P' a w' t) -> runs m w P'.
Proof.
  intros Hm HP. eapply ensures_mono; [exact Hm|]. intros a w' (t & E & H). exists t. auto.
Qed.

Lemma runs_ret {A} (a : A) w (P : A -> world S Srv Net -> list (action S) -> Prop) :
  P a w [] -> runs (mret a) w P.
Proof. intros HP. apply ensures_ret. exists []. by rewrite app_nil_r. Qed.

Lemma runs_get {A} (f : world S Srv Net -> A) w P : P (f w) w [] -> runs (get f) w P.
Proof. intros HP. apply ensures_get. exists []. by rewrite app_nil_r. Qed.

Lemma runs_lift {A} (o : option A) a w (P : A -> world S Srv Net -> list (action S) -> Prop) :
  o = Some a -> P a w [] -> runs (lift o) w P.
Proof. intros E HP. eapply ensures_lift; [exact E|]. exists []. by rewrite app_nil_r. Qed.

Lemma runs_modify (f : world S Srv Net -> world S Srv Net) w P :
  w_trace (f w) = w_trace w -> P () (f w) [] -> runs (modify f) w P.
Proof. intros E HP. apply ensures_modify. exists []. by rewrite E, app_nil_r. Qed.

Lemma runs_did a w (P : () -> world S Srv Net -> list (action S) -> Prop) :
  P () (log a w) [a] -> runs (did a) w P.
Proof. intros HP. apply ensures_modify. by exists [a]. Qed.

Lemma runs_conn p c w (P : db_slot_mgrt_connect -> world S Srv Net -> list (action S) -> Prop) :
  w_conns w !! p = Some c -> P c w [] -> runs (conn_at p) w P.
Proof. intros E HP. exists c, w. unfold conn_at. rewrite E. split; [done|]. exists []. by rewrite app_nil_r. Qed.
End runs.

(** One command of a program under [runs]. *)
Ltac run_step :=
  match goal with
  | |- runs (mret _) _ _ => apply runs_ret
  | |- runs (get _) _ _ => apply runs_get
  | |- runs (did _) _ _ => apply runs_did
  | |- runs (_ ≫= _) _ _ => apply runs_bind
  end; cbv beta iota.

(** ** Deliveries *)

(** A key, its time to live and its value, as SLOTSRESTORE's arguments say. *)
Notation item := (list byte * option Z * list byte)%type (only parsing).

Fixpoint triples (args : list (list byte)) : list item :=
  match args with
  | k :: t :: v :: args => (k, m_string2ll t, v) :: triples args
  | _ => []
  end.

Definition pipeline_item (a : pipeline_args) : item := (pa_key a, Some (pa_ttl a), pa_val a).

(** The items of the SLOTSRESTORE commands that had a reply without an error;
    [pending] are the ones appended to a pipeline whose replies are due. *)
Fixpoint delivered {S} (pending : list item) (t : list (action S)) : list item :=
  match t with
  | [] => []
  | Sent _ (_ :: args) true :: t => triples args ++ delivered pending t
  | Appended _ a :: t => delivered (pending ++ [pipeline_item a]) t
  | GotReply _ ok :: t =>
    match pending with
    | [] => delivered [] t
    | x :: pending => (if ok then [x] else []) ++ delivered pending t
    end
  | _ :: t => delivered pending t
  end.

(** The commands waiting for a reply at the end. *)
Fixpoint pending_after {S} (pending : list item) (t : list (action S)) : list item :=
  match t with
  | [] => pending
  | Appended _ a :: t => pending_after (pending ++ [pipeline_item a]) t
  | GotReply _ ok :: t => pending_after (tail pending) t
  | _ :: t => pending_after pending t
  end.

(** The actions of sending: on the network and on the argument arrays. *)
Definition net_action {S} (a : action S) : bool :=
  match a with
  | Selected _ _ _ | Sent _ _ _ | Appended _ _ | GotReply _ _ | TtlStrdup _ | TtlFree _ => true
  | _ => false
  end.

Definition net_trace {S} (t : list (action S)) : Prop := Forall (λ a, net_action a = true) t.

Lemma net_trace_app {S} (t1 t2 : list (action S)) : net_trace t1 -> net_trace t2 -> net_trace (t1 ++ t2).
Proof. apply Forall_app_2. Qed.

Lemma delivered_app {S} pending (t1 t2 : list (action S)) :
  delivered pending (t1 ++ t2) = delivered pending t1 ++ delivered (pending_after pending t1) t2.
Proof.
  revert pending. induction t1 as [|[] t1 IH]; intros pending; cbn [app delivered pending_after]; try done.
  - destruct argv as [|c args], ok; rewrite ?IH, ?app_assoc; done.
  - destruct pending as [|x pending]; cbn [tail]; rewrite IH; [done|by rewrite app_assoc].
Qed.

Lemma pending_app {S} pending (t1 t2 : list (action S)) :
  pending_after pending (t1 ++ t2) = pending_after (pending_after pending t1) t2.
Proof. revert pending. induction t1 as [|[] t1 IH]; intros pending; cbn; auto. Qed.

Section laws.
Context {S Srv Net : Type} `{HS : RedisStrings S} `{HV : !RedisServer S Srv} `{HR : !RedisStringsOk S}.
Context `{HVok : !RedisServerOk S Srv}.
Implicit Types (w : world S Srv Net).

(** The index of the module is the server's keyspace. *)
Definition follows w : Prop := represents (w_mod w) (srv_spec (w_srv w)).

(** A call to the server keeps the index up to date. *)
Lemma runs_call db c w P :
  is_restore c = false -> follows w -> valid_db (srv_spec (w_srv w)) db ->
  (∀ r evs srv w', RedisModule_Call (w_srv w) db c = (r, evs, srv) ->
     follows w' -> spec_keeps (srv_spec (w_srv w)) (srv_spec (w_srv w')) ->
     conf_of (m_slots (w_mod w')) = conf_of (m_slots (w_mod w)) -> w_srv w' = srv -> w_net w' = w_net w -> w_conns w' = w_conns w -> w_cache w' = w_cache w ->
     P r w' [Called db c r]) ->
  runs (call db c) w P.
Proof using HR.
  intros Hc Hw Hdb HP. destruct (RedisModule_Call (w_srv w) db c) as [[r evs] srv] eqn:E.
  destruct (call_notifies _ _ _ _ _ _ E Hc Hdb) as [Hok Hsp].
  destruct (run_ok _ _ evs Hw Hok) as (refs & ms & Erun & Hms).
  exists r, (log (Called db c r) (set_server w srv ms)). split.
  - unfold call. by rewrite E, Erun.
  - exists [Called db c r]. split; [done|]. eapply HP; [reflexivity| | | |done..].
    + unfold follows. cbn. by rewrite Hsp.
    + cbn. rewrite Hsp. apply spec_run_keeps.
    + by eapply run_conf.
Qed.

Lemma names_small w db ks :
  sp_names (srv_spec (w_srv w)) !! Z.to_nat db = Some ks -> Z.of_nat (size ks) < 2 ^ 31.
Proof. intros Hks. apply (Forall_lookup_1 _ _ _ _ (srv_small (w_srv w)) Hks). Qed.
End laws.
