(* ===== verification/Busy.v ===== *)
(** * Busy: what other clients do beside a thread

    With [async] a thread of the module holds the server's lock for one call at a
    time ([ASYNC_LOCK] and [ASYNC_UNLOCK] of redisxslot.h), so the main thread
    runs other clients' commands, and the cron loop, before and after each call.
    A [busy] server is any server with a turn of the others around each call; the
    module's handlers run on the notifications of their turns too.  The programs
    of the threads run on it as they are.

    A string is a value here, so what runs on a busy server are the programs whose
    keys are the thread's own arguments, SLOTSMGRTONE and SLOTSRESTORE: the thread
    holds a reference to each until it frees them at its end.  The commands that take
    their keys from the index hold none, and a turn may free the string
    (redisxslot.c:1072, 1118-1126); they are not run here.  Nor do the turns sweep
    the cached connections.

    [busy_follows] says that the index of the module is the keyspace; [lags] that
    it may not have one name yet, as between RESTORE and its notification. *)

From S2P Require Import Prelude.
From S2P Require Import KeySlot.
From S2P Require Import Numbers.
From S2P Require Import SkipList.
From S2P Require Import Slots.
From S2P Require Import SlotsInv.
From S2P Require Import Events.
From S2P Require Import EventsProps.
From S2P Require Import Refinement.
From S2P Require Import Statics.
From S2P Require Import Prog.
From S2P Require Import Server.
From S2P Require Import ServerSpec.
Local Open Scope Z_scope.

Record busy (Srv : Type) := Busy { quiet_server : Srv }.
Arguments Busy {Srv} _.
Arguments quiet_server {Srv} _.

(** A turn of the other clients: the notifications of what they did. *)
Class OtherClients (S Srv : Type) := other_turn : Srv -> list (module_event S) * Srv.

Section server.
Context {S Srv : Type} `{HS : RedisStrings S} `{HV : !RedisServer S Srv} `{HO : !OtherClients S Srv}.

(** A call under the lock, with the turns before and after. *)
Definition busy_call (b : busy Srv) (db : Z) (c : redis_command S) :
    option (call_reply S) * list (module_event S) * busy Srv :=
  let '(evs1, srv) := other_turn (quiet_server b) in
  let '(r, evs2, srv) := RedisModule_Call srv db c in
  let '(evs3, srv) := other_turn srv in
  (r, evs1 ++ evs2 ++ evs3, Busy srv).

#[export] Instance busy_server : RedisServer S (busy Srv) := {
  RedisModule_Call := busy_call;
  RedisModule_KeyType b := RedisModule_KeyType (quiet_server b);
  RedisModule_Milliseconds b := RedisModule_Milliseconds (S := S) (quiet_server b);
  random_draws b := random_draws (S := S) (quiet_server b);
  pool_order b := pool_order (S := S) (quiet_server b);
  detached_db := detached_db (S := S) (Srv := Srv)
}.
End server.

(** What the others change is notified; an integer reply is a [long long], and a
    key that is not there has no type. *)
Class OtherClientsOk (S Srv : Type) `{RedisStrings S} `{!RedisServer S Srv} `{!RedisServerOk S Srv}
    `{!OtherClients S Srv} := {
  other_notifies (srv : Srv) evs srv' :
    other_turn srv = (evs, srv') ->
    trace_ok (srv_spec srv) evs ∧ srv_spec srv' = spec_run (srv_spec srv) evs;
  reply_integer (srv : Srv) db c i evs srv' :
    RedisModule_Call srv db c = (Some (REDISMODULE_REPLY_INTEGER i), evs, srv') -> is_i64 i;
  key_type_missing (srv : Srv) db (key : S) ks :
    sp_names (srv_spec srv) !! Z.to_nat db = Some ks -> content key ∉ ks ->
    RedisModule_KeyType srv db key = KEYTYPE_EMPTY
}.

(** ** One name behind *)
Section lags.
Context {S : Type} `{HS : RedisStrings S} (db : Z) (x : list byte).
Implicit Types (sp : spec_state) (ev : module_event S) (evs : list (module_event S)).
Implicit Types (kss : list (gset (list byte))) (i j : nat).

(** [sp'] is [sp], or has [x] besides. *)
Definition lags sp sp' : Prop := sp' = sp ∨ sp' = spec_add sp db x.

(** Two changes of a database, or of two. *)
Lemma alter_twice (f g : gset (list byte) -> gset (list byte)) i j kss :
  (∀ ks, f (g ks) = g (f ks)) -> alter f i (alter g j kss) = alter g j (alter f i kss).
Proof.
  intros Hfg. destruct (decide (i = j)) as [->|]; [|by apply list_alter_alter_ne].
  rewrite !list_alter_alter_eq. apply list_alter_ext; [intros ks _; apply Hfg|done].
Qed.

Lemma alter_absorb (f g : gset (list byte) -> gset (list byte)) i kss :
  (∀ ks, f (g ks) = f ks) -> alter f i (alter g i kss) = alter f i kss.
Proof.
  intros Hfg. rewrite list_alter_alter_eq. apply list_alter_ext; [intros ks _; apply Hfg|done].
Qed.

Lemma add_add_name db' y kss : add_name db' y (add_name db x kss) = add_name db x (add_name db' y kss).
Proof. apply alter_twice. intros ks. by rewrite !(assoc_L (∪)), (comm_L (∪) {[y]}). Qed.

Lemma del_add_name db' y kss :
  del_name db' y (add_name db x kss) = del_name db' y kss ∨
  del_name db' y (add_name db x kss) = add_name db x (del_name db' y kss).
Proof.
  destruct (decide (y = x)) as [->|Hy].
  - destruct (decide (Z.to_nat db' = Z.to_nat db)) as [E|Hdb].
    + left. unfold del_name, add_name. rewrite E. apply alter_absorb. intros ks.
      by rewrite difference_union_distr_l_L, difference_diag_L, union_empty_l_L.
    + right. by apply list_alter_alter_ne.
  - right. apply alter_twice. intros ks.
    by rewrite difference_union_distr_l_L, (difference_disjoint_L {[x]}) by by apply disjoint_singleton_l, not_elem_of_singleton.
Qed.

(** A change of names that keeps up or lags. *)
Definition lag_names kss kss' : Prop := kss' = kss ∨ kss' = add_name db x kss.

Lemma lag_add db' y kss kss' : lag_names kss kss' -> lag_names (add_name db' y kss) (add_name db' y kss').
Proof. intros [->| ->]; [by left|right; apply add_add_name]. Qed.

Lemma lag_del db' y kss kss' : lag_names kss kss' -> lag_names (del_name db' y kss) (del_name db' y kss').
Proof. intros [->| ->]; [by left|apply del_add_name]. Qed.

Lemma lag_flush dbnum kss kss' :
  lag_names kss kss' ->
  lag_names (if decide (dbnum = -1) then replicate (length kss) ∅ else <[Z.to_nat dbnum := ∅]> kss)
            (if decide (dbnum = -1) then replicate (length kss') ∅ else <[Z.to_nat dbnum := ∅]> kss').
Proof.
  intros [->| ->]; [by left|]. unfold add_name. rewrite length_alter. case_decide; [by left|].
  rewrite !list_insert_alter. destruct (decide (Z.to_nat dbnum = Z.to_nat db)) as [->|Hn].
  - left. by apply alter_absorb.
  - right. by apply list_alter_alter_ne.
Qed.

Lemma lags_names sp sp' :
  lags sp sp' <-> lag_names (sp_names sp) (sp_names sp') ∧ sp_from sp' = sp_from sp ∧
    sp_db sp' = sp_db sp ∧ sp_size sp' = sp_size sp ∧ sp_loops sp' = sp_loops sp.
Proof.
  unfold lags, lag_names, spec_add. destruct sp, sp'; cbn. split.
  - intros [[= -> -> -> -> ->]|[= -> -> -> -> ->]]; tauto.
  - intros ([->| ->] & -> & -> & -> & ->); tauto.
Qed.

Lemma lags_step sp sp' ev : lags sp sp' -> lags (spec_step sp ev) (spec_step sp' ev).
Proof.
  rewrite !lags_names. intros (Hn & Hf & Hd & Hs & Hl).
  destruct ev as [fuel rand db' key|fuel rand db' event key|[|] dbnum|]; cbn [spec_step sp_names sp_from sp_db sp_size sp_loops].
  - split_and!; try done. by apply lag_add.
  - unfold spec_generic. rewrite Hf, Hd.
    repeat case_decide; try destruct (sp_from sp) eqn:Ef; cbn [sp_names sp_from sp_db sp_size sp_loops];
      rewrite ?Hf, ?Ef; split_and!; auto using lag_add, lag_del.
  - split_and!; try done. by apply lag_flush.
  - done.
  - by rewrite Hl.
Qed.

Lemma lags_run evs : ∀ sp sp', lags sp sp' -> lags (spec_run sp evs) (spec_run sp' evs).
Proof. induction evs as [|ev evs IH]; intros sp sp' Hl; [done|]. cbn. by apply IH, lags_step. Qed.

(** Events that are in order with the name are in order without it. *)
Lemma lags_small sp sp' : lags sp sp' -> small (sp_names sp') -> small (sp_names sp).
Proof.
  intros [->| ->]; [done|]. unfold small. rewrite !Forall_lookup. intros Hs i ks Hi. cbn in Hs.
  destruct (decide (i = Z.to_nat db)) as [->|Hn].
  - specialize (Hs (Z.to_nat db) ({[x]} ∪ ks)). unfold add_name in Hs. rewrite list_lookup_alter_eq, Hi in Hs.
    specialize (Hs eq_refl). pose proof (subseteq_size ks ({[x]} ∪ ks) (union_subseteq_r _ _)). lia.
  - apply (Hs i). unfold add_name. by rewrite list_lookup_alter_ne.
Qed.

Lemma lags_valid sp sp' db' : lags sp sp' -> valid_db sp' db' <-> valid_db sp db'.
Proof. unfold valid_db. intros [->| ->]; [done|]. cbn. unfold add_name. by rewrite length_alter. Qed.

Lemma lags_event_ok sp sp' ev : lags sp sp' -> event_ok sp' ev -> event_ok sp ev.
Proof.
  intros Hl [Hs Hev]. split; [by eapply lags_small|].
  pose proof (lags_valid sp sp') as Hv. assert (sp_from sp' = sp_from sp) as Hf by by destruct Hl as [->| ->].
  assert (sp_loops sp' = sp_loops sp) as Hloops by by destruct Hl as [->| ->].
  destruct ev; rewrite ?(Hv _ Hl), ?Hf, ?Hloops in Hev; exact Hev.
Qed.

Lemma lags_trace_ok evs : ∀ sp sp', lags sp sp' -> trace_ok sp' evs -> trace_ok sp evs.
Proof.
  induction evs as [|ev evs IH]; intros sp sp' Hl; [done|]. intros [Hev Hevs]. split.
  - by eapply lags_event_ok.
  - eapply IH; [by apply lags_step|done].
Qed.
End lags.

Lemma trace_ok_app {S} `{HS : RedisStrings S} sp (evs1 evs2 : list (module_event S)) :
  trace_ok sp (evs1 ++ evs2) <-> trace_ok sp evs1 ∧ trace_ok (spec_run sp evs1) evs2.
Proof.
  revert sp. induction evs1 as [|ev evs1 IH]; intros sp; [cbn; tauto|].
  cbn [app trace_ok]. rewrite IH. cbn. tauto.
Qed.

Lemma spec_run_app {S} `{HS : RedisStrings S} sp (evs1 evs2 : list (module_event S)) :
  spec_run sp (evs1 ++ evs2) = spec_run (spec_run sp evs1) evs2.
Proof. apply foldl_app. Qed.

(** ** Calls *)
Section calls.
Context {S Srv Net : Type} `{HS : RedisStrings S} `{HV : !RedisServer S Srv} `{HO : !OtherClients S Srv}.
Context `{HR : !RedisStringsOk S} `{HVok : !RedisServerOk S Srv} `{HOok : !OtherClientsOk S Srv}.
Implicit Types (w : world S (busy Srv) Net) (t : list (action S)).

Definition busy_spec w : spec_state := srv_spec (quiet_server (w_srv w)).

(** The index of the module is the server's keyspace. *)
Definition busy_follows w : Prop := represents (w_mod w) (busy_spec w).

(** What a thread can rely on beside other clients: the index follows, the
    databases, the slots and the module's configuration stay. *)
Definition beside w w' : Prop :=
  busy_follows w' ∧ spec_keeps (busy_spec w) (busy_spec w') ∧
  conf_of (m_slots (w_mod w')) = conf_of (m_slots (w_mod w)).

Lemma beside_refl w : busy_follows w -> beside w w.
Proof. intros Hw. by split_and!. Qed.

Lemma beside_trans w1 w2 w3 : beside w1 w2 -> beside w2 w3 -> beside w1 w3.
Proof.
  intros (_ & K1 & C1) (Hw & K2 & C2). split; [done|]. split; [by eapply spec_keeps_trans|congruence].
Qed.

Lemma beside_db w w' db : beside w w' -> valid_db (busy_spec w) db -> valid_db (busy_spec w') db.
Proof. intros (_ & K & _). by apply spec_keeps_db. Qed.

(** The connections stay in a call. *)
Definition aside w w' : Prop := w_conns w' = w_conns w ∧ w_cache w' = w_cache w.

Lemma turn_ok (srv : Srv) evs srv' :
  other_turn srv = (evs, srv') ->
  trace_ok (srv_spec srv) evs ∧ srv_spec srv' = spec_run (srv_spec srv) evs ∧ spec_keeps (srv_spec srv) (srv_spec srv').
Proof using HOok.
  intros E. destruct (other_notifies srv evs srv' E) as [Hok Hsp]. split; [done|]. split; [done|].
  rewrite Hsp. apply spec_run_keeps.
Qed.

Lemma runs_busy_call db c w (P : option (call_reply S) -> world S (busy Srv) Net -> list (action S) -> Prop) :
  is_restore c = false -> busy_follows w -> valid_db (busy_spec w) db ->
  (∀ r w', beside w w' -> aside w w' -> (∀ i, r = Some (REDISMODULE_REPLY_INTEGER i) -> is_i64 i) -> P r w' [Called db c r]) ->
  runs (call db c) w P.
Proof using HR HOok.
  intros Hc Hw Hdb HP. unfold busy_follows, busy_spec in *.
  destruct (other_turn (quiet_server (w_srv w))) as [evs1 srv1] eqn:E1.
  destruct (turn_ok _ _ _ E1) as (Hok1 & Hsp1 & K1).
  destruct (RedisModule_Call srv1 db c) as [[r evs2] srv2] eqn:E2.
  destruct (call_notifies _ _ _ _ _ _ E2 Hc) as [Hok2 Hsp2]; [by eapply spec_keeps_db|].
  destruct (other_turn srv2) as [evs3 srv3] eqn:E3. destruct (turn_ok _ _ _ E3) as (Hok3 & Hsp3 & K3).
  assert (trace_ok (srv_spec (quiet_server (w_srv w))) (evs1 ++ evs2 ++ evs3)) as Hok.
  { rewrite !trace_ok_app, <- Hsp1, <- Hsp2. by split_and!. }
  destruct (run_ok _ _ _ Hw Hok) as (refs & ms & Erun & Hms).
  rewrite !spec_run_app, <- Hsp1, <- Hsp2, <- Hsp3 in Hms.
  exists r, (log (Called db c r) (set_server w (Busy srv3) ms)). split.
  - unfold call. cbn [RedisModule_Call busy_server]. unfold busy_call. by rewrite E1, E2, E3, Erun.
  - exists [Called db c r]. split; [done|]. apply HP.
    + split; [exact Hms|]. split; [|by eapply run_conf].
      eapply spec_keeps_trans; [exact K1|]. eapply spec_keeps_trans; [|exact K3]. cbn. rewrite Hsp2. apply spec_run_keeps.
    + by split_and!.
    + intros i ->. by eapply reply_integer.
Qed.

(** RESTORE: afterwards the index may not have the key yet. *)
Lemma runs_busy_restore db k ttlms val w (P : option (call_reply S) -> world S (busy Srv) Net -> list (action S) -> Prop) :
  busy_follows w -> valid_db (busy_spec w) db ->
  (∀ r w' sp, represents (w_mod w') sp ->
     (if restored r then lags db k sp (busy_spec w') else busy_spec w' = sp) ->
     spec_keeps (busy_spec w) (busy_spec w') -> spec_keeps (busy_spec w) sp ->
     conf_of (m_slots (w_mod w')) = conf_of (m_slots (w_mod w)) -> aside w w' ->
     P r w' [Called db (RESTORE k ttlms val) r]) ->
  runs (call db (RESTORE k ttlms val)) w P.
Proof using HR HOok.
  intros Hw Hdb HP. unfold busy_follows, busy_spec in *.
  destruct (other_turn (quiet_server (w_srv w))) as [evs1 srv1] eqn:E1.
  destruct (turn_ok _ _ _ E1) as (Hok1 & Hsp1 & K1).
  destruct (RedisModule_Call srv1 db (RESTORE k ttlms val)) as [[r evs2] srv2] eqn:E2.
  destruct (restore_adds _ _ _ _ _ _ _ _ E2) as (Hok2 & Hsame & Hsp2); [by eapply spec_keeps_db|].
  destruct (other_turn srv2) as [evs3 srv3] eqn:E3. destruct (turn_ok _ _ _ E3) as (Hok3 & Hsp3 & K3).
  assert (lags db k (srv_spec srv1) (srv_spec srv2)) as Hlag by (rewrite Hsp2; destruct (restored r); [by right|by left]).
  assert (trace_ok (srv_spec (quiet_server (w_srv w))) (evs1 ++ evs2 ++ evs3)) as Hok.
  { rewrite !trace_ok_app, <- Hsp1, Hsame. split_and!; [done|done|]. by eapply lags_trace_ok. }
  destruct (run_ok _ _ _ Hw Hok) as (refs & ms & Erun & Hms).
  rewrite !spec_run_app, <- Hsp1, Hsame in Hms.
  exists r, (log (Called db (RESTORE k ttlms val) r) (set_server w (Busy srv3) ms)). split.
  - unfold call. cbn [RedisModule_Call busy_server]. unfold busy_call. by rewrite E1, E2, E3, Erun.
  - eexists [_]. split; [done|]. eapply HP; [exact Hms|..].
    + cbn. destruct (restored r); [rewrite Hsp3; by apply lags_run|by rewrite Hsp3, Hsp2].
    + cbn. eapply spec_keeps_trans; [exact K1|]. eapply spec_keeps_trans; [|exact K3]. rewrite Hsp2.
      destruct (restored r); [split; [apply length_alter|done]|by split].
    + eapply spec_keeps_trans; [exact K1|]. apply spec_run_keeps.
    + by eapply run_conf.
    + by split_and!.
Qed.
End calls.
