(* ===== verification/ConnCache.v ===== *)
(** * ConnCache: the cached connections to other servers

    [SlotsMGRT_GetConnCtx] and [SlotsMGRT_CloseConn] of redisxslot.c.
    [slotsmgrt_cached_ctx_connects] maps the name of a connection, host, port and
    thread, to an allocated [db_slot_mgrt_connect]. *)

From S2P Require Import Prelude.
From S2P Require Import KeySlot.
From S2P Require Import Numbers.
From S2P Require Import Slots.
From S2P Require Import Refinement.
From S2P Require Import Prog.
From S2P Require Import Server.
Local Open Scope Z_scope.

(** ** [atoi] *)
Definition isspace (b : byte) : bool := (bval b =? 32) || ((9 <=? bval b) && (bval b <=? 13)).

Fixpoint skip_spaces (s : list byte) : list byte :=
  match s with
  | c :: s' => if isspace c then skip_spaces s' else s
  | [] => []
  end.

Fixpoint read_digits (s : list byte) (acc : Z) : Z :=
  match s with
  | c :: s => if isdigit c then read_digits s (acc * 10 + (bval c - 48)) else acc
  | [] => acc
  end.

(** A number that is no [int] is undefined. *)
Definition atoi (s : list byte) : option Z :=
  let s := skip_spaces (c_str s) in
  let '(neg, s) :=
    match s with
    | c :: s' => if decide (c = "-"%byte) then (true, s') else if decide (c = "+"%byte) then (false, s') else (false, s)
    | [] => (false, s)
    end in
  let v := if neg : bool then - read_digits s 0 else read_digits s 0 in
  if decide (- 2 ^ 31 <= v < 2 ^ 31) then Some v else None.

Section cache.
Context {S Srv Net : Type} `{HS : RedisStrings S} `{HV : !RedisServer S Srv} `{HN : !Hiredis Net}.
Implicit Types (w : world S Srv Net).
Notation M := (prog (world S Srv Net)).

(** The [#if] is for a version the header does not select; the division by
    [1e3] is exact enough for any time in milliseconds below [2 ^ 50]. *)
Definition get_unixtime : M Z := get (λ w, RedisModule_Milliseconds (w_srv w) / 1000).

(** [stack]: what the buffer of [m_ll2string] holds before it. *)
Definition getConnName (stack host port : list byte) (tid : Z) : option (list byte) :=
  '(_, buf) ← m_ll2string stack tid;
  Some (host ++ bytes_of ":" ++ port ++ bytes_of "@" ++ c_str buf).

Definition set_last_time (c : db_slot_mgrt_connect) (t : Z) : db_slot_mgrt_connect :=
  Connect (cn_meta c) t (cn_ctx c).

Definition store_conn (p : nat) (c : db_slot_mgrt_connect) : M () :=
  modify (λ w, set_conns w (<[p := c]> (w_conns w)) (w_cache w)).

Definition cache_set (name : list byte) (p : nat) : M () :=
  modify (λ w, set_conns w (w_conns w) (<[name := p]> (w_cache w))).

Definition connect (host : list byte) (port : Z) : M (nat * option (list byte)) := λ w,
  let '(c, err, net) := redisConnect (w_net w) host port in Some ((c, err), set_net w net).

Definition free_ctx (c : nat) : M () := modify (λ w, set_net w (redisFree (w_net w) c)).

(** What [sprintf] writes to [errLog], which has 200 bytes. *)
Definition conn_error (name errstr : list byte) : list byte :=
  bytes_of "Err: slotsmgrt connect to target " ++ c_str name ++ bytes_of ", error = '" ++ c_str errstr ++ bytes_of "'".

(** The address of the connection, or [NULL]. *)
Definition SlotsMGRT_GetConnCtx (stack : list byte) (tid : Z) (meta : slot_mgrt_connet_meta) : M (option nat) :=
  unixtime ← get_unixtime;
  name ← lift (getConnName stack (mt_host meta) (mt_port meta) tid);
  cached ← get (λ w, w_cache w !! name);
  match cached with
  | Some p =>
    c ← conn_at p;
    _ ← store_conn p (set_last_time c unixtime);
    mret (Some p)
  | None =>
    port ← lift (atoi (mt_port meta));
    '(c, err) ← connect (c_str (mt_host meta)) port;
    match err with
    | Some errstr =>
      if (length (conn_error name errstr) <? 200)%nat then mret None else undefined
    | None =>
      p ← get (λ w, fresh (dom (w_conns w)));
      _ ← store_conn p (Connect meta unixtime c);
      _ ← cache_set name p;
      mret (Some p)
    end
  end.

Definition cache_del (name : list byte) : M () :=
  modify (λ w, set_conns w (w_conns w) (delete name (w_cache w))).

Definition free_conn (p : nat) : M () :=
  modify (λ w, set_conns w (delete p (w_conns w)) (w_cache w)).

Definition SlotsMGRT_CloseConn (stack : list byte) (tid : Z) (meta : slot_mgrt_connet_meta) : M () :=
  name ← lift (getConnName stack (mt_host meta) (mt_port meta) tid);
  cached ← get (λ w, w_cache w !! name);
  match cached with
  | None => mret ()
  | Some p =>
    _ ← cache_del name;
    c ← conn_at p;
    _ ← free_ctx (cn_ctx c);
    free_conn p
  end.
End cache.
