(* ===== verification/Glob.v ===== *)
(** * Glob: the pattern matching of dep/util.c

    [m_stringmatchlen] walks a pattern given by a pointer and a length, and looks
    at the byte behind the pattern in three places.  The memory of the pattern is
    a list of bytes with an index for the pointer, so that this byte is part of
    the model; [None] is an access outside, or [tolower] outside its domain.

    [parse] and [glob] say what a pattern means. *)

From S2P Require Import Prelude.
Local Open Scope Z_scope.

(** ** The code *)

(** A [char], which is signed, as an [int]. *)
Definition char_int (b : byte) : Z := i8 (bval b).

(** [tolower] of the "C" locale: its argument is an [unsigned char] or [EOF]. *)
Definition tolower_int (c : Z) : option Z :=
  if (-1 <=? c) && (c <=? 255) then Some (if (65 <=? c) && (c <=? 90) then c + 32 else c) else None.

Definition is_char (a b : byte) : bool := bool_decide (a = b).

(** The comparison of two characters. *)
Definition char_eq (nocase : bool) (a b : byte) : option bool :=
  if nocase then
    la ← tolower_int (char_int a);
    lb ← tolower_int (char_int b);
    Some (bool_decide (la = lb))
  else Some (is_char a b).

(** [c] between the ends of a range. *)
Definition in_range (nocase : bool) (first last c : byte) : option bool :=
  let start := char_int first in
  let end_ := char_int last in
  let '(start, end_) := if end_ <? start then (end_, start) else (start, end_) in
  if nocase then
    start ← tolower_int start;
    end_ ← tolower_int end_;
    c ← tolower_int (char_int c);
    Some ((start <=? c) && (c <=? end_))
  else Some ((start <=? char_int c) && (char_int c <=? end_)).

(** [while (pattern\[1\] == '*')]. *)
Fixpoint skip_stars (fuel : nat) (mem : list byte) (p : nat) (plen : Z) : option (nat * Z) :=
  match fuel with
  | O => None
  | S fuel =>
    c ← mem !! S p;
    if is_char c "*"%byte then skip_stars fuel mem (S p) (plen - 1) else Some (p, plen)
  end.

(** [while ( *pattern == '*')]: the pattern at its end. *)
Fixpoint skip_last_stars (fuel : nat) (mem : list byte) (p : nat) (plen : Z) : option Z :=
  match fuel with
  | O => None
  | S fuel =>
    c ← mem !! p;
    if is_char c "*"%byte then skip_last_stars fuel mem (S p) (plen - 1) else Some plen
  end.

(** The [while (1)] of a class, for the character [c]. *)
Fixpoint class_loop (fuel : nat) (mem : list byte) (nocase : bool) (c : byte) (p : nat) (plen : Z) (m_match : bool) :
    option (nat * Z * bool) :=
  match fuel with
  | O => None
  | S fuel =>
    c0 ← mem !! p;
    if is_char c0 "\"%byte && (2 <=? plen) then
      c1 ← mem !! S p;
      class_loop fuel mem nocase c (S (S p)) (plen - 1 - 1) (m_match || is_char c1 c)
    else if is_char c0 "]"%byte then Some (p, plen, m_match)
    else if plen =? 0 then Some (pred p, plen + 1, m_match)
    else
      c1 ← mem !! S p;
      if is_char c1 "-"%byte && (3 <=? plen) then
        c2 ← mem !! S (S p);
        r ← in_range nocase c0 c2 c;
        class_loop fuel mem nocase c (S (S (S p))) (plen - 2 - 1) (m_match || r)
      else
        r ← char_eq nocase c0 c;
        class_loop fuel mem nocase c (S p) (plen - 1) (m_match || r)
  end.

(** [case '\[']: the pointer and the length after the class, and whether [c] is
    in it. *)
Definition match_class (mem : list byte) (nocase : bool) (c : byte) (p : nat) (plen : Z) : option (nat * Z * bool) :=
  let p := S p in
  let plen := plen - 1 in
  c0 ← mem !! p;
  let neg := is_char c0 "^"%byte in
  let '(p, plen) := if neg then (S p, plen - 1) else (p, plen) in
  '(p, plen, m_match) ← class_loop (S (length mem)) mem nocase c p plen false;
  Some (p, plen, xorb neg m_match).

(** [case '*']: the pattern behind it at every position of the string. *)
Fixpoint star_loop (rec : list byte -> option bool) (s : list byte) : option bool :=
  match s with
  | [] => Some false
  | _ :: s' =>
    r ← rec s;
    if r : bool then Some true else star_loop rec s'
  end.

(** One turn of the [switch] but for [case '*']: whether the first character of
    the string matches, and the pointer and the length before they are advanced. *)
Definition match_one (mem : list byte) (nocase : bool) (c0 c : byte) (p : nat) (plen : Z) : option (nat * Z * bool) :=
  if is_char c0 "?"%byte then Some (p, plen, true)
  else if is_char c0 "["%byte then match_class mem nocase c p plen
  else
    let '(p, plen) := if is_char c0 "\"%byte && (2 <=? plen) then (S p, plen - 1) else (p, plen) in
    c0 ← mem !! p;
    r ← char_eq nocase c0 c;
    Some (p, plen, r).

Fixpoint m_stringmatchlen (fuel : nat) (mem : list byte) (p : nat) (plen : Z) (s : list byte) (nocase : bool) :
    option bool :=
  match fuel with
  | O => None
  | S fuel =>
    match s with
    | [] => Some (plen =? 0)
    | c :: s' =>
      if plen =? 0 then Some false
      else
        c0 ← mem !! p;
        if is_char c0 "*"%byte then
          '(p, plen) ← skip_stars (length mem) mem p plen;
          if plen =? 1 then Some true
          else star_loop (λ s, m_stringmatchlen fuel mem (S p) (plen - 1) s nocase) s
        else
          '(p, plen, ok) ← match_one mem nocase c0 c p plen;
          if negb ok then Some false
          else
            match s' with
            | [] => plen ← skip_last_stars (S (length mem)) mem (S p) (plen - 1); Some (plen =? 0)
            | _ => m_stringmatchlen fuel mem (S p) (plen - 1) s' nocase
            end
    end
  end.

(** [strlen]. *)
Definition strlen (mem : list byte) : option nat :=
  if decide (x00 ∈ mem) then Some (length (c_str mem)) else None.

(** A [size_t] passed as an [int]: what comes of one that an [int] does not hold is
    the implementation's, and not modelled. *)
Definition size_to_int (n : nat) : option nat := if decide (Z.of_nat n < 2 ^ 31) then Some n else None.

Definition m_stringmatch (pattern string : list byte) (nocase : bool) : option bool :=
  plen ← strlen pattern ≫= size_to_int;
  slen ← strlen string ≫= size_to_int;
  m_stringmatchlen (S plen) pattern 0 (Z.of_nat plen) (take slen string) nocase.

(** ** What a pattern means *)

(** The members of a class. *)
Inductive class_item :=
  | IChar (b : byte)
  | IEscaped (b : byte)
  | IRange (first last : byte).

Inductive token :=
  | TStar
  | TAny
  | TLit (b : byte)
  | TClass (neg : bool) (items : list class_item).

(** The members up to the bracket or the end of the pattern, and what is
    behind. *)
Fixpoint parse_items (l : list byte) : list class_item * list byte :=
  match l with
  | [] => ([], [])
  | a :: l1 =>
    let single := if is_char a "]"%byte then ([], l1) else let '(items, rest) := parse_items l1 in (IChar a :: items, rest) in
    match l1 with
    | [] => single
    | b :: l2 =>
      if is_char a "\"%byte then let '(items, rest) := parse_items l2 in (IEscaped b :: items, rest)
      else
        match l2 with
        | [] => single
        | c :: l3 =>
          if is_char b "-"%byte && negb (is_char a "]"%byte)
          then let '(items, rest) := parse_items l3 in (IRange a c :: items, rest)
          else single
        end
    end
  end.

(** One token and what is behind. *)
Definition parse_token (a : byte) (l : list byte) : token * list byte :=
  if is_char a "*"%byte then (TStar, l)
  else if is_char a "?"%byte then (TAny, l)
  else if is_char a "["%byte then
    match l with
    | b :: l' =>
      if is_char b "^"%byte then let '(items, rest) := parse_items l' in (TClass true items, rest)
      else let '(items, rest) := parse_items l in (TClass false items, rest)
    | [] => (TClass false [], [])
    end
  else if is_char a "\"%byte then
    match l with b :: l' => (TLit b, l') | [] => (TLit a, []) end
  else (TLit a, l).

Fixpoint parse_fuel (fuel : nat) (l : list byte) : list token :=
  match fuel, l with
  | S fuel, a :: l => let '(t, rest) := parse_token a l in t :: parse_fuel fuel rest
  | _, _ => []
  end.

Definition parse (l : list byte) : list token := parse_fuel (length l) l.

(** Letters of either case are the same when the case does not count, but not
    behind a backslash in a class; a range is of the lower-case letters of its
    ends then. *)
Definition lower (c : Z) : Z := if (65 <=? c) && (c <=? 90) then c + 32 else c.

Definition fold_case (nocase : bool) (c : Z) : Z := if nocase then lower c else c.

Definition same_char (nocase : bool) (a b : byte) : Prop :=
  fold_case nocase (char_int a) = fold_case nocase (char_int b).

Definition item_has (nocase : bool) (c : byte) (i : class_item) : Prop :=
  match i with
  | IChar b => same_char nocase b c
  | IEscaped b => b = c
  | IRange a b =>
    fold_case nocase (Z.min (char_int a) (char_int b)) <= fold_case nocase (char_int c) <=
    fold_case nocase (Z.max (char_int a) (char_int b))
  end.

Definition class_has (nocase neg : bool) (items : list class_item) (c : byte) : Prop :=
  if neg then ¬ Exists (item_has nocase c) items else Exists (item_has nocase c) items.

Inductive glob (nocase : bool) : list token -> list byte -> Prop :=
  | glob_nil : glob nocase [] []
  | glob_star s1 s2 ts : glob nocase ts s2 -> glob nocase (TStar :: ts) (s1 ++ s2)
  | glob_any c s ts : glob nocase ts s -> glob nocase (TAny :: ts) (c :: s)
  | glob_lit b c s ts : same_char nocase b c -> glob nocase ts s -> glob nocase (TLit b :: ts) (c :: s)
  | glob_class neg items c s ts :
      class_has nocase neg items c -> glob nocase ts s -> glob nocase (TClass neg items :: ts) (c :: s).
