(* ===== verification/GlobProps.v ===== *)
(** * GlobProps: the pattern matching decides what a pattern means

    On a string that is not empty [m_stringmatchlen] decides [glob] of the parsed
    pattern, and reads one byte behind the pattern at most. *)

From S2P Require Import Prelude.
From S2P Require Import Glob.
Local Open Scope Z_scope.

(** ** Characters *)
Definition ascii (l : list byte) : Prop := Forall (λ b, bval b < 128) l.

Lemma is_char_iff a b : is_char a b = true <-> a = b.
Proof. apply bool_decide_eq_true. Qed.

Lemma char_int_ascii b : bval b < 128 -> char_int b = bval b.
Proof. intros Hb. pose proof (bval_range b). apply signed_small; lia. Qed.

Lemma tolower_ascii b : bval b < 128 -> tolower_int (char_int b) = Some (lower (char_int b)).
Proof.
  intros Hb. pose proof (bval_range b). rewrite (char_int_ascii b Hb). unfold tolower_int.
  destruct (Z.leb_spec (-1) (bval b)), (Z.leb_spec (bval b) 255); try lia. done.
Qed.

#[export] Instance same_char_dec nocase a b : Decision (same_char nocase a b).
Proof. unfold same_char. apply _. Defined.
#[export] Instance item_has_dec nocase c i : Decision (item_has nocase c i).
Proof. destruct i; cbn [item_has]; apply _. Defined.
#[export] Instance class_has_dec nocase neg items c : Decision (class_has nocase neg items c).
Proof. destruct neg; cbn [class_has]; apply _. Defined.

Lemma char_int_inj a b : char_int a = char_int b -> a = b.
Proof.
  unfold char_int, i8, signed. intros E. apply bval_inj. pose proof (bval_range a). pose proof (bval_range b).
  rewrite !Z.mod_small in E by lia. destruct (Z.ltb_spec (bval a) (2 ^ (8 - 1))), (Z.ltb_spec (bval b) (2 ^ (8 - 1))); lia.
Qed.

(** What the code compares is what the meaning says, for letters that [tolower]
    accepts. *)
Definition folds (nocase : bool) (l : list byte) : Prop := nocase = true -> ascii l.

Lemma folds_cons nocase a l : folds nocase (a :: l) -> folds nocase [a] ∧ folds nocase l.
Proof. unfold folds, ascii. rewrite !Forall_cons. intuition. Qed.

Lemma char_eq_ok nocase a b : folds nocase [a] -> folds nocase [b] ->
  char_eq nocase a b = Some (bool_decide (same_char nocase a b)).
Proof.
  unfold folds, ascii. rewrite !Forall_singleton. intros Ha Hb. unfold char_eq. destruct nocase.
  - rewrite !tolower_ascii by auto. done.
  - f_equal. apply bool_decide_ext. unfold same_char. cbn [fold_case]. split; [by intros ->|apply char_int_inj].
Qed.

Lemma between_decide (P : Prop) `{!Decision P} a b x : (P <-> a <= x <= b) -> (a <=? x) && (x <=? b) = bool_decide P.
Proof.
  intros HP. symmetry. destruct (Z.leb_spec a x), (Z.leb_spec x b); cbn [andb];
    first [apply bool_decide_eq_true; apply HP; lia|apply bool_decide_eq_false; rewrite HP; lia].
Qed.

Lemma in_range_ok nocase a b c : folds nocase [a] -> folds nocase [b] -> folds nocase [c] ->
  in_range nocase a b c = Some (bool_decide (item_has nocase c (IRange a b))).
Proof.
  unfold folds, ascii. rewrite !Forall_singleton. intros Ha Hb Hc. unfold in_range.
  destruct (Z.ltb_spec (char_int b) (char_int a)); destruct nocase; rewrite ?tolower_ascii by auto;
    cbn [mbind option_bind]; f_equal; apply between_decide; cbn [item_has fold_case];
    first [rewrite Z.min_l, Z.max_r by lia|rewrite Z.min_r, Z.max_l by lia]; done.
Qed.

(** ** The pattern in memory *)

(** The pattern at [p], and behind it a byte that ends it in any loop: a NUL
    for one. *)
Definition pattern_at (mem : list byte) (p : nat) (pat : list byte) : Prop :=
  ∃ z post, drop p mem = pat ++ z :: post ∧ z ≠ "*"%byte ∧ z ≠ "]"%byte ∧ z ≠ "^"%byte.

Lemma drop_head {A} (l : list A) p a r : drop p l = a :: r -> l !! p = Some a ∧ drop (S p) l = r.
Proof.
  intros E. split; [by rewrite <- (Nat.add_0_r p), <- lookup_drop, E|].
  by rewrite <- Nat.add_1_r, <- drop_drop, E.
Qed.

Lemma pattern_cons mem p a l : pattern_at mem p (a :: l) -> mem !! p = Some a ∧ pattern_at mem (S p) l.
Proof. intros (z & post & E & Hz). apply drop_head in E as [E1 E2]. split; [done|]. by exists z, post. Qed.

Lemma pattern_next mem p l : pattern_at mem p l ->
  ∃ c, mem !! p = Some c ∧ (c = "*"%byte ∨ c = "]"%byte ∨ c = "^"%byte -> ∃ l', l = c :: l').
Proof.
  destruct l as [|a l].
  - intros (z & post & E & H1 & H2 & H3). apply drop_head in E as [E _]. exists z. split; [done|]. intuition.
  - intros [E _]%pattern_cons. exists a. split; [done|]. intros _. by exists l.
Qed.

Lemma pattern_length mem p l : pattern_at mem p l -> (p + length l < length mem)%nat.
Proof.
  intros (z & post & E & _). apply (f_equal length) in E. rewrite length_drop, length_app in E. cbn in E. lia.
Qed.

(** [plen] in the code is an [int] and here a [Z]: no length of a pattern in
    memory is negative. *)
Lemma skip_stars_ok fuel mem p l : pattern_at mem p ("*"%byte :: l) -> (length l < fuel)%nat ->
  ∃ n l', l = replicate n "*"%byte ++ l' ∧ head l' ≠ Some "*"%byte ∧
    skip_stars fuel mem p (Z.of_nat (S (length l))) = Some ((p + n)%nat, Z.of_nat (S (length l'))) ∧
    pattern_at mem (S (p + n)) l'.
Proof.
  revert p l. induction fuel as [|fuel IH]; intros p l Hp Hf; [lia|]. apply pattern_cons in Hp as [_ Hp].
  cbn [skip_stars]. destruct (pattern_next _ _ _ Hp) as (c & Ec & Hc). rewrite Ec. cbn [mbind option_bind].
  destruct (is_char c "*") eqn:E.
  - apply is_char_iff in E as ->. destruct Hc as [l1 ->]; [auto|]. cbn [length] in *.
    destruct (IH (S p) l1 Hp) as (n & l' & -> & Hh & E & Hp'); [lia|]. exists (S n), l'. split; [done|]. split; [done|].
    replace (Z.of_nat (S (S (length (replicate n "*"%byte ++ l')))) - 1) with
      (Z.of_nat (S (length (replicate n "*"%byte ++ l')))) by lia.
    rewrite E, Nat.add_succ_r. split; [by rewrite Nat.add_succ_l|]. done.
  - exists 0%nat, l. rewrite Nat.add_0_r. split_and!; try done. intros Hh. destruct l as [|a l]; [done|].
    injection Hh as ->. apply pattern_cons in Hp as [Ha _]. rewrite Ec in Ha. injection Ha as ->. done.
Qed.

Lemma skip_last_stars_ok fuel mem p l : pattern_at mem p l -> (length l < fuel)%nat ->
  ∃ plen, skip_last_stars fuel mem p (Z.of_nat (length l)) = Some plen ∧
    (plen =? 0) = bool_decide (Forall (λ b, b = "*"%byte) l).
Proof.
  revert p l. induction fuel as [|fuel IH]; intros p l Hp Hf; [lia|]. cbn [skip_last_stars].
  destruct (pattern_next _ _ _ Hp) as (c & Ec & Hc). rewrite Ec. cbn [mbind option_bind].
  destruct (is_char c "*") eqn:E.
  - apply is_char_iff in E as ->. destruct Hc as [l1 ->]; [auto|]. apply pattern_cons in Hp as [_ Hp].
    cbn [length] in *. destruct (IH (S p) l1 Hp) as (plen & E & Hz); [lia|]. exists plen.
    replace (Z.of_nat (S (length l1)) - 1) with (Z.of_nat (length l1)) by lia. split; [done|]. rewrite Hz.
    apply bool_decide_ext. rewrite Forall_cons. intuition.
  - exists (Z.of_nat (length l)). split; [done|]. destruct l as [|a l]; [done|].
    apply pattern_cons in Hp as [Ha _]. rewrite Ec in Ha. injection Ha as ->. rewrite bool_decide_eq_false_2; [done|].
    intros [-> _]%Forall_cons. done.
Qed.

(** ** Classes *)
Lemma folds_head nocase a l : folds nocase (a :: l) -> folds nocase [a].
Proof. apply folds_cons. Qed.
Lemma folds_tail nocase a l : folds nocase (a :: l) -> folds nocase l.
Proof. apply folds_cons. Qed.
#[local] Hint Resolve folds_head folds_tail : core.

(** The cases of [parse_items], in the order of the code. *)
Lemma parse_items_escaped b l :
  parse_items ("\"%byte :: b :: l) = (IEscaped b :: (parse_items l).1, (parse_items l).2).
Proof. cbn. by destruct (parse_items l). Qed.

Lemma parse_items_end l : parse_items ("]"%byte :: l) = ([], l).
Proof. destruct l as [|b [|c l]]; cbn; [done|done|]. by rewrite andb_false_r. Qed.

Lemma parse_items_range a b l : a ≠ "\"%byte -> a ≠ "]"%byte ->
  parse_items (a :: "-"%byte :: b :: l) = (IRange a b :: (parse_items l).1, (parse_items l).2).
Proof.
  intros H1 H2. cbn [parse_items]. unfold is_char. rewrite (bool_decide_eq_false_2 (a = "\"%byte)) by done.
  rewrite (bool_decide_eq_false_2 (a = "]"%byte)) by done. cbn. by destruct (parse_items l).
Qed.

Lemma parse_items_char a l : (a = "\"%byte -> l = []) -> a ≠ "]"%byte ->
  (∀ b l', l ≠ "-"%byte :: b :: l') -> parse_items (a :: l) = (IChar a :: (parse_items l).1, (parse_items l).2).
Proof.
  intros H1 H2 H3. assert (is_char a "]" = false) as Ea by by apply bool_decide_eq_false_2.
  destruct l as [|b l]; [cbn; by rewrite Ea|].
  assert (is_char a "\" = false) as Es by (apply bool_decide_eq_false_2; intros E; by specialize (H1 E)).
  destruct l as [|c l]; [cbn; rewrite Ea, Es; by destruct (is_char b "]")|].
  assert (is_char b "-" = false) as Eb by (apply bool_decide_eq_false_2; intros ->; by eapply H3).
  change (parse_items (a :: b :: c :: l)) with
    (let single := if is_char a "]" then ([], b :: c :: l)
       else let '(items, rest) := parse_items (b :: c :: l) in (IChar a :: items, rest) in
     if is_char a "\" then let '(items, rest) := parse_items (c :: l) in (IEscaped b :: items, rest)
     else if is_char b "-" && negb (is_char a "]")
       then let '(items, rest) := parse_items l in (IRange a c :: items, rest) else single).
  cbv zeta. rewrite Ea, Es, Eb. cbn [andb]. by destruct (parse_items (b :: c :: l)).
Qed.

Lemma class_loop_ok fuel mem nocase c p l m : (0 < p)%nat -> pattern_at mem p l -> (length l < fuel)%nat ->
  folds nocase l -> folds nocase [c] ->
  ∃ p' plen', class_loop fuel mem nocase c p (Z.of_nat (length l)) m =
      Some (p', plen', m || bool_decide (Exists (item_has nocase c) (parse_items l).1)) ∧
    pattern_at mem (S p') (parse_items l).2 ∧ plen' - 1 = Z.of_nat (length (parse_items l).2).
Proof.
  intros Hpos Hp Hf Hl Hc. revert p l m Hpos Hp Hf Hl. induction fuel as [|fuel IH]; intros p l m Hpos Hp Hf Hl; [lia|].
  assert (∀ b k i l1, (k <= 3)%nat -> pattern_at mem (k + p) l1 -> folds nocase l1 -> (length l1 < fuel)%nat ->
    parse_items l = (i :: (parse_items l1).1, (parse_items l1).2) -> b = bool_decide (item_has nocase c i) ->
    ∃ p' plen', class_loop fuel mem nocase c (k + p) (Z.of_nat (length l1)) (m || b) =
        Some (p', plen', m || bool_decide (Exists (item_has nocase c) (parse_items l).1)) ∧
      pattern_at mem (S p') (parse_items l).2 ∧ plen' - 1 = Z.of_nat (length (parse_items l).2)) as Hstep.
  { intros b k i l1 _ Hp1 Hl1 Hf1 E ->.
    destruct (IH (k + p)%nat l1 (m || bool_decide (item_has nocase c i))) as (p' & plen' & E1 & H1 & H2); [lia|done..|].
    exists p', plen'. rewrite E1, E. split; [|done]. cbn [fst]. do 2 f_equal. rewrite <- orb_assoc. f_equal.
    symmetry. rewrite <- bool_decide_or. apply bool_decide_ext. apply Exists_cons. }
  cbn [class_loop]. destruct l as [|a l].
  { destruct (pattern_next _ _ _ Hp) as (z & Ez & Hz). rewrite Ez. cbn [mbind option_bind length].
    rewrite andb_false_r. destruct (is_char z "]") eqn:E.
    { apply is_char_iff in E as ->. destruct Hz as [? ?]; [auto|done]. }
    cbn. exists (pred p), 1. rewrite orb_false_r. split; [done|]. by rewrite Nat.succ_pred by lia. }
  apply pattern_cons in Hp as [Ha Hp]. rewrite Ha. cbn [mbind option_bind length] in *.
  pose proof (folds_head _ _ _ Hl) as Hla. pose proof (folds_tail _ _ _ Hl) as Hl'.
  destruct (decide (a = "\"%byte ∧ l ≠ [])) as [[-> Hne]|Hesc].
  { destruct l as [|b l]; [done|]. apply pattern_cons in Hp as [Hb Hp]. rewrite Hb. cbn [mbind option_bind length] in *.
    rewrite (proj2 (is_char_iff "\" "\") eq_refl). destruct (Z.leb_spec 2 (Z.of_nat (S (S (length l))))); [|lia].
    cbn [andb]. replace (Z.of_nat (S (S (length l))) - 1 - 1) with (Z.of_nat (length l)) by lia.
    apply (Hstep _ 2%nat (IEscaped b) l); [lia|done|eauto|lia|apply parse_items_escaped|].
    unfold is_char. by apply bool_decide_ext. }
  assert (is_char a "\" && (2 <=? Z.of_nat (S (length l))) = false) as ->.
  { destruct (is_char a "\") eqn:E; [|done]. apply is_char_iff in E as ->. destruct l; [done|]. by destruct Hesc. }
  destruct (is_char a "]") eqn:E.
  { apply is_char_iff in E as ->. rewrite parse_items_end. exists p, (Z.of_nat (S (length l))). cbn. rewrite orb_false_r.
    split; [done|]. split; [done|]. lia. }
  assert (a ≠ "]"%byte) as Hend by (intros ->; by rewrite (proj2 (is_char_iff "]" "]") eq_refl) in E).
  destruct (Z.eqb_spec (Z.of_nat (S (length l))) 0); [lia|].
  destruct (pattern_next _ _ _ Hp) as (c1 & Hc1 & _). rewrite Hc1. cbn [mbind option_bind].
  destruct (is_char c1 "-" && (3 <=? Z.of_nat (S (length l)))) eqn:Er.
  - apply andb_true_iff in Er as [->%is_char_iff Hlen%Z.leb_le]. destruct l as [|b [|c2 l]]; cbn [length] in Hlen; [lia..|].
    apply pattern_cons in Hp as [Hb Hp]. rewrite Hc1 in Hb. injection Hb as <-.
    apply pattern_cons in Hp as [Hc2 Hp]. rewrite Hc2. cbn [mbind option_bind].
    rewrite in_range_ok by eauto. cbn [mbind option_bind length].
    replace (Z.of_nat (S (S (S (length l)))) - 2 - 1) with (Z.of_nat (length l)) by lia.
    apply (Hstep _ 3%nat (IRange a c2) l); [lia|done|eauto|cbn in Hf; lia| |done].
    apply parse_items_range; [|done]. intros ->. by destruct Hesc.
  - rewrite char_eq_ok by done. cbn [mbind option_bind].
    replace (Z.of_nat (S (length l)) - 1) with (Z.of_nat (length l)) by lia.
    apply (Hstep _ 1%nat (IChar a) l); [lia|done|done|lia| |by apply bool_decide_ext].
    apply parse_items_char; [|done|].
    + intros ->. destruct l; [done|]. by destruct Hesc.
    + intros b l' ->. apply pattern_cons in Hp as [Hb _]. rewrite Hc1 in Hb. injection Hb as ->.
      apply andb_false_iff in Er as [Er|Er]; [done|]. cbn in Er. apply Z.leb_gt in Er. lia.
Qed.

Lemma match_class_ok mem nocase c p l : pattern_at mem p ("["%byte :: l) -> folds nocase l -> folds nocase [c] ->
  ∃ p' plen' neg items rest, match_class mem nocase c p (Z.of_nat (S (length l))) =
      Some (p', plen', bool_decide (class_has nocase neg items c)) ∧
    parse_token "[" l = (TClass neg items, rest) ∧ pattern_at mem (S p') rest ∧ plen' - 1 = Z.of_nat (length rest).
Proof.
  intros [_ Hp]%pattern_cons Hl Hc. unfold match_class. cbv zeta. pose proof (pattern_length _ _ _ Hp) as Hlen.
  destruct (pattern_next _ _ _ Hp) as (c0 & Ec & Hc0). rewrite Ec. cbn [mbind option_bind].
  replace (Z.of_nat (S (length l)) - 1) with (Z.of_nat (length l)) by lia.
  destruct (is_char c0 "^") eqn:E.
  - apply is_char_iff in E as ->. destruct Hc0 as [l1 ->]; [auto|]. apply pattern_cons in Hp as [_ Hp].
    cbn [length] in *. replace (Z.of_nat (S (length l1)) - 1) with (Z.of_nat (length l1)) by lia.
    destruct (class_loop_ok (S (length mem)) mem nocase c (S (S p)) l1 false) as (p' & plen' & El & Hp' & Hlen');
      [lia|done|lia|eauto|done|].
    rewrite El. cbn [mbind option_bind orb]. rewrite xorb_true_l. destruct (parse_items l1) as [items rest] eqn:Ei.
    exists p', plen', true, items, rest. split; [|split; [|done]].
    + do 2 f_equal. rewrite <- bool_decide_not. by apply bool_decide_ext.
    + unfold parse_token. change (is_char "[" "*") with false. change (is_char "[" "?") with false.
      change (is_char "[" "[") with true. change (is_char "^" "^") with true. by rewrite Ei.
  - destruct (class_loop_ok (S (length mem)) mem nocase c (S p) l false) as (p' & plen' & El & Hp' & Hlen');
      [lia|done|lia|done|done|].
    rewrite El. cbn [mbind option_bind orb]. rewrite xorb_false_l. destruct (parse_items l) as [items rest] eqn:Ei.
    exists p', plen', false, items, rest. split; [|split; [|done]].
    + done.
    + destruct l as [|b l].
      * injection Ei as <- <-. done.
      * apply pattern_cons in Hp as [Hb _]. rewrite Ec in Hb. injection Hb as ->. unfold parse_token.
        change (is_char "[" "*") with false. change (is_char "[" "?") with false. change (is_char "[" "[") with true.
        by rewrite E, Ei.
Qed.

(** ** One character *)
Definition token_has (nocase : bool) (t : token) (c : byte) : Prop :=
  match t with
  | TStar | TAny => True
  | TLit b => same_char nocase b c
  | TClass neg items => class_has nocase neg items c
  end.
#[export] Instance token_has_dec nocase t c : Decision (token_has nocase t c).
Proof. destruct t; cbn [token_has]; apply _. Defined.

Lemma parse_token_star a l t rest : parse_token a l = (t, rest) -> t = TStar <-> a = "*"%byte.
Proof.
  unfold parse_token. intros E. split.
  - intros ->. destruct (is_char a "*") eqn:Ea; [by apply is_char_iff|].
    destruct (is_char a "?"); [done|]. destruct (is_char a "[").
    { destruct l as [|b l]; [done|]. destruct (is_char b "^"); by destruct (parse_items _). }
    destruct (is_char a "\"); [by destruct l|done].
  - intros ->. cbn in E. by injection E as <- <-.
Qed.

Lemma match_one_ok mem nocase a c p l : pattern_at mem p (a :: l) -> a ≠ "*"%byte ->
  folds nocase (a :: l) -> folds nocase [c] ->
  ∃ p' plen' t rest, match_one mem nocase a c p (Z.of_nat (S (length l))) =
      Some (p', plen', bool_decide (token_has nocase t c)) ∧
    parse_token a l = (t, rest) ∧ pattern_at mem (S p') rest ∧ plen' - 1 = Z.of_nat (length rest).
Proof.
  intros Hpat Ha Hl Hc. pose proof (pattern_cons _ _ _ _ Hpat) as [Ea Hp]. unfold match_one, parse_token.
  assert (is_char a "*" = false) as -> by by apply bool_decide_eq_false_2.
  destruct (is_char a "?") eqn:E1.
  { exists p, (Z.of_nat (S (length l))), TAny, l. split_and!; try done. lia. }
  destruct (is_char a "[") eqn:E2.
  { apply is_char_iff in E2 as ->. destruct (match_class_ok mem nocase c p l Hpat) as (p' & plen' & neg & items & rest & H);
      [eauto|done|]. by exists p', plen', (TClass neg items), rest. }
  destruct (is_char a "\") eqn:E3; cbn [andb].
  - apply is_char_iff in E3 as ->. destruct l as [|b l]; cbn [length].
    + change (2 <=? Z.of_nat 1) with false. cbv iota. rewrite Ea. cbn [mbind option_bind].
      rewrite char_eq_ok by eauto. exists p, 1, (TLit "\"), []. by split_and!.
    + apply pattern_cons in Hp as [Eb Hp]. destruct (Z.leb_spec 2 (Z.of_nat (S (S (length l))))); [|lia].
      rewrite Eb. cbn [mbind option_bind]. rewrite char_eq_ok by eauto. cbn [mbind option_bind].
      exists (S p), (Z.of_nat (S (S (length l))) - 1), (TLit b), l. split; [done|].
      split_and!; try done. lia.
  - rewrite Ea. cbn [mbind option_bind]. rewrite char_eq_ok by eauto. cbn [mbind option_bind].
    exists p, (Z.of_nat (S (length l))), (TLit a), l. split; [done|].
    split_and!; try done. lia.
Qed.

(** ** Patterns *)
Lemma parse_items_suffix l : (parse_items l).2 `suffix_of` l.
Proof.
  remember (length l) as n eqn:Hn. revert l Hn. induction (lt_wf n) as [n _ IH]. intros [|a l] ->; [done|].
  assert (∀ i l1, (length l1 < length (a :: l))%nat -> l1 `suffix_of` a :: l ->
    parse_items (a :: l) = (i :: (parse_items l1).1, (parse_items l1).2) -> (parse_items (a :: l)).2 `suffix_of` a :: l)
    as Hstep.
  { intros i l1 Hl Hs ->. cbn [snd]. etrans; [by apply (IH _ Hl l1)|done]. }
  destruct (decide (a = "\"%byte ∧ l ≠ [])) as [[-> Hne]|Hesc].
  { destruct l as [|b l]; [done|]. eapply Hstep, parse_items_escaped; [cbn; lia|]. by do 2 apply suffix_cons_r. }
  destruct (decide (a = "]"%byte)) as [->|Hend]; [rewrite parse_items_end; by apply suffix_cons_r|].
  assert (a = "\"%byte -> l = []) as Hbs by (intros ->; destruct l; [done|by destruct Hesc]).
  assert (l `suffix_of` a :: l) as Hl by by apply suffix_cons_r.
  destruct l as [|b [|c l]].
  - eapply Hstep, parse_items_char; [cbn; lia|done..].
  - eapply Hstep, parse_items_char; [cbn; lia|done..].
  - destruct (decide (b = "-"%byte)) as [->|Hb].
    + eapply Hstep, parse_items_range; [cbn; lia|by do 3 apply suffix_cons_r| |done]. intros E. by specialize (Hbs E).
    + eapply Hstep, parse_items_char; [cbn; lia|done..|]. by intros ? ? [= -> _ _].
Qed.

Lemma parse_token_suffix a l : (parse_token a l).2 `suffix_of` l.
Proof.
  unfold parse_token. destruct (is_char a "*"), (is_char a "?"); try done. destruct (is_char a "[").
  - destruct l as [|b l]; [done|]. pose proof (parse_items_suffix (b :: l)) as H1. pose proof (parse_items_suffix l) as H2.
    destruct (is_char b "^"); [destruct (parse_items l)|destruct (parse_items (b :: l))]; [by apply suffix_cons_r|done].
  - destruct (is_char a "\"); [|done]. destruct l; [done|]. by apply suffix_cons_r.
Qed.

Lemma parse_token_length a l : (length (parse_token a l).2 <= length l)%nat.
Proof. apply suffix_length, parse_token_suffix. Qed.

Lemma parse_fuel_enough n m l : (length l <= n)%nat -> (length l <= m)%nat -> parse_fuel n l = parse_fuel m l.
Proof.
  revert m l. induction n as [|n IH]; intros [|m] [|a l] Hn Hm; cbn [length] in *; try lia; try done.
  cbn [parse_fuel]. pose proof (parse_token_length a l). destruct (parse_token a l) as [t rest]. cbn [snd] in *.
  f_equal. apply IH; lia.
Qed.

Lemma parse_cons a l t rest : parse_token a l = (t, rest) -> parse (a :: l) = t :: parse rest.
Proof.
  intros E. unfold parse at 1. cbn [length parse_fuel]. rewrite E. f_equal.
  pose proof (parse_token_length a l) as Hl. rewrite E in Hl. by apply parse_fuel_enough.
Qed.

Lemma parse_star l : parse ("*"%byte :: l) = TStar :: parse l.
Proof. by apply parse_cons. Qed.

Lemma parse_stars n l : parse (replicate n "*"%byte ++ l) = replicate n TStar ++ parse l.
Proof. induction n as [|n IH]; [done|]. cbn [replicate app]. by rewrite parse_star, IH. Qed.

(** ** What a pattern matches *)
Lemma glob_stars nocase n ts s : glob nocase (TStar :: replicate n TStar ++ ts) s <-> glob nocase (TStar :: ts) s.
Proof.
  revert s. induction n as [|n IH]; intros s; [done|]. cbn [replicate app]. split.
  - inversion 1; subst. match goal with H : glob _ (TStar :: _) _ |- _ => apply IH in H; inversion H; subst end.
    rewrite app_assoc. by constructor.
  - intros Hg. apply (glob_star nocase [] s). by apply IH.
Qed.

Lemma glob_star_iff nocase ts s : glob nocase (TStar :: ts) s <-> ∃ s1 s2, s = s1 ++ s2 ∧ glob nocase ts s2.
Proof. split; [inversion 1; subst; eauto|]. intros (s1 & s2 & -> & Hg). by constructor. Qed.

Lemma glob_cons_iff nocase t ts c s : t ≠ TStar ->
  glob nocase (t :: ts) (c :: s) <-> token_has nocase t c ∧ glob nocase ts s.
Proof.
  intros Ht. split.
  - inversion 1; subst; done.
  - intros [Hc Hg]. destruct t; [done|by constructor..].
Qed.

Lemma glob_nil_iff nocase l : glob nocase (parse l) [] <-> Forall (λ b, b = "*"%byte) l.
Proof.
  split.
  - induction l as [|a l IH]; [done|]. intros Hg. destruct (parse_token a l) as [t rest] eqn:E.
    pose proof (parse_token_star _ _ _ _ E) as Hs. rewrite (parse_cons _ _ _ _ E) in Hg.
    inversion Hg as [|s1 s2 ts Hg' E1 E2| | |]; subst. destruct Hs as [Hs _]. specialize (Hs eq_refl) as ->.
    cbn in E. injection E as <-. apply app_eq_nil in E2 as [-> ->]. constructor; auto.
  - induction 1 as [|a l -> _ IH]; [constructor|]. rewrite parse_star. by apply (glob_star nocase [] []).
Qed.

Lemma star_loop_ok (rec : list byte -> option bool) s (P : list byte -> Prop) :
  (∀ s1 s2, s = s1 ++ s2 -> s2 ≠ [] -> ∃ r, rec s2 = Some r ∧ (r = true <-> P s2)) ->
  ∃ r, star_loop rec s = Some r ∧ (r = true <-> ∃ s1 s2, s = s1 ++ s2 ∧ s2 ≠ [] ∧ P s2).
Proof.
  induction s as [|c s IH]; intros Hrec.
  { exists false. split; [done|]. split; [done|]. intros (s1 & s2 & E & Hne & _). by destruct s1, s2. }
  cbn [star_loop]. destruct (Hrec [] (c :: s)) as (r & -> & Hr); [done..|]. cbn [mbind option_bind].
  destruct r.
  - exists true. split; [done|]. split; [|done]. intros _. exists [], (c :: s). split_and!; try done. by apply Hr.
  - destruct IH as (r & -> & Hr').
    { intros s1 s2 ->. by apply (Hrec (c :: s1)). }
    exists r. split; [done|]. rewrite Hr'. split.
    + intros (s1 & s2 & -> & H). by exists (c :: s1), s2.
    + intros (s1 & s2 & E & Hne & HP). destruct s1 as [|c' s1]; simplify_eq/=.
      * apply Hr in HP. done.
      * by exists s1, s2.
Qed.

(** ** The matching *)
Lemma head_not_star l : head l ≠ Some "*"%byte -> l ≠ [] -> ∀ nocase, ¬ glob nocase (parse l) [].
Proof. intros Hh Hne nocase. rewrite glob_nil_iff. destruct l; [done|]. by intros [-> _]%Forall_cons. Qed.

Lemma folds_app nocase a b : folds nocase (a ++ b) -> folds nocase b.
Proof. intros H E. by apply H, Forall_app in E as [_ ?]. Qed.

Lemma stringmatchlen_ok fuel mem p pat s nocase :
  pattern_at mem p pat -> (length pat < fuel)%nat -> folds nocase pat -> folds nocase s -> s ≠ [] ->
  ∃ r, m_stringmatchlen fuel mem p (Z.of_nat (length pat)) s nocase = Some r ∧ (r = true <-> glob nocase (parse pat) s).
Proof.
  revert p pat s. induction fuel as [|fuel IH]; intros p pat s Hp Hf Hpat Hs Hne; [lia|].
  cbn [m_stringmatchlen]. destruct s as [|c s]; [done|]. clear Hne. destruct pat as [|a pat].
  { exists false. split; [done|]. split; [done|]. inversion 1. }
  destruct (Z.eqb_spec (Z.of_nat (length (a :: pat))) 0); [cbn in *; lia|].
  pose proof (pattern_cons _ _ _ _ Hp) as [-> _]. cbn [mbind option_bind]. pose proof (pattern_length _ _ _ Hp) as Hmem.
  destruct (is_char a "*") eqn:Ea.
  - apply is_char_iff in Ea as ->. cbn [length] in *.
    destruct (skip_stars_ok (length mem) mem p pat Hp) as (n1 & l & -> & Hh & -> & Hp'); [lia|].
    cbn [mbind option_bind]. rewrite length_app, length_replicate in Hf.
    rewrite parse_star, parse_stars. destruct (Z.eqb_spec (Z.of_nat (S (length l))) 1).
    + exists true. destruct l; [|cbn in *; lia]. split; [done|]. split; [|done]. intros _. apply glob_stars.
      rewrite <- (app_nil_r (c :: s)). constructor. constructor.
    + assert (l ≠ []) as Hl by (by intros ->). replace (Z.of_nat (S (length l)) - 1) with (Z.of_nat (length l)) by lia.
      pose proof (folds_app _ (_ :: replicate n1 _) _ Hpat) as Hfl.
      destruct (star_loop_ok (λ s, m_stringmatchlen fuel mem (S (p + n1)) (Z.of_nat (length l)) s nocase) (c :: s)
        (glob nocase (parse l))) as (r & -> & Hr).
      { intros s1 s2 E Hne. apply IH; [done|lia|done| |done]. rewrite E in Hs. by eapply folds_app. }
      exists r. split; [done|]. rewrite Hr, glob_stars, glob_star_iff. split; [intros (s1 & s2 & E & _ & Hg); by exists s1, s2|].
      intros (s1 & s2 & E & Hg). exists s1, s2. split_and!; try done. intros ->. by eapply head_not_star.
  - assert (a ≠ "*"%byte) as Hstar by (intros ->; by rewrite (proj2 (is_char_iff "*" "*") eq_refl) in Ea).
    destruct (match_one_ok mem nocase a c p pat Hp Hstar Hpat (folds_head _ _ _ Hs)) as (p' & plen' & t & rest & E & Et & Hp' & Hlen').
    change (length (a :: pat)) with (S (length pat)). rewrite E. cbn [mbind option_bind]. rewrite (parse_cons _ _ _ _ Et).
    assert (t ≠ TStar) as Ht by (by rewrite (parse_token_star _ _ _ _ Et)).
    pose proof (parse_token_length a pat) as Hrest. rewrite Et in Hrest. cbn [snd length] in *.
    destruct (bool_decide (token_has nocase t c)) eqn:Hc; cbn [negb].
    2: { exists false. split; [done|]. rewrite glob_cons_iff by done. apply bool_decide_eq_false in Hc. split; [done|]. by intros [? _]. }
    apply bool_decide_eq_true in Hc. rewrite Hlen'. pose proof (pattern_length _ _ _ Hp') as Hmem'.
    destruct s as [|c' s].
    + destruct (skip_last_stars_ok (S (length mem)) mem (S p') rest Hp') as (plen & -> & Hz); [lia|].
      cbn [mbind option_bind]. exists (plen =? 0). split; [done|]. rewrite Hz, bool_decide_eq_true, <- (glob_nil_iff nocase).
      rewrite glob_cons_iff by done. split; [done|]. by intros [_ ?].
    + destruct (IH (S p') rest (c' :: s)) as (r & -> & Hr); [done|lia| |by eapply folds_tail|done|].
      * destruct (parse_token_suffix a pat) as [k Hk]. rewrite Et in Hk. cbn [snd] in Hk. subst pat.
        by eapply (folds_app _ (a :: k)).
      * exists r. split; [done|]. rewrite Hr, glob_cons_iff by done. split; [done|]. by intros [_ ?].
Qed.

(** ** Properties *)

(** A string of the program: the characters up to a NUL. *)
Lemma c_str_split mem : x00 ∈ mem -> ∃ post, mem = c_str mem ++ x00 :: post.
Proof.
  induction mem as [|b mem IH]; [by intros ?%elem_of_nil|]. cbn [c_str]. case_decide as Hb; [subst; by exists mem|].
  intros [<-|Hin]%elem_of_cons; [done|]. destruct (IH Hin) as [post E]. exists post. cbn. by f_equal.
Qed.

Lemma strlen_ok mem : x00 ∈ mem -> strlen mem = Some (length (c_str mem)) ∧ take (length (c_str mem)) mem = c_str mem.
Proof.
  intros Hin. unfold strlen. rewrite decide_True by done. split; [done|].
  destruct (c_str_split mem Hin) as [post E]. rewrite E at 2. by rewrite take_app_length.
Qed.

(** C32. [m_stringmatch] decides whether the pattern, as [parse] reads it, matches
    the string, and always returns, for strings whose lengths an [int] holds; it
    reads no byte behind the NULs.  Only the empty pattern matches the empty
    string: a star does not. *)
Theorem m_stringmatch_spec pattern string nocase :
  x00 ∈ pattern -> x00 ∈ string ->
  Z.of_nat (length (c_str pattern)) < 2 ^ 31 -> Z.of_nat (length (c_str string)) < 2 ^ 31 ->
  (nocase = true -> ascii (c_str pattern) ∧ ascii (c_str string)) ->
  ∃ r, m_stringmatch pattern string nocase = Some r ∧
    (r = true <-> if decide (c_str string = []) then c_str pattern = []
                  else glob nocase (parse (c_str pattern)) (c_str string)).
Proof.
  intros Hp Hs Hlp Hls Hcase. unfold m_stringmatch, size_to_int.
  destruct (strlen_ok _ Hp) as [-> _], (strlen_ok _ Hs) as [-> Ht]. cbn [mbind option_bind].
  rewrite !decide_True by done. cbn [mbind option_bind]. rewrite Ht. destruct (c_str_split pattern Hp) as [post E].
  case_decide as He.
  - rewrite He. cbn [m_stringmatchlen]. eexists. split; [done|]. rewrite Z.eqb_eq. split; [|by intros ->].
    intros Hl. apply length_zero_iff_nil. lia.
  - apply stringmatchlen_ok; [|lia|by intros ?; apply Hcase|by intros ?; apply Hcase|done].
    exists x00, post. by rewrite drop_0.
Qed.

(** ** Examples *)
Definition ex_c_string (s : string) : list byte := bytes_of s ++ [x00].

Lemma m_stringmatch_spec_witness :
  ∃ r, m_stringmatch (ex_c_string "u[^0-9]er:*[xz]\*") (ex_c_string "user:1:x*") false = Some r ∧
    (r = true <-> glob false (parse (bytes_of "u[^0-9]er:*[xz]\*")) (bytes_of "user:1:x*")).
Proof.
  apply (m_stringmatch_spec (ex_c_string "u[^0-9]er:*[xz]\*") (ex_c_string "user:1:x*") false).
  - by apply (bool_decide_unpack _); vm_compute.
  - by apply (bool_decide_unpack _); vm_compute.
  - by vm_compute.
  - by vm_compute.
  - done.
Defined.

Example ex_matches :
  m_stringmatch (ex_c_string "u[^0-9]er:*[xz]\*") (ex_c_string "user:1:x*") false = Some true ∧
  m_stringmatch (ex_c_string "u[^0-9]er:*[xz]\*") (ex_c_string "user:1:y*") false = Some false ∧
  m_stringmatch (ex_c_string "HELLO*") (ex_c_string "hello world") true = Some true.
Proof. by vm_compute. Qed.

(** A star alone does not match the empty string, and matches any other. *)
Example ex_star_empty :
  m_stringmatch (ex_c_string "*") (ex_c_string "") false = Some false ∧
  m_stringmatch (ex_c_string "*") (ex_c_string "x") false = Some true ∧
  m_stringmatch (ex_c_string "x*") (ex_c_string "x") false = Some true.
Proof. by vm_compute. Qed.

(** A pattern of two characters with a star behind it, which is no part of it:
    the star is counted, and the pattern does not match what it should. *)
Example ex_reads_past :
  m_stringmatchlen 9 (bytes_of "a**" ++ [x00]) 0 2 (bytes_of "a") false = Some false ∧
  m_stringmatchlen 9 (bytes_of "a*" ++ [x00]) 0 2 (bytes_of "a") false = Some true.
Proof. by vm_compute. Qed.

(** An escaped character of a class counts its case although the case does not
    count; a range from Z to a is empty then. *)
Example ex_nocase :
  m_stringmatch (ex_c_string "[\A]") (ex_c_string "a") true = Some false ∧
  m_stringmatch (ex_c_string "[A]") (ex_c_string "a") true = Some true ∧
  m_stringmatch (ex_c_string "[Z-a]") (ex_c_string "z") true = Some false ∧
  m_stringmatch (ex_c_string "[Z-a]") (ex_c_string "Z") false = Some true.
Proof. by vm_compute. Qed.

(** With [nocase] a byte above 127 is no argument [tolower] takes. *)
Example ex_nocase_high : m_stringmatch [xc3; x00] [xc3; x00] true = None.
Proof. by vm_compute. Qed.
