(* ===== verification/MemUnits.v ===== *)
(** * MemUnits: amounts of memory, [m_memtoll] of dep/util.c

    A number and a unit.  [strtoll] is of the C library: it skips spaces, reads a
    sign and digits, and gives the nearest [long long]; whether it sets [errno] to
    [EINVAL] when it has read nothing is up to the library. *)

From S2P Require Import Prelude.
From S2P Require Import KeySlot.
From S2P Require Import Numbers.
From S2P Require Import Slots.
From S2P Require Import Commands.
From S2P Require Import Refinement.
From S2P Require Import Prog.
From S2P Require Import Server.
From S2P Require Import ConnCache.
From S2P Require Import Glob.
Local Open Scope Z_scope.

(** [isdigit] of a [char], which may be negative. *)
Definition isdigit_char (b : byte) : option bool := if -1 <=? char_int b then Some (isdigit b) else None.

(** [while ( *u && isdigit( *u))]: the digits and what is behind them. *)
Fixpoint span_digits (s : list byte) : option (list byte * list byte) :=
  match s with
  | [] => Some ([], [])
  | b :: s' =>
    d ← isdigit_char b;
    if d : bool then '(ds, rest) ← span_digits s'; Some (b :: ds, rest) else Some ([], s)
  end.

(** The unit's multiplier. *)
Definition unit_mul (u : list byte) : option Z :=
  if bool_decide (u = []) || strcasecmp_eq u (bytes_of "b") then Some 1
  else if strcasecmp_eq u (bytes_of "k") then Some 1000
  else if strcasecmp_eq u (bytes_of "kb") then Some 1024
  else if strcasecmp_eq u (bytes_of "m") then Some (1000 * 1000)
  else if strcasecmp_eq u (bytes_of "mb") then Some (1024 * 1024)
  else if strcasecmp_eq u (bytes_of "g") then Some (1000 * 1000 * 1000)
  else if strcasecmp_eq u (bytes_of "gb") then Some (1024 * 1024 * 1024)
  else None.

(** The number of bytes of the digits at the head of a string, and their
    value. *)
Fixpoint count_digits (s : list byte) : nat :=
  match s with b :: s => if isdigit b then S (count_digits s) else O | [] => O end.

Definition clamp_ll (v : Z) : Z := Z.max LLONG_MIN (Z.min LLONG_MAX v).

(** The value, the bytes behind the number, and whether there was one. *)
Definition strtoll (s : list byte) : Z * list byte * bool :=
  let s1 := skip_spaces s in
  let '(neg, s2) :=
    match s1 with
    | c :: s' => if decide (c = "-"%byte) then (true, s') else if decide (c = "+"%byte) then (false, s') else (false, s1)
    | [] => (false, s1)
    end in
  let n := count_digits s2 in
  if decide (n = O) then (0, s, false)
  else (clamp_ll (if neg : bool then - read_digits s2 0 else read_digits s2 0), drop n s2, true).

(** The amount and [*err]; [None] when the product is no [long long]. *)
Definition m_memtoll (sets_einval : bool) (p : list byte) : option (Z * bool) :=
  let p := c_str p in
  let '(sign, u) :=
    match p with
    | c :: u => if decide (c = "-"%byte) then ([c], u) else ([], p)
    | [] => ([], p)
    end in
  '(ds, u) ← span_digits u;
  match unit_mul u with
  | None => Some (0, true)
  | Some mul =>
    let buf := sign ++ ds in
    if (128 <=? length buf)%nat then Some (0, true)
    else
      let '(val, endptr, found) := strtoll buf in
      if ((val =? 0) && (negb found && sets_einval)) || negb (bool_decide (endptr = [])) then Some (0, true)
      else if decide (- 2 ^ 63 <= val * mul < 2 ^ 63) then Some (val * mul, false) else None
  end.

(** ** Lemmas *)
Definition is_digits (ds : list byte) : Prop := Forall (λ b, isdigit b = true) ds.

Lemma isdigit_ascii b : isdigit b = true -> bval b < 128.
Proof. unfold isdigit. lia. Qed.

Lemma isdigit_char_ok b : bval b < 128 -> isdigit_char b = Some (isdigit b).
Proof.
  intros Hb. pose proof (bval_range b). unfold isdigit_char, char_int, i8. rewrite signed_small by lia.
  destruct (Z.leb_spec (-1) (bval b)); [done|lia].
Qed.

(** The unit ends the digits. *)
Definition not_digit_first (u : list byte) : Prop :=
  match u with b :: _ => isdigit b = false ∧ bval b < 128 | [] => True end.

Lemma span_digits_ok ds u : is_digits ds -> not_digit_first u -> span_digits (ds ++ u) = Some (ds, u).
Proof.
  intros Hds Hu. induction Hds as [|b ds Hb _ IH]; cbn [app span_digits].
  - destruct u as [|b u]; [done|]. destruct Hu as [Hd Ha]. cbn [span_digits]. rewrite isdigit_char_ok by done.
    cbn [mbind option_bind]. by rewrite Hd.
  - rewrite isdigit_char_ok by by apply isdigit_ascii. cbn [mbind option_bind]. by rewrite Hb, IH.
Qed.

Lemma count_digits_ok ds : is_digits ds -> count_digits ds = length ds.
Proof. induction 1 as [|b ds Hb _ IH]; [done|]. cbn. by rewrite Hb, IH. Qed.

Lemma read_digits_ok ds v : is_digits ds -> read_digits ds v = udec_value_from v ds.
Proof.
  intros Hds. revert v. induction Hds as [|b ds Hb _ IH]; intros v; [done|]. cbn. rewrite Hb, IH. f_equal. lia.
Qed.

(** A number's sign, and its value. *)
Definition sign_of (neg : bool) : list byte := if neg then ["-"%byte] else [].
Definition signed_value (neg : bool) (ds : list byte) : Z := if neg then - udec_value ds else udec_value ds.

Lemma isdigit_first b : isdigit b = true -> isspace b = false ∧ b ≠ "-"%byte ∧ b ≠ "+"%byte.
Proof.
  intros Hb. split_and!; [|by intros ->..]. unfold isdigit, isspace in *. lia.
Qed.

Lemma strtoll_ok neg ds : is_digits ds -> ds ≠ [] ->
  strtoll (sign_of neg ++ ds) = (clamp_ll (signed_value neg ds), [], true).
Proof.
  intros Hds Hne. pose proof (count_digits_ok ds Hds) as Hc. pose proof (read_digits_ok ds 0 Hds) as Hr.
  assert (length ds ≠ O) as Hl by (by destruct ds).
  unfold strtoll, signed_value, udec_value. destruct neg; cbn [sign_of app].
  - change (skip_spaces ("-"%byte :: ds)) with ("-"%byte :: ds). cbv beta iota. rewrite decide_True by done.
    rewrite Hc, decide_False, Hr, drop_all by done. done.
  - destruct ds as [|b ds]; [done|]. pose proof Hds as [Hb _]%Forall_cons.
    destruct (isdigit_first b Hb) as (Hs & Hm & Hp). cbn [skip_spaces]. rewrite Hs. cbv beta iota.
    rewrite !(decide_False (P := _ = _)) by done. rewrite Hc, decide_False, Hr, drop_all by done. done.
Qed.

Lemma digits_no_nul ds : is_digits ds -> x00 ∉ ds.
Proof. intros Hds Hin. pose proof (proj1 (Forall_forall _ _) Hds _ Hin) as Hb. done. Qed.

(** The units, in lower case. *)
Definition units : list (string * Z) :=
  [(""%string, 1); ("b"%string, 1); ("k"%string, 10 ^ 3); ("kb"%string, 2 ^ 10); ("m"%string, 10 ^ 6);
   ("mb"%string, 2 ^ 20); ("g"%string, 10 ^ 9); ("gb"%string, 2 ^ 30)].

Definition unit_means (u : list byte) (mul : Z) : Prop :=
  ∃ name, (name, mul) ∈ units ∧ map tolower u = map bval (bytes_of name).

Lemma strcasecmp_name u name :
  x00 ∉ u -> strcasecmp_eq u (bytes_of name) = bool_decide (map tolower u = map tolower (c_str (bytes_of name))).
Proof. intros Hu. unfold strcasecmp_eq. by rewrite (c_str_no_nul u). Qed.

Local Ltac named x := exists x; split; [repeat first [by left|right]|assumption].

Lemma unit_mul_iff u mul : x00 ∉ u -> unit_mul u = Some mul <-> unit_means u mul.
Proof.
  intros Hu. unfold unit_mul, unit_means. rewrite !strcasecmp_name by done. split.
  - intros E. repeat (destruct (_ || _) eqn:E0 in E || destruct (bool_decide _) eqn:E0 in E; [|clear E0]);
      [| | | | | | |done].
    all: injection E as <-; try apply orb_true_iff in E0 as [E0|E0]; apply bool_decide_eq_true in E0;
      first [subst u; exists ""%string; split; [by left|done]
            |by named "b"%string|by named "k"%string|by named "kb"%string|by named "m"%string
            |by named "mb"%string|by named "g"%string|by named "gb"%string].
  - intros (name & Hin & E). rewrite E. unfold units in Hin.
    assert (bool_decide (u = []) = bool_decide (map bval (bytes_of name) = [])) as ->.
    { rewrite <- E. by destruct u. }
    repeat (apply elem_of_cons in Hin as [[= -> ->]|Hin]; [by vm_compute|]). by apply elem_of_nil in Hin.
Qed.

(** [m_memtoll] reads a number with a unit of the table, in either case: the
    number, brought into the range of a [long long] without an error, times the
    multiplier of the unit; the product overflows when it is no [long long], and a
    unit that is not in the table is an error. *)
Theorem m_memtoll_spec sets_einval neg ds u :
  is_digits ds -> ds ≠ [] -> (length (sign_of neg ++ ds) < 128)%nat -> not_digit_first u -> x00 ∉ u ->
  (∀ mul, unit_means u mul -> m_memtoll sets_einval (sign_of neg ++ ds ++ u) =
     let v := clamp_ll (signed_value neg ds) * mul in
     if decide (- 2 ^ 63 <= v < 2 ^ 63) then Some (v, false) else None) ∧
  ((∀ mul, ¬ unit_means u mul) -> m_memtoll sets_einval (sign_of neg ++ ds ++ u) = Some (0, true)).
Proof.
  intros Hds Hne Hlen Hu Hnul.
  assert (m_memtoll sets_einval (sign_of neg ++ ds ++ u) =
    match unit_mul u with
    | None => Some (0, true)
    | Some mul => let v := clamp_ll (signed_value neg ds) * mul in
        if decide (- 2 ^ 63 <= v < 2 ^ 63) then Some (v, false) else None
    end) as ->; [unfold m_memtoll|].
  2: { split.
       - intros mul Hm%unit_mul_iff; [|done]. by rewrite Hm.
       - intros Hn. destruct (unit_mul u) as [mul|] eqn:Em; [|done]. apply unit_mul_iff in Em; [|done].
         by destruct (Hn mul). }
  rewrite c_str_no_nul.
  2: { rewrite !not_elem_of_app. split_and!; [destruct neg; [by apply (bool_decide_unpack _)|by apply not_elem_of_nil]| |done].
       by apply digits_no_nul. }
  assert ((match sign_of neg ++ ds ++ u with
    | c :: u0 => if decide (c = "-"%byte) then ([c], u0) else ([], sign_of neg ++ ds ++ u)
    | [] => ([], sign_of neg ++ ds ++ u) end) = (sign_of neg, ds ++ u)) as ->.
  { destruct neg; [done|]. destruct ds as [|b ds]; [done|]. cbn [sign_of app]. apply Forall_cons in Hds as [Hb _].
    destruct (isdigit_first b Hb) as (_ & Hm & _). by rewrite decide_False. }
  rewrite span_digits_ok by done. cbn [mbind option_bind]. destruct (unit_mul u) as [mul|]; [|done].
  destruct (Nat.leb_spec 128 (length (sign_of neg ++ ds))); [lia|]. rewrite strtoll_ok by done.
  cbn [negb andb]. by rewrite andb_false_r.
Qed.

(** ** Examples *)
Lemma m_memtoll_spec_witness :
  m_memtoll true (bytes_of "-3mB") = Some (-3145728, false) ∧ m_memtoll true (bytes_of "12x") = Some (0, true).
Proof.
  split.
  - refine (proj1 (m_memtoll_spec true true (bytes_of "3") (bytes_of "mB") _ _ _ _ _) (2 ^ 20) _).
    + by apply (bool_decide_unpack _).
    + done.
    + cbn. lia.
    + vm_compute. done.
    + by apply (bool_decide_unpack _).
    + exists "mb"%string. split; [unfold units; repeat first [by left|right]|done].
  - refine (proj2 (m_memtoll_spec true false (bytes_of "12") (bytes_of "x") _ _ _ _ _) _).
    + by apply (bool_decide_unpack _).
    + done.
    + cbn. lia.
    + vm_compute. done.
    + by apply (bool_decide_unpack _).
    + intros mul Hm%unit_mul_iff; [done|]. by apply (bool_decide_unpack _).
Defined.

Example ex_memtoll_errors :
  m_memtoll true (bytes_of "12x") = Some (0, true) ∧ m_memtoll true (bytes_of "-") = Some (0, true) ∧
  m_memtoll true (bytes_of "") = Some (0, true) ∧ m_memtoll false (bytes_of "kb") = Some (0, false).
Proof. by vm_compute. Qed.

(** One too large for a [long long] is no error. *)
Example ex_memtoll_clamped : m_memtoll true (bytes_of "9223372036854775808") = Some (LLONG_MAX, false).
Proof. by vm_compute. Qed.

Example ex_memtoll_overflow : m_memtoll true (bytes_of "9223372036854775807kb") = None.
Proof. by vm_compute. Qed.
