(* ===== verification/Floats.v ===== *)
(** * Floats: the floating-point conversions of dep/util.c

    [m_string2ld], [m_d2string] and [m_ld2string].  A floating-point number is
    a [spec_float] of the Standard Library: [double] is binary64, [long double]
    the 80-bit format of x86-64.  The functions of the C library they call are
    written out: [strtold] (decimal and hexadecimal numbers, infinities, not a
    number, correctly rounded) and what [snprintf] prints for ["%.17g"],
    ["%.17Lf"] and ["%.17Lg"] (correctly rounded, ties to even), in the "C"
    locale.  [None] is an undefined access or an undefined conversion. *)

From Stdlib Require Import Floats.SpecFloat.
From S2P Require Import Prelude.
From S2P Require Import KeySlot.
From S2P Require Import Numbers.
From S2P Require Import Slots.
From S2P Require Import Commands.
From S2P Require Import ConnCache.
From S2P Require Import MemUnits.
Local Open Scope Z_scope.

(** ** The formats *)
Definition prec_double : Z := 53.
Definition emax_double : Z := 1024.
Definition prec_ldouble : Z := 64.
Definition emax_ldouble : Z := 16384.

(** [(double)z]. *)
Definition double_of_Z (z : Z) : spec_float := binary_normalize prec_double emax_double z 0 false.

Definition isnan (v : spec_float) : bool := if v is S754_nan then true else false.
Definition isinf (v : spec_float) : bool := if v is S754_infinity _ then true else false.
Definition SF0 : spec_float := S754_zero false.

(** [(long long)value]: truncation; out of range it is undefined. *)
Definition trunc_ll (v : spec_float) : option Z :=
  match v with
  | S754_zero _ => Some 0
  | S754_finite s m e =>
    let z := cond_Zopp s (Z.quot (Z.pos m * 2 ^ Z.max e 0) (2 ^ Z.max (- e) 0)) in
    if decide (- 2 ^ 63 <= z < 2 ^ 63) then Some z else None
  | _ => None
  end.

(** ** Printing *)

(** The integer nearest to [n / d], an even one when there are two. *)
Definition round_half_even (n d : Z) : Z :=
  let q := n / d in
  match 2 * (n mod d) ?= d with
  | Lt => q
  | Gt => q + 1
  | Eq => if Z.even q then q else q + 1
  end.

(** How many decimal digits a number has. *)
Fixpoint count_dec (fuel : nat) (v : Z) : nat :=
  match fuel with
  | O => 1
  | S fuel => if v <? 10 then 1%nat else S (count_dec fuel (v / 10))
  end.
Definition ndec (v : Z) : nat := count_dec (Z.to_nat (Z.log2 v)) v.

Definition udec (v : Z) : list byte := wdigits (ndec v) v.

(** [num / den] with [p] digits behind the point, as an integer. *)
Definition scaled (p num den : Z) : Z := round_half_even (num * 10 ^ p) den.

Definition mag_num (m : positive) (e : Z) : Z := Z.pos m * 2 ^ Z.max e 0.
Definition mag_den (e : Z) : Z := 2 ^ Z.max (- e) 0.

(** ["%.<p>f"] of a number that is finite, [p] positive. *)
Definition fixed_text (p : nat) (n : Z) : list byte :=
  udec (n / 10 ^ Z.of_nat p) ++ "."%byte :: wdigits p (n mod 10 ^ Z.of_nat p).

Definition print_f (p : nat) (v : spec_float) : list byte :=
  match v with
  | S754_nan => bytes_of "nan"
  | S754_infinity s => sign_of s ++ bytes_of "inf"
  | S754_zero s => sign_of s ++ fixed_text p 0
  | S754_finite s m e => sign_of s ++ fixed_text p (scaled (Z.of_nat p) (mag_num m e) (mag_den e))
  end.

(** Without the zeros at the end. *)
Fixpoint drop_zeros (s : list byte) : list byte :=
  match s with
  | [] => []
  | b :: s' =>
    match drop_zeros s' with
    | [] => if decide (b = "0"%byte) then [] else [b]
    | r => b :: r
    end
  end.

Definition fraction_text (fp : list byte) : list byte :=
  match drop_zeros fp with [] => [] | r => "."%byte :: r end.

(** The largest [x] with [10 ^ x <= num / den]. *)
Definition exponent10 (num den : Z) : Z :=
  if den <=? num then Z.of_nat (ndec (num / den)) - 1
  else
    let j := Z.of_nat (ndec (den / num)) in
    if den <=? num * 10 ^ (j - 1) then - (j - 1) else - j.

(** [num / den] scaled by [10 ^ k]. *)
Definition scaled10 (k num den : Z) : Z :=
  round_half_even (num * 10 ^ Z.max k 0) (den * 10 ^ Z.max (- k) 0).

(** The exponent of a number: a sign and two digits at least. *)
Definition exp_text (x : Z) : list byte :=
  (if x <? 0 then "-"%byte else "+"%byte) ::
  (if Z.abs x <? 10 then ["0"%byte] else []) ++ udec (Z.abs x).

(** ["%.<p>g"]: [p] significant digits. *)
Definition general_text (p num den : Z) : list byte :=
  let x := exponent10 num den in
  let d := scaled10 (p - 1 - x) num den in
  let '(x, d) := if decide (d = 10 ^ p) then (x + 1, 10 ^ (p - 1)) else (x, d) in
  if (-4 <=? x) && (x <? p) then
    udec (d / 10 ^ (p - 1 - x)) ++
    fraction_text (wdigits (Z.to_nat (p - 1 - x)) (d mod 10 ^ (p - 1 - x)))
  else
    udec (d / 10 ^ (p - 1)) ++ fraction_text (wdigits (Z.to_nat (p - 1)) (d mod 10 ^ (p - 1))) ++
    "e"%byte :: exp_text x.

Definition print_g (p : Z) (v : spec_float) : list byte :=
  match v with
  | S754_nan => bytes_of "nan"
  | S754_infinity s => sign_of s ++ bytes_of "inf"
  | S754_zero s => sign_of s ++ bytes_of "0"
  | S754_finite s m e => sign_of s ++ general_text p (mag_num m e) (mag_den e)
  end.

(** [snprintf(buf, len, ...)] with [len] the length of [buf]: the number of
    bytes the text has, and the buffer, which gets as much of it as leaves room
    for the NUL. *)
Definition snprintf (buf text : list byte) : Z * list byte :=
  (Z.of_nat (length text),
   match buf with
   | [] => []
   | _ => let t := take (length buf - 1) text in t ++ x00 :: drop (S (length t)) buf
   end).

(** [memcpy(buf, text, ...)]. *)
Definition memcpy (buf text : list byte) : option (list byte) :=
  if decide (length text <= length buf)%nat then Some (text ++ drop (length text) buf) else None.

(** ** Reading: [strtold] *)
Inductive errno := E0 | ERANGE | EINVAL.

#[export] Instance errno_eq_dec : EqDecision errno.
Proof. solve_decision. Defined.

Fixpoint span (f : byte -> bool) (s : list byte) : list byte * list byte :=
  match s with
  | [] => ([], [])
  | b :: s' => if f b then let '(a, r) := span f s' in (b :: a, r) else ([], s)
  end.

(** What is behind [p], the case of letters apart. *)
Fixpoint strip_prefix_ci (p s : list byte) : option (list byte) :=
  match p, s with
  | [], _ => Some s
  | a :: p, b :: s => if decide (tolower a = tolower b) then strip_prefix_ci p s else None
  | _ :: _, [] => None
  end.

Definition hex_digit (b : byte) : option Z :=
  let c := bval b in
  if isdigit b then Some (c - 48)
  else if (97 <=? c) && (c <=? 102) then Some (c - 87)
  else if (65 <=? c) && (c <=? 70) then Some (c - 55)
  else None.
Definition isxdigit (b : byte) : bool := if hex_digit b is Some _ then true else false.
Definition hex_value (s : list byte) : Z := foldl (λ v b, 16 * v + default 0 (hex_digit b)) 0 s.

Definition read_sign (s : list byte) : bool * list byte :=
  match s with
  | c :: s' => if decide (c = "-"%byte) then (true, s') else if decide (c = "+"%byte) then (false, s') else (false, s)
  | [] => (false, s)
  end.

(** The exponent behind [letter]; without digits it is not part of the number. *)
Definition read_exp (letter : byte) (s : list byte) : Z * list byte :=
  match s with
  | c :: s' =>
    if decide (tolower c = bval letter) then
      let '(neg, s'') := read_sign s' in
      match span isdigit s'' with
      | ([], _) => (0, s)
      | (ds, r) => ((if neg : bool then - udec_value ds else udec_value ds), r)
      end
    else (0, s)
  | [] => (0, s)
  end.

(** The digits in front of and behind the point; [None] when there are none. *)
Definition read_mantissa (f : byte -> bool) (s : list byte) : option (list byte * list byte * list byte) :=
  let '(ip, r) := span f s in
  let '(fp, r) := match r with
                  | c :: r' => if decide (c = "."%byte) then span f r' else ([], r)
                  | [] => ([], r)
                  end in
  if decide (ip = [] ∧ fp = []) then None else
  Some (ip, fp, r).

(** [n * 10 ^ k] and [n * 2 ^ k], rounded to a [long double]. *)
Definition round_dec (s : bool) (n k : Z) : spec_float :=
  match n with
  | Zpos n =>
    if 0 <=? k then binary_round prec_ldouble emax_ldouble s (Z.to_pos (Z.pos n * 10 ^ k)) 0
    else
      let '(q, e, l) := SFdiv_core_binary prec_ldouble emax_ldouble (Z.pos n) 0 (10 ^ (- k)) 0 in
      binary_round_aux prec_ldouble emax_ldouble s q e l
  | _ => S754_zero s
  end.
Definition round_hex (s : bool) (n k : Z) : spec_float :=
  match n with
  | Zpos n => binary_round prec_ldouble emax_ldouble s n k
  | _ => S754_zero s
  end.

(** [errno] for a number [n] that was read as [v]: a finite number that became
    an infinity or a zero.  Whether it is set for a subnormal result is of no
    importance here. *)
Definition range_errno (n : Z) (v : spec_float) : errno :=
  match v with
  | S754_infinity _ => ERANGE
  | S754_zero _ => if decide (n = 0) then E0 else ERANGE
  | _ => E0
  end.

(** ["nan"] may have letters, digits and underscores in parentheses. *)
Definition nan_char (b : byte) : bool :=
  let c := bval b in
  isdigit b || ((65 <=? c) && (c <=? 90)) || ((97 <=? c) && (c <=? 122)) || (c =? 95).
Definition nan_rest (s : list byte) : list byte :=
  match s with
  | c :: s' =>
    if decide (c = "("%byte) then
      match span nan_char s' with
      | (_, c' :: r) => if decide (c' = ")"%byte) then r else s
      | _ => s
      end
    else s
  | [] => []
  end.

(** The number behind the sign. *)
Definition read_number (neg : bool) (s : list byte) : option (spec_float * list byte * errno) :=
  match strip_prefix_ci (bytes_of "infinity") s, strip_prefix_ci (bytes_of "inf") s,
        strip_prefix_ci (bytes_of "nan") s with
  | Some r, _, _ => Some (S754_infinity neg, r, E0)
  | None, Some r, _ => Some (S754_infinity neg, r, E0)
  | None, None, Some r => Some (S754_nan, nan_rest r, E0)
  | None, None, None =>
    match (r ← strip_prefix_ci (bytes_of "0x") s; read_mantissa isxdigit r) with
    | Some (ip, fp, r) =>
      let '(x, r) := read_exp "p"%byte r in
      let n := hex_value (ip ++ fp) in
      let v := round_hex neg n (x - 4 * Z.of_nat (length fp)) in
      Some (v, r, range_errno n v)
    | None =>
      '(ip, fp, r) ← read_mantissa isdigit s;
      let '(x, r) := read_exp "e"%byte r in
      let n := udec_value (ip ++ fp) in
      let v := round_dec neg n (x - Z.of_nat (length fp)) in
      Some (v, r, range_errno n v)
    end
  end.

(** The value, the string at [*eptr] and [errno].  [sets_einval]: whether the
    library sets [EINVAL] when it has read nothing. *)
Definition strtold (sets_einval : bool) (s : list byte) : spec_float * list byte * errno :=
  let '(neg, s') := read_sign (skip_spaces s) in
  match read_number neg s' with
  | Some r => r
  | None => (SF0, s, if sets_einval then EINVAL else E0)
  end.

(** ** dep/util.c *)
Definition MAX_LONG_DOUBLE_CHARS : Z := 5 * 1024.

(** [Some v] when it returns 1 and sets [*dp] to [v]. *)
Definition m_string2ld (sets_einval : bool) (s : list byte) : option spec_float :=
  if MAX_LONG_DOUBLE_CHARS <=? Z.of_nat (length s) then None
  else
    let buf := c_str (s ++ [x00]) in
    let '(value, eptr, err) := strtold sets_einval buf in
    if (match buf with c :: _ => isspace c | [] => false end) ||
       negb (bool_decide (eptr = [])) ||
       (bool_decide (err = ERANGE) &&
        (SFeqb value (S754_infinity false) || SFeqb value (S754_infinity true) || SFeqb value SF0)) ||
       bool_decide (err = EINVAL) || isnan value
    then None
    else Some value.

(** The returned length, and the buffer, whose size is [len]. *)
Definition m_d2string (buf : list byte) (value : spec_float) : option (Z * list byte) :=
  if isnan value then Some (snprintf buf (bytes_of "nan"))
  else if isinf value then
    if SFltb value SF0 then Some (snprintf buf (bytes_of "-inf"))
    else Some (snprintf buf (bytes_of "inf"))
  else if SFeqb value SF0 then
    if SFltb (SFdiv prec_double emax_double (double_of_Z 1) value) SF0
    then Some (snprintf buf (bytes_of "-0"))
    else Some (snprintf buf (bytes_of "0"))
  else
    let min := double_of_Z (-4503599627370495) in
    let max := double_of_Z 4503599627370496 in
    if SFltb min value && SFltb value max then
      ll ← trunc_ll value;
      if SFeqb value (double_of_Z ll) then m_ll2string buf ll
      else Some (snprintf buf (print_g 17 value))
    else Some (snprintf buf (print_g 17 value)).

(** [while ( *p == '0') { p--; l--; }]: [p] is at [i]. *)
Fixpoint trim_loop (fuel : nat) (buf : list byte) (i l : Z) : option (Z * Z) :=
  c ← (if decide (0 <= i) then buf !! Z.to_nat i else None);
  if decide (c = "0"%byte) then
    match fuel with
    | O => None
    | S fuel => trim_loop fuel buf (i - 1) (l - 1)
    end
  else Some (i, l).

(** "Now remove trailing zeroes after the '.'": the length left. *)
Definition trim_zeros (buf : list byte) (l : Z) : option Z :=
  if decide ("."%byte ∈ c_str buf) then
    '(i, l) ← trim_loop (length buf) buf (l - 1) l;
    c ← buf !! Z.to_nat i;
    Some (if decide (c = "."%byte) then l - 1 else l)
  else Some l.

Definition m_ld2string (buf : list byte) (value : spec_float) (humanfriendly : bool) :
    option (Z * list byte) :=
  let len := Z.of_nat (length buf) in
  let finish buf l := buf ← store buf l x00; Some (l, buf) in
  if isinf value then
    if len <? 5 then Some (0, buf)
    else if SFltb SF0 value then buf ← memcpy buf (bytes_of "inf"); finish buf 3
    else buf ← memcpy buf (bytes_of "-inf"); finish buf 4
  else if humanfriendly then
    let '(l, buf) := snprintf buf (print_f 17 value) in
    if len <? l + 1 then Some (0, buf)
    else l ← trim_zeros buf l; finish buf l
  else
    let '(l, buf) := snprintf buf (print_g 17 value) in
    if len <? l + 1 then Some (0, buf) else finish buf l.

(** ** Examples *)
Definition dec_float (s : string) : spec_float := default S754_nan (m_string2ld false (bytes_of s)).
Definition shown (r : option (Z * list byte)) : option (list byte) :=
  '(n, buf) ← r; Some (take (Z.to_nat n) buf).
(** A [double] from the exact quotient of two integers. *)
Definition double_of_Q (n d : Z) : spec_float := SFdiv prec_double emax_double (double_of_Z n) (double_of_Z d).

Example print_tenth : shown (m_d2string (replicate 32 x41) (double_of_Q 1 10)) = Some (bytes_of "0.10000000000000001").
Proof. vm_compute. reflexivity. Qed.
Example print_large : shown (m_d2string (replicate 32 x41) (SFmul prec_double emax_double (double_of_Z (10^17)) (double_of_Z 12345))) = Some (bytes_of "1.2344999999999999e+21").
Proof. vm_compute. reflexivity. Qed.
Example print_small : shown (m_d2string (replicate 32 x41) (double_of_Q 1 100000)) = Some (bytes_of "1.0000000000000001e-05").
Proof. vm_compute. reflexivity. Qed.
Example print_limit : shown (m_d2string (replicate 32 x41) (double_of_Z (2 ^ 52))) = Some (bytes_of "4503599627370496").
Proof. vm_compute. reflexivity. Qed.
Example print_half : shown (m_d2string (replicate 32 x41) (double_of_Q (-1) 2)) = Some (bytes_of "-0.5").
Proof. vm_compute. reflexivity. Qed.
Example print_human :
  shown (m_ld2string (replicate 32 x41) (dec_float "-12.3400") true) = Some (bytes_of "-12.34") ∧
  shown (m_ld2string (replicate 32 x41) (dec_float "0x64p0") true) = Some (bytes_of "100").
Proof. vm_compute. done. Qed.
Example read_forms :
  map (λ s, m_string2ld false (bytes_of s)) ["1e2"; "0x1.9P6"; "+100"; "Infinity"; "1e"; " 1"; "1 "; "nan"; "0x1p16384"; "0x1p-16446"; "0x1p-16445"]%string =
  [Some (dec_float "100"); Some (dec_float "100"); Some (dec_float "100"); Some (S754_infinity false); None; None; None; None; None; None; Some (S754_finite false 1 (-16445))].
Proof. vm_compute. done. Qed.
