(* ===== verification/FloatsProps.v ===== *)
(** * FloatsProps: theorems about the floating-point conversions

    An integral [double] within 52 bits is printed as an integer and read back
    as the same number; the text of [m_ld2string] is the decimal expansion
    without its last zeros; what [m_string2ld] takes for a number. *)

From Stdlib Require Import Floats.SpecFloat.
From S2P Require Import Prelude.
From S2P Require Import KeySlot.
From S2P Require Import Numbers.
From S2P Require Import Slots.
From S2P Require Import Commands.
From S2P Require Import ConnCache.
From S2P Require Import MemUnits.
From S2P Require Import Floats.
Local Open Scope Z_scope.

(** ** Integers as floating-point numbers *)

(** [v] is the integer [z]. *)
Definition represents (v : spec_float) (z : Z) : Prop :=
  match v with
  | S754_zero _ => z = 0
  | S754_finite s m e => cond_Zopp s (mag_num m e) = z * mag_den e
  | _ => False
  end.

Definition digits2 (n : positive) : Z := Z.pos (digits2_pos n).

Lemma digits2_bounds n : 2 ^ (digits2 n - 1) <= Z.pos n < 2 ^ digits2 n.
Proof.
  unfold digits2. induction n as [n IH|n IH|]; cbn [digits2_pos]; [..|lia].
  all: rewrite Pos2Z.inj_succ, <- Z.add_1_r, Z.add_simpl_r, Z.pow_add_r by lia;
    replace (Z.pos (digits2_pos n)) with (Z.pos (digits2_pos n) - 1 + 1) at 1 by lia;
    rewrite Z.pow_add_r by lia; lia.
Qed.

Lemma digits2_unique n d : 2 ^ (d - 1) <= Z.pos n < 2 ^ d -> digits2 n = d.
Proof.
  intros [Hl Hu]. pose proof (digits2_bounds n) as [Hl' Hu'].
  assert (0 <= d). { destruct (decide (d < 0)); [|lia]. rewrite (Z.pow_neg_r 2 d) in Hu; lia. }
  assert (0 < digits2 n) by (unfold digits2; lia).
  destruct (decide (d < digits2 n)).
  { assert (2 ^ d <= 2 ^ (digits2 n - 1)) by (apply Z.pow_le_mono_r; lia). lia. }
  destruct (decide (digits2 n < d)); [|lia].
  assert (2 ^ digits2 n <= 2 ^ (d - 1)) by (apply Z.pow_le_mono_r; lia). lia.
Qed.

Lemma digits2_shift n m k : 0 <= k -> Z.pos m = Z.pos n * 2 ^ k -> digits2 m = digits2 n + k.
Proof.
  intros Hk Hm. apply digits2_unique. rewrite Hm. pose proof (digits2_bounds n).
  assert (0 < digits2 n) by (unfold digits2; lia).
  replace (digits2 n + k - 1) with (digits2 n - 1 + k) by lia.
  rewrite !Z.pow_add_r by lia. nia.
Qed.

Lemma iter_xO n k : Z.pos (Pos.iter xO n k) = Z.pos n * 2 ^ Z.pos k.
Proof.
  revert n. induction k as [|k IH] using Pos.peano_ind; intros n; [simpl; lia|].
  rewrite Pos.iter_succ, Pos2Z.inj_xO, IH, Pos2Z.inj_succ, Z.pow_succ_r by lia. lia.
Qed.

Section format.
#[local] Set Default Proof Using "All".
Context (prec emax : Z) (Hprec : 0 < prec) (Hemax : 3 <= emax) (Hpe : prec <= emax).

Lemma fexp_int d : 0 < d -> fexp prec emax d = d - prec.
Proof. intros Hd. unfold fexp, emin. lia. Qed.

(** A mantissa that fills the precision stays as it is. *)
Lemma round_aux_exact s m e :
  digits2 m = prec -> 3 - emax - prec <= e <= emax - prec ->
  binary_round_aux prec emax s (Z.pos m) e loc_Exact = S754_finite s m e.
Proof.
  intros Hd He.
  assert (shr_fexp prec emax (Z.pos m) e loc_Exact = ({| shr_m := Z.pos m; shr_r := false; shr_s := false |}, e)) as Hs.
  { unfold shr_fexp, fexp, emin. cbn [Zdigits2 shr_record_of_loc]. unfold digits2 in Hd. rewrite Hd.
    replace (Z.max (prec + e - prec) (3 - emax - prec) - e) with 0 by lia. done. }
  unfold binary_round_aux. rewrite Hs. cbn [shr_m loc_of_shr_record round_nearest_even]. rewrite Hs. cbn [shr_m].
  destruct (Z.leb_spec e (emax - prec)); [done|lia].
Qed.

(** An integer of at most [prec] bits is not rounded. *)
Lemma round_int s n :
  digits2 n <= prec ->
  ∃ m, binary_round prec emax s n 0 = S754_finite s m (digits2 n - prec) ∧
       Z.pos m = Z.pos n * 2 ^ (prec - digits2 n) ∧ digits2 m = prec.
Proof.
  intros Hd. assert (0 < digits2 n) by (unfold digits2; lia).
  assert (∃ m, shl_align n 0 (digits2 n - prec) = (m, digits2 n - prec) ∧
               Z.pos m = Z.pos n * 2 ^ (prec - digits2 n)) as (m & Hsh & Hm).
  { unfold shl_align. rewrite Z.sub_0_r. destruct (digits2 n - prec) as [|p|p] eqn:E; [|lia|].
    - exists n. split; [done|]. replace (prec - digits2 n) with 0 by lia. lia.
    - exists (Pos.iter xO n p). split; [done|].
      rewrite iter_xO. do 2 f_equal. lia. }
  assert (digits2 m = prec) as Hdm by (rewrite (digits2_shift n m (prec - digits2 n)); [lia|lia|done]).
  exists m. split; [|done]. unfold binary_round. fold (digits2 n).
  rewrite Z.add_0_r, fexp_int, Hsh by done. apply round_aux_exact; [done|lia].
Qed.

Lemma round_int_represents s n :
  digits2 n <= prec -> represents (binary_round prec emax s n 0) (cond_Zopp s (Z.pos n)).
Proof.
  intros Hd. destruct (round_int s n Hd) as (m & -> & Hm & _).
  unfold represents, mag_num, mag_den. rewrite Hm.
  replace (Z.max (digits2 n - prec) 0) with 0 by lia.
  replace (Z.max (- (digits2 n - prec)) 0) with (prec - digits2 n) by lia.
  destruct s; cbn [cond_Zopp]; lia.
Qed.
End format.

(** ** [double]s *)
Definition valid_double (v : spec_float) : Prop := valid_binary prec_double emax_double v = true.

Lemma valid_double_finite s m e :
  valid_double (S754_finite s m e) ->
  Z.pos m < 2 ^ 53 ∧ -1074 <= e <= 971 ∧ (digits2 m = 53 ∨ e = -1074).
Proof.
  unfold valid_double, valid_binary, bounded, canonical_mantissa, fexp, emin, prec_double, emax_double.
  intros [Hc%Z.eqb_eq He%Z.leb_le]%andb_prop. fold (digits2 m) in Hc.
  pose proof (digits2_bounds m) as Hb. assert (0 < digits2 m <= 53) by (unfold digits2 in *; lia).
  assert (2 ^ digits2 m <= 2 ^ 53) by (apply Z.pow_le_mono_r; lia). lia.
Qed.

(** The integers that [m_d2string] prints as such. *)
Definition in_52 (z : Z) : Prop := - (2 ^ 52 - 1) < z < 2 ^ 52.

Lemma digits2_le n d : Z.pos n < 2 ^ d -> digits2 n <= d.
Proof.
  intros Hn. pose proof (digits2_bounds n). destruct (decide (digits2 n <= d)); [done|].
  assert (2 ^ d <= 2 ^ (digits2 n - 1)) by (apply Z.pow_le_mono_r; lia). lia.
Qed.

Lemma double_of_pos s n :
  Z.pos n < 2 ^ 53 ->
  double_of_Z (cond_Zopp s (Z.pos n)) = binary_round prec_double emax_double s n 0.
Proof. by destruct s. Qed.

(** The value of a finite number in the range has no more than 52 bits. *)
Lemma represents_small s m e z :
  valid_double (S754_finite s m e) -> represents (S754_finite s m e) z -> in_52 z ->
  e < 0 ∧ ∃ n, z = cond_Zopp s (Z.pos n) ∧ Z.pos m = Z.pos n * 2 ^ (- e) ∧ digits2 n <= 52.
Proof.
  intros Hv Hr [Hl Hu]. apply valid_double_finite in Hv as (Hm & He & Hc).
  cbn [represents] in Hr. unfold mag_num, mag_den in Hr.
  assert (e < 0) as Hneg.
  { destruct (decide (e < 0)) as [|Hge]; [done|]. destruct Hc as [Hc|]; [|lia].
    pose proof (digits2_bounds m) as [Hlm _]. rewrite Hc in Hlm.
    replace (Z.max (- e) 0) with 0 in Hr by lia. replace (Z.max e 0) with e in Hr by lia.
    assert (1 <= 2 ^ e) by lia. destruct s; cbn [cond_Zopp] in Hr; nia. }
  split; [done|]. replace (Z.max e 0) with 0 in Hr by lia.
  replace (Z.max (- e) 0) with (- e) in Hr by lia.
  assert (0 < 2 ^ (- e)) by lia.
  destruct z as [|n|n]; [destruct s; cbn [cond_Zopp] in Hr; lia|exists n..];
    (destruct s; cbn [cond_Zopp] in Hr |- *; [|]; try nia);
    (split_and!; [lia|lia|apply digits2_le; lia]).
Qed.

(** Such a number is the only [double] with its value. *)
Lemma represents_double v z :
  valid_double v -> represents v z -> in_52 z -> z ≠ 0 -> v = double_of_Z z.
Proof.
  intros Hv Hr Hz H0. destruct v as [s|s| |s m e]; [done..|].
  pose proof (valid_double_finite _ _ _ Hv) as (_ & He & Hc).
  destruct (represents_small _ _ _ _ Hv Hr Hz) as (Hneg & n & -> & Hm & Hn).
  pose proof (digits2_bounds n) as [_ Hu].
  assert (2 ^ digits2 n <= 2 ^ 52) by (apply Z.pow_le_mono_r; lia).
  rewrite double_of_pos by lia.
  destruct (round_int prec_double emax_double ltac:(done) ltac:(done) ltac:(done) s n) as (m' & -> & Hm' & Hd');
    [unfold prec_double; lia|]. unfold prec_double in *.
  pose proof (digits2_shift n m (- e) ltac:(lia) Hm) as Hdm.
  assert (0 < digits2 n) by (unfold digits2; lia).
  assert (digits2 m <= 53). { apply digits2_le. pose proof (valid_double_finite _ _ _ Hv). tauto. }
  assert (e = digits2 n - 53) as -> by lia. f_equal.
  apply Pos2Z.inj. rewrite Hm, Hm'. do 2 f_equal. lia.
Qed.

Lemma SFeqb_finite s m e s' m' e' :
  SFeqb (S754_finite s m e) (S754_finite s' m' e') = true <-> (s, m, e) = (s', m', e').
Proof.
  unfold SFeqb, SFcompare. split.
  - destruct s, s'; try done; destruct (Z.compare_spec e e'); try done;
      change (Pos.compare_cont Eq m m') with (m ?= m')%positive;
      destruct (Pos.compare_spec m m'); cbn [CompOpp]; congruence.
  - intros [= -> -> ->]. rewrite Z.compare_refl. change (Pos.compare_cont Eq m' m') with (m' ?= m')%positive.
    rewrite Pos.compare_refl. by destruct s'.
Qed.

Lemma double_eq_represents s m e z :
  Z.abs z < 2 ^ 53 -> SFeqb (S754_finite s m e) (double_of_Z z) = true ->
  represents (S754_finite s m e) z ∧ z ≠ 0.
Proof.
  intros Hz E. assert (∃ s' n, z = cond_Zopp s' (Z.pos n) ∨ z = 0) as (s' & n & [->| ->]).
  { destruct z as [|n|n]; [exists true, 1%positive; by right|exists false, n; by left|exists true, n; by left]. }
  2:{ change (double_of_Z 0) with SF0 in E. unfold SFeqb in E. by destruct s. }
  assert (Z.pos n < 2 ^ 53) by (destruct s'; cbn [cond_Zopp] in Hz; lia).
  rewrite double_of_pos in E by done. pose proof (digits2_le n 53 ltac:(done)) as Hd.
  pose proof (round_int_represents prec_double emax_double ltac:(done) ltac:(done) ltac:(done) s' n Hd) as Hr.
  destruct (round_int prec_double emax_double ltac:(done) ltac:(done) ltac:(done) s' n Hd) as (m' & Eq' & _).
  rewrite Eq' in *. apply SFeqb_finite in E as [= -> -> ->]. split; [done|]. by destruct s'.
Qed.

(** ** The range test of [m_d2string] *)
Definition in_range (v : spec_float) : bool :=
  SFltb (double_of_Z (-4503599627370495)) v && SFltb v (double_of_Z 4503599627370496).

Lemma compare_lt (m n : positive) :
  (match Pos.compare_cont Eq m n with Lt => true | _ => false end) = true <-> Z.pos m < Z.pos n.
Proof.
  change (Pos.compare_cont Eq m n) with (m ?= n)%positive.
  destruct (Pos.compare_spec m n); split; done || lia.
Qed.

Lemma compare_opp_lt (m n : positive) :
  (match CompOpp (Pos.compare_cont Eq m n) with Lt => true | _ => false end) = true <->
  Z.pos n < Z.pos m.
Proof.
  change (Pos.compare_cont Eq m n) with (m ?= n)%positive.
  destruct (Pos.compare_spec m n); cbn [CompOpp]; split; done || lia.
Qed.

Lemma in_range_finite s m e :
  valid_double (S754_finite s m e) ->
  in_range (S754_finite s m e) = true <-> e < 0 ∧ (s = true -> e = -1 -> Z.pos m < 9007199254740990).
Proof.
  intros Hv. apply valid_double_finite in Hv as (Hm & He & Hc).
  unfold in_range.
  change (double_of_Z (-4503599627370495)) with (S754_finite true 9007199254740990 (-1)).
  change (double_of_Z 4503599627370496) with (S754_finite false 4503599627370496 0).
  unfold SFltb, SFcompare. destruct s; cbn [andb].
  - rewrite andb_true_r. destruct (Z.compare_spec (-1) e) as [<-|Hlt|Hgt].
    + rewrite compare_opp_lt. split; [intros Hl; split; [lia|intros _ _; lia]|intros [_ Hs]].
      by apply Hs.
    + split; [done|]. lia.
    + split; [intros _; split; [lia|intros _ ->; lia]|done].
  - destruct (Z.compare_spec e 0) as [->|Hlt|Hgt].
    + destruct Hc as [Hc|]; [|lia]. pose proof (digits2_bounds m) as [Hl _]. rewrite Hc in Hl.
      rewrite compare_lt. split; lia.
    + split; [intros _; split; [lia|done]|done].
    + split; [done|]. lia.
Qed.

Lemma trunc_in_range s m e :
  valid_double (S754_finite s m e) -> in_range (S754_finite s m e) = true ->
  ∃ z, trunc_ll (S754_finite s m e) = Some z ∧ in_52 z.
Proof.
  intros Hv (Hneg & Hs)%in_range_finite; [|done].
  apply valid_double_finite in Hv as (Hm & _ & _). cbn [trunc_ll].
  replace (Z.max e 0) with 0 by lia. replace (Z.max (- e) 0) with (- e) by lia.
  rewrite Z.mul_1_r, Z.quot_div_nonneg by lia.
  set (q := Z.pos m / 2 ^ (- e)).
  assert (0 <= q < 2 ^ 52 ∧ (s = true -> q < 2 ^ 52 - 1)) as [Hq Hq'].
  { assert (2 ^ 1 <= 2 ^ (- e)) by (apply Z.pow_le_mono_r; lia).
    split; [split; [apply Z.div_pos; lia|apply Z.div_lt_upper_bound; lia]|].
    intros ->. apply Z.div_lt_upper_bound; [lia|]. destruct (decide (e = -1)) as [->|].
    - specialize (Hs eq_refl eq_refl). simpl. lia.
    - assert (2 ^ 2 <= 2 ^ (- e)) by (apply Z.pow_le_mono_r; lia). lia. }
  unfold in_52. exists (cond_Zopp s q). destruct s; cbn [cond_Zopp]; rewrite decide_True by lia;
    (split; [done|]); [specialize (Hq' eq_refl)|]; lia.
Qed.

(** ** What is printed *)

(** The text of a [double]: an integer of 52 bits as an integer (the flag),
    anything else as ["%.17g"]. *)
Inductive d2string_text : spec_float -> bool -> list byte -> Prop :=
  | text_nan : d2string_text S754_nan false (bytes_of "nan")
  | text_inf s : d2string_text (S754_infinity s) false (sign_of s ++ bytes_of "inf")
  | text_zero s : d2string_text (S754_zero s) false (sign_of s ++ bytes_of "0")
  | text_int s m e z t :
      represents (S754_finite s m e) z -> in_52 z -> canonical t -> dec_value t = z ->
      d2string_text (S754_finite s m e) true t
  | text_other s m e :
      (∀ z, represents (S754_finite s m e) z -> ¬ in_52 z) ->
      d2string_text (S754_finite s m e) false (print_g 17 (S754_finite s m e)).

Lemma in_52_i64 z : in_52 z -> is_i64 z.
Proof. unfold in_52. word_lia. Qed.

Lemma represents_nonzero s m e z : represents (S754_finite s m e) z -> z ≠ 0.
Proof.
  intros Hr ->. unfold represents, mag_num in Hr.
  assert (0 < 2 ^ Z.max e 0) by lia. destruct s; cbn [cond_Zopp] in Hr; nia.
Qed.

(** The two branches for a number that is neither zero nor special. *)
Lemma d2string_int s m e z buf :
  valid_double (S754_finite s m e) -> represents (S754_finite s m e) z -> in_52 z ->
  m_d2string buf (S754_finite s m e) = m_ll2string buf z.
Proof.
  intros Hv Hr Hz.
  pose proof (represents_nonzero _ _ _ _ Hr) as H0.
  assert (in_range (S754_finite s m e) = true) as Hin.
  { apply in_range_finite; [done|]. destruct (represents_small _ _ _ _ Hv Hr Hz) as (Hneg & n & -> & Hm & _).
    split; [done|]. intros -> ->. change (2 ^ (- -1)) with 2 in Hm. unfold in_52, cond_Zopp in Hz. lia. }
  assert (trunc_ll (S754_finite s m e) = Some z) as Ht.
  { destruct (represents_small _ _ _ _ Hv Hr Hz) as (Hneg & n & -> & Hm & _). cbn [trunc_ll].
    replace (Z.max e 0) with 0 by lia. replace (Z.max (- e) 0) with (- e) by lia.
    rewrite Z.mul_1_r, Hm, Z.quot_mul by lia. apply decide_True. unfold in_52 in Hz. lia. }
  unfold m_d2string. cbn [isnan isinf]. change (SFeqb (S754_finite s m e) SF0) with
    (match (if s then Lt else Gt) with Eq => true | _ => false end).
  replace (match (if s then Lt else Gt) with Eq => true | _ => false end) with false by by destruct s.
  fold (in_range (S754_finite s m e)). rewrite Hin, Ht. cbn [mbind option_bind].
  assert (SFeqb (S754_finite s m e) (double_of_Z z) = true) as ->; [|done].
  rewrite <- (represents_double _ _ Hv Hr Hz H0). by apply SFeqb_finite.
Qed.

Lemma d2string_other s m e buf :
  valid_double (S754_finite s m e) -> (∀ z, represents (S754_finite s m e) z -> ¬ in_52 z) ->
  m_d2string buf (S754_finite s m e) = Some (snprintf buf (print_g 17 (S754_finite s m e))).
Proof.
  intros Hv Hn. unfold m_d2string. cbn [isnan isinf].
  replace (SFeqb (S754_finite s m e) SF0) with false by by destruct s.
  fold (in_range (S754_finite s m e)). destruct (in_range _) eqn:Hin; [|done].
  destruct (trunc_in_range _ _ _ Hv Hin) as (z & -> & Hz). cbn [mbind option_bind].
  destruct (SFeqb _ (double_of_Z z)) eqn:E; [|done]. destruct (Hn z); [|done].
  apply (double_eq_represents s m e z); [unfold in_52 in Hz; lia|done].
Qed.

Lemma snprintf_room buf text :
  (length text < length buf)%nat ->
  snprintf buf text = (Z.of_nat (length text), text ++ x00 :: drop (S (length text)) buf).
Proof.
  intros Hl. unfold snprintf. destruct buf as [|b buf]; [simpl in Hl; lia|].
  by rewrite take_ge by (simpl in *; lia).
Qed.

Lemma snprintf_cases buf text :
  snprintf buf text =
  if decide (length text < length buf)%nat
  then (Z.of_nat (length text), text ++ x00 :: drop (S (length text)) buf)
  else snprintf buf text.
Proof. case_decide; [by apply snprintf_room|done]. Qed.

(** Whether a finite [double] is an integer of 52 bits. *)
Lemma finite_cases s m e :
  (∃ z, represents (S754_finite s m e) z ∧ in_52 z) ∨
  (∀ z, represents (S754_finite s m e) z -> ¬ in_52 z).
Proof.
  cbn [represents]. assert (0 < mag_den e) by (unfold mag_den; lia).
  set (q := cond_Zopp s (mag_num m e) / mag_den e).
  destruct (decide (cond_Zopp s (mag_num m e) = q * mag_den e ∧ - (2 ^ 52 - 1) < q < 2 ^ 52)) as [[Hq Hr]|Hn].
  - left. by exists q.
  - right. intros z Hz Hr. destruct Hn.
    assert (q = z) as -> by (unfold q; rewrite Hz; by apply Z.div_mul; lia). done.
Qed.

(** Every [double] is printed in one way. *)
Lemma d2string_result v buf :
  valid_double v ->
  ∃ int t, d2string_text v int t ∧
    m_d2string buf v =
    Some (if decide (length t < length buf)%nat
          then (Z.of_nat (length t), t ++ x00 :: drop (S (length t)) buf)
          else if int then (0, buf) else snprintf buf t).
Proof.
  intros Hv. destruct v as [s|s| |s m e].
  - eexists _, _. split; [apply text_zero|]. cbv beta iota. rewrite <- snprintf_cases. by destruct s.
  - eexists _, _. split; [apply text_inf|]. cbv beta iota. rewrite <- snprintf_cases. by destruct s.
  - eexists _, _. split; [apply text_nan|]. cbv beta iota. by rewrite <- snprintf_cases.
  - destruct (finite_cases s m e) as [(z & Hr & Hz)|Hn].
    + destruct (m_ll2string_writes buf z (in_52_i64 z Hz)) as (t & Hc & Hval & _ & E).
      exists true, t. split; [by apply (text_int s m e z)|]. by rewrite (d2string_int s m e z).
    + eexists _, _. split; [by apply text_other|]. cbv beta iota. rewrite <- snprintf_cases.
      by apply d2string_other.
Qed.

(** ** Reading *)
Lemma span_digits_all ds : is_digits ds -> span isdigit ds = (ds, []).
Proof. induction 1 as [|b ds Hb _ IH]; [done|]. cbn [span]. by rewrite Hb, IH. Qed.

Lemma no_prefix_digit p a d ds :
  isdigit d = true -> tolower a ≠ bval d -> strip_prefix_ci (a :: p) (d :: ds) = None.
Proof.
  intros Hd Ha. cbn [strip_prefix_ci]. rewrite decide_False; [done|]. intros E. apply Ha. rewrite E.
  unfold tolower, isdigit in *. destruct ((65 <=? bval d) && (bval d <=? 90)) eqn:Eu; lia.
Qed.

(** Digits are read as the integer they stand for. *)
Lemma read_number_digits neg ds :
  is_digits ds -> ds ≠ [] ->
  read_number neg ds = Some (round_dec neg (udec_value ds) 0, [],
    range_errno (udec_value ds) (round_dec neg (udec_value ds) 0)).
Proof.
  intros Hds Hne. destruct ds as [|d ds]; [done|]. pose proof Hds as [Hd Hds']%Forall_cons.
  assert (∀ c, isdigit c = true -> 48 <= bval c <= 57) as Hr by (unfold isdigit; intros; lia).
  pose proof (Hr d Hd) as Hrd.
  assert (∀ p a, 57 < tolower a -> strip_prefix_ci (a :: p) (d :: ds) = None) as Hp.
  { intros p a Ha. apply no_prefix_digit; [done|lia]. }
  unfold read_number. change (bytes_of "infinity") with ("i"%byte :: bytes_of "nfinity").
  change (bytes_of "inf") with ("i"%byte :: bytes_of "nf").
  change (bytes_of "nan") with ("n"%byte :: bytes_of "an"). rewrite !Hp by done.
  assert (strip_prefix_ci (bytes_of "0x") (d :: ds) = None) as Hx.
  { change (strip_prefix_ci (bytes_of "0x") (d :: ds)) with
      (if decide (tolower "0"%byte = tolower d) then strip_prefix_ci ["x"%byte] ds else None).
    case_decide; [|done].
    destruct ds as [|d' ds]; [done|]. apply Forall_cons in Hds' as [Hd' _].
    apply no_prefix_digit; [done|]. intros E. change (120 = bval d') in E. pose proof (Hr d' Hd'). lia. }
  rewrite Hx. cbn [mbind option_bind]. unfold read_mantissa. rewrite span_digits_all by done.
  cbv beta iota. rewrite decide_False by (by intros []). cbn [mbind option_bind read_exp].
  by rewrite app_nil_r.
Qed.

Lemma skip_spaces_first c s : isspace c = false -> skip_spaces (c :: s) = c :: s.
Proof. intros Hc. cbn [skip_spaces]. by rewrite Hc. Qed.

Lemma strtold_digits b neg ds :
  is_digits ds -> ds ≠ [] ->
  strtold b (sign_of neg ++ ds) =
  (round_dec neg (udec_value ds) 0, [], range_errno (udec_value ds) (round_dec neg (udec_value ds) 0)).
Proof.
  intros Hds Hne. destruct ds as [|d ds]; [done|]. pose proof Hds as [Hd _]%Forall_cons.
  destruct (isdigit_first d Hd) as (Hs & Hm & Hp). unfold strtold.
  destruct neg; cbn [sign_of app].
  - rewrite skip_spaces_first by done. cbn [read_sign]. rewrite decide_True by done.
    by rewrite read_number_digits.
  - rewrite skip_spaces_first by done. cbn [read_sign]. rewrite !decide_False by done.
    by rewrite read_number_digits.
Qed.

(** A text without NUL, not too long, whose first byte is no space. *)
Lemma m_string2ld_strtold b s v :
  Z.of_nat (length s) < 5120 -> x00 ∉ s ->
  match s with c :: _ => isspace c = false | [] => True end ->
  strtold b s = (v, [], E0) -> isnan v = false ->
  m_string2ld b s = Some v.
Proof.
  intros Hl Hn Hs E Hv. unfold m_string2ld, MAX_LONG_DOUBLE_CHARS.
  destruct (Z.leb_spec (5 * 1024) (Z.of_nat (length s))); [lia|].
  rewrite c_str_app_nul, E, Hv by done. cbv beta iota.
  destruct s as [|c s]; [done|]. by rewrite Hs.
Qed.

(** The canonical text of an integer: a sign and digits. *)
Lemma canonical_split t :
  canonical t ->
  ∃ neg ds, t = sign_of neg ++ ds ∧ is_digits ds ∧ ds ≠ [] ∧ dec_value t = cond_Zopp neg (udec_value ds).
Proof.
  unfold canonical, dec_value. destruct t as [|c t]; [done|]. case_decide as Hc.
  - intros [[Hd Hne]%ucanonical_digits _]. exists true, t. subst c. done.
  - intros [Hd Hne]%ucanonical_digits. by exists false, (c :: t).
Qed.

(** The same number in two formats. *)
Inductive same_number : spec_float -> spec_float -> Prop :=
  | same_zero s : same_number (S754_zero s) (S754_zero s)
  | same_inf s : same_number (S754_infinity s) (S754_infinity s)
  | same_int v w z : represents v z -> represents w z -> same_number v w.

(** What is printed exactly: infinities, zeros, integers of 52 bits. *)
Definition exactly_printed (v : spec_float) : Prop :=
  match v with
  | S754_nan => False
  | S754_finite _ _ _ => ∃ z, represents v z ∧ in_52 z
  | _ => True
  end.

Lemma sign_no_nul neg : x00 ∉ sign_of neg.
Proof.
  destruct neg; cbn [sign_of]; [|apply not_elem_of_nil].
  apply not_elem_of_cons. split; [done|apply not_elem_of_nil].
Qed.

Lemma m_string2ld_int b neg ds :
  is_digits ds -> ds ≠ [] -> Z.of_nat (length ds) < 5000 -> 0 < udec_value ds < 2 ^ 64 ->
  ∃ w, m_string2ld b (sign_of neg ++ ds) = Some w ∧ represents w (cond_Zopp neg (udec_value ds)).
Proof.
  intros Hds Hne Hlen Hval. pose proof (strtold_digits b neg ds Hds Hne) as E.
  destruct (udec_value ds) as [|n|n] eqn:En; [lia| |lia].
  unfold round_dec in E. rewrite Z.mul_1_r in E. cbn [Z.leb Z.compare Z.to_pos] in E.
  pose proof (digits2_le n 64 ltac:(lia)) as Hn.
  pose proof (round_int_represents prec_ldouble emax_ldouble ltac:(done) ltac:(done) ltac:(done) neg n Hn) as Hr.
  destruct (round_int prec_ldouble emax_ldouble ltac:(done) ltac:(done) ltac:(done) neg n Hn) as (m & Em & _).
  rewrite Em in *. eexists. split; [|exact Hr].
  apply m_string2ld_strtold; [|intros Hin| |exact E|done].
  - rewrite length_app. destruct neg; cbn [sign_of length]; lia.
  - apply elem_of_app in Hin as [Hin|Hin]; [by destruct (sign_no_nul neg)|by destruct (digits_no_nul ds Hds)].
  - destruct neg; [done|]. destruct ds as [|d ds]; [done|]. apply Forall_cons in Hds as [Hd _].
    by apply isdigit_first.
Qed.

Lemma udec_value_pos ds : is_digits ds -> 0 <= udec_value ds.
Proof. intros Hds. pose proof (udec_value_from_bound ds Hds 0). unfold udec_value. lia. Qed.

(** ** The last zeros of [m_ld2string] *)
Lemma drop_zeros_snoc s b :
  drop_zeros (s ++ [b]) = if decide (b = "0"%byte) then drop_zeros s else s ++ [b].
Proof.
  induction s as [|a s IH]; [done|]. cbn [app drop_zeros]. rewrite IH. case_decide; [done|].
  by destruct s.
Qed.

(** What is left, and the zeros. *)
Lemma drop_zeros_split s : ∃ k, s = drop_zeros s ++ replicate k "0"%byte.
Proof.
  induction s as [|b s [k IH]] using rev_ind; [by exists O|]. rewrite drop_zeros_snoc.
  case_decide as Hb.
  - exists (S k). rewrite replicate_S_end, app_assoc, <- IH. by rewrite Hb.
  - exists O. by rewrite app_nil_r.
Qed.

Lemma drop_zeros_last s s' b : drop_zeros s = s' ++ [b] -> b ≠ "0"%byte.
Proof.
  induction s as [|a s IH] using rev_ind; [by destruct s'|]. rewrite drop_zeros_snoc.
  case_decide; [done|]. by intros [_ [= <-]]%app_inj_2.
Qed.

Lemma trim_loop_zeros fuel a fp rest l :
  (length fp < fuel)%nat ->
  trim_loop fuel (a ++ "."%byte :: fp ++ rest) (Z.of_nat (length a + length fp)) l =
  Some (Z.of_nat (length a + length (drop_zeros fp)),
        l - Z.of_nat (length fp) + Z.of_nat (length (drop_zeros fp))).
Proof.
  revert fuel rest l. induction fp as [|b fp IH] using rev_ind; intros fuel rest l Hf;
    (destruct fuel as [|fuel]; [lia|]); cbn [trim_loop]; rewrite decide_True by lia; rewrite Nat2Z.id.
  - cbn [length drop_zeros]. rewrite Nat.add_0_r, list_lookup_middle by done. cbn [mbind option_bind].
    rewrite decide_False by done. do 2 f_equal; lia.
  - rewrite length_app in Hf |- *. cbn [length] in Hf |- *. rewrite drop_zeros_snoc.
    rewrite <- (app_assoc fp), (app_comm_cons fp _ "."%byte), app_assoc. cbn [app].
    rewrite list_lookup_middle by (rewrite length_app; simpl; lia). cbn [mbind option_bind].
    case_decide as Hb.
    + rewrite <- app_assoc. cbn [app].
      replace (Z.of_nat (length a + (length fp + 1)) - 1) with (Z.of_nat (length a + length fp)) by lia.
      rewrite IH by lia. do 2 f_equal. lia.
    + rewrite length_app. cbn [length]. do 2 f_equal; lia.
Qed.

Lemma fraction_text_length fp :
  length (fraction_text fp) = match length (drop_zeros fp) with O => O | n => S n end.
Proof. unfold fraction_text. by destruct (drop_zeros fp). Qed.

Lemma trim_zeros_spec a fp rest :
  x00 ∉ a ++ "."%byte :: fp ->
  Forall (λ b, b ≠ "."%byte) fp ->
  trim_zeros (a ++ "."%byte :: fp ++ x00 :: rest) (Z.of_nat (length (a ++ "."%byte :: fp))) =
  Some (Z.of_nat (length (a ++ fraction_text fp))).
Proof.
  intros Hn Hf. unfold trim_zeros. rewrite (app_comm_cons fp), app_assoc, c_str_app_nul by done.
  rewrite decide_True by set_solver. rewrite <- app_assoc. cbn [app]. rewrite !length_app. cbn [length].
  replace (Z.of_nat (length a + S (length fp)) - 1) with (Z.of_nat (length a + length fp)) by lia.
  rewrite trim_loop_zeros by (rewrite ?length_app; simpl; rewrite ?length_app; lia).
  cbn [mbind option_bind]. rewrite Nat2Z.id, fraction_text_length.
  destruct (drop_zeros_split fp) as [k Hk]. destruct (drop_zeros fp) as [|b u _] eqn:E using rev_ind.
  - cbn [length]. rewrite Nat.add_0_r, list_lookup_middle by done. cbn [mbind option_bind].
    rewrite decide_True by done. f_equal. lia.
  - assert (b ≠ "."%byte) as Hb.
    { rewrite Forall_forall in Hf. apply Hf. rewrite Hk. set_solver. }
    rewrite length_app, Nat.add_1_r.
    assert ((a ++ "."%byte :: fp ++ x00 :: rest) !! (length a + S (length u))%nat = Some b) as ->.
    { rewrite lookup_app_r by lia. replace (length a + S (length u) - length a)%nat with (S (length u)) by lia.
      cbn [lookup list_lookup]. rewrite Hk, <- !app_assoc. cbn [app]. by apply list_lookup_middle. }
    cbn [mbind option_bind]. rewrite decide_False by done. f_equal. lia.
Qed.

(** ** Decimal expansions *)
Lemma count_dec_ndigits fuel v :
  0 <= v < 10 * 2 ^ Z.of_nat fuel -> ndigits v (Z.of_nat (count_dec fuel v)).
Proof.
  revert v. induction fuel as [|fuel IH]; intros v Hv; cbn [count_dec].
  { unfold ndigits. simpl in *. lia. }
  destruct (Z.ltb_spec v 10) as [Hs|Hs]; [unfold ndigits; simpl; lia|].
  rewrite Nat2Z.inj_succ, Z.pow_succ_r in Hv by lia.
  destruct (IH (v / 10)) as (Hn & Hu & Hl).
  { split; [apply Z.div_pos; lia|apply Z.div_lt_upper_bound; lia]. }
  set (n := Z.of_nat (count_dec fuel (v / 10))) in *. rewrite Nat2Z.inj_succ. fold n.
  pose proof (Z.div_mod v 10 ltac:(lia)). pose proof (Z.mod_pos_bound v 10 ltac:(lia)).
  split; [lia|]. rewrite Z.pow_succ_r by lia. split; [lia|]. right.
  replace (Z.succ n - 1) with n by lia. destruct Hl as [->|Hl]; [simpl; lia|].
  replace n with (Z.succ (n - 1)) by lia. rewrite Z.pow_succ_r by lia. lia.
Qed.

Lemma udec_ucanonical v : 0 <= v -> ucanonical (udec v) ∧ udec_value (udec v) = v.
Proof.
  intros Hv. apply ucanonical_wdigits; [done|]. apply count_dec_ndigits.
  rewrite Z2Nat.id by apply Z.log2_nonneg. destruct (decide (v = 0)) as [->|]; [simpl; lia|].
  pose proof (Z.log2_spec v ltac:(lia)) as [_ Hu]. rewrite Z.pow_succ_r in Hu by apply Z.log2_nonneg. lia.
Qed.

(** The value that ["%.17Lf"] prints, times 10^17: a number of 17 places, the
    nearest one to the magnitude of [v]. *)
Definition fixed17 (v : spec_float) : Z :=
  match v with S754_finite _ m e => scaled 17 (mag_num m e) (mag_den e) | _ => 0 end.
Definition sign_bit (v : spec_float) : bool :=
  match v with S754_finite s _ _ | S754_zero s => s | _ => false end.
Definition finite_number (v : spec_float) : Prop :=
  match v with S754_finite _ _ _ | S754_zero _ => True | _ => False end.

Lemma round_half_even_nearest n d : 0 < d -> 2 * Z.abs (round_half_even n d * d - n) <= d.
Proof.
  intros Hd. unfold round_half_even. pose proof (Z.div_mod n d ltac:(lia)). pose proof (Z.mod_pos_bound n d Hd).
  destruct (Z.compare_spec (2 * (n mod d)) d); [destruct (Z.even (n / d))|..]; nia.
Qed.

Lemma fixed17_nonneg v : 0 <= fixed17 v.
Proof.
  destruct v as [s|s| |s m e]; cbn [fixed17]; [lia..|]. unfold scaled.
  assert (0 < mag_den e) as Hd by (unfold mag_den; lia).
  pose proof (round_half_even_nearest (mag_num m e * 10 ^ 17) (mag_den e) Hd) as Hr.
  assert (0 < mag_num m e * 10 ^ 17) by (unfold mag_num; lia). nia.
Qed.

Lemma print_f_text v :
  finite_number v ->
  print_f 17 v = sign_of (sign_bit v) ++ udec (fixed17 v / 10 ^ 17) ++ "."%byte :: wdigits 17 (fixed17 v mod 10 ^ 17).
Proof. by destruct v. Qed.

(** A fraction without its last zeros has the same value. *)
Lemma drop_zeros_value fp :
  udec_value fp = udec_value (drop_zeros fp) * 10 ^ (Z.of_nat (length fp) - Z.of_nat (length (drop_zeros fp))).
Proof.
  destruct (drop_zeros_split fp) as [k Hk]. rewrite Hk at 1 3. unfold udec_value at 1.
  rewrite udec_value_from_app, udec_value_from_lin, length_app, length_replicate.
  assert (udec_value (replicate k "0"%byte) = 0) as ->.
  { clear. induction k as [|k IH]; [done|]. exact IH. }
  rewrite Z.add_0_r. fold (udec_value (drop_zeros fp)). do 2 f_equal. lia.
Qed.

(** The digits behind the point that are left, for a number of 17 places. *)
Definition human_fraction (v : spec_float) : list byte := drop_zeros (wdigits 17 (fixed17 v mod 10 ^ 17)).
Definition human_text (v : spec_float) : list byte :=
  sign_of (sign_bit v) ++ udec (fixed17 v / 10 ^ 17) ++
  (if decide (human_fraction v = []) then [] else "."%byte :: human_fraction v).

Lemma human_text_value v :
  let ip := udec (fixed17 v / 10 ^ 17) in
  ucanonical ip ∧ is_digits (human_fraction v) ∧ last (human_fraction v) ≠ Some "0"%byte ∧
  (length (human_fraction v) <= 17)%nat ∧
  fixed17 v = udec_value ip * 10 ^ 17 +
              udec_value (human_fraction v) * 10 ^ (17 - Z.of_nat (length (human_fraction v))).
Proof.
  pose proof (fixed17_nonneg v) as Hnn. unfold human_fraction.
  destruct (udec_ucanonical (fixed17 v / 10 ^ 17)) as [Hc Hval]; [apply Z.div_pos; lia|].
  set (fp := wdigits 17 (fixed17 v mod 10 ^ 17)).
  pose proof (length_wdigits 17 (fixed17 v mod 10 ^ 17)) as Hlen. fold fp in Hlen.
  pose proof (wdigits_isdigit 17 (fixed17 v mod 10 ^ 17)) as Hd. fold fp in Hd.
  pose proof (drop_zeros_value fp) as Hv. rewrite Hlen in Hv.
  change (Z.of_nat 17) with 17 in Hv.
  destruct (drop_zeros_split fp) as [k Hk]. split; [done|]. split_and!.
  - rewrite Hk in Hd. by apply Forall_app in Hd as [Hd _].
  - intros (s' & E)%last_Some. by apply drop_zeros_last in E.
  - apply (f_equal length) in Hk. rewrite length_app in Hk. lia.
  - rewrite Hval, <- Hv. unfold fp. rewrite udec_value_wdigits.
    change (10 ^ Z.of_nat 17) with (10 ^ 17). rewrite Z.mod_mod by lia.
    pose proof (Z.div_mod (fixed17 v) (10 ^ 17) ltac:(lia)). lia.
Qed.

(** What the loop of [m_ld2string] leaves of the number. *)
Lemma human_trim v rest :
  finite_number v ->
  trim_zeros (print_f 17 v ++ x00 :: rest) (Z.of_nat (length (print_f 17 v))) =
  Some (Z.of_nat (length (human_text v))) ∧
  take (length (human_text v)) (print_f 17 v) = human_text v ∧
  (length (human_text v) <= length (print_f 17 v))%nat.
Proof.
  intros Hf. rewrite print_f_text by done. pose proof (human_text_value v) as (Hc & _).
  apply ucanonical_digits in Hc as [Hc _].
  unfold human_text, human_fraction.
  set (ip := udec _) in *. set (fp := wdigits 17 _).
  assert (is_digits fp) as Hd by apply wdigits_isdigit.
  assert (human_fraction v = drop_zeros fp) as Hh by done.
  assert ((if decide (drop_zeros fp = []) then [] else "."%byte :: drop_zeros fp) = fraction_text fp) as ->.
  { unfold fraction_text. by destruct (drop_zeros fp). }
  rewrite !(app_assoc (sign_of _)). set (a := sign_of _ ++ ip).
  destruct (drop_zeros_split fp) as [k Hk].
  assert (∃ r, a ++ "."%byte :: fp = (a ++ fraction_text fp) ++ r) as [r Hr].
  { unfold fraction_text. destruct (drop_zeros fp) as [|b u].
    - exists ("."%byte :: fp). by rewrite app_nil_r.
    - exists (replicate k "0"%byte). rewrite <- app_assoc. cbn [app]. by rewrite Hk at 1. }
  split; [|rewrite Hr; split; [by rewrite take_app_length|rewrite (length_app (a ++ _)); lia]].
  rewrite <- app_assoc. cbn [app]. apply trim_zeros_spec.
  - intros [[Hin|Hin]%elem_of_app|[?|Hin]%elem_of_cons]%elem_of_app; [|by apply (digits_no_nul ip)|done|by apply (digits_no_nul fp)].
    by apply sign_no_nul in Hin.
  - apply (Forall_impl _ _ _ Hd). by intros b Hb ->.
Qed.

(** The result of [m_ld2string]: [t] with its NUL at the head of the buffer. *)
Definition holds_text (buf' buf t : list byte) : Prop :=
  length buf' = length buf ∧ take (length t) buf' = t ∧ buf' !! length t = Some x00.

Lemma store_holds buf t :
  take (length t) buf = t -> (length t < length buf)%nat ->
  ∃ buf', store buf (Z.of_nat (length t)) x00 = Some buf' ∧ holds_text buf' buf t.
Proof.
  intros Ht Hl. unfold store. rewrite decide_True by lia. rewrite Nat2Z.id. eexists. split; [done|].
  split; [by rewrite length_insert|]. split; [by rewrite take_insert_ge by lia|].
  by apply list_lookup_insert_eq.
Qed.

Lemma snprintf_length buf text : length (snd (snprintf buf text)) = length buf.
Proof.
  unfold snprintf. destruct buf as [|b buf]; [done|]. cbn [snd]. rewrite length_app. cbn [length].
  rewrite length_drop, length_take. simpl. lia.
Qed.

(** The text of a [long double], and the room it takes while it is made. *)
Definition ld_text (v : spec_float) (human : bool) : list byte :=
  match v with
  | S754_infinity s => sign_of s ++ bytes_of "inf"
  | S754_nan => bytes_of "nan"
  | _ => if human then human_text v else print_g 17 v
  end.
Definition ld_room (v : spec_float) (human : bool) : nat :=
  match v with
  | S754_infinity _ => 5
  | _ => S (length (if human then print_f 17 v else print_g 17 v))
  end.

Lemma ld_number v buf human :
  finite_number v ->
  ∃ buf',
    m_ld2string buf v human =
      Some (if decide (ld_room v human <= length buf)%nat then Z.of_nat (length (ld_text v human)) else 0, buf') ∧
    length buf' = length buf ∧
    ((ld_room v human <= length buf)%nat -> holds_text buf' buf (ld_text v human)).
Proof.
  intros Hf. assert (ld_room v human = S (length (if human then print_f 17 v else print_g 17 v))) as -> by by destruct v.
  assert (ld_text v human = if human then human_text v else print_g 17 v) as -> by by destruct v.
  assert (isinf v = false) as Hi by by destruct v.
  unfold m_ld2string. rewrite Hi.
  set (raw := if human then print_f 17 v else print_g 17 v).
  destruct (decide (S (length raw) <= length buf)%nat) as [Hl|Hl].
  2:{ exists (snd (snprintf buf raw)). split; [|split; [apply snprintf_length|done]].
      destruct human; subst raw; cbn [snprintf fst snd];
        (match goal with |- context [?a <? ?b] => destruct (Z.ltb_spec a b) end; [done|lia]). }
  assert (∃ t, take (length t) raw = t ∧ (length t <= length raw)%nat ∧
     t = (if human then human_text v else print_g 17 v) ∧
     (if human then trim_zeros (raw ++ x00 :: drop (S (length raw)) buf) (Z.of_nat (length raw)) = Some (Z.of_nat (length t))
      else length t = length raw)) as (t & Ht & Htl & <- & Htrim).
  { destruct human.
    - exists (human_text v). destruct (human_trim v (drop (S (length raw)) buf) Hf) as (? & ? & ?). done.
    - exists raw. rewrite take_ge by lia. done. }
  destruct (store_holds (raw ++ x00 :: drop (S (length raw)) buf) t) as (buf' & Hs & Hb & Htk & Hnul).
  { by rewrite take_app_le by lia. }
  { rewrite length_app. simpl. lia. }
  assert (length buf' = length buf) as Hlb.
  { rewrite Hb, length_app. cbn [length]. rewrite length_drop. lia. }
  exists buf'. split; [|done].
  destruct human; subst raw; rewrite snprintf_room by lia;
    (match goal with |- context [?a <? ?b] => destruct (Z.ltb_spec a b); [lia|] end).
  - rewrite Htrim. cbn [mbind option_bind]. by rewrite Hs.
  - rewrite Htrim in Hs |- *. by rewrite Hs.
Qed.

(** An infinity and what is no number. *)
Lemma ld_special v buf human :
  ¬ finite_number v ->
  ∃ buf',
    m_ld2string buf v human =
      Some (if decide (ld_room v human <= length buf)%nat then Z.of_nat (length (ld_text v human)) else 0, buf') ∧
    length buf' = length buf ∧
    ((ld_room v human <= length buf)%nat -> holds_text buf' buf (ld_text v human)).
Proof.
  intros Hf. destruct v as [s|s| |s m e]; [by destruct Hf| | |by destruct Hf].
  - unfold m_ld2string. cbn [isinf ld_room]. destruct (decide (5 <= length buf)%nat) as [Hl|Hl].
    2:{ exists buf. destruct (Z.ltb_spec (Z.of_nat (length buf)) 5); [done|lia]. }
    destruct (Z.ltb_spec (Z.of_nat (length buf)) 5); [lia|].
    set (t := sign_of s ++ bytes_of "inf").
    assert (length t <= 4)%nat by (destruct s; simpl; lia).
    destruct (store_holds (t ++ drop (length t) buf) t) as (buf' & Hs & Hb & Htk & Hnul).
    { apply take_app_length. }
    { rewrite length_app, length_drop. lia. }
    assert (length buf' = length buf) as Hlb by (rewrite Hb, length_app, length_drop; lia).
    exists buf'. split; [|done].
    destruct s; [change (SFltb SF0 (S754_infinity true)) with false|change (SFltb SF0 (S754_infinity false)) with true];
      cbv iota; unfold memcpy; rewrite decide_True by (simpl; lia); cbn [mbind option_bind];
      change (Z.of_nat (length t)) with 4 in Hs || change (Z.of_nat (length t)) with 3 in Hs;
      (etransitivity; [apply (f_equal (λ o, o ≫= _)); exact Hs|done]).
  - set (t := bytes_of "nan"). unfold m_ld2string. cbn [isinf ld_room].
    assert ((x00 ∉ t) ∧ ("."%byte ∉ t)) as [Hnt Hdt] by (by apply (bool_decide_unpack _); vm_compute).
    assert (∀ h, (if h : bool then print_f 17 S754_nan else print_g 17 S754_nan) = t) as Ht by by intros [].
    rewrite Ht. destruct (decide (S (length t) <= length buf)%nat) as [Hl|Hl].
    2:{ exists (snd (snprintf buf t)). split; [|split; [apply snprintf_length|done]].
        destruct human; cbn [print_f print_g snprintf]; fold t;
          (match goal with |- context [?a <? ?b] => destruct (Z.ltb_spec a b) end; [done|lia]). }
    destruct (store_holds (t ++ x00 :: drop (S (length t)) buf) t) as (buf' & Hs & Hb & Htk & Hnul).
    { apply take_app_length. }
    { rewrite length_app. simpl. lia. }
    assert (length buf' = length buf) as Hlb.
    { rewrite Hb, length_app. cbn [length]. rewrite length_drop. lia. }
    exists buf'. split; [|done].
    destruct human; cbn [print_f print_g]; fold t; rewrite snprintf_room by lia;
      (match goal with |- context [?a <? ?b] => destruct (Z.ltb_spec a b); [lia|] end);
      [unfold trim_zeros; rewrite decide_False by (by rewrite c_str_app_nul); cbn [mbind option_bind]|];
      by rewrite Hs.
Qed.

(** ** Properties *)

(** What [m_d2string] returns and writes, for every [double] and every buffer. *)
Theorem m_d2string_spec v buf :
  valid_double v ->
  ∃ int t, d2string_text v int t ∧
    m_d2string buf v =
    Some (if decide (length t < length buf)%nat
          then (Z.of_nat (length t), t ++ x00 :: drop (S (length t)) buf)
          else if int then (0, buf) else snprintf buf t).
Proof. apply d2string_result. Qed.

(** What [m_ld2string] returns and leaves in the buffer, for every number, both
    ways of printing and every buffer. *)
Theorem m_ld2string_spec v buf human :
  ∃ buf',
    m_ld2string buf v human =
      Some (if decide (ld_room v human <= length buf)%nat then Z.of_nat (length (ld_text v human)) else 0, buf') ∧
    length buf' = length buf ∧
    ((ld_room v human <= length buf)%nat -> holds_text buf' buf (ld_text v human)).
Proof.
  assert (finite_number v ∨ ¬ finite_number v) as [Hf|Hf] by (destruct v; cbn; tauto).
  - by apply ld_number.
  - by apply ld_special.
Qed.

(** What [m_d2string] prints of an infinity, of a zero or of an integer of
    52 bits is read by [m_string2ld] as the same number, in a buffer of 32 bytes
    or more. *)
Theorem m_d2string_roundtrip b v buf :
  valid_double v -> exactly_printed v -> (32 <= length buf)%nat ->
  ∃ n buf' w, m_d2string buf v = Some (Z.of_nat n, buf') ∧
    m_string2ld b (take n buf') = Some w ∧ same_number v w.
Proof.
  intros Hv He Hl. destruct v as [s|s| |s m e]; [| |done|].
  - eexists _, _, (S754_zero s). split; [|split; [|constructor]].
    + transitivity (Some (snprintf buf (sign_of s ++ bytes_of "0"))); [by destruct s|].
      rewrite snprintf_room by (destruct s; simpl; lia). done.
    + rewrite take_app_length. by destruct b, s.
  - eexists _, _, (S754_infinity s). split; [|split; [|constructor]].
    + transitivity (Some (snprintf buf (sign_of s ++ bytes_of "inf"))); [by destruct s|].
      rewrite snprintf_room by (destruct s; simpl; lia). done.
    + rewrite take_app_length. by destruct b, s.
  - destruct He as (z & Hr & Hz).
    destruct (m_ll2string_writes buf z (in_52_i64 z Hz)) as (t & Hc & Hval & Hlen & E).
    rewrite decide_True in E by lia. pose proof (represents_nonzero _ _ _ _ Hr) as H0.
    destruct (canonical_split t Hc) as (neg & ds & -> & Hds & Hne & Hdec). rewrite Hval in Hdec.
    pose proof (udec_value_pos ds Hds). rewrite length_app in Hlen.
    destruct (m_string2ld_int b neg ds Hds Hne) as (w & Hw & Hrw).
    + lia.
    + unfold in_52 in Hz. destruct neg; cbn [cond_Zopp] in Hdec; lia.
    + eexists _, _, w. rewrite (d2string_int s m e z) by done.
      split; [exact E|]. rewrite take_app_length. split; [done|].
      apply (same_int _ _ z Hr). by rewrite Hdec.
Qed.

(** ** What [m_string2ld] takes for a number *)

(** Nothing behind a NUL is looked at. *)
Theorem m_string2ld_nul b s t :
  Z.of_nat (length (s ++ x00 :: t)) < MAX_LONG_DOUBLE_CHARS -> x00 ∉ s ->
  m_string2ld b (s ++ x00 :: t) = m_string2ld b s.
Proof.
  intros Hl Hs. unfold m_string2ld. rewrite length_app in Hl |- *. cbn [length] in Hl |- *.
  destruct (Z.leb_spec MAX_LONG_DOUBLE_CHARS (Z.of_nat (length s + S (length t)))); [lia|].
  destruct (Z.leb_spec MAX_LONG_DOUBLE_CHARS (Z.of_nat (length s))); [lia|].
  rewrite <- app_assoc. cbn [app]. by rewrite !c_str_app_nul.
Qed.

Lemma m_string2ld_nul_witness :
  m_string2ld false (bytes_of "1.5" ++ x00 :: bytes_of "abc") = m_string2ld false (bytes_of "1.5").
Proof. apply m_string2ld_nul; [done|]. by apply (bool_decide_unpack _); vm_compute. Defined.

(** The empty string is the number 0 where [strtold] leaves [errno] alone. *)
Example ex_empty_number : m_string2ld false [] = Some SF0 ∧ m_string2ld true [] = None.
Proof. vm_compute. done. Qed.

(** Without room for an integer the result is 0 and not the number of bytes
    required, which is what a fraction gives. *)
Example ex_no_room :
  m_d2string [x41; x41] (double_of_Z 123) = Some (0, [x41; x41]) ∧
  m_d2string [x41; x41] (double_of_Q 1 10) = Some (19, ["0"%byte; x00]).
Proof. vm_compute. done. Qed.

(** A short text needs the room of all its zeros. *)
Example ex_zeros_room :
  m_ld2string (replicate 20 x41) (dec_float "100") true =
    Some (0, bytes_of "100.000000000000000" ++ [x00]) ∧
  shown (m_ld2string (replicate 22 x41) (dec_float "100") true) = Some (bytes_of "100").
Proof. vm_compute. done. Qed.

(** ** Witnesses *)
Lemma m_d2string_spec_witness :
  valid_double (double_of_Q (-5) 2) ∧
  ∃ int t, d2string_text (double_of_Q (-5) 2) int t ∧
    m_d2string (replicate 8 x41) (double_of_Q (-5) 2) =
    Some (if decide (length t < length (replicate 8 x41))%nat
          then (Z.of_nat (length t), t ++ x00 :: drop (S (length t)) (replicate 8 x41))
          else if int then (0, replicate 8 x41) else snprintf (replicate 8 x41) t).
Proof. split; [by vm_compute|apply m_d2string_spec; by vm_compute]. Defined.

Lemma m_d2string_roundtrip_witness :
  ∃ n buf' w, m_d2string (replicate 42 x41) (double_of_Z (-1203)) = Some (Z.of_nat n, buf') ∧
    m_string2ld false (take n buf') = Some w ∧ same_number (double_of_Z (-1203)) w.
Proof.
  apply m_d2string_roundtrip; [by vm_compute| |by apply (bool_decide_unpack _); vm_compute].
  exists (-1203). split; [by vm_compute|]. unfold in_52. lia.
Defined.
