(* ===== verification/DictStats.v ===== *)
(** * DictStats: the statistics of a hash table, dep/dict.c

    [_dictGetStatsHt] and [m_dictGetStats] print what they count to a buffer of
    the caller.  [mem] is that buffer, with what is behind it left out: a write
    behind its end is undefined ([None]).  The averages and the percentages are
    [float]s. *)

From Stdlib Require Import Floats.SpecFloat.
From S2P Require Import Prelude.
From S2P Require Import KeySlot.
From S2P Require Import Numbers.
From S2P Require Import SipHash.
From S2P Require Import Dict.
From S2P Require Import DictInv.
From S2P Require Import DictProps.
From S2P Require Import MemUnits.
From S2P Require Import Floats.
Local Open Scope Z_scope.

Definition DICT_STATS_VECTLEN : nat := 50.

(** [(float)z], the quotient and the product of two [float]s. *)
Definition float_of_Z (z : Z) : spec_float := binary_normalize 24 128 z 0 false.
Definition float_div : spec_float -> spec_float -> spec_float := SFdiv 24 128.
Definition float_mul : spec_float -> spec_float -> spec_float := SFmul 24 128.

(** ["%ld"] of a 64-bit number. *)
Definition long_text (z : Z) : list byte := sign_of (i64 z <? 0) ++ udec (Z.abs (i64 z)).

Definition newline : list byte := [x0a].

(** [snprintf(buf + off, size, ...)] with [buf] at the head of [mem]. *)
Definition snprintf_at (mem : list byte) (off size : Z) (text : list byte) : option (list byte) :=
  if decide (size = 0) then Some mem
  else
    let w := (if Z.of_nat (length text) <? size then text else take (Z.to_nat (size - 1)) text) ++ [x00] in
    if decide (0 <= off ∧ off + Z.of_nat (length w) <= Z.of_nat (length mem))
    then Some (take (Z.to_nat off) mem ++ w ++ drop (Z.to_nat off + length w) mem)
    else None.

(** [strlen(buf + off)]. *)
Definition strlen_at (mem : list byte) (off : Z) : option Z :=
  let s := drop (Z.to_nat off) mem in
  if decide (x00 ∈ s) then Some (Z.of_nat (length (c_str s))) else None.

Record stats := Stats { clvector : list Z; slots : Z; maxchainlen : Z; totchainlen : Z }.

Section dict.
Context {K V : Type} `{EqDecision K}.
Implicit Types (d : dict K V) (ht : dictht K V).

(** One round of the loop over the buckets. *)
Definition count_chain (he : list (m_dictEntry K V)) (st : stats) : stats :=
  match he with
  | [] => Stats (alter (λ n, u64 (n + 1)) 0%nat (clvector st)) (slots st) (maxchainlen st) (totchainlen st)
  | _ =>
    let chainlen := Z.of_nat (length he) in
    let i := if chainlen <? Z.of_nat DICT_STATS_VECTLEN then Z.to_nat chainlen else (DICT_STATS_VECTLEN - 1)%nat in
    Stats (alter (λ n, u64 (n + 1)) i (clvector st)) (u64 (slots st + 1))
      (if maxchainlen st <? chainlen then chainlen else maxchainlen st)
      (u64 (totchainlen st + chainlen))
  end.

(** [n] buckets to go. *)
Fixpoint count_loop (n : nat) (i : Z) ht (st : stats) : option stats :=
  match n with
  | O => Some st
  | S n => he ← bucket ht i; count_loop n (i + 1) ht (count_chain he st)
  end.

Definition compute_stats ht : option stats :=
  count_loop (Z.to_nat (ht_size ht)) 0 ht (Stats (replicate DICT_STATS_VECTLEN 0) 0 0 0).

Definition stats_header ht (tableid : Z) (st : stats) : list byte :=
  bytes_of "Hash table " ++ long_text tableid ++ bytes_of " stats (" ++
  (if decide (tableid = 0) then bytes_of "main hash table" else bytes_of "rehashing target") ++
  bytes_of "):" ++ newline ++
  bytes_of " table size: " ++ long_text (ht_size ht) ++ newline ++
  bytes_of " number of elements: " ++ long_text (ht_used ht) ++ newline ++
  bytes_of " different slots: " ++ long_text (slots st) ++ newline ++
  bytes_of " max chain length: " ++ long_text (maxchainlen st) ++ newline ++
  bytes_of " avg chain length (counted): " ++
    print_f 2 (float_div (float_of_Z (totchainlen st)) (float_of_Z (slots st))) ++ newline ++
  bytes_of " avg chain length (computed): " ++
    print_f 2 (float_div (float_of_Z (ht_used ht)) (float_of_Z (slots st))) ++ newline ++
  bytes_of " Chain length distribution:" ++ newline.

Definition stats_line ht (i : nat) (n : Z) : list byte :=
  bytes_of "   " ++ (if decide (i = (DICT_STATS_VECTLEN - 1)%nat) then bytes_of ">= " else []) ++
  long_text (Z.of_nat i) ++ bytes_of ": " ++ long_text n ++ bytes_of " (" ++
  print_f 2 (float_mul (float_div (float_of_Z n) (float_of_Z (ht_size ht))) (float_of_Z 100)) ++
  bytes_of "%)" ++ newline.

(** [for (i = 0; i < DICT_STATS_VECTLEN - 1; i++)], [n] rounds to go. *)
Fixpoint lines_loop (n i : nat) ht (st : stats) (mem : list byte) (off bufsize l : Z) : option (list byte) :=
  match n with
  | O => Some mem
  | S n =>
    c ← clvector st !! i;
    if decide (c = 0) then lines_loop n (S i) ht st mem off bufsize l
    else if bufsize <=? l then Some mem
    else
      let text := stats_line ht i c in
      mem ← snprintf_at mem (off + l) (u64 (bufsize - l)) text;
      lines_loop n (S i) ht st mem off bufsize (l + Z.of_nat (length text))
  end.

(** "Generate human readable stats". *)
Definition print_stats (mem : list byte) (off bufsize : Z) ht (tableid : Z) (st : stats) : option (list byte) :=
  let header := stats_header ht tableid st in
  mem ← snprintf_at mem off bufsize header;
  lines_loop (DICT_STATS_VECTLEN - 1) 0 ht st mem off bufsize (Z.of_nat (length header)).

Definition empty_text : list byte := bytes_of "No stats available for empty dictionaries" ++ newline.

(** The returned length, and the buffer. *)
Definition _dictGetStatsHt (mem : list byte) (off bufsize : Z) ht (tableid : Z) : option (Z * list byte) :=
  if decide (ht_used ht = 0) then
    mem ← snprintf_at mem off bufsize empty_text;
    Some (Z.of_nat (length empty_text), mem)
  else
    st ← compute_stats ht;
    mem ← print_stats mem off bufsize ht tableid st;
    mem ← (if decide (bufsize ≠ 0) then store mem (off + bufsize - 1) x00 else Some mem);
    n ← strlen_at mem off;
    Some (n, mem).

Definition m_dictGetStats (mem : list byte) (orig_bufsize : Z) d : option (list byte) :=
  '(l, mem) ← _dictGetStatsHt mem 0 orig_bufsize (ht0 d) 0;
  let bufsize := u64 (orig_bufsize - l) in
  mem ← (if dictIsRehashing d && (0 <? bufsize)
         then snd <$> _dictGetStatsHt mem l bufsize (ht1 d) 1
         else Some mem);
  if decide (orig_bufsize ≠ 0) then store mem (orig_bufsize - 1) x00 else Some mem.
End dict.

(** ** Lemmas: what is counted *)
Section counting.
Context {K V : Type} `{EqDecision K}.
Implicit Types (L : list (list (m_dictEntry K V))) (ht : dictht K V).

(** The number of chains that are counted at [k]: chains of [k] entries, and at
    49 the longer ones too. *)
Definition chains_at (k : nat) L : nat := length (filter (λ b, Nat.min (length b) 49 = k) L).
Definition used_chains L : nat := length (filter (λ b, b ≠ []) L).
Definition longest L : nat := max_list (length <$> L).

Record counts (st : stats) L : Prop := {
  counts_vector : clvector st = (λ k, Z.of_nat (chains_at k L)) <$> seq 0 50;
  counts_slots : slots st = Z.of_nat (used_chains L);
  counts_max : maxchainlen st = Z.of_nat (longest L);
  counts_total : totchainlen st = Z.of_nat (length (concat L))
}.

Lemma chains_at_snoc k L b :
  chains_at k (L ++ [b]) = (chains_at k L + if decide (Nat.min (length b) 49 = k) then 1 else 0)%nat.
Proof.
  unfold chains_at. rewrite filter_app, length_app, filter_cons. f_equal. by case_decide.
Qed.

Lemma chains_at_le k L : (chains_at k L <= length L)%nat.
Proof. apply length_filter. Qed.

Lemma alter_counts L b :
  Z.of_nat (length L) < 2 ^ 63 ->
  alter (λ n, u64 (n + 1)) (Nat.min (length b) 49) ((λ k, Z.of_nat (chains_at k L)) <$> seq 0 50) =
  (λ k, Z.of_nat (chains_at k (L ++ [b]))) <$> seq 0 50.
Proof.
  intros Hl. apply list_eq. intros k. rewrite list_lookup_alter, !list_lookup_fmap.
  pose proof (chains_at_le k L). case_decide as Hb.
  - subst k. rewrite !lookup_seq_lt by lia. cbn [fmap option_fmap option_map].
    rewrite Nat.add_0_l, chains_at_snoc, decide_True, u64_small by (done || lia). f_equal. lia.
  - destruct (decide (k < 50)%nat) as [Hk|Hk]; [|by rewrite !lookup_seq_ge by lia].
    rewrite !lookup_seq_lt by done. cbn [fmap option_fmap option_map].
    rewrite Nat.add_0_l, chains_at_snoc, decide_False by done. f_equal. lia.
Qed.

Lemma count_chain_counts st L b :
  counts st L -> Z.of_nat (length (L ++ [b])) < 2 ^ 63 -> Z.of_nat (length (concat (L ++ [b]))) < 2 ^ 63 ->
  counts (count_chain b st) (L ++ [b]).
Proof.
  intros [Hv Hs Hm Ht] Hl Hc. rewrite length_app in Hl. cbn [length] in Hl.
  assert (Z.of_nat (used_chains L) <= Z.of_nat (length L)) as Hu.
  { apply Nat2Z.inj_le, length_filter. }
  assert (length (concat (L ++ [b])) = (length (concat L) + length b)%nat) as Hconc.
  { rewrite concat_app, length_app. cbn [concat]. by rewrite app_nil_r. }
  pose proof (alter_counts L b ltac:(lia)) as Ha. rewrite <- Hv in Ha.
  assert (longest (L ++ [b]) = Nat.max (longest L) (length b)) as Hlong.
  { unfold longest. clear. induction L as [|a L IH]; cbn in *; lia. }
  assert (used_chains (L ++ [b]) = (used_chains L + if decide (b ≠ []) then 1 else 0)%nat) as Hused.
  { unfold used_chains. rewrite filter_app, length_app, filter_cons. f_equal. by case_decide. }
  destruct b as [|e b].
  - split; cbn [count_chain clvector slots maxchainlen totchainlen]; [exact Ha|..].
    + rewrite Hs, Hused, decide_False by tauto. lia.
    + rewrite Hm, Hlong. cbn [length]. lia.
    + rewrite Ht, Hconc. cbn [length]. lia.
  - unfold count_chain. set (c := e :: b) in *.
    assert ((if Z.of_nat (length c) <? Z.of_nat DICT_STATS_VECTLEN then Z.to_nat (Z.of_nat (length c))
             else (DICT_STATS_VECTLEN - 1)%nat) = Nat.min (length c) 49) as Hi.
    { unfold DICT_STATS_VECTLEN. destruct (Z.ltb_spec (Z.of_nat (length c)) (Z.of_nat 50)); lia. }
    split; cbn [clvector slots maxchainlen totchainlen].
    + by rewrite Hi.
    + rewrite Hs, Hused, decide_True by done. rewrite u64_small; lia.
    + rewrite Hm, Hlong. destruct (Z.ltb_spec (Z.of_nat (longest L)) (Z.of_nat (length c))); lia.
    + rewrite Ht, Hconc, u64_small; lia.
Qed.

Lemma count_loop_foldl ht n i st :
  (i + n = length (ht_table ht))%nat ->
  count_loop n (Z.of_nat i) ht st = Some (foldl (λ st b, count_chain b st) st (drop i (ht_table ht))).
Proof.
  revert i st. induction n as [|n IH]; intros i st Hn; cbn [count_loop].
  { by rewrite drop_ge by lia. }
  destruct (lookup_lt_is_Some_2 (ht_table ht) i) as [b Hb]; [lia|].
  assert (bucket ht (Z.of_nat i) = Some b) as ->.
  { apply bucket_Some. rewrite Nat2Z.id. split; [lia|done]. }
  cbn [mbind option_bind]. rewrite (drop_S _ b) by done. cbn [foldl].
  replace (Z.of_nat i + 1) with (Z.of_nat (S i)) by lia. apply IH. lia.
Qed.

Lemma foldl_counts L :
  Z.of_nat (length L) < 2 ^ 63 -> Z.of_nat (length (concat L)) < 2 ^ 63 ->
  counts (foldl (λ st b, count_chain b st) (Stats (replicate DICT_STATS_VECTLEN 0) 0 0 0) L) L.
Proof.
  induction L as [|b L IH] using rev_ind; intros Hl Hc; [done|].
  rewrite foldl_app. cbn [foldl]. apply count_chain_counts; [|done..].
  rewrite length_app in Hl. rewrite concat_app, length_app in Hc. apply IH; lia.
Qed.
End counting.

(** ** Lemmas: the buffer *)
Lemma snprintf_at_ok mem off size text :
  0 <= off -> 0 <= size -> off + size <= Z.of_nat (length mem) ->
  ∃ mem', snprintf_at mem off size text = Some mem' ∧ length mem' = length mem.
Proof.
  intros Ho Hs Hl. unfold snprintf_at. case_decide; [by exists mem|].
  set (w := _ ++ [x00]).
  assert (Z.of_nat (length w) <= size).
  { unfold w. rewrite length_app. destruct (Z.ltb_spec (Z.of_nat (length text)) size);
      [|rewrite length_take]; cbn [length]; lia. }
  rewrite decide_True by lia. eexists. split; [done|].
  rewrite !length_app, length_take, length_drop. lia.
Qed.

(** Behind the end not even the NUL can be written. *)
Lemma snprintf_at_over mem off size text :
  0 < size -> Z.of_nat (length mem) <= off -> snprintf_at mem off size text = None.
Proof.
  intros Hs Hl. unfold snprintf_at. rewrite decide_False by lia.
  apply decide_False. rewrite length_app. cbn [length]. lia.
Qed.

Lemma store_ok mem i b :
  0 <= i < Z.of_nat (length mem) ->
  store mem i b = Some (<[Z.to_nat i := b]> mem) ∧ length (<[Z.to_nat i := b]> mem) = length mem.
Proof. intros Hi. unfold store. rewrite decide_True by done. by rewrite length_insert. Qed.

Lemma strlen_at_ok mem off i :
  0 <= off <= i -> mem !! Z.to_nat i = Some x00 ->
  ∃ n, strlen_at mem off = Some n ∧ 0 <= n <= i - off.
Proof.
  intros Hi Hm. unfold strlen_at.
  assert (drop (Z.to_nat off) mem !! Z.to_nat (i - off) = Some x00) as Hd.
  { rewrite lookup_drop. replace (Z.to_nat off + Z.to_nat (i - off))%nat with (Z.to_nat i) by lia. done. }
  rewrite decide_True by by eapply list_elem_of_lookup_2.
  eexists. split; [done|]. split; [lia|]. clear Hm.
  assert (length (c_str (drop (Z.to_nat off) mem)) <= Z.to_nat (i - off))%nat; [|lia].
  revert Hd. generalize (drop (Z.to_nat off) mem), (Z.to_nat (i - off)). clear.
  intros s k. revert s. induction k as [|k IH]; intros [|b s] Hd; simplify_eq/=; [lia|].
  case_decide; simpl; [lia|]. specialize (IH s Hd). lia.
Qed.

Lemma empty_text_length : Z.of_nat (length empty_text) = 42.
Proof. by vm_compute. Qed.

Section safety.
Context {K V : Type} `{EqDecision K}.
Implicit Types (T : m_dictType K V) (d : dict K V) (ht : dictht K V).

Definition small_table ht : Prop :=
  Z.of_nat (length (ht_table ht)) < 2 ^ 63 ∧ Z.of_nat (length (ht_entries ht)) < 2 ^ 63.

Lemma compute_stats_counts T ht :
  ht_wf T ht -> small_table ht ->
  ∃ st, compute_stats ht = Some st ∧ counts st (ht_table ht).
Proof.
  intros Hwf [Hl He]. unfold compute_stats. rewrite (wf_size _ _ Hwf), Nat2Z.id.
  rewrite (count_loop_foldl ht _ 0) by lia. rewrite drop_0. eexists. split; [done|].
  by apply foldl_counts.
Qed.

Lemma lines_loop_ok ht st off bufsize n : ∀ i mem l,
  (i + n <= length (clvector st))%nat -> 0 <= off -> 0 <= bufsize < 2 ^ 64 -> 0 <= l ->
  off + bufsize <= Z.of_nat (length mem) ->
  ∃ mem', lines_loop n i ht st mem off bufsize l = Some mem' ∧ length mem' = length mem.
Proof.
  induction n as [|n IH]; intros i mem l Hi Ho Hb Hl Hm; cbn [lines_loop]; [by exists mem|].
  destruct (lookup_lt_is_Some_2 (clvector st) i) as [c ->]; [lia|]. cbn [mbind option_bind].
  case_decide; [apply IH; lia|]. destruct (Z.leb_spec bufsize l); [by exists mem|].
  rewrite u64_small by lia.
  destruct (snprintf_at_ok mem (off + l) (bufsize - l) (stats_line ht i c)) as (mem' & -> & Hm'); [lia..|].
  cbn [mbind option_bind]. destruct (IH (S i) mem' (l + Z.of_nat (length (stats_line ht i c)))) as (mem2 & E & Hm2); [lia..|].
  exists mem2. split; [done|]. lia.
Qed.

(** The NUL at the end, and the length that is returned. *)
Lemma finish_ok mem off bufsize :
  0 <= off -> 0 < bufsize -> off + bufsize <= Z.of_nat (length mem) ->
  ∃ l mem', (mem ← (if decide (bufsize ≠ 0) then store mem (off + bufsize - 1) x00 else Some mem);
             n ← strlen_at mem off; Some (n, mem)) = Some (l, mem') ∧
            length mem' = length mem ∧ 0 <= l < bufsize.
Proof.
  intros Ho Hb Hm. rewrite decide_True by lia.
  destruct (store_ok mem (off + bufsize - 1) x00) as [-> Hl]; [lia|]. cbn [mbind option_bind].
  set (mem3 := <[_ := _]> mem) in *.
  destruct (strlen_at_ok mem3 off (off + bufsize - 1)) as (n & -> & Hn); [lia| |].
  { apply list_lookup_insert_eq. lia. }
  exists n, mem3. split; [done|]. lia.
Qed.

(** The printing, with what was counted. *)
Lemma print_ok ht tableid st mem off bufsize :
  length (clvector st) = DICT_STATS_VECTLEN ->
  0 <= off -> 0 < bufsize < 2 ^ 64 -> off + bufsize <= Z.of_nat (length mem) ->
  ∃ mem', print_stats mem off bufsize ht tableid st = Some mem' ∧ length mem' = length mem.
Proof.
  intros Hv Ho Hb Hm. unfold print_stats. generalize (stats_header ht tableid st). intros header.
  destruct (snprintf_at_ok mem off bufsize header) as (mem1 & -> & Hm1); [lia..|]. cbn [mbind option_bind].
  destruct (lines_loop_ok ht st off bufsize (DICT_STATS_VECTLEN - 1) 0 mem1 (Z.of_nat (length header)))
    as (mem2 & E & Hm2); [rewrite Hv; unfold DICT_STATS_VECTLEN; lia|lia..|].
  exists mem2. split; [exact E|]. lia.
Qed.

(** The statistics of one table stay in the buffer; the length returned is more
    than the buffer has only for an empty table. *)
Lemma getStatsHt_ok T ht tableid mem off bufsize :
  ht_wf T ht -> small_table ht ->
  0 <= off -> 0 < bufsize < 2 ^ 64 -> off + bufsize <= Z.of_nat (length mem) ->
  ∃ l mem', _dictGetStatsHt mem off bufsize ht tableid = Some (l, mem') ∧ length mem' = length mem ∧
    if decide (ht_used ht = 0) then l = 42 else 0 <= l < bufsize.
Proof.
  intros Hwf Hs Ho Hb Hm. unfold _dictGetStatsHt. case_decide.
  { destruct (snprintf_at_ok mem off bufsize empty_text) as (mem' & -> & Hm'); [lia..|].
    cbn [mbind option_bind]. rewrite empty_text_length. by exists 42, mem'. }
  destruct (compute_stats_counts T ht Hwf Hs) as (st & -> & Hc). cbn [mbind option_bind].
  assert (length (clvector st) = DICT_STATS_VECTLEN) as Hv.
  { by rewrite (counts_vector _ _ Hc), length_fmap, length_seq. }
  destruct (print_ok ht tableid st mem off bufsize) as (mem2 & -> & Hm2); [done|lia..|].
  cbn [mbind option_bind]. destruct (finish_ok mem2 off bufsize) as (l & mem3 & -> & Hm3 & Hl); [lia..|].
  exists l, mem3. split; [done|]. lia.
Qed.

Lemma getStatsHt_over T ht tableid mem off bufsize :
  ht_wf T ht -> small_table ht -> Z.of_nat (length mem) <= off -> 0 < bufsize ->
  _dictGetStatsHt mem off bufsize ht tableid = None.
Proof.
  intros Hwf Hs Hm Hb. unfold _dictGetStatsHt. case_decide.
  - by rewrite snprintf_at_over.
  - destruct (compute_stats_counts T ht Hwf Hs) as (st & -> & Hc). cbn [mbind option_bind].
    unfold print_stats. by rewrite snprintf_at_over.
Qed.

(** The end of [m_dictGetStats]. *)
Lemma final_nul (mem0 mem : list byte) :
  mem0 ≠ [] -> length mem = length mem0 ->
  ∃ mem', (if decide (Z.of_nat (length mem0) ≠ 0) then store mem (Z.of_nat (length mem0) - 1) x00 else Some mem) = Some mem' ∧
          length mem' = length mem0 ∧ last mem' = Some x00.
Proof.
  intros Hne Hl. assert (length mem0 ≠ O) by by destruct mem0.
  rewrite decide_True by lia. destruct (store_ok mem (Z.of_nat (length mem0) - 1) x00) as [-> Hl']; [lia|].
  eexists. split; [done|]. split; [lia|]. rewrite last_lookup, Hl'.
  replace (Z.to_nat (Z.of_nat (length mem0) - 1)) with (Nat.pred (length mem)) by lia.
  apply list_lookup_insert_eq. lia.
Qed.
End safety.

(** ** Properties *)

(** What the statistics count: the chains of each length, those of 49 entries
    and more together, the buckets in use, the longest chain, the entries. *)
Theorem compute_stats_spec {K V : Type} `{EqDecision K} (T : m_dictType K V) (ht : dictht K V) :
  ht_wf T ht -> small_table ht ->
  ∃ st, compute_stats ht = Some st ∧ counts st (ht_table ht) ∧ totchainlen st = ht_used ht.
Proof.
  intros Hwf Hs. destruct (compute_stats_counts T ht Hwf Hs) as (st & E & Hc).
  exists st. split; [done|]. split; [done|]. by rewrite (counts_total _ _ Hc), (wf_used _ _ Hwf).
Qed.

(** The last entry of the vector, the chains of 49 entries and more, is never
    printed: the loop ends before it. *)
Theorem lines_loop_last {K V : Type} `{EqDecision K} (ht : dictht K V) st x n : ∀ i mem off bufsize l,
  (i + n <= 49)%nat ->
  lines_loop n i ht (Stats (<[49%nat := x]> (clvector st)) (slots st) (maxchainlen st) (totchainlen st))
    mem off bufsize l = lines_loop n i ht st mem off bufsize l.
Proof.
  induction n as [|n IH]; intros i mem off bufsize l Hi; cbn [lines_loop clvector]; [done|].
  rewrite list_lookup_insert_ne by lia. destruct (clvector st !! i) as [c|]; cbn [mbind option_bind]; [|done].
  case_decide; [apply IH; lia|]. destruct (bufsize <=? l); [done|].
  destruct (snprintf_at _ _ _ _); cbn [mbind option_bind]; [apply IH; lia|done].
Qed.

(** C34. [m_dictGetStats] stays in the buffer, and leaves a NUL at its end, unless
    the table is being rehashed with nothing left in the old one and the buffer
    has less than 42 bytes. *)
Theorem m_dictGetStats_safe_iff {K V I : Type} `{EqDecision K} `{Countable I} (key_id : K -> I)
    (d : dict K V) (mem : list byte) :
  dict_wf key_id d -> small_table (ht0 d) -> small_table (ht1 d) ->
  mem ≠ [] -> Z.of_nat (length mem) < 2 ^ 64 ->
  (∃ mem', m_dictGetStats mem (Z.of_nat (length mem)) d = Some mem' ∧
           length mem' = length mem ∧ last mem' = Some x00) <->
  ¬ (dictIsRehashing d = true ∧ ht_used (ht0 d) = 0 ∧ Z.of_nat (length mem) < 42).
Proof.
  intros Hwf Hs0 Hs1 Hne Hlen. pose proof (wf_ht0 _ _ Hwf) as H0. pose proof (wf_ht1 _ _ Hwf) as H1.
  assert (length mem ≠ O) by by destruct mem.
  destruct (getStatsHt_ok (d_type d) (ht0 d) 0 mem 0 (Z.of_nat (length mem)) H0 Hs0)
    as (l & mem1 & E1 & Hl1 & Hl); [lia..|].
  unfold m_dictGetStats. rewrite E1. cbn [mbind option_bind].
  destruct (dictIsRehashing d) eqn:Hr; cbn [andb].
  2:{ cbn [mbind option_bind]. split; [by intros _ []|]. intros _. by apply final_nul. }
  case_decide as Hu.
  - subst l. destruct (decide (Z.of_nat (length mem) < 42)) as [Hs|Hs].
    + assert (0 < u64 (Z.of_nat (length mem) - 42)) as Hb.
      { unfold u64. rewrite <- (Z.mod_add _ 1), Z.mod_small by lia. lia. }
      rewrite (proj2 (Z.ltb_lt _ _) Hb), (getStatsHt_over (d_type d)) by (done || lia). cbn.
      split; [by intros (? & ? & _)|]. intros Hn. by destruct Hn.
    + split; [by intros _ (_ & _ & ?)|]. intros _. rewrite u64_small by lia.
      destruct (Z.ltb_spec 0 (Z.of_nat (length mem) - 42)).
      * destruct (getStatsHt_ok (d_type d) (ht1 d) 1 mem1 42 (Z.of_nat (length mem) - 42) H1 Hs1)
          as (l2 & mem2 & -> & Hl2 & _); [lia..|]. cbn. apply final_nul; [done|lia].
      * cbn. by apply final_nul.
  - split; [by intros _ (_ & ? & _)|]. intros _. rewrite u64_small by lia.
    destruct (Z.ltb_spec 0 (Z.of_nat (length mem) - l)); [|lia].
    destruct (getStatsHt_ok (d_type d) (ht1 d) 1 mem1 l (Z.of_nat (length mem) - l) H1 Hs1)
      as (l2 & mem2 & -> & Hl2 & _); [lia..|]. cbn. apply final_nul; [done|lia].
Qed.

(** ** Examples *)
Definition delete_all (ks : list Z) (d : dict Z nat) : dict Z nat :=
  foldl (λ d k, match m_dictDelete d k with Some (_, _, d') => d' | None => d end) d ks.

Lemma delete_all_wf ks d : dict_wf (λ k : Z, k) d -> dict_wf (λ k : Z, k) (delete_all ks d).
Proof.
  revert d. induction ks as [|k ks IH]; intros d Hwf; cbn; [done|].
  destruct (dict_delete_ok (λ k : Z, k) d k Hwf) as (st & freed & d' & -> & Hwf' & _). by apply IH.
Qed.

Definition with_keys (ks : list Z) : dict Z nat := add_all ((λ k, (k, 0%nat)) <$> ks) (m_dictCreate ex_type).

Lemma with_keys_wf ks : Z.of_nat (length ks) < MAX_ENTRIES -> dict_wf (λ k : Z, k) (with_keys ks).
Proof. intros Hl. apply add_all_wf; [apply create_wf, ex_type_ok|]. by rewrite length_fmap. Qed.

Definition stats_text (size : nat) (d : dict Z nat) : option string :=
  mem ← m_dictGetStats (replicate size x41) (Z.of_nat size) d;
  Some (String.string_of_list_byte (c_str mem)).

Example ex_stats :
  stats_text 400 (with_keys [0; 4; 1]) = Some "Hash table 0 stats (main hash table):
 table size: 4
 number of elements: 3
 different slots: 2
 max chain length: 2
 avg chain length (counted): 1.50
 avg chain length (computed): 1.50
 Chain length distribution:
   0: 2 (50.00%)
   1: 1 (25.00%)
   2: 1 (25.00%)
"%string.
Proof. vm_compute. reflexivity. Qed.

(** Five keys, of which the last two of the old table are deleted while the
    table is rehashed: the old table is empty, and the rehashing goes on. *)
Definition ex_overrun : dict Z nat := delete_all [3; 2] (with_keys [0; 1; 2; 3; 4]).

Example ex_overrun_state :
  dictIsRehashing ex_overrun = true ∧ ht_used (ht0 ex_overrun) = 0 ∧ ht_used (ht1 ex_overrun) = 3.
Proof. vm_compute. done. Qed.

(** In a buffer of 16 bytes the second table's statistics are written 42 bytes
    from its start; with 42 bytes the second table is not printed. *)
Example ex_overrun_undefined :
  stats_text 16 ex_overrun = None ∧
  stats_text 42 ex_overrun = Some "No stats available for empty dictionaries"%string.
Proof. vm_compute. done. Qed.

(** A chain of 50 entries is counted in the last entry of the vector, which is
    not printed: the distribution shows the other bucket only. *)
Definition ex_long : dict Z nat :=
  let chain := (λ k, Entry (2 * Z.of_nat k) (Some 0%nat)) <$> seq 0 50 in
  Dict ex_type (DictHt [chain; []] 2 1 50) _dictReset (-1) 0.

Example ex_long_not_shown :
  stats_text 400 ex_long = Some "Hash table 0 stats (main hash table):
 table size: 2
 number of elements: 50
 different slots: 1
 max chain length: 50
 avg chain length (counted): 50.00
 avg chain length (computed): 50.00
 Chain length distribution:
   0: 1 (50.00%)
"%string.
Proof. vm_compute. reflexivity. Qed.

(** ** Witnesses *)
Lemma compute_stats_spec_witness :
  ∃ st, compute_stats (ht0 (with_keys [0; 4; 1])) = Some st ∧
    counts st (ht_table (ht0 (with_keys [0; 4; 1]))) ∧ totchainlen st = ht_used (ht0 (with_keys [0; 4; 1])).
Proof.
  apply (compute_stats_spec ex_type); [|by vm_compute].
  apply (wf_ht0 (λ k : Z, k) (with_keys [0; 4; 1])). by apply with_keys_wf.
Defined.

Lemma lines_loop_last_witness :
  let ht := ht0 ex_long in
  let st := Stats (replicate 50 1) 0 0 0 in
  lines_loop 49 0 ht (Stats (<[49%nat := 7]> (clvector st)) (slots st) (maxchainlen st) (totchainlen st))
    (replicate 10 x41) 0 10 0 = lines_loop 49 0 ht st (replicate 10 x41) 0 10 0.
Proof. intros ht st. by apply lines_loop_last. Defined.

Lemma m_dictGetStats_safe_iff_witness :
  (∃ mem', m_dictGetStats (replicate 16 x41) (Z.of_nat (length (replicate 16 x41))) ex_overrun = Some mem' ∧
           length mem' = length (replicate 16 x41) ∧ last mem' = Some x00) <->
  ¬ (dictIsRehashing ex_overrun = true ∧ ht_used (ht0 ex_overrun) = 0 ∧ Z.of_nat (length (replicate 16 x41)) < 42).
Proof.
  apply (m_dictGetStats_safe_iff (λ k : Z, k)); [|by vm_compute..].
  by apply delete_all_wf, with_keys_wf.
Defined.
