(* ===== verification/Migrate.v ===== *)
(** * Migrate: sending keys to another server

    The migration of redisxslot.c: [dumpObj] and [getRdbDumpObjs] collect the
    values of the keys, [MGRT] sends them with SLOTSRESTORE commands, split by
    size ([BatchSend_SlotsRestore]) or pipelined ([Pipeline_SlotsRestore]),
    [delKeys] deletes the keys, and [migrateKeys] does the one after the other.

    An array is the list of what it holds; an element not written yet is [None]
    and to read it is undefined.  The pool of threads that dumps is modelled too,
    though its size, [slots_dump_threads], is never set. *)

From S2P Require Import Prelude.
From S2P Require Import KeySlot.
From S2P Require Import Numbers.
From S2P Require Import Slots.
From S2P Require Import Refinement.
From S2P Require Import Prog.
From S2P Require Import Server.
From S2P Require Import ConnCache.
From S2P Require Import Commands.
Local Open Scope Z_scope.

Definition REDIS_MGRT_CMD_PARAMS_SIZE : Z := 1024 * 1024.
Definition SLOTS_MGRT_NOTHING : Z := 0.
Definition SLOTS_MGRT_ERR : Z := -1.

Record rdb_dump_obj (S : Type) := DumpObj { ob_key : S; ob_val : S; ob_ttlms : Z }.
Arguments DumpObj {S} _ _ _.
Arguments ob_key {S} _.
Arguments ob_val {S} _.
Arguments ob_ttlms {S} _.

(** Three successive elements of [argv] with their lengths. *)
Notation restore_arg := (list byte * list byte * list byte)%type (only parsing).

Section migrate.
Context {S Srv Net : Type} `{HS : RedisStrings S} `{HV : !RedisServer S Srv} `{HN : !Hiredis Net}.
Implicit Types (w : world S Srv Net) (key : S) (keys : list S) (o : rdb_dump_obj S).
Notation M := (prog (world S Srv Net)).
Notation objs_array := (list (option (rdb_dump_obj S))) (only parsing).

(** ** Sending *)

(** Frees the times to live of the first [n] triples, and the arrays. *)
Fixpoint freeHiRedisSlotsRestoreArgs (argv : list restore_arg) (i n : nat) : M () :=
  match n with
  | O => mret ()
  | Datatypes.S n =>
    _ ← lift (argv !! i);
    _ ← did (TtlFree i);
    freeHiRedisSlotsRestoreArgs argv (Datatypes.S i) n
  end.

Definition arg_list (a : restore_arg) : list (list byte) := [a.1.1; a.1.2; a.2].

(** [argv] holds the triples written so far. *)
Definition doSplitRestoreCommand (ctx : nat) (argv : list restore_arg) (start_pos end_pos : nat) : M Z :=
  let obj_cn := Z.of_nat end_pos - Z.of_nat start_pos in
  if obj_cn <=? 0 then mret SLOTS_MGRT_NOTHING
  else if decide (length argv < end_pos)%nat then undefined
  else
    let sub_argv := bytes_of "SLOTSRESTORE" ::
      (take (end_pos - start_pos) (drop start_pos argv) ≫= arg_list) in
    '(err, rr) ← command_argv ctx sub_argv;
    if err : bool then mret SLOTS_MGRT_ERR
    else
      match rr with
      | None => mret SLOTS_MGRT_ERR
      | Some REDIS_REPLY_ERROR => mret SLOTS_MGRT_ERR
      | Some REDIS_REPLY_OTHER => mret obj_cn
      end.

Definition obj_ttl o : Z := if 0 <? ob_ttlms o then ob_ttlms o else 0.

(** The triple of an object; the buffer keeps the text of the time. *)
Definition restore_triple (stack : list byte) o : option (restore_arg * list byte) :=
  '(len, stack) ← m_ll2string stack (obj_ttl o);
  Some ((content (ob_key o), take (Z.to_nat len) (c_str stack), content (ob_val o)), stack).

Definition triple_size (a : restore_arg) : Z :=
  Z.of_nat (length a.1.1) + Z.of_nat (length a.1.2) + Z.of_nat (length a.2).

(** The command of the triples since [start_pos] when it is large: the size and
    [start_pos] behind it, or nothing on an error, with what is freed then. *)
Definition batch_flush (ctx i : nat) (argv : list restore_arg) (cmd_size : Z) (start_pos : nat) : M (option (Z * nat)) :=
  if REDIS_MGRT_CMD_PARAMS_SIZE <? cmd_size then
    r ← doSplitRestoreCommand ctx argv start_pos i;
    if decide (r = SLOTS_MGRT_ERR) then
      _ ← freeHiRedisSlotsRestoreArgs argv 0 (i - start_pos); mret None
    else mret (Some (0, i))
  else mret (Some (cmd_size, start_pos)).

(** The [for] loop of [BatchSend_SlotsRestore]: the array and [start_pos] at its
    end, or nothing when it has returned an error. *)
Fixpoint batch_loop (ctx : nat) (n i : nat) (objs : objs_array) (argv : list restore_arg)
    (cmd_size : Z) (start_pos : nat) (stack : list byte) : M (option (list restore_arg * nat)) :=
  match n with
  | O => mret (Some (argv, start_pos))
  | Datatypes.S n =>
    r ← batch_flush ctx i argv cmd_size start_pos;
    match r with
    | None => mret None
    | Some (cmd_size, start_pos) =>
      o ← lift (mjoin (objs !! i));
      '(a, stack) ← lift (restore_triple stack o);
      _ ← did (TtlStrdup i);
      batch_loop ctx n (Datatypes.S i) objs (argv ++ [a]) (u64 (cmd_size + triple_size a)) start_pos stack
    end
  end.

Definition BatchSend_SlotsRestore (stack : list byte) (conn : nat) (objs : objs_array) (n : nat) : M Z :=
  c ← conn_at conn;
  r ← batch_loop (cn_ctx c) n 0 objs [] 0 0 stack;
  match r with
  | None => mret SLOTS_MGRT_ERR
  | Some (argv, start_pos) =>
    r ← doSplitRestoreCommand (cn_ctx c) argv start_pos n;
    if decide (r = SLOTS_MGRT_ERR) then
      _ ← freeHiRedisSlotsRestoreArgs argv 0 n; mret SLOTS_MGRT_ERR
    else
      t ← get_unixtime;
      c ← conn_at conn;
      _ ← store_conn conn (set_last_time c t);
      _ ← freeHiRedisSlotsRestoreArgs argv 0 n;
      mret (Z.of_nat n)
  end.

(** [n] replies, of the commands from [start_pos] on; the replies are freed on
    every path. *)
Fixpoint get_replies (ctx n : nat) : M bool :=
  match n with
  | O => mret true
  | Datatypes.S n =>
    '(err, rr) ← get_reply ctx;
    if err : bool then mret false
    else
      match rr with
      | None => mret false
      | Some REDIS_REPLY_ERROR => mret false
      | Some REDIS_REPLY_OTHER => get_replies ctx n
      end
  end.

Definition doSplitPipelineGetReply (ctx start_pos end_pos : nat) : M Z :=
  let n := Z.of_nat end_pos - Z.of_nat start_pos in
  if n <=? 0 then mret SLOTS_MGRT_NOTHING
  else
    ok ← get_replies ctx (end_pos - start_pos);
    mret (if ok : bool then n else SLOTS_MGRT_ERR).

Fixpoint pipeline_loop (ctx n i : nat) (objs : objs_array) (cmd_size : Z) (start_pos : nat)
    (stack : list byte) : M (option nat) :=
  match n with
  | O => mret (Some start_pos)
  | Datatypes.S n =>
    r ← (if REDIS_MGRT_CMD_PARAMS_SIZE <? cmd_size then
           r ← doSplitPipelineGetReply ctx start_pos i;
           mret (if decide (r = SLOTS_MGRT_ERR) then None else Some (0, i))
         else mret (Some (cmd_size, start_pos)));
    match r with
    | None => mret None
    | Some (cmd_size, start_pos) =>
      o ← lift (mjoin (objs !! i));
      '(tsz, stack) ← lift (m_ll2string stack (obj_ttl o));
      let k := content (ob_key o) in
      let v := content (ob_val o) in
      _ ← append_command ctx (PipelineArgs k (obj_ttl o) v);
      pipeline_loop ctx n (Datatypes.S i) objs
        (u64 (u64 (u64 (cmd_size + Z.of_nat (length k)) + Z.of_nat (length v)) + u64 tsz)) start_pos stack
    end
  end.

Definition Pipeline_SlotsRestore (stack : list byte) (conn : nat) (objs : objs_array) (n : nat) : M Z :=
  c ← conn_at conn;
  r ← pipeline_loop (cn_ctx c) n 0 objs 0 0 stack;
  match r with
  | None => mret SLOTS_MGRT_ERR
  | Some start_pos =>
    r ← doSplitPipelineGetReply (cn_ctx c) start_pos n;
    mret (if decide (r = SLOTS_MGRT_ERR) then SLOTS_MGRT_ERR else Z.of_nat n)
  end.

(** ** The threads that send *)

(** [doSplitRestoreCmdTask] with [tid] the thread that runs it: the result code.
    On an error the connection stays in the cache. *)
Definition doSplitRestoreCmdTask (stack : list byte) (meta : slot_mgrt_connet_meta) (tid : Z)
    (argv : list restore_arg) (start_pos end_pos : nat) : M Z :=
  conn ← SlotsMGRT_GetConnCtx stack tid meta;
  match conn with
  | None => mret SLOTS_MGRT_ERR
  | Some conn =>
    c ← conn_at conn;
    rr ← select (cn_ctx c) (mt_db meta);
    if negb (reply_ok rr) then mret SLOTS_MGRT_ERR
    else
      result_code ← doSplitRestoreCommand (cn_ctx c) argv start_pos end_pos;
      t ← get_unixtime;
      c ← conn_at conn;
      _ ← store_conn conn (set_last_time c t);
      _ ← SlotsMGRT_CloseConn stack tid meta;
      mret result_code
  end.

(** The [for] loop of [BatchSendWithThreadPool_SlotsRestore]: the array, the
    ranges given to the pool, [start_pos]. *)
Fixpoint split_loop (n i : nat) (objs : objs_array) (argv : list restore_arg) (params : list (nat * nat))
    (cmd_size : Z) (start_pos : nat) (stack : list byte) :
    M (list restore_arg * list (nat * nat) * nat) :=
  match n with
  | O => mret (argv, params, start_pos)
  | Datatypes.S n =>
    let '(params, cmd_size, start_pos) :=
      if REDIS_MGRT_CMD_PARAMS_SIZE <? cmd_size then (params ++ [(start_pos, i)], 0, i)
      else (params, cmd_size, start_pos) in
    o ← lift (mjoin (objs !! i));
    '(a, stack) ← lift (restore_triple stack o);
    _ ← did (TtlStrdup i);
    split_loop n (Datatypes.S i) objs (argv ++ [a]) params (u64 (cmd_size + triple_size a)) start_pos stack
  end.

(** The tasks in the order the pool runs them, with their threads: the result
    codes. *)
Fixpoint run_tasks (stack : list byte) (meta : slot_mgrt_connet_meta) (argv : list restore_arg)
    (params : list (nat * nat)) (sched : list (nat * Z)) : M (list Z) :=
  match sched with
  | [] => mret []
  | (j, tid) :: sched =>
    '(start_pos, end_pos) ← lift (params !! j);
    r ← doSplitRestoreCmdTask stack meta tid argv start_pos end_pos;
    rs ← run_tasks stack meta argv params sched;
    mret (r :: rs)
  end.

(** [pool]: the schedule of the thread pool for so many tasks. *)
Definition BatchSendWithThreadPool_SlotsRestore (stack : list byte) (pool : nat -> list (nat * Z))
    (meta : slot_mgrt_connet_meta) (objs : objs_array) (n : nat) : M Z :=
  '(argv, params, start_pos) ← split_loop n 0 objs [] [] 0 0 stack;
  let params := params ++ [(start_pos, n)] in
  if decide (n < length params)%nat then undefined
  else
    results ← run_tasks stack meta argv params (pool (length params));
    _ ← freeHiRedisSlotsRestoreArgs argv 0 n;
    mret (if decide (SLOTS_MGRT_ERR ∈ results) then SLOTS_MGRT_ERR else Z.of_nat n).

(** ** [MGRT] *)
Definition MGRT (stack : list byte) (pool : nat -> list (nat * Z)) (tid db : Z)
    (host port : list byte) (timeoutMS : Z) (objs : objs_array) (n : nat) (mgrtType : option (list byte)) : M Z :=
  let timeout := (Z.quot timeoutMS 1000, Z.rem timeoutMS 1000 * 1000) in
  let meta := ConnMeta db host port timeout in
  mi ← get meta_info;
  if 0 <? slots_mgrt_threads mi then BatchSendWithThreadPool_SlotsRestore stack pool meta objs n
  else
    conn ← SlotsMGRT_GetConnCtx stack tid meta;
    match conn with
    | None => mret SLOTS_MGRT_ERR
    | Some conn =>
      c ← conn_at conn;
      rr ← select (cn_ctx c) db;
      if negb (reply_ok rr) then
        _ ← SlotsMGRT_CloseConn stack tid meta; mret SLOTS_MGRT_ERR
      else
        let pipelined :=
          match mgrtType with Some t => strcasecmp_eq t (bytes_of "withpipeline") | None => false end in
        ret ← (if pipelined && negb (async mi) then Pipeline_SlotsRestore stack conn objs n
               else BatchSend_SlotsRestore stack conn objs n);
        _ ← SlotsMGRT_CloseConn stack tid meta;
        mret ret
    end.

(** ** Dumping and deleting *)

(** The result code, and the object when it is 1. *)
Definition dumpObj (db : Z) key : M (Z * option (rdb_dump_obj S)) :=
  reply ← call db (DUMP key);
  match reply with
  | None | Some REDISMODULE_REPLY_NULL => mret (SLOTS_MGRT_NOTHING, None)
  | Some (REDISMODULE_REPLY_STRING val) =>
    _ ← did (ValCreated val);
    reply ← call db (PTTL key);
    match reply with
    | None | Some REDISMODULE_REPLY_NULL => mret (SLOTS_MGRT_NOTHING, None)
    | Some (REDISMODULE_REPLY_INTEGER ttlms) => mret (1, Some (DumpObj key val ttlms))
    | Some _ => mret (SLOTS_MGRT_ERR, None)
    end
  | Some _ => mret (SLOTS_MGRT_ERR, None)
  end.

(** The number of objects, or an error, and the array. *)
Fixpoint dump_loop (db : Z) keys (j : Z) (objs : objs_array) : M (Z * objs_array) :=
  match keys with
  | [] => mret (j, objs)
  | key :: keys =>
    '(r, obj) ← dumpObj db key;
    let objs := objs ++ [obj] in
    if decide (r = SLOTS_MGRT_NOTHING) then dump_loop db keys j objs
    else if decide (r = SLOTS_MGRT_ERR) then mret (SLOTS_MGRT_ERR, objs)
    else dump_loop db keys (j + 1) objs
  end.

(** ** Dumping with a pool of threads *)

(** A task: the result code and the element of the array.  Its context belongs
    to no client, whatever database the client of the command has selected. *)
Definition dumpObjTask key : M (Z * option (rdb_dump_obj S)) := dumpObj (detached_db (S := S) (Srv := Srv)) key.

(** The tasks in the order the pool runs them, with the parameters of all. *)
Fixpoint dump_tasks keys (order : list nat) (params : list (Z * option (rdb_dump_obj S))) :
    M (list (Z * option (rdb_dump_obj S))) :=
  match order with
  | [] => mret params
  | i :: order =>
    key ← lift (keys !! i);
    x ← dumpObjTask key;
    dump_tasks keys order (<[i := x]> params)
  end.

Fixpoint count_codes (codes : list Z) (j : Z) : Z :=
  match codes with
  | [] => j
  | r :: codes =>
    if decide (r = SLOTS_MGRT_NOTHING) then count_codes codes j
    else if decide (r = SLOTS_MGRT_ERR) then SLOTS_MGRT_ERR
    else count_codes codes (j + 1)
  end.

(** The pool of threads, [thpool_init], runs each task on any of its threads. *)
Definition getRdbDumpObjsWithThreadPool (pool : nat -> list (nat * Z)) keys : M (Z * objs_array) :=
  let n := length keys in
  if decide (n = O) then mret (0, [])
  else
    params ← dump_tasks keys (pool n).*1 (replicate n (SLOTS_MGRT_NOTHING, None));
    mret (count_codes params.*1 0, params.*2).

Definition getRdbDumpObjs (pool : nat -> list (nat * Z)) (db : Z) keys : M (Z * objs_array) :=
  match keys with
  | [] => mret (SLOTS_MGRT_NOTHING, [])
  | _ =>
    mi ← get meta_info;
    if 0 <? slots_dump_threads mi then getRdbDumpObjsWithThreadPool pool keys
    else dump_loop db keys 0 []
  end.

(** The first [n] elements, which must have been written. *)
Fixpoint FreeDumpObjs (objs : objs_array) (i n : nat) : M () :=
  match n with
  | O => mret ()
  | Datatypes.S n =>
    o ← lift (mjoin (objs !! i));
    _ ← did (ValFreed (ob_val o));
    FreeDumpObjs objs (Datatypes.S i) n
  end.

Fixpoint delKeys (db : Z) keys (ret : Z) : M Z :=
  match keys with
  | [] => mret ret
  | key :: keys =>
    reply ← call db (UNLINK key);
    match reply with
    | None | Some REDISMODULE_REPLY_NULL => delKeys db keys ret
    | Some (REDISMODULE_REPLY_INTEGER _) => delKeys db keys (ret + 1)
    | Some _ => mret SLOTS_MGRT_ERR
    end
  end.

(** [FreeDumpObjs] with -1 frees no object. *)
Definition migrateKeys (stack : list byte) (pool : nat -> list (nat * Z)) (tid db : Z)
    (host port : list byte) (timeoutMS : Z) keys (mgrtType : option (list byte)) : M Z :=
  if decide (keys = []) then mret 0
  else
    '(ret, objs) ← getRdbDumpObjs pool db keys;
    if decide (ret = SLOTS_MGRT_NOTHING) then
      _ ← FreeDumpObjs objs 0 (Z.to_nat ret); mret 0
    else if decide (ret = SLOTS_MGRT_ERR) then
      _ ← FreeDumpObjs objs 0 (Z.to_nat ret); mret SLOTS_MGRT_ERR
    else
      let n := Z.to_nat ret in
      m_ret ← MGRT stack pool tid db host port timeoutMS objs n mgrtType;
      if decide (m_ret = SLOTS_MGRT_ERR) then
        _ ← FreeDumpObjs objs 0 n; mret SLOTS_MGRT_ERR
      else if decide (m_ret = 0) then
        _ ← FreeDumpObjs objs 0 n; mret m_ret
      else
        _ ← FreeDumpObjs objs 0 n;
        delKeys db keys 0.

Definition SlotsMGRT_OneKey (stack : list byte) (pool : nat -> list (nat * Z)) (tid db : Z)
    (host port : list byte) (timeout : Z) key (mgrtType : option (list byte)) : M Z :=
  migrateKeys stack pool tid db host port timeout [key] mgrtType.
End migrate.
