(* ===== verification/MigrateProps.v ===== *)
(** * MigrateProps: what the migration promises

    The connections stay consistent; every way of sending delivers the objects it
    is given, each once, or reports an error; no key is deleted before the other
    server has acknowledged every one of them; the index follows the keyspace. *)

From S2P Require Import Prelude.
From S2P Require Import KeySlot.
From S2P Require Import Numbers.
From S2P Require Import Slots.
From S2P Require Import SlotsInv.
From S2P Require Import Refinement.
From S2P Require Import Prog.
From S2P Require Import Server.
From S2P Require Import ServerSpec.
From S2P Require Import ConnCache.
From S2P Require Import Commands.
From S2P Require Import Migrate.
Local Open Scope Z_scope.

(** ** Texts of numbers in a buffer *)
Lemma isdigit_not_nul b : isdigit b = true -> b ≠ x00.
Proof. by intros Hd ->. Qed.

Lemma canonical_no_nul s : canonical s -> x00 ∉ s.
Proof.
  assert (∀ u, ucanonical u -> x00 ∉ u) as Hu.
  { intros u [Hd _]%ucanonical_digits Hin. rewrite Forall_forall in Hd. by destruct (isdigit_not_nul x00 (Hd _ Hin)). }
  unfold canonical. destruct s as [|c s]; [done|]. case_decide as Hc; [|apply Hu].
  intros [Hs _]. rewrite not_elem_of_cons. split; [by subst|by apply Hu].
Qed.

(** What [m_ll2string] leaves in a buffer of [REDIS_LONGSTR_SIZE]. *)
Lemma ll2string_buffer stack v :
  is_i64 v -> length stack = REDIS_LONGSTR_SIZE ->
  ∃ s stack', m_ll2string stack v = Some (Z.of_nat (length s), stack') ∧ length stack' = REDIS_LONGSTR_SIZE ∧
    c_str stack' = s ∧ m_string2ll s = Some v ∧ (length s <= 20)%nat.
Proof.
  intros Hv Hl. destruct (m_ll2string_writes stack v Hv) as (s & Hc & Hval & Hlen & E).
  unfold REDIS_LONGSTR_SIZE in *. rewrite decide_True in E by lia. rewrite E.
  exists s, (s ++ x00 :: drop (S (length s)) stack). split_and!; [done| | |by apply m_string2ll_iff|done].
  - rewrite length_app. cbn [length]. rewrite length_drop. lia.
  - by apply c_str_app_nul, canonical_no_nul.
Qed.

Section conns.
Context {S Srv Net : Type} `{HS : RedisStrings S} `{HV : !RedisServer S Srv} `{HN : !Hiredis Net}.
Implicit Types (w : world S Srv Net).
Notation M := (prog (world S Srv Net)).

(** ** Connections *)

(** Each cached connection is allocated, and under one name. *)
Record cache_wf w : Prop := {
  cw_alloc name p : w_cache w !! name = Some p -> is_Some (w_conns w !! p);
  cw_inj name1 name2 p : w_cache w !! name1 = Some p -> w_cache w !! name2 = Some p -> name1 = name2
}.

(** The server and the index are as before, the cache is in order. *)
Definition quiet w w' : Prop := w_srv w' = w_srv w ∧ w_mod w' = w_mod w ∧ cache_wf w'.

Lemma quiet_trans w1 w2 w3 : quiet w1 w2 -> quiet w2 w3 -> quiet w1 w3.
Proof. intros (E1 & E2 & _) (E3 & E4 & Hc). split_and!; [congruence|congruence|done]. Qed.

(** The port is a number, and the text of an error in connecting fits its buffer
    with every thread's number. *)
Definition address_ok (host port : list byte) : Prop :=
  is_Some (atoi port) ∧
  ∀ (net : Net) h p c errstr net', redisConnect net h p = (c, Some errstr, net') ->
    (length host + length port + length (c_str errstr) <= 132)%nat.

Lemma c_str_length s : (length (c_str s) <= length s)%nat.
Proof. induction s as [|b s IH]; cbn; [lia|]. case_decide; cbn; lia. Qed.

Lemma conn_error_fits name errstr :
  (length name + length (c_str errstr) < 155)%nat -> (length (conn_error name errstr) < 200)%nat.
Proof.
  intros Hl. pose proof (c_str_length name). unfold conn_error. rewrite !length_app. cbn. lia.
Qed.

(** The net and the trace do not matter to the cache. *)
Lemma quiet_log w a net : cache_wf w -> quiet w (log a (set_net w net)).
Proof. intros [H1 H2]. by split_and!. Qed.

Context (stack : list byte) (stack_size : length stack = REDIS_LONGSTR_SIZE).
Context (tid : Z) (tid_ok : is_i64 tid).

(** [p] is the connection of [meta] in the cache. *)
Definition has_conn (meta : slot_mgrt_connet_meta) w (p : nat) : Prop :=
  is_Some (w_conns w !! p) ∧
  ∃ name, getConnName stack (mt_host meta) (mt_port meta) tid = Some name ∧ w_cache w !! name = Some p.

Lemma conn_name host port :
  ∃ name, getConnName stack host port tid = Some name ∧ (length name <= length host + length port + 22)%nat.
Proof using stack_size tid_ok.
  unfold getConnName. destruct (ll2string_buffer stack tid tid_ok stack_size) as (s & stack' & -> & _ & E & _ & Hl).
  eexists. split; [reflexivity|]. rewrite !length_app, E. cbn. lia.
Qed.

Lemma store_conn_quiet w p c : cache_wf w -> cache_wf (set_conns w (<[p := c]> (w_conns w)) (w_cache w)).
Proof.
  intros [H1 H2]. split; cbn [set_conns w_cache w_conns]; [|exact H2].
  intros name q [c' Hq]%H1. destruct (decide (q = p)) as [->|].
  - rewrite lookup_insert_eq. by eexists.
  - rewrite lookup_insert_ne by done. by eexists.
Qed.

Lemma get_conn_ok meta w :
  address_ok (mt_host meta) (mt_port meta) -> cache_wf w ->
  runs (SlotsMGRT_GetConnCtx stack tid meta) w (λ r w' t, t = [] ∧ quiet w w' ∧
    match r with Some p => has_conn meta w' p | None => True end).
Proof using stack_size tid_ok.
  intros [[port Hport] Hfit] Hc. destruct (conn_name (mt_host meta) (mt_port meta)) as [name [Hname Hlen]].
  unfold SlotsMGRT_GetConnCtx, get_unixtime, store_conn, cache_set. do 2 run_step. run_step.
  eapply runs_lift; [exact Hname|]. do 2 run_step.
  destruct (w_cache w !! name) as [p|] eqn:Ep.
  - destruct (cw_alloc w Hc name p Ep) as [c Hcp]. run_step. eapply runs_conn; [exact Hcp|]. run_step.
    apply runs_modify; [done|]. run_step. split; [done|]. split.
    + split_and!; [done|done|by apply store_conn_quiet].
    + split; [cbn; rewrite lookup_insert_eq; by eexists|]. by exists name.
  - run_step. eapply runs_lift; [exact Hport|]. run_step.
    destruct (redisConnect (w_net w) (c_str (mt_host meta)) port) as [[c err] net] eqn:Econn.
    exists (c, err), (set_net w net). split; [unfold connect; by rewrite Econn|]. exists [].
    split; [by rewrite app_nil_r|]. destruct err as [errstr|].
    { specialize (Hfit _ _ _ _ _ _ Econn). rewrite (proj2 (Nat.ltb_lt _ _)) by (apply conn_error_fits; lia).
      run_step. split_and!; try done. by destruct Hc. }
    do 2 run_step. pose proof (is_fresh (dom (w_conns w))) as Hp.
    cbn [set_net w_conns]. set (p := fresh (dom (w_conns w))) in *. apply not_elem_of_dom in Hp.
    run_step. apply runs_modify; [done|]. run_step. apply runs_modify; [done|]. run_step.
    split; [done|]. split; [split_and!; [done|done|]|].
    + split; cbn [set_conns set_net w_cache w_conns].
      * intros name' q [[<- <-]|[Hne Hq]]%lookup_insert_Some; [rewrite lookup_insert_eq; by eexists|].
        apply (cw_alloc w Hc) in Hq. rewrite lookup_insert_ne; [done|]. intros <-. rewrite Hp in Hq. by destruct Hq.
      * intros n1 n2 q [[<- <-]|[Hne1 Hq1]]%lookup_insert_Some [[<- Hqp]|[Hne2 Hq2]]%lookup_insert_Some; try done.
        -- apply (cw_alloc w Hc) in Hq2. rewrite Hp in Hq2. by destruct Hq2.
        -- subst q. apply (cw_alloc w Hc) in Hq1. rewrite Hp in Hq1. by destruct Hq1.
        -- by apply (cw_inj w Hc n1 n2 q).
    + split; [cbn; rewrite lookup_insert_eq; by eexists|]. exists name. split; [done|].
      cbn. by rewrite lookup_insert_eq.
Qed.

Lemma close_conn_ok meta w :
  cache_wf w -> runs (SlotsMGRT_CloseConn stack tid meta) w (λ _ w' t, t = [] ∧ quiet w w').
Proof using stack_size tid_ok.
  intros Hc. destruct (conn_name (mt_host meta) (mt_port meta)) as [name [Hname _]].
  unfold SlotsMGRT_CloseConn, cache_del, free_ctx, free_conn. run_step.
  eapply runs_lift; [exact Hname|]. do 2 run_step.
  destruct (w_cache w !! name) as [p|] eqn:Ep; [|run_step; done].
  destruct (cw_alloc w Hc name p Ep) as [c Hcp].
  run_step. apply runs_modify; [done|]. run_step. eapply runs_conn; [exact Hcp|].
  run_step. apply runs_modify; [done|]. apply runs_modify; [done|]. split; [done|].
  split_and!; [done|done|]. split; cbn [set_conns set_net w_cache w_conns].
  - intros n q [Hne Hq]%lookup_delete_Some. rewrite lookup_delete_ne; [by apply (cw_alloc w Hc n)|].
    intros <-. apply Hne. by apply (cw_inj w Hc _ _ p).
  - intros n1 n2 q [_ Hq1]%lookup_delete_Some [_ Hq2]%lookup_delete_Some. by apply (cw_inj w Hc _ _ q).
Qed.
End conns.

(** ** Objects and arguments *)
Section items.
Context {S : Type} `{HS : RedisStrings S}.
Implicit Types (o : rdb_dump_obj S) (os : list (rdb_dump_obj S)) (t : list (action S)).

Definition obj_item o : list byte * option Z * list byte :=
  (content (ob_key o), Some (obj_ttl o), content (ob_val o)).

Definition arg_item (a : list byte * list byte * list byte) : list byte * option Z * list byte :=
  (a.1.1, m_string2ll a.1.2, a.2).

(** The first elements of an array are written. *)
Definition holds_objs (objs : list (option (rdb_dump_obj S))) os : Prop :=
  ∀ i o, os !! i = Some o -> objs !! i = Some (Some o).

(** The strings of an argument array a trace makes and frees. *)
Definition ttl_dups t : list nat := omap (λ a, match a with TtlStrdup i => Some i | _ => None end) t.
Definition ttl_frees t : list nat := omap (λ a, match a with TtlFree i => Some i | _ => None end) t.

(** What sending does: nothing to the server, no reply of a pipeline due. *)
Definition sends t : Prop := net_trace t ∧ pending_after [] t = [].

Lemma triples_args l : triples (l ≫= arg_list) = arg_item <$> l.
Proof. induction l as [|[[k t] v] l IH]; [done|]. cbn. by f_equal. Qed.

Lemma restore_triple_ok stack o :
  length stack = REDIS_LONGSTR_SIZE -> is_i64 (ob_ttlms o) ->
  ∃ a stack', restore_triple stack o = Some (a, stack') ∧ length stack' = REDIS_LONGSTR_SIZE ∧
    arg_item a = obj_item o.
Proof.
  intros Hl Ho. assert (is_i64 (obj_ttl o)) as Ht.
  { unfold obj_ttl. unfold is_i64 in *. destruct (0 <? ob_ttlms o); lia. }
  destruct (ll2string_buffer stack _ Ht Hl) as (s & stack' & E & Hl' & Hs & Hll & _).
  eexists _, stack'. unfold restore_triple. rewrite E. cbn [mbind option_bind]. split; [reflexivity|].
  split; [done|]. unfold arg_item, obj_item. cbn [fst snd]. by rewrite Hs, Nat2Z.id, take_ge, Hll by lia.
Qed.

Lemma sends_nil : sends [].
Proof. split; [constructor|done]. Qed.

Lemma sends_app t1 t2 : sends t1 -> sends t2 -> sends (t1 ++ t2).
Proof.
  intros [H1 E1] [H2 E2]. split; [by apply net_trace_app|]. by rewrite pending_app, E1.
Qed.

Lemma delivered_sends t1 t2 : sends t1 -> delivered [] (t1 ++ t2) = delivered [] t1 ++ delivered [] t2.
Proof. intros [_ E]. by rewrite delivered_app, E. Qed.

Lemma take_range {A} (l : list A) (i j : nat) :
  (i <= j)%nat -> take i l ++ take (j - i) (drop i l) = take j l.
Proof.
  intros Hij. rewrite <- (take_drop i (take j l)), take_take, Nat.min_l by lia. f_equal.
  by rewrite skipn_firstn_comm.
Qed.
End items.
Create HintDb migrate.
#[export] Hint Resolve sends_nil sends_app : migrate.

(** ** Sending with commands *)
Section batch.
Context {S Srv Net : Type} `{HS : RedisStrings S} `{HV : !RedisServer S Srv} `{HN : !Hiredis Net}.
Implicit Types (w : world S Srv Net) (o : rdb_dump_obj S) (os : list (rdb_dump_obj S)).
Implicit Types (t : list (action S)).
Notation M := (prog (world S Srv Net)).
Notation restore_arg := (list byte * list byte * list byte)%type.

(** Only the network changes. *)
Definition net_only w w' : Prop :=
  w_srv w' = w_srv w ∧ w_mod w' = w_mod w ∧ w_conns w' = w_conns w ∧ w_cache w' = w_cache w.

Lemma net_only_refl w : net_only w w.
Proof. done. Qed.

Lemma net_only_trans w1 w2 w3 : net_only w1 w2 -> net_only w2 w3 -> net_only w1 w3.
Proof. intros (?&?&?&?) (?&?&?&?). split_and!; congruence. Qed.

Lemma net_only_quiet w w' : cache_wf w -> net_only w w' -> quiet w w'.
Proof.
  intros [H1 H2] (E1 & E2 & E3 & E4). split_and!; [done|done|]. split; rewrite ?E3, ?E4; [exact H1|exact H2].
Qed.

Lemma split_command_ok ctx (argv : list restore_arg) start_pos end_pos w :
  (start_pos < end_pos)%nat -> (end_pos <= length argv)%nat ->
  runs (doSplitRestoreCommand ctx argv start_pos end_pos) w (λ r w' t,
    net_only w w' ∧ sends t ∧ ttl_dups t = [] ∧ ttl_frees t = [] ∧
    (r = SLOTS_MGRT_ERR ∧ delivered [] t = [] ∨
     r ≠ SLOTS_MGRT_ERR ∧ delivered [] t = arg_item <$> take (end_pos - start_pos) (drop start_pos argv))).
Proof.
  intros Hse He. unfold doSplitRestoreCommand.
  destruct (Z.leb_spec (Z.of_nat end_pos - Z.of_nat start_pos) 0); [lia|]. rewrite decide_False by lia.
  run_step. set (sub := take (end_pos - start_pos) (drop start_pos argv)).
  set (cmd := bytes_of "SLOTSRESTORE" :: _).
  destruct (redisCommandArgv (w_net w) ctx cmd) as [[err rr] net] eqn:E.
  exists (err, rr), (log (Sent ctx cmd (negb err && reply_ok rr)) (set_net w net)).
  split; [unfold command_argv; by rewrite E|]. eexists [_]. split; [reflexivity|].
  assert (∀ ok, sends [Sent (S := S) ctx cmd ok]) as Hs by (split; [by repeat constructor|done]).
  assert (triples (tail cmd) = arg_item <$> sub) as Ht by apply triples_args.
  destruct err; [|destruct rr as [[]|]]; run_step; cbn [negb andb reply_ok];
    (split; [done|]; split; [apply Hs|]; split; [done|]; split; [done|]);
    first [by left|right]. split; [unfold SLOTS_MGRT_ERR; lia|]. cbn [app delivered cmd]. cbn [tail cmd] in Ht.
  by rewrite Ht, app_nil_r.
Qed.

Lemma free_args_ok (argv : list restore_arg) i n w :
  (i + n <= length argv)%nat ->
  runs (freeHiRedisSlotsRestoreArgs argv i n) w (λ _ w' t,
    net_only w w' ∧ sends t ∧ delivered [] t = [] ∧ ttl_dups t = [] ∧ ttl_frees t = seq i n).
Proof.
  revert i w. induction n as [|n IH]; intros i w Hi; cbn [freeHiRedisSlotsRestoreArgs].
  { run_step. split_and!; done || apply sends_nil. }
  destruct (lookup_lt_is_Some_2 argv i) as [a Ha]; [lia|].
  run_step. eapply runs_lift; [exact Ha|]. do 2 run_step.
  eapply runs_mono; [apply IH; lia|]. intros _ w' t (Hn & [Hu Hp] & Hd & Hdup & Hfr). cbn [app].
  split_and!; [exact Hn|split; [by constructor|exact Hp]|exact Hd|exact Hdup|]. cbn. by f_equal.
Qed.

(** An error behind [s] delivered objects, at the [i]th one: of the strings of
    all [i] objects so many are freed as the failed command has objects. *)
Definition left_at (items : list (list byte * option Z * list byte)) (i0 start_pos : nat) t : Prop :=
  ∃ s i, (s <= i)%nat ∧ (i0 <= i)%nat ∧ take start_pos items ++ delivered [] t = take s items ∧
    ttl_dups t = seq i0 (i - i0) ∧ ttl_frees t = seq 0 (i - s).

Lemma flush_ok ctx i items (argv : list restore_arg) cmd_size start_pos w :
  arg_item <$> argv = take i items -> length argv = i -> (start_pos <= i)%nat ->
  (REDIS_MGRT_CMD_PARAMS_SIZE < cmd_size -> (start_pos < i)%nat) ->
  runs (batch_flush ctx i argv cmd_size start_pos) w (λ r w' t, net_only w w' ∧ sends t ∧
    match r with
    | None => left_at items i start_pos t
    | Some (cmd_size', start') => (start' <= i)%nat ∧
        (REDIS_MGRT_CMD_PARAMS_SIZE < cmd_size' -> (start' < i)%nat) ∧
        take start_pos items ++ delivered [] t = take start' items ∧ ttl_dups t = [] ∧ ttl_frees t = []
    end).
Proof.
  intros Hargv Hlen Hsi Hbig. unfold batch_flush. destruct (Z.ltb_spec REDIS_MGRT_CMD_PARAMS_SIZE cmd_size) as [Hlt|Hge].
  - run_step. specialize (Hbig Hlt). eapply runs_mono; [apply split_command_ok; lia|].
    intros r w1 t1 (Hn1 & Hs1 & Hdup1 & Hfr1 & Hd1). case_decide as Hr.
    + destruct Hd1 as [[_ Hd1]|[? _]]; [|done]. run_step.
      eapply runs_mono; [apply free_args_ok; lia|]. intros _ w2 t2 (Hn2 & Hs2 & Hd2 & Hdup2 & Hfr2). run_step.
      rewrite app_nil_r. split; [by eapply net_only_trans|]. split; [by apply sends_app|].
      exists start_pos, i. rewrite delivered_sends, Hd1, Hd2, app_nil_r, Nat.sub_diag by done.
      unfold ttl_dups, ttl_frees in *. by rewrite !omap_app, Hdup1, Hdup2, Hfr1, Hfr2.
    + destruct Hd1 as [[? _]|[_ Hd1]]; [done|]. run_step. rewrite app_nil_r.
      split_and!; try done; try lia; try apply Hs1.
      rewrite Hd1, fmap_take, fmap_drop, Hargv.
      rewrite skipn_firstn_comm, take_take, Nat.min_id. by apply take_range.
  - run_step. split_and!; try done; try lia; try apply sends_nil. cbn. by rewrite app_nil_r.
Qed.

(** The loop: what it has sent is the objects before [start_pos]. *)
Lemma batch_loop_ok ctx n i objs os argv cmd_size start_pos stack w :
  holds_objs objs os -> Forall (λ o, is_i64 (ob_ttlms o)) os -> (i + n = length os)%nat ->
  arg_item <$> argv = obj_item <$> take i os -> (start_pos <= i)%nat ->
  (REDIS_MGRT_CMD_PARAMS_SIZE < cmd_size -> (start_pos < i)%nat) -> (0 < i -> start_pos < i)%nat ->
  length stack = REDIS_LONGSTR_SIZE ->
  runs (batch_loop ctx n i objs argv cmd_size start_pos stack) w (λ r w' t,
    net_only w w' ∧ sends t ∧
    match r with
    | None => left_at (obj_item <$> os) i start_pos t
    | Some (argv', start') =>
      arg_item <$> argv' = obj_item <$> os ∧ (start' <= length os)%nat ∧ (0 < length os -> start' < length os)%nat ∧
      take start_pos (obj_item <$> os) ++ delivered [] t = take start' (obj_item <$> os) ∧
      ttl_dups t = seq i n ∧ ttl_frees t = []
    end).
Proof.
  intros Hobjs Hos. revert i argv cmd_size start_pos stack w.
  induction n as [|n IH]; intros i argv cmd_size start_pos stack w Hn Hargv Hsi Hbig Hpos Hstack; cbn [batch_loop].
  { run_step. assert (i = length os) as -> by lia. rewrite take_ge in Hargv by lia.
    split_and!; try done; try apply sends_nil. cbn. by rewrite app_nil_r. }
  assert (length argv = i) as Hlen.
  { apply (f_equal length) in Hargv. rewrite !length_fmap, length_take in Hargv. lia. }
  set (items := obj_item <$> os) in *.
  run_step. eapply runs_mono; [apply (flush_ok ctx i items argv cmd_size start_pos); try done|].
  { rewrite Hargv. apply fmap_take. }
  intros [[cmd_size' start']|] w1 t1 (Hn1 & Hs1 & H1); [|run_step; by rewrite app_nil_r].
  destruct H1 as (Hsi' & Hbig' & Hd1 & Hdup1 & Hfr1).
  (* the next object *)
  destruct (lookup_lt_is_Some_2 os i) as [o Ho]; [lia|].
  destruct (restore_triple_ok stack o Hstack) as (a & stack' & Ea & Hstack' & Hitem).
  { by apply (Forall_lookup_1 _ _ _ _ Hos Ho). }
  run_step. eapply runs_lift; [by rewrite (Hobjs i o Ho)|]. run_step. eapply runs_lift; [exact Ea|].
  cbv beta iota. do 2 run_step.
  eapply runs_mono; [apply (IH (Datatypes.S i) (argv ++ [a]) _ start'); try done; try lia|].
  { rewrite fmap_app, Hargv, (take_S_r _ _ _ Ho), fmap_app. cbn. by rewrite Hitem. }
  intros r w2 t2 (Hn2 & Hs2 & H2). rewrite app_nil_l. split.
  { eapply net_only_trans; [exact Hn1|]. by destruct Hn2 as (? & ? & ? & ?). }
  assert (sends [TtlStrdup (S := S) i]) as Hs by (split; [by repeat constructor|done]).
  cbn [app]. change (TtlStrdup i :: t2) with ([TtlStrdup i] ++ t2).
  split; [apply sends_app; [done|by apply sends_app]|].
  destruct r as [[argv' start'']|].
  2: { destruct H2 as (s & i' & Hle & Hi & Hd2 & Hdup2 & Hfr2). exists s, i'. split; [done|]. split; [lia|].
    unfold ttl_dups, ttl_frees in *. rewrite !delivered_sends by (done || by apply sends_app). cbn [delivered app].
    rewrite app_assoc, Hd1, Hd2, !omap_app, Hdup1, Hfr1. cbn. rewrite Hdup2, Hfr2.
    split; [done|]. split; [|done]. by replace (i' - i)%nat with (Datatypes.S (i' - Datatypes.S i)) by lia. }
  rewrite !delivered_sends by (done || by apply sends_app). cbn [delivered app]. rewrite app_assoc, Hd1. destruct H2 as (Ha & Hle & Hlt & Hd2 & Hdup2 & Hfr2). split_and!; try done.
  - unfold ttl_dups in *. rewrite omap_app, Hdup1. cbn. by rewrite Hdup2.
  - unfold ttl_frees in *. rewrite omap_app, Hfr1. done.
Qed.

(** What a way of sending promises of its result and its trace. *)
Definition sent os (r : Z) t : Prop :=
  net_trace t ∧
  (r = SLOTS_MGRT_ERR ∨
   r = Z.of_nat (length os) ∧ pending_after [] t = [] ∧ delivered [] t ≡ₚ obj_item <$> os).

Lemma batch_send_ok stack conn objs os w :
  cache_wf w -> is_Some (w_conns w !! conn) -> holds_objs objs os ->
  Forall (λ o, is_i64 (ob_ttlms o)) os -> os ≠ [] -> length stack = REDIS_LONGSTR_SIZE ->
  runs (BatchSend_SlotsRestore stack conn objs (length os)) w (λ r w' t,
    quiet w w' ∧ sent os r t ∧
    (r ≠ SLOTS_MGRT_ERR -> delivered [] t = obj_item <$> os ∧
       ttl_dups t = seq 0 (length os) ∧ ttl_frees t = seq 0 (length os)) ∧
    (r = SLOTS_MGRT_ERR -> left_at (obj_item <$> os) 0 0 t ∨
       (∃ k, delivered [] t = take k (obj_item <$> os)) ∧
       ttl_dups t = seq 0 (length os) ∧ ttl_frees t = seq 0 (length os))).
Proof.
  intros Hc [c Hconn] Hobjs Hos Hne Hstack. unfold BatchSend_SlotsRestore.
  run_step. eapply runs_conn; [exact Hconn|]. run_step.
  eapply runs_mono; [apply (batch_loop_ok (cn_ctx c) (length os) 0 objs os [] 0 0); try done|].
  intros r w1 t1 (Hn1 & Hs1 & H1). assert (0 < length os)%nat as Hlen by (destruct os; [done|simpl; lia]).
  destruct r as [[argv start_pos]|].
  2: { run_step. rewrite app_nil_r. split; [by apply net_only_quiet|].
       split; [split; [apply Hs1|by left]|]. split; [done|]. by left. }
  destruct H1 as (Hargv & Hle & Hlt & Hd1 & Hdup1 & Hfr1). rewrite take_0 in Hd1. cbn [app] in Hd1.
  assert (length argv = length os) as Hla.
  { apply (f_equal length) in Hargv. by rewrite !length_fmap in Hargv. }
  run_step. eapply runs_mono; [apply split_command_ok; lia|].
  intros r w2 t2 (Hn2 & Hs2 & Hdup2 & Hfr2 & H2). pose proof (net_only_trans _ _ _ Hn1 Hn2) as Hn12.
  case_decide as Hr.
  - destruct H2 as [[_ Hd2]|[? _]]; [|done]. run_step.
    eapply runs_mono; [apply free_args_ok; lia|]. intros _ w3 t3 (Hn3 & Hs3 & Hd3 & Hdup3 & Hfr3). run_step.
    rewrite !app_nil_r. cbn [app]. assert (sends (t1 ++ t2 ++ t3)) as Hs by auto using sends_app.
    split; [apply net_only_quiet; [done|by eapply net_only_trans]|].
    split; [split; [apply Hs|by left]|]. split; [by unfold SLOTS_MGRT_ERR|].
    intros _. right. split; [exists start_pos; by rewrite !delivered_sends, Hd1, Hd2, Hd3, !app_nil_r by done|].
    unfold ttl_dups, ttl_frees in *. by rewrite !omap_app, Hdup1, Hdup2, Hdup3, Hfr1, Hfr2, Hfr3, !app_nil_r.
  - destruct H2 as [[? _]|[_ Hd2]]; [done|]. unfold get_unixtime, store_conn. do 2 run_step.
    destruct Hn12 as (E1 & E2 & E3 & E4). run_step. eapply runs_conn; [by rewrite E3|].
    run_step. apply runs_modify; [done|]. run_step.
    eapply runs_mono; [apply free_args_ok; lia|]. intros _ w3 t3 (Hn3 & Hs3 & Hd3 & Hdup3 & Hfr3). run_step.
    cbn [app]. rewrite !app_nil_r.
    assert (sends (t1 ++ t2 ++ t3)) as Hs by auto using sends_app.
    assert (delivered [] (t1 ++ t2 ++ t3) = obj_item <$> os) as Hd.
    { rewrite !delivered_sends, Hd1, Hd2, Hd3, app_nil_r by done. rewrite fmap_take, fmap_drop, Hargv.
      rewrite take_range by done. apply take_ge. by rewrite length_fmap. }
    split.
    { eapply quiet_trans; [|apply net_only_quiet; [|exact Hn3]].
      - split_and!; [exact E1|exact E2|]. apply store_conn_quiet. destruct Hc as [Hc1 Hc2].
        split; rewrite ?E3, ?E4; done.
      - apply store_conn_quiet. destruct Hc as [Hc1 Hc2]. split; rewrite ?E3, ?E4; done. }
    split; [split; [apply Hs|right; split_and!; [done|apply Hs|by rewrite Hd]]|].
    split; [|by unfold SLOTS_MGRT_ERR; intros ?; lia]. intros _. split; [done|].
    unfold ttl_dups, ttl_frees in *. rewrite !omap_app, Hdup1, Hdup2, Hdup3, Hfr1, Hfr2, Hfr3, !app_nil_r. done.
Qed.

(** ** Sending with a pipeline *)
Lemma get_replies_ok ctx n w pending :
  (n <= length pending)%nat ->
  runs (get_replies ctx n) w (λ ok w' t, net_only w w' ∧ net_trace t ∧
    (ok = true -> delivered pending t = take n pending ∧ pending_after pending t = drop n pending)).
Proof.
  revert w pending. induction n as [|n IH]; intros w pending Hn; cbn [get_replies].
  { run_step. split_and!; [done|constructor|]. intros _. by rewrite drop_0. }
  destruct pending as [|x pending]; [simpl in Hn; lia|]. cbn [length] in Hn.
  run_step. destruct (redisGetReply (w_net w) ctx) as [[err rr] net] eqn:E.
  exists (err, rr), (log (GotReply ctx (negb err && reply_ok rr)) (set_net w net)).
  split; [unfold get_reply; by rewrite E|]. eexists [_]. split; [reflexivity|].
  assert (∀ ok, net_trace [GotReply (S := S) ctx ok]) as Hs by (intros; by repeat constructor).
  destruct err; [|destruct rr as [[]|]]; try (run_step; split_and!; [done|apply Hs|done]).
  eapply runs_mono; [apply (IH _ pending); lia|]. intros ok w2 t2 (Hn2 & Hu2 & H2).
  split; [exact Hn2|]. split; [apply net_trace_app; [apply Hs|done]|]. intros [Hd Hp]%H2. cbn. by rewrite Hd, Hp.
Qed.

Lemma pipeline_reply_ok ctx start_pos end_pos w pending :
  (start_pos < end_pos)%nat -> (end_pos - start_pos <= length pending)%nat ->
  runs (doSplitPipelineGetReply ctx start_pos end_pos) w (λ r w' t, net_only w w' ∧ net_trace t ∧
    (r ≠ SLOTS_MGRT_ERR -> delivered pending t = take (end_pos - start_pos) pending ∧
       pending_after pending t = drop (end_pos - start_pos) pending)).
Proof.
  intros Hse Hp. unfold doSplitPipelineGetReply.
  destruct (Z.leb_spec (Z.of_nat end_pos - Z.of_nat start_pos) 0); [lia|]. run_step.
  eapply runs_mono; [by apply get_replies_ok|]. intros ok w1 t1 (Hn1 & Hu1 & H1). run_step.
  rewrite app_nil_r. split_and!; [done|done|]. destruct ok; [by intros _; apply H1|done].
Qed.

(** The loop: the commands from [start_pos] on wait for their replies. *)
Lemma pipeline_loop_ok ctx n i objs os cmd_size start_pos stack w :
  holds_objs objs os -> Forall (λ o, is_i64 (ob_ttlms o)) os -> (i + n = length os)%nat -> (start_pos <= i)%nat ->
  (REDIS_MGRT_CMD_PARAMS_SIZE < cmd_size -> (start_pos < i)%nat) -> (0 < i -> start_pos < i)%nat ->
  length stack = REDIS_LONGSTR_SIZE ->
  runs (pipeline_loop ctx n i objs cmd_size start_pos stack) w (λ r w' t,
    net_only w w' ∧ net_trace t ∧
    match r with
    | None => True
    | Some start' =>
      (start' <= length os)%nat ∧ (0 < length os -> start' < length os)%nat ∧
      take start_pos (obj_item <$> os) ++ delivered (take (i - start_pos) (drop start_pos (obj_item <$> os))) t =
        take start' (obj_item <$> os) ∧
      pending_after (take (i - start_pos) (drop start_pos (obj_item <$> os))) t = drop start' (obj_item <$> os)
    end).
Proof.
  intros Hobjs Hos. revert i cmd_size start_pos stack w. set (items := obj_item <$> os).
  assert (length items = length os) as Hli by apply length_fmap.
  induction n as [|n IH]; intros i cmd_size start_pos stack w Hn Hsi Hbig Hpos Hstack; cbn [pipeline_loop].
  { run_step. assert (i = length os) as -> by lia. split_and!; [done|constructor|done|done| |].
    - cbn. by rewrite app_nil_r.
    - cbn. apply take_ge. rewrite length_drop. lia. }
  set (pend := take (i - start_pos) (drop start_pos items)).
  assert (length pend = i - start_pos)%nat as Hlp by (unfold pend; rewrite length_take, length_drop; lia).
  run_step. apply (runs_mono _ _ (λ r w' t, net_only w w' ∧ net_trace t ∧
    match r with
    | None => True
    | Some (cmd_size', start') => (start' <= i)%nat ∧
        (REDIS_MGRT_CMD_PARAMS_SIZE < cmd_size' -> (start' < i)%nat) ∧
        take start_pos items ++ delivered pend t = take start' items ∧
        pending_after pend t = take (i - start') (drop start' items)
    end)).
  { destruct (Z.ltb_spec REDIS_MGRT_CMD_PARAMS_SIZE cmd_size) as [Hlt|Hge].
    - run_step. specialize (Hbig Hlt). eapply runs_mono; [apply (pipeline_reply_ok ctx start_pos i w pend); lia|].
      intros r w1 t1 (Hn1 & Hu1 & H1). run_step. rewrite app_nil_r. split_and!; [done|done|].
      case_decide as Hr; [done|]. destruct (H1 Hr) as [Hd Hp]. split_and!; [done| | |].
      + unfold REDIS_MGRT_CMD_PARAMS_SIZE. lia.
      + rewrite Hd, (take_ge pend) by lia. by apply take_range.
      + rewrite Hp, (drop_ge pend) by lia. by rewrite Nat.sub_diag.
    - run_step. split_and!; [done|constructor|done|lia| |done]. cbn. by rewrite app_nil_r. }
  intros [[cmd_size' start']|] w1 t1 (Hn1 & Hu1 & H1); [|run_step; by rewrite app_nil_r].
  destruct H1 as (Hsi' & Hbig' & Hd1 & Hp1).
  destruct (lookup_lt_is_Some_2 os i) as [o Ho]; [lia|].
  assert (is_i64 (obj_ttl o)) as Ht.
  { pose proof (Forall_lookup_1 _ _ _ _ Hos Ho) as Hi. unfold obj_ttl. unfold is_i64 in *. destruct (0 <? ob_ttlms o); lia. }
  destruct (ll2string_buffer stack _ Ht Hstack) as (s & stack' & Es & Hstack' & _).
  run_step. eapply runs_lift; [by rewrite (Hobjs i o Ho)|]. run_step. eapply runs_lift; [exact Es|].
  cbv beta iota zeta. run_step.
  set (a := PipelineArgs _ _ _). exists (), (log (Appended ctx a) (set_net w1 (redisAppendCommand (w_net w1) ctx a))).
  split; [done|]. eexists [_]. split; [reflexivity|].
  eapply runs_mono; [apply (IH (Datatypes.S i) _ start'); try done; lia|].
  intros r w2 t2 (Hn2 & Hu2 & H2). cbn [app].
  split; [eapply net_only_trans; [exact Hn1|exact Hn2]|].
  split; [apply net_trace_app; [done|by constructor]|]. destruct r as [start''|]; [|done].
  destruct H2 as (Hle & Hlt & Hd2 & Hp2).
  assert (take (i - start') (drop start' items) ++ [pipeline_item a] =
    take (Datatypes.S i - start') (drop start' items)) as Epend.
  { assert (items !! i = Some (pipeline_item a)) as Hit by (unfold items; by rewrite list_lookup_fmap, Ho).
    replace (Datatypes.S i - start')%nat with (Datatypes.S (i - start')) by lia. symmetry. apply take_S_r.
    rewrite lookup_drop. by replace (start' + (i - start'))%nat with i by lia. }
  split_and!; [done|done| |].
  - rewrite delivered_app, Hp1. cbn [delivered]. by rewrite Epend, app_assoc, Hd1.
  - rewrite pending_app, Hp1. cbn [pending_after]. by rewrite Epend.
Qed.

Lemma pipeline_ok stack conn objs os w :
  cache_wf w -> is_Some (w_conns w !! conn) -> holds_objs objs os ->
  Forall (λ o, is_i64 (ob_ttlms o)) os -> os ≠ [] -> length stack = REDIS_LONGSTR_SIZE ->
  runs (Pipeline_SlotsRestore stack conn objs (length os)) w (λ r w' t,
    quiet w w' ∧ sent os r t ∧ (r ≠ SLOTS_MGRT_ERR -> delivered [] t = obj_item <$> os)).
Proof.
  intros Hc [c Hconn] Hobjs Hos Hne Hstack. unfold Pipeline_SlotsRestore.
  run_step. eapply runs_conn; [exact Hconn|]. run_step.
  eapply runs_mono; [apply (pipeline_loop_ok (cn_ctx c) (length os) 0 objs os 0 0); try done|].
  intros r w1 t1 (Hn1 & Hu1 & H1). assert (0 < length os)%nat as Hlen by (destruct os; [done|simpl; lia]).
  destruct r as [start_pos|].
  2: { run_step. rewrite app_nil_r. split; [by apply net_only_quiet|]. split; [by split; [|left]|done]. }
  destruct H1 as (Hle & Hlt & Hd1 & Hp1). rewrite !take_0 in Hd1. rewrite take_0 in Hp1. cbn [app] in Hd1.
  run_step. eapply runs_mono.
  { apply (pipeline_reply_ok (cn_ctx c) start_pos (length os) w1 (drop start_pos (obj_item <$> os))); [lia|].
    rewrite length_drop, length_fmap. lia. }
  intros r w2 t2 (Hn2 & Hu2 & H2). run_step. rewrite app_nil_r. cbn [app].
  split; [apply net_only_quiet; [done|by eapply net_only_trans]|].
  assert (net_trace (t1 ++ t2)) as Hu by (by apply net_trace_app).
  case_decide as Hr; [by split; [split; [|left]|done]|]. destruct (H2 Hr) as [Hd2 Hp2].
  assert (delivered [] (t1 ++ t2) = obj_item <$> os) as Hd.
  { rewrite delivered_app, Hd1, Hp1, Hd2, take_range by done. apply take_ge. by rewrite length_fmap. }
  split; [|done]. split; [done|]. right. split_and!; [done| |by rewrite Hd].
  rewrite pending_app, Hp1, Hp2. rewrite drop_drop. apply drop_ge. rewrite length_fmap. lia.
Qed.

(** ** Properties *)

(** [BatchSend_SlotsRestore] returns for every answer of the network: with
    the number of objects when the other server has acknowledged every object,
    in order and once, in commands split by size, and every string it made is
    freed once; with an error otherwise.  An error of a command in the middle
    frees as many strings as that command has objects, so one string leaks for
    each object delivered before. *)
Theorem BatchSend_SlotsRestore_spec stack conn objs os w :
  cache_wf w -> is_Some (w_conns w !! conn) -> holds_objs objs os ->
  Forall (λ o, is_i64 (ob_ttlms o)) os -> os ≠ [] -> length stack = REDIS_LONGSTR_SIZE ->
  runs (BatchSend_SlotsRestore stack conn objs (length os)) w (λ r w' t,
    quiet w w' ∧ sent os r t ∧
    (r ≠ SLOTS_MGRT_ERR -> delivered [] t = obj_item <$> os ∧
       ttl_dups t = seq 0 (length os) ∧ ttl_frees t = seq 0 (length os)) ∧
    (r = SLOTS_MGRT_ERR -> left_at (obj_item <$> os) 0 0 t ∨
       (∃ k, delivered [] t = take k (obj_item <$> os)) ∧
       ttl_dups t = seq 0 (length os) ∧ ttl_frees t = seq 0 (length os))).
Proof. apply batch_send_ok. Qed.

(** [Pipeline_SlotsRestore] returns for every answer of the network, and
    with the number of objects only when each appended command had a reply
    without an error, in order; no reply is left unread then. *)
Theorem Pipeline_SlotsRestore_spec stack conn objs os w :
  cache_wf w -> is_Some (w_conns w !! conn) -> holds_objs objs os ->
  Forall (λ o, is_i64 (ob_ttlms o)) os -> os ≠ [] -> length stack = REDIS_LONGSTR_SIZE ->
  runs (Pipeline_SlotsRestore stack conn objs (length os)) w (λ r w' t,
    quiet w w' ∧ sent os r t ∧ (r ≠ SLOTS_MGRT_ERR -> delivered [] t = obj_item <$> os)).
Proof. apply pipeline_ok. Qed.
End batch.
