(* ===== verification/Sweep.v ===== *)
(** * Sweep: closing the connections that are not in use any more

    [SlotsMGRT_CloseTimedoutConns] of redisxslot.c, which the cron loop of
    module.c calls: it iterates over the dictionary of the cached connections
    and closes those whose last use is more than 30 seconds ago.

    The iterators of a dictionary are the server's.  The memory at a key is the
    bytes from there on: the iterator gives the length of the key, the code looks
    for a NUL.  Nothing is known of an iterator of a dictionary that has changed, so
    that what the sweep does after it has closed a connection is shown as far as it
    depends on the code alone. *)

From S2P Require Import Prelude.
From S2P Require Import Numbers.
From S2P Require Import Slots.
From S2P Require Import Events.
From S2P Require Import Refinement.
From S2P Require Import Prog.
From S2P Require Import Server.
From S2P Require Import ServerSpec.
From S2P Require Import ConnCache.
From S2P Require Import Glob.
From S2P Require Import MigrateProps.
Local Open Scope Z_scope.

Definition MGRT_BATCH_KEY_TIMEOUT : Z := 30.

(** What [RedisModule_DictNextC] gives: the memory at the key, the length of the
    key, the connection.  It sees the dictionary as it is at the call. *)
Record dict_item := DictItem { di_mem : list byte; di_keyLen : nat; di_conn : nat }.

Class RedisDictIter (It : Type) := {
  RedisModule_DictIteratorStartC : gmap (list byte) nat -> It;
  (* [None] outside: not defined; inside: [NULL] *)
  RedisModule_DictNextC : It -> gmap (list byte) nat -> option (option dict_item * It)
}.

Section sweep.
Context {S Srv Net It : Type} `{HS : RedisStrings S} `{HV : !RedisServer S Srv} `{HN : !Hiredis Net}.
Context `{HI : !RedisDictIter It}.
Implicit Types (w : world S Srv Net) (it : It).
Notation M := (prog (world S Srv Net)).

(** The body of the loop; [None] is a key without a NUL, or a connection that is
    freed already. *)
Definition sweep_conn (unixtime : Z) (i : dict_item) : M () :=
  conn ← conn_at (di_conn i);
  if MGRT_BATCH_KEY_TIMEOUT <? unixtime - cn_last_time conn then
    n ← lift (strlen (di_mem i));
    _ ← cache_del (take n (di_mem i));
    _ ← free_ctx (cn_ctx conn);
    free_conn (di_conn i)
  else mret ().

Definition dict_next it : M (option dict_item * It) := λ w,
  r ← RedisModule_DictNextC it (w_cache w); Some (r, w).

Fixpoint conns_loop (fuel : nat) (unixtime : Z) it : M () :=
  match fuel with
  | O => undefined
  | Datatypes.S fuel =>
    '(k, it) ← dict_next it;
    match k with
    | None => mret ()
    | Some i => _ ← sweep_conn unixtime i; conns_loop fuel unixtime it
    end
  end.

(** The dictionary gets no new names meanwhile, so that one round more than it
    has names is enough. *)
Definition SlotsMGRT_CloseTimedoutConns : M () :=
  unixtime ← get_unixtime;
  fuel ← get (λ w, size (w_cache w));
  it ← get (λ w, RedisModule_DictIteratorStartC (w_cache w));
  conns_loop (Datatypes.S fuel) unixtime it.

(** The event of the cron loop with the sweep. *)
Definition cron_event (active_child : bool) (clock : nat -> Z) (hz : Z) : M () := λ w,
  '(close, st, cs) ← CronLoopCallback (m_slots (w_mod w)) (m_cron (w_mod w)) active_child clock hz;
  let w := set_server w (w_srv w) (Module st (m_notify (w_mod w)) cs) in
  if close : bool then SlotsMGRT_CloseTimedoutConns w else Some ((), w).

(** ** One connection *)
Definition idle (now : Z) w (p : nat) : bool :=
  if w_conns w !! p is Some c then MGRT_BATCH_KEY_TIMEOUT <? now - cn_last_time c else false.

(** The world without a connection and a name. *)
Definition close_one w (p : nat) (name : list byte) : world S Srv Net :=
  let c := if w_conns w !! p is Some c then cn_ctx c else 0%nat in
  World (w_srv w) (w_mod w) (redisFree (w_net w) c) (delete p (w_conns w)) (delete name (w_cache w)) (w_trace w).

Lemma sweep_conn_eq now i w :
  is_Some (w_conns w !! di_conn i) ->
  sweep_conn now i w =
    if idle now w (di_conn i) then n ← strlen (di_mem i); Some ((), close_one w (di_conn i) (take n (di_mem i)))
    else Some ((), w).
Proof.
  intros [c Hc]. unfold sweep_conn, conn_at, idle, close_one. unfold mbind at 1, prog_bind at 1. rewrite Hc.
  cbn [mbind option_bind]. destruct (MGRT_BATCH_KEY_TIMEOUT <? _); [|done].
  unfold mbind at 1, prog_bind at 1, lift. by destruct (strlen (di_mem i)).
Qed.

Lemma strlen_key name rest : x00 ∉ name -> strlen (name ++ x00 :: rest) = Some (length name).
Proof.
  intros Hn. unfold strlen. rewrite decide_True by (apply elem_of_app; right; by left).
  by rewrite c_str_app_nul.
Qed.

(** A key with another byte behind it: the connection is freed, its name stays. *)
Lemma sweep_dangling now i w name p extra rest :
  w_cache w !! name = Some p -> is_Some (w_conns w !! p) -> idle now w p = true -> x00 ∉ name ++ extra ->
  w_cache w !! (name ++ extra) = None -> i = DictItem (name ++ extra ++ x00 :: rest) (length name) p ->
  ∃ w', sweep_conn now i w = Some ((), w') ∧ w_cache w' = w_cache w ∧ w_conns w' !! p = None.
Proof.
  intros Hn Hp Hidle Hnul Hno ->. rewrite sweep_conn_eq by done. cbn [di_conn di_mem]. rewrite Hidle.
  rewrite (app_assoc name), strlen_key by done. cbn [mbind option_bind]. rewrite take_app_length.
  eexists. split; [done|]. cbn [close_one w_cache w_conns]. split; [by apply delete_id|apply lookup_delete_eq].
Qed.

(** ** The sweep, whatever the iterator returns *)







(** ** The iterator of a dictionary that does not change *)




(** C38. The sweep takes the length of a name from a NUL behind it, which the keys
    of a dictionary do not have: an idle connection whose name has other bytes
    behind it is freed and stays in the cache, and the next migration to its
    address reads the freed connection. *)
Theorem sweep_unterminated_undefined stack tid meta now name extra rest p w :
  getConnName stack (mt_host meta) (mt_port meta) tid = Some name -> w_cache w !! name = Some p ->
  is_Some (w_conns w !! p) -> idle now w p = true -> x00 ∉ name ++ extra -> w_cache w !! (name ++ extra) = None ->
  (_ ← sweep_conn now (DictItem (name ++ extra ++ x00 :: rest) (length name) p);
   SlotsMGRT_GetConnCtx stack tid meta) w = None.
Proof.
  intros Hname Hp Hc Hidle Hnul Hno.
  destruct (sweep_dangling now _ w name p extra rest Hp Hc Hidle Hnul Hno eq_refl) as (w' & E & Ecache & Econns).
  unfold mbind at 1, prog_bind at 1. rewrite E. unfold SlotsMGRT_GetConnCtx, get_unixtime, get, lift.
  repeat (unfold mbind at 1, prog_bind at 1). rewrite Hname. cbn [mbind option_bind]. rewrite Ecache, Hp.
  unfold conn_at. by rewrite Econns.
Qed.
End sweep.
