(* ===== verification/MigratePool.v ===== *)
(** * MigratePool: sending with the thread pool, and [MGRT]

    [BatchSendWithThreadPool_SlotsRestore] cuts the arguments into ranges that
    tile them; whatever order the pool runs the tasks in, a success means that
    every object was delivered.  [MGRT] chooses between the ways of sending. *)

From S2P Require Import Prelude.
From S2P Require Import KeySlot.
From S2P Require Import Numbers.
From S2P Require Import Slots.
From S2P Require Import SlotsInv.
From S2P Require Import Refinement.
From S2P Require Import Prog.
From S2P Require Import Server.
From S2P Require Import ServerSpec.
From S2P Require Import ConnCache.
From S2P Require Import Commands.
From S2P Require Import Migrate.
From S2P Require Import MigrateProps.
Local Open Scope Z_scope.

(** ** Ranges *)

(** Successive ranges from [lo] to [hi], none of them empty. *)
Fixpoint tiled (lo : nat) (ps : list (nat * nat)) (hi : nat) : Prop :=
  match ps with
  | [] => lo = hi
  | (a, b) :: ps => a = lo ∧ (a < b)%nat ∧ tiled b ps hi
  end.

Lemma tiled_app lo ps mid qs hi : tiled lo ps mid -> tiled mid qs hi -> tiled lo (ps ++ qs) hi.
Proof. revert lo. induction ps as [|[a b] ps IH]; intros lo; cbn; [by intros ->|]. intros (-> & ? & ?). auto. Qed.

Lemma tiled_length lo ps hi : tiled lo ps hi -> (length ps + lo <= hi)%nat.
Proof. revert lo. induction ps as [|[a b] ps IH]; intros lo; cbn; [lia|]. intros (-> & ? & H%IH). lia. Qed.

Definition slice {A} (l : list A) (r : nat * nat) : list A := take (r.2 - r.1) (drop r.1 l).

Lemma tiled_concat {A} (l : list A) lo ps hi :
  tiled lo ps hi -> ps ≫= slice l = take (hi - lo) (drop lo l).
Proof.
  revert lo. induction ps as [|[a b] ps IH]; intros lo; cbn [tiled mbind list_bind].
  - intros ->. by rewrite Nat.sub_diag.
  - intros (-> & Hab & Hps). rewrite (IH b Hps). unfold slice. cbn [fst snd].
    pose proof (tiled_length _ _ _ Hps). replace (hi - lo)%nat with ((b - lo) + (hi - b))%nat by lia.
    rewrite <- take_take_drop, drop_drop. by replace (lo + (b - lo))%nat with b by lia.
Qed.

Lemma tiled_range lo ps hi j r : tiled lo ps hi -> ps !! j = Some r -> (lo <= r.1 < r.2)%nat ∧ (r.2 <= hi)%nat.
Proof.
  revert lo j. induction ps as [|[a b] ps IH]; intros lo j; cbn [tiled]; [done|].
  intros (-> & Hab & Hps). pose proof (tiled_length _ _ _ Hps).
  destruct j as [|j]; cbn; [intros [= <-]; cbn; lia|]. intros Hj. pose proof (IH b j Hps Hj). lia.
Qed.

Lemma schedule_slices {A} (l : list A) (ps : list (nat * nat)) (sched : list (nat * Z)) :
  sched.*1 ≡ₚ seq 0 (length ps) ->
  (sched ≫= λ x, default [] (slice l <$> ps !! x.1)) ≡ₚ ps ≫= slice l.
Proof.
  intros Hp. assert ((sched ≫= λ x, default [] (slice l <$> ps !! x.1)) =
    (sched.*1 ≫= λ j, default [] (slice l <$> ps !! j))) as ->.
  { clear Hp. induction sched as [|x sched IH]; [done|]. cbn. by f_equal. }
  rewrite Hp. clear Hp sched.
  assert (∀ pre : list (nat * nat), (seq (length pre) (length ps) ≫= λ j, default [] (slice l <$> (pre ++ ps) !! j)) =
    ps ≫= slice l) as Hgen; [|by rewrite <- (Hgen [])].
  induction ps as [|p ps IH]; intros pre; [done|]. cbn [length seq mbind list_bind].
  rewrite lookup_app_r, Nat.sub_diag by lia. cbn [lookup list_lookup fmap option_fmap option_map default].
  f_equal. rewrite <- (IH (pre ++ [p])), length_app. cbn [length]. rewrite <- app_assoc.
  by replace (length pre + 1)%nat with (S (length pre)) by lia.
Qed.

Section pool.
Context {S Srv Net : Type} `{HS : RedisStrings S} `{HV : !RedisServer S Srv} `{HN : !Hiredis Net}.
Implicit Types (w : world S Srv Net) (o : rdb_dump_obj S) (os : list (rdb_dump_obj S)).
Implicit Types (t : list (action S)).

Lemma split_loop_ok n i objs os argv params cmd_size start_pos buf w :
  holds_objs objs os -> Forall (λ o, is_i64 (ob_ttlms o)) os -> (i + n = length os)%nat ->
  arg_item <$> argv = obj_item <$> take i os -> tiled 0 params start_pos -> (start_pos <= i)%nat ->
  (REDIS_MGRT_CMD_PARAMS_SIZE < cmd_size -> (start_pos < i)%nat) -> (0 < i -> start_pos < i)%nat ->
  length buf = REDIS_LONGSTR_SIZE ->
  runs (split_loop n i objs argv params cmd_size start_pos buf) w (λ '(argv', params', start') w' t,
    net_only w w' ∧ sends t ∧ delivered [] t = [] ∧ ttl_dups t = seq i n ∧ ttl_frees t = [] ∧
    arg_item <$> argv' = obj_item <$> os ∧ tiled 0 params' start' ∧ (start' <= length os)%nat ∧
    (0 < length os -> start' < length os)%nat).
Proof.
  intros Hobjs Hos. revert i argv params cmd_size start_pos buf w.
  induction n as [|n IH]; intros i argv params cmd_size start_pos buf w Hn Hargv Ht Hsi Hbig Hpos Hbuf;
    cbn [split_loop].
  { run_step. assert (i = length os) as -> by lia. rewrite take_ge in Hargv by lia.
    split_and!; try done; apply sends_nil. }
  destruct (lookup_lt_is_Some_2 os i) as [o Ho]; [lia|].
  destruct (restore_triple_ok buf o Hbuf) as (a & buf' & Ea & Hbuf' & Hitem).
  { by apply (Forall_lookup_1 _ _ _ _ Hos Ho). }
  destruct (if REDIS_MGRT_CMD_PARAMS_SIZE <? cmd_size then _ else _) as [[params' cmd_size'] start'] eqn:E.
  assert (tiled 0 params' start' ∧ (start' <= i)%nat) as [Ht' Hsi'].
  { destruct (Z.ltb_spec REDIS_MGRT_CMD_PARAMS_SIZE cmd_size) as [Hlt|]; injection E as <- <- <-; [|done].
    specialize (Hbig Hlt). split; [|lia]. eapply tiled_app; [exact Ht|]. cbn. lia. }
  run_step. eapply runs_lift; [by rewrite (Hobjs i o Ho)|]. run_step. eapply runs_lift; [exact Ea|].
  cbv beta iota. do 2 run_step.
  eapply runs_mono; [apply (IH (Datatypes.S i) (argv ++ [a]) params' _ start'); try done; try lia|].
  { rewrite fmap_app, Hargv, (take_S_r _ _ _ Ho), fmap_app. cbn. by rewrite Hitem. }
  intros [[argv' params''] start''] w2 t2 (Hn2 & Hs2 & Hd2 & Hdup2 & Hfr2 & H2).
  assert (sends [TtlStrdup (S := S) i]) as Hs by (split; [by repeat constructor|done]).
  cbn [app]. change (TtlStrdup i :: t2) with ([TtlStrdup i] ++ t2).
  split; [exact Hn2|]. split; [by apply sends_app|]. rewrite delivered_sends by done.
  split; [exact Hd2|]. split; [cbn; by f_equal|]. by split.
Qed.

Context (stack : list byte) (stack_size : length stack = REDIS_LONGSTR_SIZE).
Context (meta : slot_mgrt_connet_meta) (port_ok : address_ok (Net := Net) (mt_host meta) (mt_port meta)).

(** One task. *)
Lemma task_ok tid (argv : list (list byte * list byte * list byte)) r w :
  is_i64 tid -> (r.1 < r.2)%nat -> (r.2 <= length argv)%nat -> cache_wf w ->
  runs (doSplitRestoreCmdTask stack meta tid argv r.1 r.2) w (λ code w' t,
    quiet w w' ∧ sends t ∧ ttl_dups t = [] ∧ ttl_frees t = [] ∧
    (code = SLOTS_MGRT_ERR ∧ delivered [] t = [] ∨
     code ≠ SLOTS_MGRT_ERR ∧ delivered [] t = slice (arg_item <$> argv) r)).
Proof using stack_size port_ok.
  intros Htid Hr Hlen Hc. unfold doSplitRestoreCmdTask.
  run_step. eapply runs_mono; [by apply get_conn_ok|]. intros conn w1 t1 (-> & Hq1 & Hconn). cbn [app].
  destruct conn as [p|]; [|run_step; split_and!; try done; [apply sends_nil|by left]].
  destruct Hconn as ([c Hcp] & _). run_step. eapply runs_conn; [exact Hcp|].
  run_step. destruct (redisSelect (w_net w1) (cn_ctx c) (mt_db meta)) as [rr net] eqn:Esel.
  exists rr, (log (Selected (cn_ctx c) (mt_db meta) (reply_ok rr)) (set_net w1 net)).
  split; [unfold select; by rewrite Esel|]. eexists [_]. split; [reflexivity|].
  assert (∀ ok, sends [Selected (S := S) (cn_ctx c) (mt_db meta) ok]) as Hs by (split; [by repeat constructor|done]).
  destruct Hq1 as (E1 & E2 & Hc1).
  destruct (reply_ok rr); cbn [negb].
  2: { run_step. split_and!; try done; [by destruct Hc1|apply Hs|by left]. }
  run_step. eapply runs_mono; [by apply split_command_ok|].
  intros code w2 t2 ((E3 & E4 & E5 & E6) & Hs2 & Hdup2 & Hfr2 & H2). cbn [log set_net w_srv w_mod w_conns w_cache] in *.
  unfold get_unixtime, store_conn. do 2 run_step. run_step. eapply runs_conn; [by rewrite E5|].
  run_step. apply runs_modify; [done|].
  assert (cache_wf (set_conns w2 (<[p := set_last_time c (RedisModule_Milliseconds (w_srv w2) / 1000)]> (w_conns w2))
    (w_cache w2))) as Hc2.
  { apply store_conn_quiet. destruct Hc1 as [H1a H1b]. split; rewrite ?E5, ?E6; done. }
  run_step. eapply runs_mono; [by apply close_conn_ok|]. intros _ w3 t3 (-> & E7 & E8 & Hc3). run_step.
  cbn [app set_conns w_srv w_mod] in *. rewrite !app_nil_r.
  split; [split_and!; [congruence|congruence|exact Hc3]|].
  change (Selected (cn_ctx c) (mt_db meta) true :: t2) with ([Selected (S := S) (cn_ctx c) (mt_db meta) true] ++ t2).
  split; [by apply sends_app|]. split; [exact Hdup2|]. split; [exact Hfr2|].
  rewrite delivered_sends by done. cbn [delivered app]. destruct H2 as [?|[? ->]]; [by left|right].
  split; [done|]. unfold slice. by rewrite fmap_take, fmap_drop.
Qed.

(** The tasks in the order of a schedule. *)
Lemma run_tasks_ok (argv : list (list byte * list byte * list byte)) ps sched w :
  tiled 0 ps (length argv) -> Forall (λ x, is_i64 x.2) sched -> Forall (λ x, x.1 < length ps)%nat sched ->
  cache_wf w ->
  runs (run_tasks stack meta argv ps sched) w (λ codes w' t,
    quiet w w' ∧ sends t ∧ ttl_dups t = [] ∧ ttl_frees t = [] ∧
    (SLOTS_MGRT_ERR ∉ codes ->
     delivered [] t = sched ≫= λ x, default [] (slice (arg_item <$> argv) <$> ps !! x.1))).
Proof using stack_size port_ok.
  intros Hps. revert w. induction sched as [|[j tid] sched IH]; intros w Htid Hj Hc; cbn [run_tasks].
  { run_step. split_and!; try done. apply sends_nil. }
  apply Forall_cons in Htid as [Htid Htids]. apply Forall_cons in Hj as [Hj Hjs]. cbn [fst snd] in *.
  destruct (lookup_lt_is_Some_2 ps j Hj) as [[a b] Hr]. destruct (tiled_range _ _ _ _ _ Hps Hr) as [H1 H2].
  cbn [fst snd] in *. run_step. eapply runs_lift; [exact Hr|]. cbv beta iota.
  run_step. eapply runs_mono; [apply (task_ok tid argv (a, b)); cbn; done || lia|].
  intros code w1 t1 (Hq1 & Hs1 & Hdup1 & Hfr1 & Hcode).
  run_step. eapply runs_mono; [apply IH; try done; apply Hq1|].
  intros codes w2 t2 (Hq2 & Hs2 & Hdup2 & Hfr2 & Hcodes). run_step. rewrite app_nil_r. cbn [app].
  split; [by eapply quiet_trans|]. split; [by apply sends_app|].
  split; [unfold ttl_dups in *; by rewrite omap_app, Hdup1, Hdup2|].
  split; [unfold ttl_frees in *; by rewrite omap_app, Hfr1, Hfr2|].
  rewrite not_elem_of_cons. intros [Hne Hnot]. rewrite delivered_sends, (Hcodes Hnot) by done.
  destruct Hcode as [[? _]|[_ ->]]; [done|]. cbn [mbind list_bind fst]. by rewrite Hr.
Qed.

(** A pool runs each task once, on some thread. *)
Definition pool_ok (pool : nat -> list (nat * Z)) : Prop :=
  ∀ n, (pool n).*1 ≡ₚ seq 0 n ∧ Forall (λ x, is_i64 x.2) (pool n).

Lemma pool_send_ok pool objs os w :
  pool_ok pool -> cache_wf w -> holds_objs objs os -> Forall (λ o, is_i64 (ob_ttlms o)) os -> os ≠ [] ->
  runs (BatchSendWithThreadPool_SlotsRestore stack pool meta objs (length os)) w (λ r w' t,
    quiet w w' ∧ sent os r t ∧ ttl_dups t = seq 0 (length os) ∧ ttl_frees t = seq 0 (length os)).
Proof using stack_size port_ok.
  intros Hpool Hc Hobjs Hos Hne. unfold BatchSendWithThreadPool_SlotsRestore.
  run_step. eapply runs_mono; [by apply (split_loop_ok (length os) 0 objs os [] [] 0 0 stack)|].
  intros [[argv params] start_pos] w1 t1 (Hn1 & Hs1 & Hd1 & Hdup1 & Hfr1 & Hargv & Ht & Hle & Hlt).
  assert (0 < length os)%nat as Hlen by (destruct os; [done|simpl; lia]).
  assert (length argv = length os) as Hla.
  { apply (f_equal length) in Hargv. by rewrite !length_fmap in Hargv. }
  assert (tiled 0 (params ++ [(start_pos, length os)]) (length argv)) as Htiled.
  { eapply tiled_app; [exact Ht|]. cbn. rewrite Hla. auto. }
  pose proof (tiled_length _ _ _ Htiled). rewrite decide_False by lia.
  set (ps := params ++ [(start_pos, length os)]) in *. destruct (Hpool (length ps)) as [Hperm Htids].
  run_step. eapply runs_mono.
  { apply (run_tasks_ok argv ps); [exact Htiled|exact Htids| |by eapply net_only_quiet].
    apply Forall_forall. intros x Hx. assert (x.1 ∈ seq 0 (length ps)) as Hin%elem_of_seq; [|lia].
    rewrite <- Hperm. by apply list_elem_of_fmap_2. }
  intros codes w2 t2 (Hq2 & Hs2 & Hdup2 & Hfr2 & Hcodes).
  run_step. eapply runs_mono; [apply free_args_ok; lia|]. intros _ w3 t3 (Hn3 & Hs3 & Hd3 & Hdup3 & Hfr3).
  run_step. rewrite app_nil_r. cbn [app].
  assert (sends (t1 ++ t2 ++ t3)) as Hs by auto using sends_app.
  split; [eapply quiet_trans; [by apply net_only_quiet|]; eapply quiet_trans; [exact Hq2|];
    apply net_only_quiet; [apply Hq2|done]|].
  split; [split; [apply Hs|]|].
  - case_decide as Herr; [by left|right]. split; [done|]. split; [apply Hs|].
    rewrite !delivered_sends, Hd1, Hd3, app_nil_r, (Hcodes Herr), schedule_slices by done.
    rewrite (tiled_concat _ _ _ _ Htiled), Hargv, drop_0, take_ge; [done|]. rewrite length_fmap. lia.
  - unfold ttl_dups, ttl_frees in *.
    by rewrite !omap_app, Hdup1, Hdup2, Hdup3, Hfr1, Hfr2, Hfr3, !app_nil_r.
Qed.
End pool.

(** ** [MGRT] *)
Section mgrt.
Context {S Srv Net : Type} `{HS : RedisStrings S} `{HV : !RedisServer S Srv} `{HN : !Hiredis Net}.
Implicit Types (w : world S Srv Net) (os : list (rdb_dump_obj S)).

(** What [MGRT] is called with. *)
Record mgrt_args (stack host port : list byte) (pool : nat -> list (nat * Z)) (tid : Z) : Prop := {
  ma_stack : length stack = REDIS_LONGSTR_SIZE;
  ma_address : address_ok (Net := Net) host port;
  ma_pool : pool_ok pool;
  ma_tid : is_i64 tid
}.

Lemma mgrt_ok stack pool tid db host port timeoutMS objs os mgrtType w :
  mgrt_args stack host port pool tid -> cache_wf w -> holds_objs objs os ->
  Forall (λ o, is_i64 (ob_ttlms o)) os -> os ≠ [] ->
  runs (MGRT stack pool tid db host port timeoutMS objs (length os) mgrtType) w (λ r w' t,
    quiet w w' ∧ sent os r t).
Proof.
  intros [Hst Hport Hpool Htid] Hc Hobjs Hos Hne. unfold MGRT. set (meta := ConnMeta _ _ _ _).
  do 2 run_step. destruct (0 <? slots_mgrt_threads (meta_info w)).
  { eapply runs_mono; [by apply pool_send_ok|]. intros r w1 t1 (? & ? & _). done. }
  run_step. eapply runs_mono; [by apply get_conn_ok|]. intros conn w1 t1 (-> & Hq1 & Hconn). cbn [app].
  destruct conn as [p|]; [|run_step; split; [exact Hq1|]; split; [constructor|by left]].
  destruct Hconn as ([c Hcp] & _). run_step. eapply runs_conn; [exact Hcp|].
  run_step. destruct (redisSelect (w_net w1) (cn_ctx c) db) as [rr net] eqn:Esel.
  exists rr, (log (Selected (cn_ctx c) db (reply_ok rr)) (set_net w1 net)).
  split; [unfold select; by rewrite Esel|]. eexists [_]. split; [reflexivity|].
  destruct Hq1 as (E1 & E2 & Hc1).
  assert (cache_wf (log (Selected (cn_ctx c) db (reply_ok rr)) (set_net w1 net))) as Hc2 by (by destruct Hc1).
  destruct (reply_ok rr); cbn [negb].
  2: { run_step. eapply runs_mono; [by apply close_conn_ok|]. intros _ w2 t2 (-> & E3 & E4 & Hc3). run_step.
       split; [split_and!; [by rewrite E3|by rewrite E4|done]|]. split; [by repeat constructor|by left]. }
  cbn [app]. run_step. apply (runs_mono _ _ (λ r w' t, quiet (log (Selected (cn_ctx c) db true) (set_net w1 net)) w' ∧
    sent os r t)).
  { destruct (_ && _).
    - eapply runs_mono; [apply pipeline_ok; try done; by exists c|]. intros r w2 t2 (? & ? & _). done.
    - eapply runs_mono; [apply batch_send_ok; try done; by exists c|]. intros r w2 t2 (? & ? & _). done. }
  intros r w2 t2 (Hq2 & Hu2 & Hsent2).
  run_step. eapply runs_mono; [apply close_conn_ok; try done; apply Hq2|]. intros _ w3 t3 (-> & Hq3). run_step.
  rewrite !app_nil_r. split.
  - destruct (quiet_trans _ _ _ Hq2 Hq3) as (E3 & E4 & Hc3).
    split_and!; [by rewrite E3|by rewrite E4|done].
  - cbn [app]. split; [by constructor|].
    destruct Hsent2 as [?|(? & Hp & Hd)]; [by left|right; by split_and!].
Qed.

(** [BatchSendWithThreadPool_SlotsRestore] delivers every object once or
    reports an error, in whatever order and on whatever threads the pool runs
    the tasks: the ranges of the tasks cover the array without overlap, and each
    string is made and freed once. *)
Theorem BatchSendWithThreadPool_SlotsRestore_spec stack pool meta objs os w :
  length stack = REDIS_LONGSTR_SIZE -> address_ok (Net := Net) (mt_host meta) (mt_port meta) -> pool_ok pool -> cache_wf w ->
  holds_objs objs os -> Forall (λ o, is_i64 (ob_ttlms o)) os -> os ≠ [] ->
  runs (BatchSendWithThreadPool_SlotsRestore stack pool meta objs (length os)) w (λ r w' t,
    quiet w w' ∧ sent os r t ∧ ttl_dups t = seq 0 (length os) ∧ ttl_frees t = seq 0 (length os)).
Proof. intros Hst Hport Hpool. by apply pool_send_ok. Qed.

(** [MGRT] is total: whichever way it sends, it delivers every object once
    and returns their number, or returns an error; the cache of connections
    stays in order, the index and the keyspace are not touched. *)
Theorem MGRT_spec stack pool tid db host port timeoutMS objs os mgrtType w :
  mgrt_args stack host port pool tid -> cache_wf w -> holds_objs objs os ->
  Forall (λ o, is_i64 (ob_ttlms o)) os -> os ≠ [] ->
  runs (MGRT stack pool tid db host port timeoutMS objs (length os) mgrtType) w (λ r w' t,
    quiet w w' ∧ sent os r t).
Proof. apply mgrt_ok. Qed.
End mgrt.
