(* ===== verification/MigrateSpec.v ===== *)
(** * MigrateSpec: a whole migration

    [migrateKeys] on keys the server can dump: the values are freed once, no key
    is deleted before the other server has acknowledged every object, and the
    index is the keyspace's all along. *)

From S2P Require Import Prelude.
From S2P Require Import KeySlot.
From S2P Require Import Numbers.
From S2P Require Import Slots.
From S2P Require Import SlotsInv.
From S2P Require Import Events.
From S2P Require Import Refinement.
From S2P Require Import Statics.
From S2P Require Import Prog.
From S2P Require Import Server.
From S2P Require Import ServerSpec.
From S2P Require Import ConnCache.
From S2P Require Import Commands.
From S2P Require Import Migrate.
From S2P Require Import MigrateProps.
From S2P Require Import MigratePool.
Local Open Scope Z_scope.

(** The values a trace makes and frees. *)
Definition val_news {S} (t : list (action S)) : list S :=
  omap (λ a, match a with ValCreated v => Some v | _ => None end) t.
Definition val_frees {S} (t : list (action S)) : list S :=
  omap (λ a, match a with ValFreed v => Some v | _ => None end) t.

(** The keys of a trace that UNLINK has deleted, and all it was called on. *)
Definition unlinked {S} (t : list (action S)) : list S :=
  omap (λ a, match a with Called _ (UNLINK k) (Some (REDISMODULE_REPLY_INTEGER _)) => Some k | _ => None end) t.
Definition unlinks {S} (t : list (action S)) : list S :=
  omap (λ a, match a with Called _ (UNLINK k) _ => Some k | _ => None end) t.

Lemma unlinked_unlinks {S} (k : S) t : k ∈ unlinked t -> k ∈ unlinks t.
Proof.
  unfold unlinked, unlinks. rewrite !list_elem_of_omap. intros (a & Ha & E). exists a. split; [done|].
  by destruct a as [? [] [[]|]| | | | | | | | |]; simplify_eq.
Qed.

Lemma net_trace_quiet {S} (t : list (action S)) :
  net_trace t -> unlinks t = [] ∧ val_news t = [] ∧ val_frees t = [].
Proof. induction 1 as [|a t Ha _ (IH1 & IH2 & IH3)]; [done|]. by destruct a. Qed.

Section spec.
Context {S Srv Net : Type} `{HS : RedisStrings S} `{HV : !RedisServer S Srv} `{HN : !Hiredis Net}.
Context `{HR : !RedisStringsOk S} `{HVok : !RedisServerOk S Srv}.
Implicit Types (w : world S Srv Net) (o : rdb_dump_obj S) (os : list (rdb_dump_obj S)) (key : S) (keys : list S).
Implicit Types (t : list (action S)).

(** The server answers DUMP and PTTL with [o], and changes nothing for it. *)
Definition dumps (srv : Srv) (db : Z) key o : Prop :=
  RedisModule_Call srv db (DUMP key) = (Some (REDISMODULE_REPLY_STRING (ob_val o)), [], srv) ∧
  RedisModule_Call srv db (PTTL key) = (Some (REDISMODULE_REPLY_INTEGER (ob_ttlms o)), [], srv) ∧
  ob_key o = key ∧ is_i64 (ob_ttlms o).

(** Everything but the trace is as before. *)
Definition same w w' : Prop :=
  w_srv w' = w_srv w ∧ w_mod w' = w_mod w ∧ w_conns w' = w_conns w ∧ w_cache w' = w_cache w.

Lemma runs_call_read db c w r (P : option (call_reply S) -> world S Srv Net -> list (action S) -> Prop) :
  RedisModule_Call (w_srv w) db c = (r, [], w_srv w) ->
  (∀ w', same w w' -> P r w' [Called db c r]) -> runs (call db c) w P.
Proof.
  intros E HP. exists r, (log (Called db c r) (set_server w (w_srv w) (w_mod w))).
  split; [unfold call; by rewrite E|]. exists [Called db c r]. split; [done|]. by apply HP.
Qed.

Lemma dump_obj_ok db key o w :
  dumps (w_srv w) db key o ->
  runs (dumpObj db key) w (λ r w' t, r = (1, Some o) ∧ same w w' ∧ unlinks t = [] ∧ val_news t = [ob_val o] ∧
    val_frees t = [] ∧ delivered [] t = [] ∧ pending_after [] t = []).
Proof.
  intros (Ed & Ep & Ek & _). unfold dumpObj. run_step. eapply runs_call_read; [exact Ed|].
  intros w1 (E1 & E2 & E3 & E4). do 2 run_step. run_step.
  eapply runs_call_read; [cbn [log w_srv]; rewrite E1; exact Ep|]. intros w2 (E5 & E6 & E7 & E8). run_step.
  cbn [log w_srv w_mod w_conns w_cache] in *. split_and!; try done; try congruence. destruct o. by cbn in Ek; subst.
  by split_and!; congruence.
Qed.

Lemma dumps_same srv db key o w w' : same w w' -> w_srv w = srv -> dumps srv db key o -> dumps (w_srv w') db key o.
Proof. intros (E & _) <-. by rewrite E. Qed.

Lemma dump_loop_ok db keys os j objs w :
  Forall2 (dumps (w_srv w) db) keys os ->
  runs (dump_loop db keys j objs) w (λ '(r, objs') w' t, r = j + Z.of_nat (length os) ∧ objs' = objs ++ (Some <$> os) ∧
    same w w' ∧ unlinks t = [] ∧ val_news t = ob_val <$> os ∧ val_frees t = [] ∧
    delivered [] t = [] ∧ pending_after [] t = []).
Proof.
  revert os j objs w. induction keys as [|key keys IH]; intros os j objs w Hd;
    [apply Forall2_nil_inv_l in Hd as ->|apply Forall2_cons_inv_l in Hd as (o & os' & Ho & Hd & ->)]; cbn [dump_loop].
  { run_step. rewrite app_nil_r. split_and!; done || (cbn; lia). }
  run_step. eapply runs_mono; [by apply dump_obj_ok|].
  intros r w1 t1 (-> & Hs1 & Hu1 & Hv1 & Hf1 & Hd1 & Hp1). cbv beta iota zeta.
  rewrite !decide_False by done. eapply runs_mono.
  { apply (IH os' (j + 1) (objs ++ [Some o]) w1). eapply Forall2_impl; [exact Hd|].
    intros k o' Hk. by apply (dumps_same (w_srv w) db k o' w). }
  intros [r objs'] w2 t2 (-> & -> & (E1 & E2 & E3 & E4) & Hu2 & Hv2 & Hf2 & Hd2 & Hp2).
  destruct Hs1 as (E5 & E6 & E7 & E8). split_and!; try congruence.
  - cbn [length]. lia.
  - by rewrite <- app_assoc.
  - split_and!; congruence.
  - unfold unlinks in *. by rewrite omap_app, Hu1, Hu2.
  - unfold val_news in *. by rewrite omap_app, Hv1, Hv2.
  - unfold val_frees in *. by rewrite omap_app, Hf1, Hf2.
  - by rewrite delivered_app, Hd1, Hp1, Hd2.
  - by rewrite pending_app, Hp1, Hp2.
Qed.

Lemma free_objs_ok objs os i n w :
  holds_objs objs os -> (i + n <= length os)%nat ->
  runs (FreeDumpObjs objs i n) w (λ _ w' t, same w w' ∧ w_net w' = w_net w ∧ unlinks t = [] ∧ val_news t = [] ∧
    val_frees t = take n (drop i (ob_val <$> os)) ∧ delivered [] t = [] ∧ pending_after [] t = []).
Proof.
  intros Hobjs. revert i w. induction n as [|n IH]; intros i w Hi; cbn [FreeDumpObjs].
  { run_step. by split_and!. }
  destruct (lookup_lt_is_Some_2 os i) as [o Ho]; [lia|].
  run_step. eapply runs_lift; [by rewrite (Hobjs i o Ho)|]. do 2 run_step.
  eapply runs_mono; [apply IH; lia|]. intros _ w2 t2 (Hs2 & Hn2 & Hu2 & Hv2 & Hf2 & Hd2 & Hp2).
  cbn [app]. split_and!; try done.
  assert ((ob_val <$> os) !! i = Some (ob_val o)) as Hv by (by rewrite list_lookup_fmap, Ho).
  rewrite (drop_S _ _ _ Hv). cbn. by f_equal.
Qed.

(** The names after the keys of a list are deleted. *)
Definition del_names (db : Z) (keys : list S) (kss : list (gset (list byte))) : list (gset (list byte)) :=
  foldl (λ kss k, del_name db (content k) kss) kss keys.

Lemma del_keys_ok db keys ret w :
  follows w -> valid_db (srv_spec (w_srv w)) db ->
  runs (delKeys db keys ret) w (λ r w' t, follows w' ∧
    spec_keeps (srv_spec (w_srv w)) (srv_spec (w_srv w')) ∧
    conf_of (m_slots (w_mod w')) = conf_of (m_slots (w_mod w)) ∧ w_conns w' = w_conns w ∧ w_cache w' = w_cache w ∧
    val_news t = [] ∧ val_frees t = [] ∧ delivered [] t = [] ∧ pending_after [] t = [] ∧
    sp_names (srv_spec (w_srv w')) = del_names db (unlinked t) (sp_names (srv_spec (w_srv w))) ∧
    unlinks t `prefix_of` keys ∧
    (r = SLOTS_MGRT_ERR ∨ unlinks t = keys ∧ r = ret + Z.of_nat (length (unlinked t)))).
Proof using HR.
  revert ret w. induction keys as [|key keys IH]; intros ret w Hw Hdb; cbn [delKeys].
  { run_step. split; [done|]. split; [by split|]. split; [done|]. split_and!; try done. right. split; [done|]. cbn. lia. }
  run_step. apply runs_call; [done..|]. intros r evs srv w1 E Hw1 Hk Hcf E1 E2 E3 E4.
  pose proof (unlink_names _ _ _ _ _ _ E Hdb) as Hnames.
  pose proof (spec_keeps_db _ _ _ Hk Hdb) as Hdb1.
  assert (∀ ret', sp_names (srv_spec (w_srv w1)) = del_names db (unlinked [Called db (UNLINK key) r]) (sp_names (srv_spec (w_srv w))) ->
    ret' = ret + Z.of_nat (length (unlinked [Called db (UNLINK key) r])) ->
    runs (delKeys db keys ret') w1 (λ b w2 t2, follows w2 ∧
      spec_keeps (srv_spec (w_srv w)) (srv_spec (w_srv w2)) ∧
      conf_of (m_slots (w_mod w2)) = conf_of (m_slots (w_mod w)) ∧ w_conns w2 = w_conns w ∧ w_cache w2 = w_cache w ∧
      val_news ([Called db (UNLINK key) r] ++ t2) = [] ∧ val_frees ([Called db (UNLINK key) r] ++ t2) = [] ∧
      delivered [] ([Called db (UNLINK key) r] ++ t2) = [] ∧ pending_after [] ([Called db (UNLINK key) r] ++ t2) = [] ∧
      sp_names (srv_spec (w_srv w2)) =
        del_names db (unlinked ([Called db (UNLINK key) r] ++ t2)) (sp_names (srv_spec (w_srv w))) ∧
      unlinks ([Called db (UNLINK key) r] ++ t2) `prefix_of` key :: keys ∧
      (b = SLOTS_MGRT_ERR ∨ unlinks ([Called db (UNLINK key) r] ++ t2) = key :: keys ∧
        b = ret + Z.of_nat (length (unlinked ([Called db (UNLINK key) r] ++ t2)))))) as Hrest.
  { intros ret' Hn Hret. eapply runs_mono; [by apply IH|].
    intros b w2 t2 (Hw2 & Hk2 & Hcf2 & E5 & E6 & Hv2 & Hf2 & Hd2 & Hp2 & Hn2 & Hpre & Hb).
    split; [done|]. split; [by eapply spec_keeps_trans|]. split; [congruence|]. split_and!; try congruence; try done.
    - unfold unlinked in *. rewrite omap_app. rewrite Hn2, Hn. unfold del_names. by rewrite foldl_app.
    - cbn. by apply prefix_cons.
    - destruct Hb as [?|[Hu Hb]]; [by left|right]. split; [cbn; by f_equal|].
      rewrite Hb, Hret. unfold unlinked. rewrite omap_app, length_app. lia. }
  destruct r as [[]|]; try (apply Hrest; [by rewrite E1, Hnames|cbn; lia]);
    run_step; (split; [done|]; split; [done|]; split; [done|]; rewrite E1; split_and!; try done; [by apply prefix_cons, prefix_nil|by left]).
Qed.

Lemma holds_written os : holds_objs (Some <$> os) os.
Proof. intros i o Ho. by rewrite list_lookup_fmap, Ho. Qed.

Lemma free_all_ok os w :
  runs (FreeDumpObjs (Some <$> os) 0 (length os)) w (λ _ w' t, same w w' ∧ w_net w' = w_net w ∧ unlinks t = [] ∧
    val_news t = [] ∧ val_frees t = ob_val <$> os ∧ delivered [] t = [] ∧ pending_after [] t = []).
Proof.
  eapply runs_mono; [apply (free_objs_ok _ os); [apply holds_written|lia]|].
  intros _ w' t (Hs & Hn & Hu & Hv & Hf & Hd & Hp). rewrite drop_0, take_ge in Hf by (by rewrite length_fmap).
  by split_and!.
Qed.

(** Without a pool of threads that dumps, a loop does. *)
Lemma dump_alone pool db keys w : keys ≠ [] -> slots_dump_threads (meta_info w) = 0 ->
  getRdbDumpObjs pool db keys w = dump_loop db keys 0 [] w.
Proof using Type.
  intros Hne E. destruct keys as [|key keys]; [done|]. unfold getRdbDumpObjs, mbind, prog_bind, get. by rewrite E.
Qed.

Lemma runs_dump_alone pool db keys w P : keys ≠ [] -> slots_dump_threads (meta_info w) = 0 ->
  runs (dump_loop db keys 0 []) w P -> runs (getRdbDumpObjs pool db keys) w P.
Proof using Type. intros Hne E HP. unfold runs, ensures. by rewrite dump_alone. Qed.

Lemma only_dump_alone pool db keys w P : keys ≠ [] -> slots_dump_threads (meta_info w) = 0 ->
  only (dump_loop db keys 0 []) w P -> only (getRdbDumpObjs pool db keys) w P.
Proof using Type. intros Hne E HP. unfold only. by rewrite dump_alone. Qed.

(** What a migration of [os] promises: the trace is a sending part and a
    deleting part. *)
Definition migrated db keys os w (r : Z) w' t : Prop :=
  follows w' ∧ cache_wf w' ∧ spec_keeps (srv_spec (w_srv w)) (srv_spec (w_srv w')) ∧
  (∀ x, name_slot (m_slots (w_mod w')) x = name_slot (m_slots (w_mod w)) x) ∧ ∃ t1 t2, t = t1 ++ t2 ∧
    unlinks t1 = [] ∧ val_news t = ob_val <$> os ∧ val_frees t = ob_val <$> os ∧
    sp_names (srv_spec (w_srv w')) = del_names db (unlinked t2) (sp_names (srv_spec (w_srv w))) ∧
    (r = SLOTS_MGRT_ERR ∧ t2 = [] ∨
     delivered [] t1 ≡ₚ obj_item <$> os ∧ unlinks t2 `prefix_of` keys ∧
     (r = SLOTS_MGRT_ERR ∨ unlinks t2 = keys ∧ r = Z.of_nat (length (unlinked t2)))).

Lemma migrate_keys_ok stack pool tid db host port timeoutMS keys os mgrtType w :
  follows w -> valid_db (srv_spec (w_srv w)) db -> cache_wf w -> mgrt_args stack host port pool tid ->
  keys ≠ [] -> Forall2 (dumps (w_srv w) db) keys os ->
  runs (migrateKeys stack pool tid db host port timeoutMS keys mgrtType) w (migrated db keys os w).
Proof using HR.
  intros Hw Hdb Hc Hargs Hne Hdumps. unfold migrateKeys. rewrite decide_False by done.
  assert (os ≠ []) as Hos by (by intros ->; apply Forall2_nil_inv_r in Hdumps).
  assert (Forall (λ o, is_i64 (ob_ttlms o)) os) as Httl.
  { eapply Forall2_Forall_r; [exact Hdumps|]. apply Forall_forall. by intros key _ o (_ & _ & _ & ?). }
  run_step. eapply runs_mono; [apply runs_dump_alone; [done|by apply (rep_pools _ _ Hw)|by apply dump_loop_ok]|].
  intros [r objs] w1 t1 (-> & -> & (E1 & E2 & E3 & E4) & Hu1 & Hv1 & Hf1 & Hd1 & Hp1). cbv beta iota zeta.
  assert (0 < length os)%nat as Hlen by (destruct os; [done|simpl; lia]).
  rewrite !decide_False by (unfold SLOTS_MGRT_NOTHING, SLOTS_MGRT_ERR; lia).
  replace (Z.to_nat (0 + Z.of_nat (length os))) with (length os) by lia. cbn [app].
  assert (cache_wf w1) as Hc1 by (destruct Hc as [Ha Hb]; split; rewrite ?E3, ?E4; done).
  run_step. eapply runs_mono; [apply (mgrt_ok stack pool tid db host port timeoutMS _ os); try done; apply holds_written|].
  intros r w2 t2 ((E5 & E6 & Hc2) & Hnet & Hsent). destruct (net_trace_quiet _ Hnet) as (Hu2 & Hv2 & Hf2).
  assert (∀ t3, val_news t3 = [] -> val_frees t3 = ob_val <$> os -> unlinks t3 = [] ->
    val_news (t1 ++ t2 ++ t3) = ob_val <$> os ∧ val_frees (t1 ++ t2 ++ t3) = ob_val <$> os ∧
    unlinks (t1 ++ t2 ++ t3) = []) as Htr.
  { intros t3 Hv3 Hf3 Hu3. unfold val_news, val_frees, unlinks in *.
    by rewrite !omap_app, Hv1, Hv2, Hv3, Hf1, Hf2, Hf3, Hu1, Hu2, Hu3, !app_nil_r. }
  assert (∀ w3, same w2 w3 -> follows w3 ∧ cache_wf w3 ∧ w_srv w3 = w_srv w ∧ w_mod w3 = w_mod w) as Hkeep.
  { intros w3 (E7 & E8 & E9 & E10).
    split_and!; [|destruct Hc2 as [Ha Hb]; split; rewrite ?E9, ?E10; done|congruence|congruence].
    unfold follows in *. by rewrite E7, E8, E5, E6, E1, E2. }
  case_decide as Hr.
  { run_step. eapply runs_mono; [apply free_all_ok|]. intros _ w3 t3 (Hs3 & _ & Hu3 & Hv3 & Hf3 & _). run_step.
    destruct (Hkeep w3 Hs3) as (Hw3 & Hc3 & E7 & Em). destruct (Htr t3 Hv3 Hf3 Hu3) as (Hv & Hf & Hu).
    rewrite !app_nil_r. split; [done|]. split; [done|]. split; [by rewrite E7|]. split; [by rewrite Em|]. exists (t1 ++ t2 ++ t3), [].
    rewrite app_nil_r. split_and!; try done; [by rewrite E7|by left]. }
  destruct Hsent as [?|(-> & Hp2 & Hd2)]; [done|]. rewrite decide_False by lia.
  run_step. eapply runs_mono; [apply free_all_ok|].
  intros _ w3 t3 (Hs3 & _ & Hu3 & Hv3 & Hf3 & Hd3 & Hp3).
  destruct (Hkeep w3 Hs3) as (Hw3 & Hc3 & E7 & Em). destruct (Htr t3 Hv3 Hf3 Hu3) as (Hv & Hf & Hu).
  eapply runs_mono; [apply del_keys_ok; [done|by rewrite E7]|].
  intros r w4 t4 (Hw4 & Hk4 & Hcf4 & E8 & E9 & Hv4 & Hf4 & _ & _ & Hn4 & Hpre & Hr4). rewrite E7 in Hn4, Hk4.
  split; [done|]. split; [destruct Hc3 as [Ha Hb]; split; rewrite ?E8, ?E9; done|].
  split; [done|]. split; [intros x; rewrite (name_slot_conf _ _ x Hcf4); by rewrite Em|].
  exists (t1 ++ t2 ++ t3), t4. split_and!; try done.
  - by rewrite <- !app_assoc.
  - rewrite !app_assoc, <- (app_assoc t1). unfold val_news in *. by rewrite omap_app, Hv, Hv4, app_nil_r.
  - rewrite !app_assoc, <- (app_assoc t1). unfold val_frees in *. by rewrite omap_app, Hf, Hf4, app_nil_r.
  - right. split_and!; [|done|done]. by rewrite !delivered_app, Hd1, Hp1, Hp2, Hd3, app_nil_r.
Qed.

(** ** Properties *)

(** C3. No key is lost: [migrateKeys] on keys the server can dump deletes a key
    only after the other server has acknowledged every object, deletes exactly
    the keys UNLINK reports, frees each value it made once on every path, and
    keeps the index equal to the keyspace and the slots as they are; it always
    returns. *)
Theorem migrateKeys_spec stack pool tid db host port timeoutMS keys os mgrtType w :
  follows w -> valid_db (srv_spec (w_srv w)) db -> cache_wf w -> mgrt_args stack host port pool tid ->
  keys ≠ [] -> Forall2 (dumps (w_srv w) db) keys os ->
  runs (migrateKeys stack pool tid db host port timeoutMS keys mgrtType) w (migrated db keys os w).
Proof using HR. apply migrate_keys_ok. Qed.

Lemma free_hole os n w :
  (0 < n)%nat -> FreeDumpObjs (None :: (Some <$> os)) 0 n w = None.
Proof. intros Hn. destruct n; [lia|]. done. Qed.

Lemma dump_missing db key w r :
  RedisModule_Call (w_srv w) db (DUMP key) = (r, [], w_srv w) -> r = None ∨ r = Some REDISMODULE_REPLY_NULL ->
  runs (dumpObj db key) w (λ r' w' t, r' = (SLOTS_MGRT_NOTHING, None) ∧ same w w').
Proof.
  intros E Hr. unfold dumpObj. run_step. eapply runs_call_read; [exact E|]. intros w1 Hs.
  destruct Hr as [->| ->]; by run_step.
Qed.

(** C35. [migrateKeys] has undefined behaviour when the first key is gone and a
    later one is not: the array keeps a hole for the missing key, but the number
    of objects does not count it, and the hole is read. *)
Theorem migrateKeys_missing_undefined stack pool tid db host port timeoutMS key keys os mgrtType w r :
  RedisModule_Call (w_srv w) db (DUMP key) = (r, [], w_srv w) -> r = None ∨ r = Some REDISMODULE_REPLY_NULL ->
  keys ≠ [] -> Forall2 (dumps (w_srv w) db) keys os -> slots_dump_threads (meta_info w) = 0 ->
  migrateKeys stack pool tid db host port timeoutMS (key :: keys) mgrtType w = None.
Proof.
  intros E Hr Hne Hdumps Ht. unfold migrateKeys. rewrite decide_False by done.
  unfold mbind at 1, prog_bind at 1. rewrite dump_alone by done. cbn [dump_loop].
  destruct (dump_missing db key w r E Hr) as (r1 & w1 & E1 & t1 & _ & -> & Hs1).
  assert (os ≠ []) as Hos by (by intros ->; apply Forall2_nil_inv_r in Hdumps).
  assert (0 < length os)%nat as Hlen by (destruct os; [done|simpl; lia]).
  destruct (dump_loop_ok db keys os 0 [None] w1) as ([r2 objs2] & w2 & E2 & t2 & _ & -> & -> & _).
  { eapply Forall2_impl; [exact Hdumps|]. intros k o Hk. by apply (dumps_same (w_srv w) db k o w). }
  unfold mbind, prog_bind. rewrite E1. cbn [app] in *. rewrite (decide_True (P := SLOTS_MGRT_NOTHING = _)) by done.
  rewrite E2. rewrite !decide_False by (unfold SLOTS_MGRT_NOTHING, SLOTS_MGRT_ERR; lia).
  replace (Z.to_nat (0 + Z.of_nat (length os))) with (length os) by lia.
  destruct (MGRT _ _ _ _ _ _ _ _ _ _ w2) as [[m w3]|]; [|done]. cbv beta iota.
  repeat case_decide; by rewrite (free_hole os) by lia.
Qed.
End spec.
