(* ===== verification/TagKeys.v ===== *)
(** * TagKeys: choosing the keys to migrate

    [SlotsMGRT_SlotOneKey], [SlotsMGRT_TagKeys] and [SlotsMGRT_TagSlotKeys] of
    redisxslot.c: one key of a slot, or all the keys with the checksum of a tag,
    from the index.  [left] is [None] for [NULL]. *)

From S2P Require Import Prelude.
From S2P Require Import KeySlot.
From S2P Require Import Numbers.
From S2P Require Import Dict.
From S2P Require Import SkipList.
From S2P Require Import AdList.
From S2P Require Import Slots.
From S2P Require Import Events.
From S2P Require Import Refinement.
From S2P Require Import Prog.
From S2P Require Import Server.
From S2P Require Import ConnCache.
From S2P Require Import Commands.
From S2P Require Import Migrate.
Local Open Scope Z_scope.

Section tags.
Context {S Srv Net : Type} `{HS : RedisStrings S} `{HV : !RedisServer S Srv} `{HN : !Hiredis Net}.
Implicit Types (w : world S Srv Net) (key : S) (z : m_zskiplist S) (l : alist S).
Notation M := (prog (world S Srv Net)).
Notation lheap := (gmap lloc (m_listNode S)).

Definition slots_of w : slots_state S := m_slots (w_mod w).

Definition set_slots (st : slots_state S) : M () :=
  modify (λ w, set_server w (w_srv w) (Module st (m_notify (w_mod w)) (m_cron (w_mod w)))).

(** [node->score] is a [double] for nothing but integers here. *)
Definition crc_range (crc : Z) : m_zrangespec := RangeSpec crc crc false false.

(** [while (node != NULL && node->score == crc)]. *)
Fixpoint collect_loop (fuel : nat) z (crc : Z) (node : option zloc) (h : lheap) l : option (lheap * alist S) :=
  match node with
  | None => Some (h, l)
  | Some x =>
    match fuel with
    | O => None
    | Datatypes.S fuel =>
      n ← node_at (zsl_mem z) x;
      if decide (score n = crc) then
        m ← member n;
        '(h, l) ← m_listAddNodeTail h l m;
        c ← level_at (zsl_mem z) x 0;
        collect_loop fuel z crc (forward c) h l
      else Some (h, l)
    end
  end.

(** The [for] loop that empties the list into the array. *)
Fixpoint take_keys (max : nat) (h : lheap) l : option (list S * lheap * alist S) :=
  match max with
  | O => Some ([], h, l)
  | Datatypes.S max =>
    head ← l_head l;
    n ← h !! head;
    '(_, h, l) ← m_listDelNode h l head;
    '(keys, h, l) ← take_keys max h l;
    Some (n_value n :: keys, h, l)
  end.

(** The keys with the checksum, and the heap when the list is released. *)
Definition tagged_keys z (crc : Z) (h : lheap) : option (list S * lheap) :=
  node ← m_zslFirstInRange z (crc_range crc);
  '(h, l) ← collect_loop (Z.to_nat (zsl_length z)) z crc node h m_listCreate;
  let max := i32 (l_len l) in
  '(keys, h, l) ← take_keys (Z.to_nat max) h l;
  '(_, h) ← m_listRelease h l;
  Some (keys, h).

(** [*left = dictSize(...)]. *)
Definition set_left (db slot : Z) (left : option Z) : M (option Z) :=
  match left with
  | None => mret None
  | Some _ =>
    st ← get slots_of;
    d ← lift (table_of st db slot);
    mret (Some (i32 (dictSize d)))
  end.

Definition SlotsMGRT_TagKeys (stack : list byte) (pool : nat -> list (nat * Z)) (tid db : Z) (h : lheap)
    (host port : list byte) (timeout : Z) key (mgrtType : option (list byte)) (left : option Z) :
    M (Z * option Z * lheap) :=
  st ← get slots_of;
  let info := key_slot st key in
  if negb (si_hastag info) then
    ret ← SlotsMGRT_OneKey stack pool tid db host port timeout key mgrtType;
    mret (ret, left, h)
  else
    d ← lift (table_of st db (si_slot info));
    if decide (dictSize d = 0) then mret (0, left, h)
    else
      di ← lift (i ← db_index db; db_slot_infos st !! i);
      '(keys, h) ← lift (tagged_keys (tagged_key_list di) (si_crc info) h);
      if decide (keys = []) then mret (0, left, h)
      else
        ret ← migrateKeys stack pool tid db host port timeout keys mgrtType;
        left ← set_left db (si_slot info) left;
        mret (ret, left, h).

(** A key of the slot, and the table after its step of rehashing. *)
Definition random_key (fuel : nat) (random : nat -> Z) (db slot : Z) : M (option S) :=
  st ← get slots_of;
  d ← lift (table_of st db slot);
  '(de, d) ← lift (m_dictGetRandomKey fuel d random);
  st ← lift (set_table_at st db slot d);
  _ ← set_slots st;
  mret (de_key <$> de).

Definition SlotsMGRT_SlotOneKey (fuel : nat) (random : nat -> Z) (stack : list byte)
    (pool : nat -> list (nat * Z)) (tid db : Z) (host port : list byte) (timeout slot : Z)
    (mgrtType : option (list byte)) (left : option Z) : M (Z * option Z) :=
  key ← random_key fuel random db slot;
  match key with
  | None => mret (0, left)
  | Some key =>
    ret ← SlotsMGRT_OneKey stack pool tid db host port timeout key mgrtType;
    if decide (ret = SLOTS_MGRT_ERR) then mret (SLOTS_MGRT_ERR, left)
    else
      left ← set_left db slot left;
      mret (ret, left)
  end.

Definition SlotsMGRT_TagSlotKeys (fuel : nat) (random : nat -> Z) (stack : list byte)
    (pool : nat -> list (nat * Z)) (tid db : Z) (h : lheap) (host port : list byte) (timeout slot : Z)
    (mgrtType : option (list byte)) (left : option Z) : M (Z * option Z * lheap) :=
  key ← random_key fuel random db slot;
  match key with
  | None => mret (0, left, h)
  | Some key => SlotsMGRT_TagKeys stack pool tid db h host port timeout key mgrtType left
  end.
End tags.
