(* ===== verification/TagKeysProps.v ===== *)
(** * TagKeysProps: the keys of a tag, and their migration

    [tagged_keys] returns the names whose tag has the checksum, each once, and
    frees its list; [SlotsMGRT_TagKeys] migrates exactly these. *)

From S2P Require Import Prelude.
From S2P Require Import KeySlot.
From S2P Require Import Numbers.
From S2P Require Import Dict.
From S2P Require Import DictInv.
From S2P Require Import DictProps.
From S2P Require Import SkipList.
From S2P Require Import SkipListInv.
From S2P Require Import SkipListSpec.
From S2P Require Import SkipListProps.
From S2P Require Import SkipListRange.
From S2P Require Import AdList.
From S2P Require Import AdListInv.
From S2P Require Import AdListProps.
From S2P Require Import Slots.
From S2P Require Import SlotsInv.
From S2P Require Import SlotsProps.
From S2P Require Import Events.
From S2P Require Import EventsProps.
From S2P Require Import Refinement.
From S2P Require Import Prog.
From S2P Require Import Server.
From S2P Require Import ServerSpec.
From S2P Require Import ConnCache.
From S2P Require Import Commands.
From S2P Require Import CommandsProps.
From S2P Require Import Migrate.
From S2P Require Import MigrateProps.
From S2P Require Import MigratePool.
From S2P Require Import MigrateSpec.
From S2P Require Import TagKeys.
Local Open Scope Z_scope.

Section select.
Context {S : Type} `{HS : RedisStrings S} {HR : RedisStringsOk S}.
Implicit Types (z : m_zskiplist S) (it : zitem S) (l pre suf : list (zitem S)) (h : gmap lloc (m_listNode S)).
Implicit Types (ns : list (lloc * S)).

(** The items with the score, which are together in a sorted list. *)
Fixpoint score_run (crc : Z) l : list (zitem S) :=
  match l with
  | it :: l => if decide (zi_score it = crc) then it :: score_run crc l else []
  | [] => []
  end.

Lemma score_run_length crc l : (length (score_run crc l) <= length l)%nat.
Proof. induction l as [|it l IH]; cbn; [lia|]. case_decide; cbn; lia. Qed.

Lemma score_run_filter crc l :
  zsl_sorted RedisModule_StringCompare l -> Forall (λ it, crc <= zi_score it) l ->
  score_run crc l = filter (λ it, zi_score it = crc) l.
Proof using HR.
  induction l as [|it l IH]; intros Hs Hge; [done|]. cbn [score_run].
  apply Forall_cons in Hge as [Hit Hge]. case_decide as Hc.
  - rewrite filter_cons_True by done. f_equal. apply IH; [|done].
    by apply (sorted_app_inv RedisModule_StringCompare [it] l) in Hs as (_ & Hs & _).
  - rewrite filter_cons_False by done. symmetry. apply filter_none, Forall_forall. intros x Hx E.
    pose proof (sorted_head_le RedisModule_StringCompare it l x Hs) as Hle. rewrite elem_of_cons in Hle.
    specialize (Hle (or_intror Hx)). lia.
Qed.

Lemma collect_loop_ok fuel z crc pre suf h (a : alist S) ns :
  zsl_repr ∅ z (pre ++ suf) -> list_repr h a ns -> (length suf <= fuel)%nat ->
  Z.of_nat (length ns + length suf) < 2 ^ 64 ->
  ∃ h' a' ns', collect_loop fuel z crc (zi_loc <$> head suf) h a = Some (h', a') ∧
    list_repr h' a' (ns ++ ns') ∧ ns'.*2 = zi_mem <$> score_run crc suf ∧ grown h h' ns ns' ∧ l_free a' = l_free a.
Proof.
  intros Hz. revert fuel pre suf Hz h a ns. induction fuel as [|fuel IH]; intros pre suf Hz h a ns Ha Hf Hsm.
  - destruct suf; [|simpl in Hf; lia]. exists h, a, []. cbn. rewrite app_nil_r. split_and!; try done. apply grown_nil.
  - destruct suf as [|it suf].
    { exists h, a, []. cbn. rewrite app_nil_r. split_and!; try done. apply grown_nil. }
    cbn [head fmap option_fmap option_map collect_loop score_run]. rewrite (item_node z pre it suf Hz).
    cbn [mbind option_bind node_of score member]. case_decide as Hc.
    2: { exists h, a, []. rewrite app_nil_r. split_and!; try done. apply grown_nil. }
    cbn [length] in *.
    destruct (add_tail_ok h a ns (zi_mem it) Ha ltac:(lia)) as (h1 & a1 & p & -> & Hp & Ha1 & Hlk & _ & Ef1).
    cbn [mbind option_bind]. destruct (item_next z pre it suf Hz) as (c & -> & Hfwd).
    cbn [mbind option_bind]. rewrite Hfwd.
    destruct (IH (pre ++ [it]) suf ltac:(by rewrite <- app_assoc) h1 a1 _ Ha1) as (h2 & a2 & ns' & -> & Ha2 & Hns & Hg & Ef2).
    { lia. } { rewrite length_app. cbn [length]. lia. }
    exists h2, a2, ((p, zi_mem it) :: ns'). rewrite <- app_assoc in Ha2. split_and!; [done|done| | |congruence].
    + cbn. by f_equal.
    + by apply (grown_trans h h1 h2 ns [(p, zi_mem it)] ns'); [apply grown_one|].
Qed.

Lemma take_keys_ok h (a : alist S) ns :
  list_repr h a ns ->
  ∃ h' a', take_keys (length ns) h a = Some (ns.*2, h', a') ∧
    list_repr h' a' [] ∧ (∀ q, q ∉ ns.*1 -> h' !! q = h !! q) ∧ dom h' = dom h ∖ list_to_set ns.*1.
Proof.
  revert h a. induction ns as [|[p v] ns IH]; intros h a Ha; cbn [length take_keys].
  { exists h, a. split_and!; try done. cbn. by rewrite difference_empty_L. }
  rewrite (lr_head _ _ _ Ha). cbn [hd_or mbind option_bind].
  destruct (del_node_ok h a [] p v ns Ha) as (h1 & a1 & E1 & Ha1 & Hf & Hd & _).
  destruct (lr_seg _ _ _ Ha) as [-> _]. cbn [mbind option_bind n_value]. rewrite E1.
  cbn [mbind option_bind app] in *. destruct (IH h1 a1 Ha1) as (h2 & a2 & -> & Ha2 & Hf2 & Hd2).
  cbn [mbind option_bind]. exists h2, a2. split_and!; [done|done| |].
  - intros q. rewrite fmap_cons, not_elem_of_cons. intros [Hq1 Hq2]. rewrite Hf2 by done. by apply Hf.
  - rewrite Hd2, Hd, fmap_cons. cbn [list_to_set fst]. by rewrite difference_difference_l_L.
Qed.
Lemma fmap_sublist {A B} (f : A -> B) (l k : list A) : l `sublist_of` k -> f <$> l `sublist_of` f <$> k.
Proof. induction 1; cbn; by constructor. Qed.

Lemma head_split {A} (P : A -> Prop) `{!∀ x, Decision (P x)} (l : list A) a :
  head (filter P l) = Some a -> ∃ pre suf : list A, l = pre ++ a :: suf ∧ filter P pre = [].
Proof.
  induction l as [|b l IH]; [done|]. destruct (decide (P b)) as [Hb|Hb].
  - rewrite filter_cons_True by done. intros [= ->]. by exists [], l.
  - rewrite filter_cons_False by done. intros (pre & suf & -> & Hpre)%IH. exists (b :: pre), suf.
    by rewrite filter_cons_False.
Qed.

Lemma inside_crc crc it : inside (crc_range crc) it <-> zi_score it = crc.
Proof.
  unfold inside, in_range, m_zslValueGteMin, m_zslValueLteMax, crc_range. cbn.
  rewrite andb_true_iff. lia.
Qed.

(** The items with the checksum. *)
Definition with_crc (crc : Z) l : list (zitem S) := filter (λ it, zi_score it = crc) l.

Lemma filter_inside crc l : filter (inside (crc_range crc)) l = with_crc crc l.
Proof. apply list_filter_iff. intros it. apply inside_crc. Qed.

(** The loop finds the items with the checksum. *)
Lemma collect_ok z l crc h :
  zsl_repr ∅ z l -> zsl_sorted RedisModule_StringCompare l -> Z.of_nat (length l) < 2 ^ 31 ->
  ∃ node h' a' ns, m_zslFirstInRange z (crc_range crc) = Some node ∧
    collect_loop (Z.to_nat (zsl_length z)) z crc node h m_listCreate = Some (h', a') ∧
    list_repr h' a' ns ∧ ns.*2 = zi_mem <$> with_crc crc l ∧ grown h h' [] ns.
Proof using HR.
  intros Hz Hs Hsm. rewrite (m_zslFirstInRange_spec RedisModule_StringCompare z l _ Hz Hs), filter_inside.
  rewrite (repr_length _ _ Hz), Nat2Z.id.
  destruct (with_crc crc l) as [|it run] eqn:E; cbn [head fmap option_fmap option_map].
  { exists None, h, m_listCreate, []. split_and!; try done; [by destruct (length l)|apply list_create_repr|apply grown_nil]. }
  destruct (head_split (λ it, zi_score it = crc) l it) as (pre & suf & -> & Hpre).
  { unfold with_crc in E. by rewrite E. }
  unfold with_crc in E. rewrite filter_app, Hpre in E. cbn [app] in E.
  assert (zi_score it = crc) as Hit.
  { assert (it ∈ filter (λ it, zi_score it = crc) (it :: suf)) as [? _]%list_elem_of_filter; [|done].
    rewrite E. by left. }
  destruct (collect_loop_ok (length (pre ++ it :: suf)) z crc pre (it :: suf) h m_listCreate [] Hz
    (list_create_repr h)) as (h' & a' & ns & Eloop & Ha & Hns & Hg & _).
  { rewrite length_app. lia. } { rewrite length_app in Hsm. cbn [length] in *. lia. }
  exists (Some (zi_loc it)), h', a', ns. split_and!; try done.
  rewrite Hns, score_run_filter; [by rewrite E| |].
  - by apply (sorted_app_inv RedisModule_StringCompare) in Hs as (_ & Hs & _).
  - apply (sorted_app_inv RedisModule_StringCompare) in Hs as (_ & Hs & _).
    apply Forall_forall. intros x Hx. rewrite <- Hit. by apply (sorted_head_le RedisModule_StringCompare it suf).
Qed.

(** The names with the checksum are the ones of the tag. *)
Definition tag_name (st : slots_state S) (ks : gset (list byte)) (crc : Z) (x : list byte) : Prop :=
  x ∈ ks ∧ si_hastag (name_slot st x) = true ∧ si_crc (name_slot st x) = crc.

(** Each name of the tag once; every node of the list is freed. *)
Lemma tagged_keys_ok st ks z crc h :
  tagged_repr st ks z -> Z.of_nat (size ks) < 2 ^ 31 ->
  ∃ keys, tagged_keys z crc h = Some (keys, h) ∧ NoDup (content <$> keys) ∧
    ∀ x, x ∈ content <$> keys <-> tag_name st ks crc x.
Proof using HR.
  intros (l & Hz & Hs & Hsc & Hnames) Hsm.
  assert (length l <= size ks)%nat as Hlen.
  { apply (tagged_length st ks l Hs Hsc). intros x Hx. by apply Hnames in Hx as [? _]. }
  destruct (collect_ok z l crc h Hz Hs ltac:(lia)) as (node & h1 & a1 & ns & E1 & E2 & Ha1 & Hns & Hg).
  unfold tagged_keys. rewrite E1. cbn [mbind option_bind]. rewrite E2. cbn [mbind option_bind].
  destruct (take_keys_ok h1 a1 ns Ha1) as (h2 & a2 & E3 & Ha2 & Hf2 & Hd2).
  assert (length ns <= length l)%nat as Hnl.
  { apply (f_equal length) in Hns. rewrite !length_fmap in Hns. rewrite Hns. apply length_filter. }
  rewrite (lr_len _ _ _ Ha1). unfold i32. rewrite signed_small, Nat2Z.id, E3 by lia. cbn [mbind option_bind].
  destruct (empty_ok h2 a2 [] Ha2) as (h3 & a3 & E4 & _ & Hf3 & Hd3).
  unfold m_listRelease. rewrite E4. cbn [mbind option_bind].
  assert (h3 = h) as ->.
  { apply (grown_undone h h1 h3 ns Hg).
    - intros q Hq. rewrite Hf3 by (apply not_elem_of_nil). by apply Hf2.
    - rewrite Hd3, Hd2. cbn. by rewrite difference_empty_L. }
  exists (ns.*2). split; [done|]. rewrite Hns, <- list_fmap_compose. split.
  - apply (sublist_NoDup _ (item_name <$> l)); [by apply (tagged_nodup st l Hs)|].
    apply (fmap_sublist item_name), sublist_filter.
  - intros x. unfold tag_name. rewrite (assoc (∧)), <- Hnames, !list_elem_of_fmap. unfold scores_ok in Hsc.
    rewrite Forall_forall in Hsc. split.
    + intros (it & -> & [Hit Hin]%list_elem_of_filter). specialize (Hsc it Hin). cbv beta in Hsc.
      split; [by exists it|]. unfold item_name in Hsc. cbn. congruence.
    + intros [(it & -> & Hin) Hcrc]. exists it. split; [done|]. apply list_elem_of_filter. split; [|done].
      by rewrite (Hsc it Hin).
Qed.
End select.

(** The slot is the checksum's. *)
Lemma slot_of_crc tab size s1 s2 :
  si_crc (slots_num tab size s1) = si_crc (slots_num tab size s2) ->
  si_slot (slots_num tab size s1) = si_slot (slots_num tab size s2).
Proof.
  rewrite !slots_num_slot. by intros ->.
Qed.

Lemma del_names_lookup {S} `{RedisStrings S} db (keys : list S) kss ks :
  kss !! Z.to_nat db = Some ks ->
  del_names db keys kss !! Z.to_nat db = Some (ks ∖ list_to_set (content <$> keys)).
Proof.
  revert kss ks. induction keys as [|k keys IH]; intros kss ks Hks; cbn [del_names foldl fmap list_fmap list_to_set].
  - by rewrite difference_empty_L.
  - rewrite difference_union_distr_r_L. unfold del_names in IH.
    rewrite (IH _ (ks ∖ {[content k]})); [f_equal|unfold del_name; by rewrite list_lookup_alter_eq, Hks].
    apply set_eq. intros x. rewrite elem_of_intersection, !elem_of_difference. tauto.
Qed.

Section tags.
Context {S Srv Net : Type} `{HS : RedisStrings S} `{HV : !RedisServer S Srv} `{HN : !Hiredis Net}.
Context `{HR : !RedisStringsOk S} `{HVok : !RedisServerOk S Srv}.
Implicit Types (w : world S Srv Net) (os : list (rdb_dump_obj S)) (key : S) (keys : list S).
Implicit Types (t : list (action S)) (ks : gset (list byte)) (h : gmap lloc (m_listNode S)).

(** The names of a database of the server. *)
Definition db_names w (db : Z) ks : Prop :=
  sp_names (srv_spec (w_srv w)) !! Z.to_nat db = Some ks.

(** What [*left] is set to. *)
Definition left_of w ks (slot : Z) (left : option Z) : option Z :=
  match left with
  | None => None
  | Some _ => Some (Z.of_nat (size (slot_names (slots_of w) ks slot)))
  end.

Lemma slot_names_small w ks slot : Z.of_nat (size ks) < 2 ^ 31 ->
  Z.of_nat (size (slot_names (slots_of w) ks slot)) < 2 ^ 31.
Proof using HS.
  intros Hsm. assert (slot_names (slots_of w) ks slot ⊆ ks) as Hle%subseteq_size; [|lia].
  intros x. unfold slot_names. rewrite elem_of_filter. tauto.
Qed.

(** The table of a slot of the server's database. *)
Lemma world_table w db ks slot :
  follows w -> valid_db (srv_spec (w_srv w)) db -> db_names w db ks ->
  0 <= slot < sp_size (srv_spec (w_srv w)) ->
  ∃ d, table_of (slots_of w) db slot = Some d ∧ table_repr (slots_of w) ks (Z.to_nat slot) d.
Proof using HR.
  intros Hw Hdb Hks Hslot.
  destruct (table_of_ok (slots_of w) _ _ ks slot (rep_slots _ _ Hw) Hks) as (d & Ed & Hd).
  { unfold slots_of. by rewrite (rep_size _ _ Hw). }
  exists d. split; [|done]. unfold valid_db in Hdb. by rewrite Z2Nat.id in Ed by lia.
Qed.

Lemma set_left_ok db slot ks left w :
  follows w -> valid_db (srv_spec (w_srv w)) db -> db_names w db ks ->
  0 <= slot < sp_size (srv_spec (w_srv w)) ->
  runs (set_left db slot left) w (λ r w' t, r = left_of w ks slot left ∧ w' = w ∧ t = []).
Proof using HR.
  intros Hw Hdb Hks Hslot. destruct left as [l|]; cbn [set_left left_of]; [|by run_step].
  destruct (world_table w db ks slot Hw Hdb Hks Hslot) as (d & Ed & Hd).
  do 3 run_step. eapply runs_lift; [exact Ed|]. run_step.
  rewrite (table_size _ _ _ _ Hd). fold (slot_names (slots_of w) ks slot).
  pose proof (slot_names_small w ks slot (names_small w db ks Hks)). unfold i32. by rewrite signed_small by lia.
Qed.

Lemma crc_slot_range (st : slots_state S) x :
  1 <= hash_slots_size (g_slots_meta_info st) <= 65536 ->
  0 <= si_slot (name_slot st x) < hash_slots_size (g_slots_meta_info st).
Proof using HS. intros Hs. unfold name_slot. by apply slot_range. Qed.

(** No name of the tag when its slot is empty. *)
Lemma tag_slot_empty (st : slots_state S) ks slot d x key :
  table_repr st ks (Z.to_nat slot) d -> dictSize d = 0 ->
  1 <= hash_slots_size (g_slots_meta_info st) <= 65536 -> slot = si_slot (key_slot st key) ->
  ¬ tag_name st ks (si_crc (key_slot st key)) x.
Proof using HR.
  intros Hd Hz Hs -> (Hx & _ & Hcrc). rewrite (table_size _ _ _ _ Hd) in Hz.
  pose proof (crc_slot_range st (content key) Hs) as Hr.
  assert (filter (in_slot st (Z.to_nat (si_slot (key_slot st key)))) ks = ∅) as He by (apply leibniz_equiv, size_empty_inv; lia).
  apply (not_elem_of_empty (C := gset (list byte)) x). rewrite <- He. apply elem_of_filter. split; [|done].
  unfold in_slot. rewrite Z2Nat.id by apply Hr. by apply slot_of_crc.
Qed.

(** What is migrated with a key: the names with its tag's checksum, or the key
    itself. *)
Definition tag_group (st : slots_state S) ks key (x : list byte) : Prop :=
  if si_hastag (key_slot st key) then tag_name st ks (si_crc (key_slot st key)) x else x = content key.

Definition tag_migrated (db : Z) key left ks w (r : Z) (left' : option Z) w' t : Prop :=
  let st := slots_of w in
  (r = 0 ∧ left' = left ∧ w' = w ∧ t = [] ∧ ∀ x, ¬ tag_group st ks key x) ∨
  ∃ keys os ks', NoDup (content <$> keys) ∧ (∀ x, x ∈ content <$> keys <-> tag_group st ks key x) ∧
    Forall2 (dumps (w_srv w) db) keys os ∧ migrated db keys os w r w' t ∧ db_names w' db ks' ∧ ks' ⊆ ks ∧
    left' = if si_hastag (key_slot st key) then left_of w' ks' (si_slot (key_slot st key)) left else left.

(** The names of a database after a migration. *)
Lemma migrated_names db keys os w r w' t ks :
  migrated db keys os w r w' t -> db_names w db ks ->
  ∃ ks', db_names w' db ks' ∧ ks' ⊆ ks ∧ (size ks' <= size ks)%nat.
Proof using HS.
  intros (_ & _ & _ & _ & ta & tb & -> & _ & _ & _ & Hn & _) Hks.
  pose proof (del_names_lookup db (unlinked tb) _ _ Hks) as Hks1. rewrite <- Hn in Hks1.
  assert (ks ∖ list_to_set (content <$> unlinked tb) ⊆ ks) as Hsub by apply subseteq_difference_l, reflexivity.
  eexists. split; [exact Hks1|]. split; [exact Hsub|]. by apply subseteq_size.
Qed.

Lemma tag_keys_ok stack pool tid db h host port timeout key mgrtType left w ks :
  follows w -> valid_db (srv_spec (w_srv w)) db -> cache_wf w -> mgrt_args stack host port pool tid ->
  db_names w db ks ->
  (∀ k, tag_group (slots_of w) ks key (content k) -> ∃ o, dumps (w_srv w) db k o) ->
  runs (SlotsMGRT_TagKeys stack pool tid db h host port timeout key mgrtType left) w
    (λ '(r, left', h') w' t, h' = h ∧ tag_migrated db key left ks w r left' w' t).
Proof using HR.
  intros Hw Hdb Hc Hargs Hks Hdump. unfold SlotsMGRT_TagKeys. do 2 run_step.
  unfold tag_migrated, tag_group in *.
  destruct (si_hastag (key_slot (slots_of w) key)); cbn [negb].
  2: { destruct (Hdump key eq_refl) as [o Ho]. run_step. unfold SlotsMGRT_OneKey.
    eapply runs_mono; [apply (migrate_keys_ok stack pool tid db host port timeout [key] [o]); try done; by constructor|].
    intros r w1 t1 Hm. destruct (migrated_names _ _ _ _ _ _ _ _ Hm Hks) as (ks1 & Hks1 & Hsub & _).
    run_step. rewrite app_nil_r. split; [done|]. right. exists [key], [o], ks1.
    split_and!; try done; [by apply NoDup_singleton|intros x; apply list_elem_of_singleton|by constructor]. }
  pose proof (sr_size _ _ (rep_slots _ _ Hw)) as Hsz.
  pose proof (crc_slot_range (slots_of w) (content key) Hsz) as Hslot. fold (key_slot (slots_of w) key) in Hslot.
  pose proof (rep_size _ _ Hw) as Hsize. fold (slots_of w) in Hsize.
  destruct (world_table w db ks _ Hw Hdb Hks ltac:(rewrite <- Hsize; exact Hslot)) as (d & Ed & Hd).
  run_step. eapply runs_lift; [exact Ed|]. case_decide as Hz.
  { run_step. split; [done|]. left. split_and!; try done. intros x.
    exact (tag_slot_empty (slots_of w) ks _ d x key Hd Hz Hsz eq_refl). }
  destruct (state_lookup _ _ _ _ (rep_slots _ _ Hw) Hks) as (di & Hdi & Hdbr).
  destruct (tagged_keys_ok (slots_of w) ks (tagged_key_list di) (si_crc (key_slot (slots_of w) key)) h
    (db_tagged _ _ _ Hdbr) (names_small w db ks Hks)) as (keys & Ek & Hnd & Hin).
  run_step. eapply runs_lift.
  { unfold db_index. rewrite decide_True by (unfold valid_db in Hdb; lia). exact Hdi. }
  cbv beta. run_step. eapply runs_lift; [exact Ek|]. cbv beta iota. case_decide as Hne.
  { run_step. split; [done|]. left. split_and!; try done. intros x Hx. apply Hin in Hx. rewrite Hne in Hx.
    by apply elem_of_nil in Hx. }
  assert (∃ os, Forall2 (dumps (w_srv w) db) keys os) as [os Hos].
  { apply Forall_exists_Forall2_l, Forall_forall. intros k Hk. apply Hdump, Hin. by apply list_elem_of_fmap_2. }
  run_step. eapply runs_mono; [by apply migrate_keys_ok|]. intros r w1 t1 Hm.
  destruct (migrated_names _ _ _ _ _ _ _ _ Hm Hks) as (ks1 & Hks1 & Hsub & Hle).
  pose proof Hm as (Hw1 & _ & Hk1 & _). run_step. eapply runs_mono.
  { apply (set_left_ok db _ ks1 left w1); [done|by eapply spec_keeps_db|exact Hks1|].
    destruct Hk1 as [_ ->]. rewrite <- Hsize. exact Hslot. }
  intros left' w2 t2 (-> & -> & ->). run_step. rewrite !app_nil_r. split; [done|]. right.
  exists keys, os, ks1. by split_and!.
Qed.

(** ** A random key of a slot *)

(** What is asked of [random]. *)
Definition fair (random : nat -> Z) : Prop :=
  (∀ i, 0 <= random i) ∧ ∀ n r : Z, 0 <= r < n -> ∃ i, random i mod n = r.

(** The server and the connections stay, the index still follows. *)
Definition index_only w w' : Prop :=
  follows w' ∧ w_srv w' = w_srv w ∧ w_conns w' = w_conns w ∧ w_cache w' = w_cache w ∧
  ∀ x, name_slot (slots_of w') x = name_slot (slots_of w) x.

Lemma set_table_at_static (st st' : slots_state S) db slot (d : dict S S) :
  set_table_at st db slot d = Some st' -> crc32tab st' = crc32tab st.
Proof using HS. unfold set_table_at. destruct (db_slot_infos st !! _); [|done]. by intros [= <-]. Qed.

Lemma slot_random_key_ok random db slot ks w :
  fair random -> follows w -> valid_db (srv_spec (w_srv w)) db -> db_names w db ks ->
  0 <= slot < sp_size (srv_spec (w_srv w)) ->
  ∃ fuel, runs (random_key fuel random db slot) w (λ r w' t, t = [] ∧ index_only w w' ∧
    match r with
    | None => w' = w ∧ slot_names (slots_of w) ks slot = ∅
    | Some k => content k ∈ slot_names (slots_of w) ks slot
    end).
Proof using HR.
  intros [Hr Hfair] Hw Hdb Hks Hslot.
  assert (pair_ok (slots_of w) db slot) as Hp.
  { unfold pair_ok, slots_of. rewrite (rep_size _ _ Hw), <- (represents_length _ _ Hw). by split. }
  destruct (table_at_ok _ _ db slot (rep_slots _ _ Hw) Hp) as (di & d & ks' & Hdi & Hd & Hks' & Ht).
  unfold db_names in Hks. rewrite Hks in Hks'. injection Hks' as <-.
  pose proof (proj1 Ht) as Hwf.
  assert (dom (dict_map content d) = slot_names (slots_of w) ks slot) as Hdom by apply Ht.
  destruct (DictProps.random_key_ok content d random Hwf Hr Hfair) as (Hnone & Hsome & Hany).
  assert (table_of (slots_of w) db slot = Some d) as Etab.
  { unfold table_of, db_index. destruct Hp. rewrite !decide_True by lia. cbn [mbind option_bind].
    unfold slots_of. by rewrite Hdi. }
  assert (∀ fuel r d', m_dictGetRandomKey fuel d random = Some (r, d') -> dict_wf content d' ->
    dict_map content d' = dict_map content d -> d_type d' = d_type d ->
    (match r with None => d' = d ∧ slot_names (slots_of w) ks slot = ∅
     | Some e => content (de_key e) ∈ slot_names (slots_of w) ks slot end) ->
    runs (random_key fuel random db slot) w (λ r w' t, t = [] ∧ index_only w w' ∧
      match r with
      | None => w' = w ∧ slot_names (slots_of w) ks slot = ∅
      | Some k => content k ∈ slot_names (slots_of w) ks slot
      end)) as Hrun.
  { intros fuel r d' E Hwf' Em Ety Hres. destruct (same_table_ok _ _ db slot di d d' ks (rep_slots _ _ Hw) Hdi Hd Hks Ht
      Hwf' Em Ety) as (st' & Est & Hst' & Emeta).
    unfold random_key, set_slots. do 2 run_step. run_step. eapply runs_lift; [exact Etab|]. cbv beta.
    run_step. eapply runs_lift; [exact E|]. cbv beta iota. run_step. eapply runs_lift; [exact Est|].
    run_step. apply runs_modify; [done|]. run_step. split; [done|].
    pose proof (represents_slots _ _ st' _ Hw Hst' Emeta eq_refl) as Hw'.
    assert (follows (set_server w (w_srv w) (Module st' (m_notify (w_mod w)) (m_cron (w_mod w))))) as Hf.
    { unfold follows. cbn [set_server w_mod w_srv]. by destruct (srv_spec (w_srv w)). }
    split; [split_and!; try done|].
    - intros x. unfold name_slot, slots_of. cbn [set_server w_mod m_slots].
      by rewrite Emeta, (set_table_at_static _ _ _ _ _ Est).
    - destruct r as [e|]; cbn [fmap option_fmap option_map]; [done|]. destruct Hres as [-> He]. split; [|done].
      assert (st' = slots_of w) as ->; [|by destruct w as [? []]].
      unfold set_table_at in Est. unfold slots_of in *. rewrite Hdi in Est. injection Est as <-.
      assert (set_table di (Z.to_nat slot) d = di) as -> by
        (unfold set_table; rewrite list_insert_id by done; by destruct di).
      unfold set_info. rewrite list_insert_id by done. by destruct (m_slots (w_mod w)). }
  destruct (decide (entries d = [])) as [He|Hne].
  - exists 1%nat. apply (Hrun 1%nat None d); try done; [by apply Hnone|].
    split; [done|]. rewrite <- Hdom. unfold dict_map. rewrite He. apply dom_empty_L.
  - destruct (Hsome Hne) as (fuel & e & d' & E). destruct (Hany _ _ _ E) as (Hin & Hwf' & Em & Ety).
    exists fuel. apply (Hrun fuel (Some e) d' E); try done. rewrite <- Hdom. apply elem_of_dom.
    exists (de_key e, de_val e). apply dict_map_lookup; [apply (wf_nodup _ _ Hwf)|by exists e].
Qed.

(** A migration does not see how the index is laid out. *)
Lemma migrated_index db keys os w w1 r w' t :
  index_only w w1 -> migrated db keys os w1 r w' t -> migrated db keys os w r w' t.
Proof.
  intros (_ & E & _ & _ & Hx) (Hw & Hc & Hk & Hy & Hm). rewrite E in Hk, Hm. split_and!; try done.
  intros x. by rewrite Hy.
Qed.

Lemma cache_wf_index w w' : index_only w w' -> cache_wf w -> cache_wf w'.
Proof. intros (_ & _ & E1 & E2 & _) [H1 H2]. split; rewrite ?E1, ?E2; done. Qed.

(** What SLOTSMGRTSLOT does: one key of the slot, if there is one. *)
Lemma slot_one_key_ok random stack pool tid db host port timeout slot mgrtType left w ks :
  fair random ->
  follows w -> valid_db (srv_spec (w_srv w)) db -> cache_wf w -> mgrt_args stack host port pool tid ->
  db_names w db ks -> 0 <= slot < sp_size (srv_spec (w_srv w)) ->
  (∀ k, content k ∈ slot_names (slots_of w) ks slot -> ∃ o, dumps (w_srv w) db k o) ->
  ∃ fuel, runs (SlotsMGRT_SlotOneKey fuel random stack pool tid db host port timeout slot mgrtType left) w
    (λ '(r, left') w' t,
      (r = 0 ∧ left' = left ∧ w' = w ∧ t = [] ∧ slot_names (slots_of w) ks slot = ∅) ∨
      ∃ key o ks', content key ∈ slot_names (slots_of w) ks slot ∧ dumps (w_srv w) db key o ∧
        migrated db [key] [o] w r w' t ∧ db_names w' db ks' ∧ ks' ⊆ ks ∧
        left' = if decide (r = SLOTS_MGRT_ERR) then left else left_of w' ks' slot left).
Proof using HR.
  intros Hf Hw Hdb Hc Hargs Hks Hslot Hdump.
  destruct (slot_random_key_ok random db slot ks w Hf Hw Hdb Hks Hslot) as [fuel Hrand]. exists fuel.
  unfold SlotsMGRT_SlotOneKey. run_step. eapply runs_mono; [exact Hrand|]. intros key w1 t1 (-> & Hi & Hkey).
  cbn [app]. destruct key as [key|]; [|destruct Hkey as [-> He]; run_step; by left].
  destruct (Hdump key Hkey) as [o Ho]. pose proof Hi as (Hw1 & E1 & _).
  run_step. unfold SlotsMGRT_OneKey.
  eapply runs_mono.
  { apply (migrate_keys_ok stack pool tid db host port timeout [key] [o]); try done; [by rewrite E1|by eapply cache_wf_index|].
    rewrite E1. by constructor. }
  intros r w2 t2 Hm%(migrated_index _ _ _ w); [|done].
  destruct (migrated_names _ _ _ _ _ _ _ _ Hm Hks) as (ks1 & Hks1 & Hsub & Hle).
  pose proof Hm as (Hw2 & _ & Hk2 & _). case_decide as Hr.
  { run_step. rewrite app_nil_r. right. exists key, o, ks1. split_and!; try done. by subst. }
  run_step. eapply runs_mono.
  { apply (set_left_ok db slot ks1 left w2); [done|by eapply spec_keeps_db|exact Hks1|by destruct Hk2 as [_ ->]]. }
  intros left' w3 t3 (-> & -> & ->). run_step. rewrite !app_nil_r. right. exists key, o, ks1.
  split_and!; try done. by rewrite decide_False.
Qed.

(** What SLOTSMGRTTAGSLOT does: a key of the slot with its tag. *)
Lemma tag_slot_keys_ok random stack pool tid db h host port timeout slot mgrtType left w ks :
  fair random ->
  follows w -> valid_db (srv_spec (w_srv w)) db -> cache_wf w -> mgrt_args stack host port pool tid ->
  db_names w db ks -> 0 <= slot < sp_size (srv_spec (w_srv w)) ->
  (∀ k, content k ∈ ks -> ∃ o, dumps (w_srv w) db k o) ->
  ∃ fuel, runs (SlotsMGRT_TagSlotKeys fuel random stack pool tid db h host port timeout slot mgrtType left) w
    (λ '(r, left', h') w' t, h' = h ∧
      ((r = 0 ∧ left' = left ∧ w' = w ∧ t = [] ∧ slot_names (slots_of w) ks slot = ∅) ∨
       ∃ key w1, content key ∈ slot_names (slots_of w) ks slot ∧ index_only w w1 ∧
         tag_migrated db key left ks w1 r left' w' t)).
Proof using HR.
  intros Hf Hw Hdb Hc Hargs Hks Hslot Hdump.
  destruct (slot_random_key_ok random db slot ks w Hf Hw Hdb Hks Hslot) as [fuel Hrand]. exists fuel.
  unfold SlotsMGRT_TagSlotKeys. run_step. eapply runs_mono; [exact Hrand|]. intros key w1 t1 (-> & Hi & Hkey).
  cbn [app]. destruct key as [key|]; [|destruct Hkey as [-> He]; run_step; split; [done|by left]].
  pose proof Hi as (Hw1 & E1 & _).
  eapply runs_mono.
  { apply (tag_keys_ok stack pool tid db h host port timeout key mgrtType left w1 ks); try done;
      [by rewrite E1|by eapply cache_wf_index|unfold db_names in *; by rewrite E1|].
    intros k Hk. rewrite E1. apply Hdump. unfold tag_group in Hk.
    destruct (si_hastag _); [by destruct Hk|]. rewrite Hk. unfold slot_names in Hkey.
    by apply elem_of_filter in Hkey as [_ ?]. }
  intros [[r left'] h'] w2 t2 (-> & Ht). split; [done|]. right. by exists key, w1.
Qed.

(** ** Properties *)

(** C10. [SlotsMGRT_TagKeys] migrates exactly the keys of its database whose tag
    has the checksum of the key's tag, each once, or the key itself when it has
    no tag; it frees its list, and sets [left] to the size of the slot
    afterwards. *)
Theorem SlotsMGRT_TagKeys_spec stack pool tid db h host port timeout key mgrtType left w ks :
  follows w -> valid_db (srv_spec (w_srv w)) db -> cache_wf w -> mgrt_args stack host port pool tid ->
  db_names w db ks ->
  (∀ k, tag_group (slots_of w) ks key (content k) -> ∃ o, dumps (w_srv w) db k o) ->
  runs (SlotsMGRT_TagKeys stack pool tid db h host port timeout key mgrtType left) w
    (λ '(r, left', h') w' t, h' = h ∧ tag_migrated db key left ks w r left' w' t).
Proof using HR. apply tag_keys_ok. Qed.

(** [SlotsMGRT_SlotOneKey] migrates one key of the slot, and reports 0 without
    doing anything exactly when the slot has no key; its search for a key ends
    under every fair source of randomness. *)
Theorem SlotsMGRT_SlotOneKey_spec random stack pool tid db host port timeout slot mgrtType left w ks :
  fair random ->
  follows w -> valid_db (srv_spec (w_srv w)) db -> cache_wf w -> mgrt_args stack host port pool tid ->
  db_names w db ks -> 0 <= slot < sp_size (srv_spec (w_srv w)) ->
  (∀ k, content k ∈ slot_names (slots_of w) ks slot -> ∃ o, dumps (w_srv w) db k o) ->
  ∃ fuel, runs (SlotsMGRT_SlotOneKey fuel random stack pool tid db host port timeout slot mgrtType left) w
    (λ '(r, left') w' t,
      (r = 0 ∧ left' = left ∧ w' = w ∧ t = [] ∧ slot_names (slots_of w) ks slot = ∅) ∨
      ∃ key o ks', content key ∈ slot_names (slots_of w) ks slot ∧ dumps (w_srv w) db key o ∧
        migrated db [key] [o] w r w' t ∧ db_names w' db ks' ∧ ks' ⊆ ks ∧
        left' = if decide (r = SLOTS_MGRT_ERR) then left else left_of w' ks' slot left).
Proof using HR. apply slot_one_key_ok. Qed.
End tags.
