(* ===== verification/MigrateExamples.v ===== *)
(** * MigrateExamples: a server and a network to migrate with

    A server that keeps its keys in memory, notifies what it changes and answers
    DUMP with one value; a network that acknowledges everything, and one that
    cannot connect.  The theorems of the migration apply to them. *)

From S2P Require Import Prelude.
From S2P Require Import KeySlot.
From S2P Require Import Numbers.
From S2P Require Import SkipList.
From S2P Require Import SkipListExamples.
From S2P Require Import Slots.
From S2P Require Import SlotsInv.
From S2P Require Import SlotsProps.
From S2P Require Import Events.
From S2P Require Import EventsProps.
From S2P Require Import Refinement.
From S2P Require Import RefinementExamples.
From S2P Require Import Prog.
From S2P Require Import Server.
From S2P Require Import ServerSpec.
From S2P Require Import ConnCache.
From S2P Require Import Commands.
From S2P Require Import CommandsProps.
From S2P Require Import CommandsExamples.
From S2P Require Import Migrate.
From S2P Require Import MigrateProps.
From S2P Require Import MigratePool.
From S2P Require Import MigrateSpec.
From S2P Require Import TagKeys.
From S2P Require Import TagKeysProps.
Local Open Scope Z_scope.

(** ** The server *)
Record ex_server := ExServer {
  es_names : list (gset (list byte));
  es_small : small es_names
}.

Definition ex_has (srv : ex_server) (db : Z) (x : list byte) : bool :=
  match es_names srv !! Z.to_nat db with Some ks => bool_decide (x ∈ ks) | None => false end.

Definition ex_value : list byte := bytes_of "value".

(** The server with other names, when they are few enough. *)
Definition ex_with (srv : ex_server) (names : list (gset (list byte))) : option ex_server :=
  match decide (small names) with left H => Some (ExServer names H) | right _ => None end.

Definition ex_call (srv : ex_server) (db : Z) (c : redis_command (list byte)) :
    option (call_reply (list byte)) * list (module_event (list byte)) * ex_server :=
  match c with
  | DUMP key => (Some (if ex_has srv db key then REDISMODULE_REPLY_STRING ex_value else REDISMODULE_REPLY_NULL), [], srv)
  | PTTL key => (Some (REDISMODULE_REPLY_INTEGER (-1)), [], srv)
  | UNLINK key =>
    match ex_with srv (del_name db key (es_names srv)) with
    | Some srv' => (Some (REDISMODULE_REPLY_INTEGER 1), [Generic 5 ex_rand db "del" key], srv')
    | None => (Some REDISMODULE_REPLY_ERROR, [], srv)
    end
  | RESTORE k ttlms val =>
    match ex_with srv (add_name db k (es_names srv)) with
    | Some srv' => (Some (REDISMODULE_REPLY_STRING (bytes_of "OK")), [Generic 5 ex_rand db "restore" k], srv')
    | None => (Some REDISMODULE_REPLY_ERROR, [], srv)
    end
  end.

#[export] Instance ex_redis : RedisServer (list byte) ex_server := {
  RedisModule_Call := ex_call;
  RedisModule_KeyType srv db key := if ex_has srv db key then KEYTYPE_STRING else KEYTYPE_EMPTY;
  RedisModule_Milliseconds _ := 1700000000000;
  random_draws _ := (5%nat, ex_rand);
  pool_order _ n := rev (seq 0 n);
  detached_db := 0
}.

Definition ex_spec (srv : ex_server) : spec_state := Spec (es_names srv) None 0 1024 0.

Lemma ex_with_names srv names srv' : ex_with srv names = Some srv' -> es_names srv' = names.
Proof. unfold ex_with. destruct (decide (small names)); [|done]. by intros [= <-]. Qed.

Lemma ex_generic_ok srv db event key :
  valid_db (ex_spec srv) db -> event ≠ "rename_to"%string ->
  trace_ok (ex_spec srv) [Generic 5 ex_rand db event key].
Proof.
  intros Hdb He. split; [|done]. split; [apply es_small|]. split; [done|]. split; [apply ex_draw|done].
Qed.

Lemma ex_has_in srv db ks key : es_names srv !! Z.to_nat db = Some ks -> key ∈ ks -> ex_has srv db key = true.
Proof. unfold ex_has. intros -> Hk. by apply bool_decide_eq_true_2. Qed.

#[export] Instance ex_redis_ok : RedisServerOk (list byte) ex_server.
Proof.
  refine {| srv_spec := ex_spec |}.
  - apply es_small.
  - intros srv. apply ex_draw.
  - intros srv db c r evs srv' E Hc Hdb. destruct c as [key|key|key|]; cbn in E; try done.
    + injection E as <- <- <-. done.
    + injection E as <- <- <-. done.
    + destruct (ex_with srv _) as [srv1|] eqn:Ew; injection E as <- <- <-; [|done].
      split; [by apply ex_generic_ok|]. unfold ex_spec. by rewrite (ex_with_names _ _ _ Ew).
  - intros srv db key r evs srv' E Hdb. cbn in E.
    destruct (ex_with srv _) as [srv1|] eqn:Ew; injection E as <- <- <-; [|done].
    exact (ex_with_names _ _ _ Ew).
  - intros srv db k ttlms val r evs srv' E Hdb. cbn in E.
    destruct (ex_with srv _) as [srv1|] eqn:Ew; injection E as <- <- <-; [|done].
    split; [by apply ex_generic_ok|]. split; [done|]. unfold ex_spec. by rewrite (ex_with_names _ _ _ Ew).
  - intros srv db key ks Hks Hin. cbn [RedisModule_KeyType ex_redis].
    by rewrite (ex_has_in srv db ks key Hks Hin).
Defined.

Lemma ex_dumps srv db key :
  ex_has srv db key = true -> dumps srv db key (DumpObj key ex_value (-1)).
Proof. intros Hk. unfold dumps. cbn. rewrite Hk. split_and!; done. Qed.

(** ** The networks *)

(** Everything is acknowledged. *)
Definition ex_net : Hiredis () := {|
  redisConnect _ _ _ := (1%nat, None, ());
  redisSelect _ _ _ := (Some REDIS_REPLY_OTHER, ());
  redisCommandArgv _ _ _ := (false, Some REDIS_REPLY_OTHER, ());
  redisAppendCommand _ _ _ := ();
  redisGetReply _ _ := (false, Some REDIS_REPLY_OTHER, ());
  redisFree _ _ := ()
|}.

(** No connection. *)
Definition ex_net_down : Hiredis () := {|
  redisConnect _ _ _ := (1%nat, Some (bytes_of "Connection refused"), ());
  redisSelect _ _ _ := (None, ());
  redisCommandArgv _ _ _ := (true, None, ());
  redisAppendCommand _ _ _ := ();
  redisGetReply _ _ := (true, None, ());
  redisFree _ _ := ()
|}.

(** ** The world *)
Definition ex_filling : list (module_event (list byte)) :=
  [TypeChange 5 ex_rand 0 (ex_key "{tag}1"); TypeChange 5 ex_rand 0 (ex_key "{tag}2"); TypeChange 5 ex_rand 0 (ex_key "other")].

Definition ex_full_module : module_state (list byte) :=
  match run ex_module ex_filling with Some (_, ms) => ms | None => ex_module end.

Definition ex_full_names : list (gset (list byte)) := sp_names (spec_run (spec_init 1024 2) ex_filling).

Lemma ex_full_small : small ex_full_names.
Proof. by apply (bool_decide_unpack (small _)); vm_compute. Qed.

Definition ex_full_server : ex_server := ExServer ex_full_names ex_full_small.

Lemma ex_filling_ok : trace_ok (spec_init 1024 2) ex_filling.
Proof.
  unfold ex_filling. cbn [trace_ok].
  repeat match goal with
  | |- _ ∧ _ => split
  | |- event_ok _ _ => unfold event_ok
  | |- small _ => by apply (bool_decide_unpack (small _)); vm_compute
  | |- valid_db _ _ => apply ex_valid; [vm_compute; reflexivity|lia]
  | |- is_Some (m_zslRandomLevel _ _) => apply ex_draw
  | |- True => exact I
  end.
Qed.

Lemma ex_full_represents : represents ex_full_module (ex_spec ex_full_server).
Proof.
  destruct (run_ok ex_module (spec_init 1024 2) ex_filling) as (refs & ms & E & Hms);
    [apply (init_represents ex_seed [] 1024 2 0 true false); lia|exact ex_filling_ok|].
  unfold ex_full_module. rewrite E. exact Hms.
Qed.

Definition ex_world : world (list byte) ex_server () := World ex_full_server ex_full_module () ∅ ∅ [].

Lemma ex_follows : follows ex_world.
Proof. exact ex_full_represents. Qed.

Lemma ex_db : valid_db (srv_spec (w_srv ex_world)) 0.
Proof. apply ex_valid; [vm_compute; reflexivity|lia]. Qed.

Lemma ex_cache : cache_wf ex_world.
Proof. split; cbn [ex_world w_cache]; intros *; by rewrite lookup_empty. Qed.

Definition ex_host : list byte := bytes_of "127.0.0.1".
Definition ex_port : list byte := bytes_of "6380".

(** A pool that runs the tasks from the last to the first on two threads. *)
Definition ex_pool (n : nat) : list (nat * Z) := (λ j, (j, Z.of_nat j mod 2)) <$> reverse (seq 0 n).

Lemma ex_pool_ok : pool_ok ex_pool.
Proof.
  intros n. split.
  - unfold ex_pool. transitivity (reverse (seq 0 n)); [|apply reverse_Permutation]. apply reflexive_eq.
    induction (reverse (seq 0 n)) as [|j l IH]; [done|]. cbn. by f_equal.
  - apply Forall_fmap, Forall_forall. intros j _. unfold is_i64. cbn.
    pose proof (Z.mod_pos_bound (Z.of_nat j) 2 ltac:(lia)). lia.
Qed.

Lemma ex_args (N : Hiredis ()) : N = ex_net ∨ N = ex_net_down -> mgrt_args ex_buf ex_host ex_port ex_pool 7.
Proof.
  intros HN. split; [done| |apply ex_pool_ok|done]. split; [vm_compute; by eexists|].
  intros net h p c errstr net' E. destruct HN as [->| ->]; cbn in E; [done|]. injection E as _ <- _. vm_compute. lia.
Qed.

Definition ex_keys : list (list byte) := [ex_key "{tag}1"; ex_key "other"].
Definition ex_objs : list (rdb_dump_obj (list byte)) := map (λ k, DumpObj k ex_value (-1)) ex_keys.

Lemma ex_keys_dump : Forall2 (dumps (w_srv ex_world) 0) ex_keys ex_objs.
Proof. constructor; [|constructor; [|constructor]]; apply ex_dumps; vm_compute; reflexivity. Qed.

Lemma ex_objs_ttl : Forall (λ o, is_i64 (ob_ttlms o)) ex_objs.
Proof. constructor; [|constructor; [|constructor]]; vm_compute; done. Qed.

(** ** The theorems there *)
Lemma migrateKeys_spec_witness :
  runs (migrateKeys (HN := ex_net) ex_buf ex_pool 7 0 ex_host ex_port 1000 ex_keys None) ex_world
    (migrated 0 ex_keys ex_objs ex_world).
Proof.
  apply (migrateKeys_spec (HN := ex_net) ex_buf ex_pool 7 0 ex_host ex_port 1000 ex_keys ex_objs None).
  - exact ex_follows.
  - exact ex_db.
  - exact ex_cache.
  - apply ex_args. by left.
  - done.
  - exact ex_keys_dump.
Defined.

(** The migration does evaluate: both keys go, or none when nobody answers. *)
Example ex_migrated :
  (λ '(r, w), (r, es_names (w_srv w))) <$>
    migrateKeys (HN := ex_net) ex_buf ex_pool 7 0 ex_host ex_port 1000 ex_keys None ex_world =
  Some (2, [{[ex_key "{tag}2"]}; ∅]).
Proof. by apply (bool_decide_unpack _); vm_compute. Qed.

Example ex_not_migrated :
  (λ '(r, w), (r, es_names (w_srv w))) <$>
    migrateKeys (HN := ex_net_down) ex_buf ex_pool 7 0 ex_host ex_port 1000 ex_keys None ex_world =
  Some (SLOTS_MGRT_ERR, ex_full_names).
Proof. by apply (bool_decide_unpack _); vm_compute. Qed.

Lemma migrateKeys_missing_undefined_witness :
  migrateKeys (HN := ex_net) ex_buf ex_pool 7 0 ex_host ex_port 1000 (ex_key "gone" :: ex_keys) None ex_world = None.
Proof.
  apply (migrateKeys_missing_undefined (HN := ex_net) ex_buf ex_pool 7 0 ex_host ex_port 1000 (ex_key "gone")
    ex_keys ex_objs None ex_world (Some REDISMODULE_REPLY_NULL)).
  - vm_compute. reflexivity.
  - by right.
  - done.
  - exact ex_keys_dump.
  - vm_compute. reflexivity.
Defined.

Lemma MGRT_spec_witness :
  runs (MGRT (HN := ex_net_down) ex_buf ex_pool 7 0 ex_host ex_port 1000 (Some <$> ex_objs) 2 None) ex_world
    (λ r w' t, quiet ex_world w' ∧ sent ex_objs r t).
Proof.
  apply (MGRT_spec (HN := ex_net_down) ex_buf ex_pool 7 0 ex_host ex_port 1000 (Some <$> ex_objs) ex_objs None ex_world).
  - apply ex_args. by right.
  - exact ex_cache.
  - apply holds_written.
  - exact ex_objs_ttl.
  - done.
Defined.

Definition ex_meta : slot_mgrt_connet_meta := ConnMeta 0 ex_host ex_port (1, 0).

Lemma BatchSendWithThreadPool_SlotsRestore_spec_witness :
  runs (BatchSendWithThreadPool_SlotsRestore (HN := ex_net) ex_buf ex_pool ex_meta (Some <$> ex_objs) 2) ex_world
    (λ r w' t, quiet ex_world w' ∧ sent ex_objs r t ∧ ttl_dups t = seq 0 2 ∧ ttl_frees t = seq 0 2).
Proof.
  apply (BatchSendWithThreadPool_SlotsRestore_spec (HN := ex_net) ex_buf ex_pool ex_meta (Some <$> ex_objs) ex_objs ex_world).
  - done.
  - apply (ma_address _ _ _ _ _ (ex_args ex_net (or_introl eq_refl))).
  - exact ex_pool_ok.
  - exact ex_cache.
  - apply holds_written.
  - exact ex_objs_ttl.
  - done.
Defined.

(** A world with a connection. *)
Definition ex_connected : world (list byte) ex_server () := set_conns ex_world {[ 3%nat := Connect ex_meta 0 1 ]} ∅.

Lemma ex_connected_cache : cache_wf ex_connected.
Proof. split; cbn [ex_connected set_conns w_cache]; intros *; by rewrite lookup_empty. Qed.

Lemma ex_connected_conn : is_Some (w_conns ex_connected !! 3%nat).
Proof. vm_compute. by eexists. Qed.

Lemma BatchSend_SlotsRestore_spec_witness :
  runs (BatchSend_SlotsRestore (HN := ex_net) ex_buf 3 (Some <$> ex_objs) 2) ex_connected (λ r w' t,
    quiet ex_connected w' ∧ sent ex_objs r t ∧
    (r ≠ SLOTS_MGRT_ERR -> delivered [] t = obj_item <$> ex_objs ∧ ttl_dups t = seq 0 2 ∧ ttl_frees t = seq 0 2) ∧
    (r = SLOTS_MGRT_ERR -> left_at (obj_item <$> ex_objs) 0 0 t ∨
       (∃ k, delivered [] t = take k (obj_item <$> ex_objs)) ∧ ttl_dups t = seq 0 2 ∧ ttl_frees t = seq 0 2)).
Proof.
  apply (BatchSend_SlotsRestore_spec (HN := ex_net) ex_buf 3 (Some <$> ex_objs) ex_objs ex_connected).
  - exact ex_connected_cache.
  - exact ex_connected_conn.
  - apply holds_written.
  - exact ex_objs_ttl.
  - done.
  - done.
Defined.

Lemma Pipeline_SlotsRestore_spec_witness :
  runs (Pipeline_SlotsRestore (HN := ex_net) ex_buf 3 (Some <$> ex_objs) 2) ex_connected (λ r w' t,
    quiet ex_connected w' ∧ sent ex_objs r t ∧ (r ≠ SLOTS_MGRT_ERR -> delivered [] t = obj_item <$> ex_objs)).
Proof.
  apply (Pipeline_SlotsRestore_spec (HN := ex_net) ex_buf 3 (Some <$> ex_objs) ex_objs ex_connected).
  - exact ex_connected_cache.
  - exact ex_connected_conn.
  - apply holds_written.
  - exact ex_objs_ttl.
  - done.
  - done.
Defined.

(** ** Choosing keys *)
Definition ex_db_names : gset (list byte) :=
  match ex_full_names !! 0%nat with Some ks => ks | None => ∅ end.

Lemma ex_db_lookup : ex_full_names !! 0%nat = Some ex_db_names.
Proof. by apply (bool_decide_unpack _); vm_compute. Qed.

Lemma ex_world_names : db_names ex_world 0 ex_db_names.
Proof. exact ex_db_lookup. Qed.

Lemma ex_any_dumps k : k ∈ ex_db_names -> ∃ o, dumps (w_srv ex_world) 0 k o.
Proof.
  intros Hk. eexists. apply ex_dumps. apply (ex_has_in _ 0 ex_db_names); [exact ex_world_names|exact Hk].
Qed.

Lemma SlotsMGRT_TagKeys_spec_witness :
  runs (SlotsMGRT_TagKeys (HN := ex_net) ex_buf ex_pool 7 0 ∅ ex_host ex_port 1000 (ex_key "{tag}3") None (Some 0)) ex_world
    (λ '(r, left', h') w' t, h' = ∅ ∧ tag_migrated 0 (ex_key "{tag}3") (Some 0) ex_db_names ex_world r left' w' t).
Proof.
  apply (SlotsMGRT_TagKeys_spec (HN := ex_net) ex_buf ex_pool 7 0 ∅ ex_host ex_port 1000 (ex_key "{tag}3") None (Some 0)
    ex_world ex_db_names).
  - exact ex_follows.
  - exact ex_db.
  - exact ex_cache.
  - apply ex_args. by left.
  - exact ex_world_names.
  - intros k Hk. apply ex_any_dumps. apply Hk.
Defined.

Lemma ex_fair : fair Z.of_nat.
Proof. split; [lia|]. intros n r Hr. exists (Z.to_nat r). rewrite Z2Nat.id by lia. by apply Z.mod_small. Qed.

Definition ex_tag_slot : Z := si_slot (name_slot ex_state (ex_key "{tag}1")).

Lemma ex_tag_slot_range : 0 <= ex_tag_slot < sp_size (srv_spec (w_srv ex_world)).
Proof. vm_compute. split; [discriminate|reflexivity]. Qed.

Lemma SlotsMGRT_SlotOneKey_spec_witness :
  ∃ fuel, runs (SlotsMGRT_SlotOneKey (HN := ex_net) fuel Z.of_nat ex_buf ex_pool 7 0 ex_host ex_port 1000 ex_tag_slot None
    (Some 0)) ex_world (λ '(r, left') w' t,
      (r = 0 ∧ left' = Some 0 ∧ w' = ex_world ∧ t = [] ∧ slot_names (slots_of ex_world) ex_db_names ex_tag_slot = ∅) ∨
      ∃ key o ks', content key ∈ slot_names (slots_of ex_world) ex_db_names ex_tag_slot ∧ dumps (w_srv ex_world) 0 key o ∧
        migrated 0 [key] [o] ex_world r w' t ∧ db_names w' 0 ks' ∧ ks' ⊆ ex_db_names ∧
        left' = if decide (r = SLOTS_MGRT_ERR) then Some 0 else left_of w' ks' ex_tag_slot (Some 0)).
Proof.
  apply (SlotsMGRT_SlotOneKey_spec (HN := ex_net) Z.of_nat ex_buf ex_pool 7 0 ex_host ex_port 1000 ex_tag_slot None (Some 0)
    ex_world ex_db_names).
  - exact ex_fair.
  - exact ex_follows.
  - exact ex_db.
  - exact ex_cache.
  - apply ex_args. by left.
  - exact ex_world_names.
  - exact ex_tag_slot_range.
  - intros k [_ Hk]%elem_of_filter. by apply ex_any_dumps.
Defined.

(** Both keys of the tag go, and the third one stays. *)
Example ex_tag_migrated :
  (λ '((r, n_left, _), w), (r, n_left, es_names (w_srv w))) <$>
    SlotsMGRT_TagKeys (HN := ex_net) ex_buf ex_pool 7 0 ∅ ex_host ex_port 1000 (ex_key "{tag}3") None (Some 9) ex_world =
  Some (2, Some 0, [{[ex_key "other"]}; ∅]).
Proof. by apply (bool_decide_unpack _); vm_compute. Qed.
