(* ===== verification/SweepExamples.v ===== *)
(** * SweepExamples: sweeping a cache of two connections *)

From S2P Require Import Prelude.
From S2P Require Import KeySlot.
From S2P Require Import Numbers.
From S2P Require Import Slots.
From S2P Require Import Refinement.
From S2P Require Import Prog.
From S2P Require Import Server.
From S2P Require Import ServerSpec.
From S2P Require Import ConnCache.
From S2P Require Import CommandsExamples.
From S2P Require Import Migrate.
From S2P Require Import MigrateProps.
From S2P Require Import MigrateExamples.
From S2P Require Import Sweep.
Local Open Scope Z_scope.

(** Iterators on a copy of the dictionary; [behind] follows each key. *)
Definition ex_iterator : Type := list (list byte * nat).

Definition ex_dict_iter (behind : list byte) : RedisDictIter ex_iterator := {|
  RedisModule_DictIteratorStartC m := map_to_list m;
  RedisModule_DictNextC it m :=
    match it with
    | [] => Some (None, [])
    | (k, p) :: it => Some (Some (DictItem (k ++ behind) (length k) p), it)
    end
|}.


(** Used a moment ago, and a minute ago. *)
Local Notation ex_now := (RedisModule_Milliseconds (w_srv ex_world) / 1000).
Definition ex_new_name : list byte := bytes_of "127.0.0.1:6380@7".
Definition ex_old_name : list byte := bytes_of "127.0.0.1:6380@8".
Definition ex_cached : world (list byte) ex_server () :=
  set_conns ex_world {[ 3%nat := Connect ex_meta ex_now 1; 4%nat := Connect ex_meta (ex_now - 60) 2 ]}
    {[ ex_new_name := 3%nat; ex_old_name := 4%nat ]}.

Local Notation ex_time := (RedisModule_Milliseconds (w_srv ex_cached) / 1000).








(** With other bytes behind the keys both names stay, and the connection is gone. *)
Example ex_sweep_dangling :
  (λ '(_, w), (w_cache w, dom (w_conns w))) <$>
    SlotsMGRT_CloseTimedoutConns (HN := ex_net) (HI := ex_dict_iter (bytes_of "?" ++ [x00])) ex_cached =
  Some ({[ ex_new_name := 3%nat; ex_old_name := 4%nat ]}, {[ 3%nat ]}).
Proof. by apply (bool_decide_unpack _); vm_compute. Qed.

Lemma sweep_unterminated_undefined_witness :
  (_ ← sweep_conn (HN := ex_net) ex_time (DictItem (ex_old_name ++ bytes_of "?" ++ [x00]) (length ex_old_name) 4);
   SlotsMGRT_GetConnCtx (HN := ex_net) ex_buf 8 ex_meta) ex_cached = None.
Proof.
  apply (sweep_unterminated_undefined (HN := ex_net) ex_buf 8 ex_meta ex_time ex_old_name (bytes_of "?") [] 4 ex_cached).
  - vm_compute. reflexivity.
  - vm_compute. reflexivity.
  - vm_compute. by eexists.
  - vm_compute. reflexivity.
  - by apply (bool_decide_unpack _).
  - vm_compute. reflexivity.
Defined.

(** A thread that has had its connection for a minute when the sweep comes, as a
    migration with a timeout above 30 seconds may: its connection is freed under
    it. *)
Example ex_sweep_in_use :
  ('(_, w) ← SlotsMGRT_CloseTimedoutConns (HN := ex_net) (HI := ex_dict_iter [x00]) ex_cached;
   Some (if conn_at 4 w is Some _ then true else false)) = Some false.
Proof. vm_compute. reflexivity. Qed.
