(* ===== verification/Restore.v ===== *)
(** * Restore: taking keys from another server

    SLOTSRESTORE: [slotsRestoreCmd] of module.c reads the objects from the
    arguments, [restoreMutli] of redisxslot.c restores them one after the other,
    and [notifyOne] sends the notification that puts the key in the index.  The
    pool of threads that restores is modelled too, though its size,
    [slots_restore_threads], is never set. *)

From S2P Require Import Prelude.
From S2P Require Import KeySlot.
From S2P Require Import Numbers.
From S2P Require Import Slots.
From S2P Require Import Refinement.
From S2P Require Import Prog.
From S2P Require Import Server.
From S2P Require Import Commands.
From S2P Require Import Migrate.
Local Open Scope Z_scope.

Definition REDISXSLOT_ERRORMSG_MGRT : string := "ERR migrate error".

Section restore.
Context {S Srv Net : Type} `{HS : RedisStrings S} `{HV : !RedisServer S Srv}.
Implicit Types (w : world S Srv Net) (key : S) (o : rdb_dump_obj S) (argv : list S).
Notation M := (prog (world S Srv Net)).
Notation objs_array := (list (option (rdb_dump_obj S))) (only parsing).

(** The event "slotsmgrt-restore" of the key's type; the types that are not
    listed have none. *)
Definition notifyOne (db : Z) key : M () :=
  type ← get (λ w, RedisModule_KeyType (w_srv w) db key);
  match type with
  | KEYTYPE_STRING | KEYTYPE_HASH | KEYTYPE_LIST | KEYTYPE_SET | KEYTYPE_ZSET => notify db key
  | KEYTYPE_EMPTY | KEYTYPE_MODULE | KEYTYPE_STREAM => mret ()
  end.

(** The key goes to RESTORE as a C string. *)
Definition restoreOneWithReplace (db : Z) o : M Z :=
  let ttlms := if ob_ttlms o <? 0 then 0 else ob_ttlms o in
  reply ← call db (RESTORE (c_str (content (ob_key o))) ttlms (content (ob_val o)));
  match reply with
  | None | Some REDISMODULE_REPLY_NULL => mret 0
  | Some REDISMODULE_REPLY_ERROR => mret SLOTS_MGRT_ERR
  | Some _ => _ ← notifyOne db (ob_key o); mret 1
  end.

(** [n] objects from the [i]th on; [true] when none failed. *)
Fixpoint restore_loop (db : Z) (objs : objs_array) (i n : nat) : M bool :=
  match n with
  | O => mret true
  | Datatypes.S n =>
    o ← lift (mjoin (objs !! i));
    r ← restoreOneWithReplace db o;
    if decide (r = SLOTS_MGRT_ERR) then mret false else restore_loop db objs (Datatypes.S i) n
  end.

Definition restoreMutli (db : Z) (objs : objs_array) (n : nat) : M Z :=
  ok ← restore_loop db objs 0 n;
  mret (if ok : bool then Z.of_nat n else SLOTS_MGRT_ERR).

(** With a pool of threads: a task each, in the order the pool runs them, and
    the result codes.  The context of a task belongs to no client. *)
Definition restoreOneTask o : M Z := restoreOneWithReplace (detached_db (S := S) (Srv := Srv)) o.

Fixpoint restore_tasks (objs : objs_array) (order : list nat) (codes : list Z) : M (list Z) :=
  match order with
  | [] => mret codes
  | i :: order =>
    o ← lift (mjoin (objs !! i));
    r ← restoreOneTask o;
    restore_tasks objs order (<[i := r]> codes)
  end.

Definition restoreMutliWithThreadPool (objs : objs_array) (n : nat) : M Z :=
  order ← get (λ w, pool_order (w_srv w) n);
  codes ← restore_tasks objs order (replicate n 0);
  mret (if decide (SLOTS_MGRT_ERR ∈ codes) then SLOTS_MGRT_ERR else Z.of_nat n).

Definition SlotsMGRT_Restore (db : Z) (objs : objs_array) (n : nat) : M Z :=
  mi ← get meta_info;
  if 0 <? slots_restore_threads mi then restoreMutliWithThreadPool objs n
  else restoreMutli db objs n.

(** The loop of [slotsRestoreCmd]: the objects of [n] triples, and whether every
    time to live is a number. *)
Fixpoint parse_objs argv (i n : nat) (objs : objs_array) : M (bool * objs_array) :=
  match n with
  | O => mret (true, objs)
  | Datatypes.S n =>
    str_ttlms ← lift (argv !! (i * 3 + 2)%nat);
    match m_string2ll (content str_ttlms) with
    | None => mret (false, objs)
    | Some ttlms =>
      key ← lift (argv !! (i * 3 + 1)%nat);
      v ← lift (argv !! (i * 3 + 3)%nat);
      let val := (takeAndRef v).2 in
      _ ← did (ValCreated val);
      parse_objs argv (Datatypes.S i) n (objs ++ [Some (DumpObj key val ttlms)])
    end
  end.

Definition slotsRestoreCmd (db : Z) argv : M Z :=
  let n := Z.quot (Z.of_nat (length argv) - 1) 3 in
  '(ok, objs) ← parse_objs argv 0 (Z.to_nat n) [];
  if negb ok then
    _ ← FreeDumpObjs objs 0 (length objs); mret SLOTS_MGRT_ERR
  else
    ret ← SlotsMGRT_Restore db objs (length objs);
    _ ← FreeDumpObjs objs 0 (length objs);
    mret ret.

(** The command when the module does not block its clients. *)
Definition SlotsRestore_RedisCommand (db : Z) argv : M (list (reply S) * rm_status) :=
  let argc := Z.of_nat (length argv) in
  if (argc <? 4) || negb (Z.rem (argc - 1) 3 =? 0) then mret ([ReplyWrongArity], REDISMODULE_OK)
  else
    ret ← slotsRestoreCmd db argv;
    if decide (ret = SLOTS_MGRT_ERR) then mret ([ReplyError REDISXSLOT_ERRORMSG_MGRT], REDISMODULE_ERR)
    else mret ([ReplyLongLong ret], REDISMODULE_OK).
End restore.
