(* ===== verification/RestoreProps.v ===== *)
(** * RestoreProps: what SLOTSRESTORE does

    The objects are restored in their order until the first error, their keys
    are in the index afterwards, the values are freed once.  What one server's
    migration sends is what the other one restores.  A key with a NUL in it is
    restored under another name, and a stream is restored and not indexed. *)

From S2P Require Import Prelude.
From S2P Require Import KeySlot.
From S2P Require Import Numbers.
From S2P Require Import Slots.
From S2P Require Import SlotsInv.
From S2P Require Import Events.
From S2P Require Import EventsProps.
From S2P Require Import Refinement.
From S2P Require Import Prog.
From S2P Require Import Server.
From S2P Require Import ServerSpec.
From S2P Require Import Commands.
From S2P Require Import Migrate.
From S2P Require Import MigrateProps.
From S2P Require Import MigratePool.
From S2P Require Import MigrateSpec.
From S2P Require Import Restore.
Local Open Scope Z_scope.

(** ** Traces *)

(** The arguments of the RESTOREs, and the names of the ones that succeeded. *)
Definition restore_calls {S} (t : list (action S)) : list (list byte * Z * list byte) :=
  omap (λ a, match a with Called _ (RESTORE k ttl v) _ => Some (k, ttl, v) | _ => None end) t.
Definition restored_names {S} (t : list (action S)) : list (list byte) :=
  omap (λ a, match a with Called _ (RESTORE k _ _) r => if restored r then Some k else None | _ => None end) t.

Lemma restored_names_app {S} (t1 t2 : list (action S)) :
  restored_names (t1 ++ t2) = restored_names t1 ++ restored_names t2.
Proof. apply omap_app. Qed.
Lemma restore_calls_app {S} (t1 t2 : list (action S)) :
  restore_calls (t1 ++ t2) = restore_calls t1 ++ restore_calls t2.
Proof. apply omap_app. Qed.

Definition add_names (db : Z) (xs : list (list byte)) (kss : list (gset (list byte))) : list (gset (list byte)) :=
  foldl (λ kss x, add_name db x kss) kss xs.

Section restore.
Context {S Srv Net : Type} `{HS : RedisStrings S} `{HV : !RedisServer S Srv}.
Context `{HR : !RedisStringsOk S} `{HVok : !RedisServerOk S Srv}.
Implicit Types (w : world S Srv Net) (o : rdb_dump_obj S) (os : list (rdb_dump_obj S)) (key : S).
Implicit Types (t : list (action S)) (argv : list S).

(** The arguments RESTORE gets for an object. *)
Definition obj_restore o : list byte * Z * list byte :=
  (c_str (content (ob_key o)), Z.max 0 (ob_ttlms o), content (ob_val o)).

(** The keys the index can follow: a C string, and no type without an event. *)
Definition indexable (db : Z) (x : list byte) : Prop :=
  (x00 ∉ x) ∧
  (∀ (srv : Srv) key, content key = x -> RedisModule_KeyType srv db key ≠ KEYTYPE_MODULE ∧
    RedisModule_KeyType srv db key ≠ KEYTYPE_STREAM).

Definition key_name o : list byte := content (ob_key o).

(** RESTORE always has a reply: the server is no node of a cluster, and has not
    renamed the command. *)
Definition restore_answers : Prop :=
  ∀ (srv : Srv) db k ttlms val, match (RedisModule_Call srv db (RESTORE k ttlms val)).1.1 with
    | None | Some REDISMODULE_REPLY_NULL => False
    | _ => True
    end.

(** What a part of SLOTSRESTORE keeps and does. *)
Definition restoring (db : Z) w w' t : Prop :=
  follows w' ∧ spec_keeps (srv_spec (w_srv w)) (srv_spec (w_srv w')) ∧
  w_conns w' = w_conns w ∧ w_cache w' = w_cache w ∧
  sp_names (srv_spec (w_srv w')) = add_names db (restored_names t) (sp_names (srv_spec (w_srv w))) ∧
  val_news t = [] ∧ val_frees t = [].

Lemma restoring_nil db w : follows w -> restoring db w w [].
Proof. intros Hw. split; [done|]. split; [by split|]. by split_and!. Qed.

Lemma restoring_trans db w1 w2 w3 t1 t2 :
  restoring db w1 w2 t1 -> restoring db w2 w3 t2 -> restoring db w1 w3 (t1 ++ t2).
Proof.
  intros (_ & K1 & E1 & E2 & N1 & V1 & F1) (Hw & K2 & E3 & E4 & N2 & V2 & F2).
  split; [done|]. split; [by eapply spec_keeps_trans|]. split_and!; [congruence|congruence| | |].
  - rewrite restored_names_app, N2, N1. unfold add_names. by rewrite foldl_app.
  - unfold val_news in *. by rewrite omap_app, V1, V2.
  - unfold val_frees in *. by rewrite omap_app, F1, F2.
Qed.

(** RESTORE by itself: the names change, the index does not. *)
Lemma runs_restore db k ttlms val w (P : option (call_reply S) -> world S Srv Net -> list (action S) -> Prop) :
  follows w -> valid_db (srv_spec (w_srv w)) db ->
  (∀ r w', (RedisModule_Call (w_srv w) db (RESTORE k ttlms val)).1.1 = r -> represents (w_mod w') (srv_spec (w_srv w)) ->
     srv_spec (w_srv w') = (if restored r then spec_add (srv_spec (w_srv w)) db k else srv_spec (w_srv w)) ->
     w_conns w' = w_conns w -> w_cache w' = w_cache w -> P r w' [Called db (RESTORE k ttlms val) r]) ->
  runs (call db (RESTORE k ttlms val)) w P.
Proof using HR.
  intros Hw Hdb HP. destruct (RedisModule_Call (w_srv w) db (RESTORE k ttlms val)) as [[r evs] srv] eqn:E.
  destruct (restore_adds _ _ _ _ _ _ _ _ E Hdb) as (Hok & Hsp & Hadd).
  destruct (run_ok _ _ evs Hw Hok) as (refs & ms & Erun & Hms). rewrite Hsp in Hms.
  exists r, (log (Called db (RESTORE k ttlms val) r) (set_server w srv ms)). split.
  - unfold call. by rewrite E, Erun.
  - eexists [_]. split; [done|]. apply HP; [done|done|done|done|done].
Qed.

Lemma spec_add_names sp db x : sp_names (spec_add sp db x) = add_name db x (sp_names sp).
Proof. done. Qed.

Lemma spec_add_keeps sp db x : spec_keeps sp (spec_add sp db x).
Proof. split; [apply length_alter|done]. Qed.

Lemma added_name sp db x : valid_db sp db ->
  ∃ ks, sp_names (spec_add sp db x) !! Z.to_nat db = Some ks ∧ x ∈ ks.
Proof.
  intros (ks & Hks & _)%db_lookup. exists ({[x]} ∪ ks). rewrite spec_add_names. unfold add_name.
  rewrite list_lookup_alter_eq, Hks. split; [done|]. apply elem_of_union_l, elem_of_singleton_2. done.
Qed.

(** The notification puts the key in the index. *)
Lemma notify_one_ok db sp o w :
  indexable db (key_name o) -> valid_db sp db -> small (sp_names sp) ->
  represents (w_mod w) sp -> srv_spec (w_srv w) = spec_add sp db (content (ob_key o)) ->
  runs (notifyOne db (ob_key o)) w (λ _ w' t, follows w' ∧ w_srv w' = w_srv w ∧ w_conns w' = w_conns w ∧
    w_cache w' = w_cache w ∧ t = [Notified db (ob_key o)]).
Proof using HR.
  intros [_ Hty] Hdb Hsm Hr Hsp. unfold notifyOne. do 2 run_step. destruct (Hty (w_srv w) (ob_key o) eq_refl) as [Hm Hs].
  destruct (added_name sp db (content (ob_key o)) Hdb) as (ks & Hks & Hin). rewrite <- Hsp in Hks.
  pose proof (key_type_there (w_srv w) db (ob_key o) ks Hks Hin) as He.
  assert (runs (notify db (ob_key o)) w (λ _ w' t, follows w' ∧ w_srv w' = w_srv w ∧ w_conns w' = w_conns w ∧
    w_cache w' = w_cache w ∧ [] ++ t = [Notified db (ob_key o)])) as Hn; [|by destruct (RedisModule_KeyType (w_srv w) db (ob_key o))].
  pose proof (srv_draws (w_srv w)) as Hdraws. destruct (random_draws (w_srv w)) as [fuel rand] eqn:Ed.
  destruct (handle_ok _ sp (TypeChange fuel rand db (ob_key o)) Hr) as (refs & ms & E & Hms); [by split_and!|].
  exists (), (log (Notified db (ob_key o)) (set_server w (w_srv w) ms)).
  split; [unfold notify; by rewrite Ed, E|]. eexists [_]. split; [done|]. split_and!; try done.
  unfold follows. cbn [log set_server w_mod w_srv]. by rewrite Hsp.
Qed.

(** The outcome of one object. *)
Definition one_restored (db : Z) o w (r : Z) w' t : Prop :=
  restoring db w w' t ∧ restore_calls t = [obj_restore o] ∧
  (r = 1 ∧ restored_names t = [content (ob_key o)] ∨
   (r = SLOTS_MGRT_ERR ∨ r = 0 ∧ ¬ restore_answers) ∧ restored_names t = []).

Lemma restore_one_ok db o w :
  follows w -> valid_db (srv_spec (w_srv w)) db -> indexable db (key_name o) ->
  runs (restoreOneWithReplace db o) w (one_restored db o w).
Proof using HR.
  intros Hw Hdb Hidx. unfold restoreOneWithReplace. pose proof Hidx as [Hnul _].
  assert ((if ob_ttlms o <? 0 then 0 else ob_ttlms o) = Z.max 0 (ob_ttlms o)) as ->
    by (destruct (Z.ltb_spec (ob_ttlms o) 0); lia).
  unfold key_name in Hnul. rewrite (c_str_no_nul _ Hnul). set (c := RESTORE _ _ _).
  run_step. apply runs_restore; [done|done|]. intros r w1 Er Hr Hsp E1 E2. fold c.
  fold c in Er.
  assert (obj_restore o = (content (ob_key o), Z.max 0 (ob_ttlms o), content (ob_val o))) as Eo
    by (unfold obj_restore; by rewrite (c_str_no_nul _ Hnul)).
  assert (restored r = true -> runs (notifyOne db (ob_key o) ≫= (λ _ : (), mret 1)) w1
    (λ b w2 t2, one_restored db o w b w2 ([Called db c r] ++ t2))) as Hyes.
  { intros Hres. rewrite Hres in Hsp. run_step.
    eapply runs_mono; [by apply (notify_one_ok db (srv_spec (w_srv w)) o w1 Hidx Hdb (srv_small _) Hr)|].
    intros _ w2 t2 (Hw2 & E3 & E4 & E5 & ->). run_step. cbn [app].
    assert (restored_names [Called db c r; Notified db (ob_key o)] = [content (ob_key o)]) as En
      by (unfold restored_names; cbn; by rewrite Hres).
    split; [|split; [by rewrite Eo|left; by split]]. split; [done|]. rewrite E3, Hsp. split; [apply spec_add_keeps|].
    split_and!; [congruence|congruence| |done|done]. by rewrite En. }
  assert (restored r = false -> ∀ b, b = SLOTS_MGRT_ERR ∨ b = 0 ∧ ¬ restore_answers -> runs (mret b) w1
    (λ b w2 t2, one_restored db o w b w2 ([Called db c r] ++ t2))) as Hno.
  { intros Hres b Hb. rewrite Hres in Hsp. run_step. cbn [app].
    assert (restored_names [Called db c r] = []) as En by (unfold restored_names; cbn; by rewrite Hres).
    split; [|split; [by rewrite Eo|right; by split]]. split; [unfold follows; by rewrite Hsp|]. rewrite Hsp.
    split; [by split|]. split_and!; [done|done| |done|done]. by rewrite En. }
  assert ((r = None ∨ r = Some REDISMODULE_REPLY_NULL) -> ¬ restore_answers) as Hna.
  { intros Hr0 Ha. specialize (Ha (w_srv w) db (content (ob_key o)) (Z.max 0 (ob_ttlms o)) (content (ob_val o))).
    fold c in Ha. rewrite Er in Ha. by destruct Hr0 as [->| ->]. }
  destruct r as [[]|]; first [by apply Hyes|apply Hno; [done|by left]|apply Hno; [done|right; split; [done|by apply Hna; auto]]].
Qed.

(** The loop: the objects before the first error. *)
Lemma restore_loop_ok db objs os i n w :
  holds_objs objs os -> (i + n = length os)%nat -> Forall (λ o, indexable db (key_name o)) os ->
  follows w -> valid_db (srv_spec (w_srv w)) db ->
  runs (restore_loop db objs i n) w (λ ok w' t, restoring db w w' t ∧
    restored_names t `sublist_of` (key_name <$> drop i os) ∧
    if ok : bool then restore_calls t = obj_restore <$> drop i os ∧
      (restore_answers -> restored_names t = key_name <$> drop i os)
    else ∃ k, restore_calls t = obj_restore <$> take k (drop i os)).
Proof using HR.
  intros Hobjs Hn Hidx. revert i w Hn. induction n as [|n IH]; intros i w Hn Hw Hdb; cbn [restore_loop].
  { run_step. rewrite drop_ge by lia. split; [by apply restoring_nil|]. by split. }
  destruct (lookup_lt_is_Some_2 os i) as [o Ho]; [lia|]. rewrite (drop_S os o i Ho).
  run_step. eapply runs_lift; [by rewrite (Hobjs i o Ho)|].
  run_step. eapply runs_mono; [by apply restore_one_ok; [..|apply (Forall_lookup_1 _ _ _ _ Hidx Ho)]|].
  intros r w1 t1 (Hres & Hcalls & Hr). pose proof Hres as (Hw1 & Hk1 & _).
  assert (restored_names t1 `sublist_of` [content (ob_key o)]) as Hsub1.
  { destruct Hr as [[_ ->]|[_ ->]]; [done|apply sublist_nil_l]. }
  assert (∀ l t, restored_names t `sublist_of` l ->
    restored_names (t1 ++ t) `sublist_of` content (ob_key o) :: l) as Hsub.
  { intros l t Ht. rewrite restored_names_app. by apply (sublist_app _ [_]). }
  case_decide as Herr.
  - run_step. rewrite app_nil_r. split; [done|]. split.
    + cbn [fmap list_fmap]. rewrite <- (app_nil_r t1). apply Hsub, sublist_nil_l.
    + exists 1%nat. cbn [app]. by rewrite Hcalls.
  - eapply runs_mono; [apply IH; [lia|done|by eapply spec_keeps_db]|].
    intros ok w2 t2 (Hres2 & Hs2 & Hc2). cbn [app].
    split; [by eapply restoring_trans|]. split; [cbn [fmap list_fmap]; by apply Hsub|].
    assert (restore_calls (t1 ++ t2) = obj_restore o :: restore_calls t2) as ->.
    { by rewrite restore_calls_app, Hcalls. }
    destruct ok; [|by destruct Hc2 as [k ->]; exists (Datatypes.S k)]. destruct Hc2 as [-> Hn2].
    split; [done|]. intros Ha. rewrite restored_names_app, (Hn2 Ha).
    by destruct Hr as [[_ ->]|[[?|[_ []]] _]].
Qed.

(** Without a pool of threads that restores, the loop does. *)
Lemma runs_restore_alone db objs n w (P : Z -> world S Srv Net -> list (action S) -> Prop) :
  slots_restore_threads (meta_info w) = 0 ->
  runs (restoreMutli db objs n) w P -> runs (SlotsMGRT_Restore db objs n) w P.
Proof.
  intros E HP. unfold SlotsMGRT_Restore, runs, ensures in *. unfold mbind, prog_bind, get. by rewrite E.
Qed.

(** ** The arguments *)

(** The objects of the arguments, when every time to live is a number. *)
Fixpoint objs_of (args : list S) : option (list (rdb_dump_obj S)) :=
  match args with
  | k :: t :: v :: args =>
    ttlms ← m_string2ll (content t);
    os ← objs_of args;
    Some (DumpObj k (takeAndRef v).2 ttlms :: os)
  | _ => Some []
  end.

(** Reading the arguments does nothing else. *)
Definition reads_only w w' t : Prop :=
  same w w' ∧ val_frees t = [] ∧ restore_calls t = [] ∧ restored_names t = [].

Lemma parse_objs_ok cmd (args : list S) i n objs w :
  length args = (3 * (i + n))%nat ->
  runs (parse_objs (cmd :: args) i n objs) w (λ '(ok, objs') w' t, reads_only w w' t ∧
    ∃ os, objs' = objs ++ (Some <$> os) ∧ val_news t = ob_val <$> os ∧
      objs_of (drop (3 * i) args) = if ok : bool then Some os else None).
Proof.
  revert i objs w. induction n as [|n IH]; intros i objs w Hlen; cbn [parse_objs].
  { run_step. split; [by split_and!|]. exists []. by rewrite drop_ge, app_nil_r by lia. }
  assert (∃ (k x v : S) rest, drop (3 * i) args = k :: x :: v :: rest) as (k & x & v & rest & Ed).
  { assert (length (drop (3 * i) args) = 3 + 3 * n)%nat as Hd by (rewrite length_drop; lia).
    destruct (drop (3 * i) args) as [|k [|x [|v rest]]]; try (cbn in Hd; lia). by eexists _, _, _, _. }
  assert (∀ j y, (k :: x :: v :: rest) !! j = Some y -> (cmd :: args) !! (i * 3 + (1 + j))%nat = Some y) as Hget.
  { intros j y Hj. rewrite <- Ed, lookup_drop in Hj. replace (i * 3 + (1 + j))%nat with (Datatypes.S (3 * i + j)) by lia.
    exact Hj. }
  run_step. eapply runs_lift; [by apply (Hget 1%nat)|]. rewrite Ed. cbn [objs_of].
  destruct (m_string2ll (content x)) as [ttlms|] eqn:Et; cbn [mbind option_bind].
  2: { run_step. split; [by split_and!|]. exists []. by rewrite app_nil_r. }
  run_step. eapply runs_lift; [by apply (Hget 0%nat)|]. run_step. eapply runs_lift; [by apply (Hget 2%nat)|].
  do 2 run_step. eapply runs_mono; [apply IH; lia|].
  intros [ok objs'] w2 t2 ((Hs2 & Hf2 & Hc2 & Hn2) & os & -> & Hv2 & Ho).
  assert (drop (3 * Datatypes.S i) args = rest) as Er.
  { replace (3 * Datatypes.S i)%nat with (3 * i + 3)%nat by lia. by rewrite <- drop_drop, Ed. }
  rewrite Er in Ho. cbn [app]. split; [by split_and!|]. exists (DumpObj k (takeAndRef v).2 ttlms :: os).
  split; [by rewrite <- app_assoc|]. split; [cbn; by f_equal|]. rewrite Ho. by destruct ok.
Qed.

(** What SLOTSRESTORE does with its arguments. *)
Definition restore_outcome (db : Z) (args : list S) w (r : Z) w' t : Prop :=
  follows w' ∧ spec_keeps (srv_spec (w_srv w)) (srv_spec (w_srv w')) ∧
  w_conns w' = w_conns w ∧ w_cache w' = w_cache w ∧
  sp_names (srv_spec (w_srv w')) = add_names db (restored_names t) (sp_names (srv_spec (w_srv w))) ∧
  val_frees t = val_news t ∧
  match objs_of args with
  | None => r = SLOTS_MGRT_ERR ∧ restore_calls t = []
  | Some os => restored_names t `sublist_of` (key_name <$> os) ∧
      (r = Z.of_nat (length os) ∧ restore_calls t = obj_restore <$> os ∧
         (restore_answers -> restored_names t = key_name <$> os) ∨
       r = SLOTS_MGRT_ERR ∧ ∃ k, restore_calls t = obj_restore <$> take k os)
  end.

(** Freeing the objects. *)
Lemma free_written_ok os w :
  runs (FreeDumpObjs (Some <$> os) 0 (length ((Some <$> os) : list (option (rdb_dump_obj S))))) w (λ _ w' t,
    same w w' ∧ val_news t = [] ∧ val_frees t = ob_val <$> os ∧ restore_calls t = [] ∧ restored_names t = []).
Proof.
  rewrite length_fmap.
  assert (∀ i n w, (i + n = length os)%nat -> runs (FreeDumpObjs (Some <$> os) i n) w (λ _ w' t,
    same w w' ∧ val_news t = [] ∧ val_frees t = ob_val <$> drop i os ∧ restore_calls t = [] ∧ restored_names t = [])) as H.
  { intros i n. revert i. induction n as [|n IH]; intros i w0 Hi; cbn [FreeDumpObjs].
    { run_step. rewrite drop_ge by lia. by split_and!. }
    destruct (lookup_lt_is_Some_2 os i) as [o Ho]; [lia|]. rewrite (drop_S os o i Ho).
    run_step. eapply runs_lift; [by rewrite list_lookup_fmap, Ho|]. do 2 run_step.
    eapply runs_mono; [apply IH; lia|]. intros _ w2 t2 (Hs2 & Hv2 & Hf2 & Hc2 & Hn2). cbn [app].
    split_and!; try done. cbn. by f_equal. }
  apply (H 0%nat (length os) w). lia.
Qed.

Lemma slots_restore_ok db cmd (args : list S) n w :
  length args = (3 * n)%nat -> (∀ os, objs_of args = Some os -> Forall (λ o, indexable db (key_name o)) os) ->
  follows w -> valid_db (srv_spec (w_srv w)) db ->
  runs (slotsRestoreCmd db (cmd :: args)) w (restore_outcome db args w).
Proof using HR.
  intros Hlen Hidx Hw Hdb. unfold slotsRestoreCmd.
  assert (Z.to_nat (Z.quot (Z.of_nat (length (cmd :: args)) - 1) 3) = n) as ->.
  { cbn [length]. rewrite Hlen. replace (Z.of_nat (Datatypes.S (3 * n)) - 1) with (Z.of_nat n * 3) by lia.
    rewrite Z.quot_mul by done. lia. }
  run_step. eapply runs_mono; [by apply (parse_objs_ok cmd args 0 n [])|].
  intros [ok objs] w1 t1 (((E1 & E2 & E3 & E4) & Hf1 & Hc1 & Hn1) & os & -> & Hv1 & Ho). rewrite drop_0 in Ho.
  assert (follows w1) as Hw1 by (unfold follows; by rewrite E1, E2). unfold restore_outcome. rewrite Ho.
  cbn [app]. destruct ok; cbn [negb].
  - run_step. apply runs_restore_alone; [by apply (rep_pools _ _ Hw1)|]. unfold restoreMutli. run_step.
    eapply runs_mono.
    { apply (restore_loop_ok db _ os 0); [apply holds_written|by rewrite length_fmap|by apply Hidx|done|by rewrite E1]. }
    intros ok w2 t2 ((Hw2 & K2 & E5 & E6 & N2 & V2 & F2) & Hs2 & Hc2). rewrite drop_0 in Hs2, Hc2. run_step.
    run_step. eapply runs_mono; [apply free_written_ok|].
    intros _ w3 t3 ((E7 & E8 & E9 & E10) & Hv3 & Hf3 & Hc3 & Hn3). run_step.
    rewrite !app_nil_r, E7. rewrite E1 in K2, N2. cbn [app].
    assert (restored_names (t1 ++ t2 ++ t3) = restored_names t2) as ->
      by (by rewrite !restored_names_app, Hn1, Hn3, app_nil_r).
    assert (restore_calls (t1 ++ t2 ++ t3) = restore_calls t2) as ->
      by (by rewrite !restore_calls_app, Hc1, Hc3, app_nil_r).
    split; [unfold follows; by rewrite E7, E8|]. split; [done|]. split_and!; [congruence|congruence|done| |done|].
    + unfold val_news, val_frees in *. rewrite !omap_app, Hv1, V2, Hv3, Hf1, F2, Hf3. by rewrite !app_nil_r.
    + destruct ok; [left|by right]. by rewrite length_fmap.
  - run_step. eapply runs_mono; [apply free_written_ok|].
    intros _ w3 t3 ((E7 & E8 & E9 & E10) & Hv3 & Hf3 & Hc3 & Hn3). run_step.
    rewrite !app_nil_r, E7, E1. cbn [app].
    assert (restored_names (t1 ++ t3) = []) as -> by (by rewrite restored_names_app, Hn1, Hn3).
    split; [unfold follows; by rewrite E7, E8|]. split; [by split|]. split_and!; [congruence|congruence|done| |done|].
    + unfold val_news, val_frees in *. rewrite !omap_app, Hv1, Hv3, Hf1, Hf3. by rewrite !app_nil_r.
    + by rewrite restore_calls_app, Hc1, Hc3.
Qed.
(** ** What is sent is what is restored *)

(** An object as the other server's arguments say it. *)
Definition recv_item o : list byte * option Z * list byte :=
  (key_name o, Some (ob_ttlms o), content (ob_val o)).

Definition item_restore (x : list byte * option Z * list byte) : list byte * Z * list byte :=
  (c_str x.1.1, Z.max 0 (default 0 x.1.2), x.2).

Lemma restore_recv o : obj_restore o = item_restore (recv_item o).
Proof. done. Qed.

Lemma restore_sent o : obj_restore o = item_restore (obj_item o).
Proof.
  unfold obj_restore, item_restore, obj_item, obj_ttl. cbn. destruct (Z.ltb_spec 0 (ob_ttlms o)); [done|].
  by replace (Z.max 0 (ob_ttlms o)) with (Z.max 0 0) by lia.
Qed.

Lemma objs_of_triples (args : list S) :
  Forall (λ x, is_Some x.1.2) (triples (content <$> args)) ->
  ∃ os, objs_of args = Some os ∧ recv_item <$> os = triples (content <$> args).
Proof using HR.
  remember (length args) as n eqn:Hn. revert args Hn. induction (lt_wf n) as [n _ IH]. intros args ->.
  destruct args as [|k [|x [|v args]]]; try (by exists []). cbn [fmap list_fmap triples].
  intros [Hx Hargs]%Forall_cons. cbn [fst snd] in Hx. destruct Hx as [ttlms Ht].
  destruct (IH (length args) ltac:(cbn; lia) args eq_refl Hargs) as (os & Eo & Hos).
  eexists (_ :: os). cbn [objs_of]. rewrite Ht, Eo. split; [reflexivity|]. cbn [fmap list_fmap]. rewrite Hos. f_equal.
  unfold recv_item, key_name. cbn [ob_key ob_val ob_ttlms]. by rewrite (take_content (HR := HR)).
Qed.

Lemma triples_split {A} (f : A -> list byte) (a b : list A) n :
  length a = (3 * n)%nat -> triples (f <$> a ++ b) = triples (f <$> a) ++ triples (f <$> b).
Proof.
  revert a. induction n as [|n IH]; intros a Hl; [by destruct a|].
  destruct a as [|x [|y [|z a]]]; try (cbn in Hl; lia). cbn [app fmap list_fmap triples].
  f_equal. apply IH. cbn in Hl. lia.
Qed.

(** One SLOTSRESTORE after the other, by the arguments behind the name. *)
Fixpoint serve (db : Z) (cmd : S) (argss : list (list S)) : prog (world S Srv Net) (list Z) :=
  match argss with
  | [] => mret []
  | args :: argss =>
    r ← slotsRestoreCmd db (cmd :: args);
    rs ← serve db cmd argss;
    mret (r :: rs)
  end.

Definition served (db : Z) (argss : list (list S)) items w (rs : list Z) w' t : Prop :=
  follows w' ∧ spec_keeps (srv_spec (w_srv w)) (srv_spec (w_srv w')) ∧
  sp_names (srv_spec (w_srv w')) = add_names db (restored_names t) (sp_names (srv_spec (w_srv w))) ∧
  val_frees t = val_news t ∧ length rs = length argss ∧
  (SLOTS_MGRT_ERR ∉ rs -> restore_calls t = item_restore <$> items).

Lemma serve_ok db cmd (argss : list (list S)) w :
  Forall (λ args, ∃ n, length args = 3 * n)%nat argss ->
  Forall (λ x, is_Some x.1.2 ∧ indexable db x.1.1) (triples (content <$> concat argss)) ->
  follows w -> valid_db (srv_spec (w_srv w)) db ->
  runs (serve db cmd argss) w (served db argss (triples (content <$> concat argss)) w).
Proof using HR.
  revert w. induction argss as [|args argss IH]; intros w Hl Hx Hw Hdb; cbn [serve concat].
  { run_step. split; [done|]. split; [by split|]. by split_and!. }
  apply Forall_cons in Hl as [[n Hn] Hl]. cbn [concat] in Hx. rewrite (triples_split content args _ n Hn) in Hx |- *.
  apply Forall_app in Hx as [Hx1 Hx2].
  destruct (objs_of_triples args) as (os & Eo & Hos); [eapply Forall_impl; [exact Hx1|by intros ? []]|].
  run_step. eapply runs_mono.
  { apply (slots_restore_ok db cmd args n); try done. rewrite Eo. intros ? [= <-]. rewrite <- Hos in Hx1.
    apply Forall_fmap in Hx1. eapply Forall_impl; [exact Hx1|]. by intros o [_ ?]. }
  intros r w1 t1 (Hw1 & K1 & _ & _ & N1 & F1 & Hr). rewrite Eo in Hr. destruct Hr as [_ Hr].
  run_step. eapply runs_mono; [by apply IH; [..|eapply spec_keeps_db]|].
  intros rs w2 t2 (Hw2 & K2 & N2 & F2 & L2 & C2). run_step. rewrite app_nil_r. cbn [app].
  split; [done|]. split; [by eapply spec_keeps_trans|]. split_and!.
  - rewrite N2, N1, restored_names_app. unfold add_names. by rewrite foldl_app.
  - unfold val_frees, val_news in *. by rewrite !omap_app, F1, F2.
  - cbn. by f_equal.
  - rewrite not_elem_of_cons. intros [Hne Hnot]. rewrite restore_calls_app, (C2 Hnot), fmap_app. f_equal.
    destruct Hr as [(_ & -> & _)|[-> _]]; [|done]. rewrite <- Hos, <- list_fmap_compose. by apply list_fmap_ext.
Qed.
End restore.

(** ** Properties *)
Section props.
Context {S Srv Net : Type} `{HS : RedisStrings S} `{HV : !RedisServer S Srv} `{HN : !Hiredis Net}.
Context {Srv2 Net2 : Type} `{HV2 : !RedisServer S Srv2}.
Context `{HR : !RedisStringsOk S} `{HVok2 : !RedisServerOk S Srv2}.
Implicit Types (os : list (rdb_dump_obj S)).

(** C16. [slotsRestoreCmd] restores the objects of its arguments in their order
    until the first error and returns their number or an error; a time to live
    that is no number restores nothing.  The keys restored are in the index
    afterwards, every value it took is freed once, and no argument is read out
    of range.  The names have no NUL, and the values are no streams and none of a
    module. *)
Theorem slotsRestoreCmd_spec db cmd (args : list S) n (w : world S Srv2 Net2) :
  length args = (3 * n)%nat -> (∀ os, objs_of args = Some os -> Forall (λ o, indexable (Srv := Srv2) db (key_name o)) os) ->
  follows w -> valid_db (srv_spec (w_srv w)) db ->
  runs (slotsRestoreCmd db (cmd :: args)) w (restore_outcome db args w).
Proof using HR. apply slots_restore_ok. Qed.

(** C5. What [MGRT] sends is what SLOTSRESTORE restores: when the migration
    succeeds, and the other server serves the commands it has acknowledged, in
    any grouping, without an error, it restores every object once, with its
    name, its value and its time to live, a negative one as 0. *)
Theorem migrate_restore_roundtrip stack pool tid db host port timeoutMS os mgrtType (w : world S Srv Net)
    db2 cmd (w2 : world S Srv2 Net2) :
  mgrt_args stack host port pool tid -> cache_wf w -> Forall (λ o, is_i64 (ob_ttlms o)) os -> os ≠ [] ->
  Forall (λ o, indexable (Srv := Srv2) db2 (key_name o)) os ->
  follows w2 -> valid_db (srv_spec (w_srv w2)) db2 ->
  runs (MGRT stack pool tid db host port timeoutMS (Some <$> os) (length os) mgrtType) w (λ r w' t,
    r ≠ SLOTS_MGRT_ERR -> ∀ argss : list (list S),
      Forall (λ args, ∃ n, length args = 3 * n)%nat argss -> triples (content <$> concat argss) = delivered [] t ->
      runs (serve db2 cmd argss) w2 (λ rs w2' t2, follows w2' ∧ val_frees t2 = val_news t2 ∧
        (SLOTS_MGRT_ERR ∉ rs -> restore_calls t2 ≡ₚ obj_restore <$> os))).
Proof using HR HVok2.
  intros Hargs Hc Httl Hne Hidx Hw2 Hdb2.
  eapply runs_mono; [apply (mgrt_ok stack pool tid db host port timeoutMS _ os); try done; apply holds_written|].
  intros r w' t (_ & _ & [?|(-> & _ & Hd)]) Hr argss Hl Ht; [done|].
  eapply runs_mono; [apply (serve_ok db2 cmd argss w2); try done|].
  - rewrite Ht, Hd. apply Forall_fmap. eapply Forall_impl; [exact Hidx|]. intros o Ho. split; [by eexists|exact Ho].
  - intros rs w2' t2 (Hf & _ & _ & Hv & _ & Hcalls). split; [done|]. split; [done|]. intros Hrs.
    rewrite (Hcalls Hrs), Ht, Hd, <- list_fmap_compose. apply reflexive_eq, list_fmap_ext.
    intros i o _. symmetry. apply restore_sent.
Qed.
End props.
