(* ===== verification/Pools.v ===== *)
(** * Pools: the pools of threads that dump and that restore

    The two other users of the thread pool.  Their numbers of threads are never
    set, so that the loops run instead; whatever order a pool runs its tasks in,
    it would dump the same objects and restore the same keys, but in the database
    of a context that belongs to no client. *)

From S2P Require Import Prelude.
From S2P Require Import KeySlot.
From S2P Require Import Numbers.
From S2P Require Import Slots.
From S2P Require Import SlotsInv.
From S2P Require Import Refinement.
From S2P Require Import Prog.
From S2P Require Import Server.
From S2P Require Import ServerSpec.
From S2P Require Import Commands.
From S2P Require Import Migrate.
From S2P Require Import MigrateProps.
From S2P Require Import MigratePool.
From S2P Require Import MigrateSpec.
From S2P Require Import Restore.
From S2P Require Import RestoreProps.
Local Open Scope Z_scope.

(** ** Tasks that fill an array, in any order *)
Lemma insert_all {A} (order : list nat) (f : nat -> A) (l : list A) n :
  order ≡ₚ seq 0 n -> length l = n -> foldl (λ l i, <[i := f i]> l) l order = f <$> seq 0 n.
Proof.
  intros Hp Hl.
  assert (∀ i, foldl (λ l i, <[i := f i]> l) l order !! i = if decide (i ∈ order) then (λ _, f i) <$> l !! i else l !! i) as Hlk.
  { clear Hp n Hl. intros i. revert l. induction order as [|j order IH]; intros l; cbn [foldl]; [done|].
    rewrite IH. destruct (decide (i = j)) as [->|Hne].
    - rewrite (decide_True (P := j ∈ j :: order)) by by left. destruct (lt_dec j (length l)) as [Hlt|Hge].
      + rewrite list_lookup_insert_eq by done. destruct (lookup_lt_is_Some_2 l j Hlt) as [x ->]. by case_decide.
      + rewrite (lookup_ge_None_2 l j), (lookup_ge_None_2 (<[_:=_]> l) j) by (rewrite ?length_insert; lia). by case_decide.
    - rewrite list_lookup_insert_ne by done. rewrite (decide_ext (i ∈ j :: order) (i ∈ order)); [done|].
      rewrite elem_of_cons. split; [by intros [?|?]|by right]. }
  apply list_eq. intros i. rewrite Hlk, list_lookup_fmap, (decide_ext (i ∈ order) (i ∈ seq 0 n)) by by rewrite Hp.
  destruct (lt_dec i n) as [Hlt|Hge].
  - rewrite decide_True by (apply elem_of_seq; lia). destruct (lookup_lt_is_Some_2 l i) as [x ->]; [lia|].
    by rewrite lookup_seq_lt by done.
  - rewrite decide_False by (rewrite elem_of_seq; lia). rewrite lookup_ge_None_2 by lia.
    by rewrite lookup_seq_ge by lia.
Qed.

Lemma omap_places {A B} (g : A -> B) (l : list A) : omap (λ i, g <$> l !! i) (seq 0 (length l)) = g <$> l.
Proof.
  assert (∀ pre : list A, omap (λ i, g <$> (pre ++ l) !! i) (seq (length pre) (length l)) = g <$> l) as H;
    [|apply (H [])].
  induction l as [|x l IH]; intros pre; [done|]. cbn [length seq].
  change (omap ?f (?a :: ?r)) with (match f a with Some y => y :: omap f r | None => omap f r end).
  cbv beta. rewrite lookup_app_r, Nat.sub_diag by lia.
  change (g <$> (x :: l) !! 0%nat) with (Some (g x)). cbv iota. rewrite fmap_cons. f_equal. rewrite <- (IH (pre ++ [x])), length_app. cbn [length]. rewrite <- app_assoc. by rewrite Nat.add_1_r.
Qed.

Lemma fmap_places {A B} (g : option A -> B) (l : list A) : (λ i, g (l !! i)) <$> seq 0 (length l) = (λ x, g (Some x)) <$> l.
Proof.
  apply list_eq. intros i. rewrite !list_lookup_fmap. destruct (l !! i) as [x|] eqn:Ex.
  - rewrite lookup_seq_lt by (by eapply lookup_lt_Some). cbn. by rewrite Ex.
  - by rewrite lookup_seq_ge by by apply lookup_ge_None.
Qed.

Section pools.
Context {S Srv Net : Type} `{HS : RedisStrings S} `{HV : !RedisServer S Srv}.
Implicit Types (w : world S Srv Net) (o : rdb_dump_obj S) (os : list (rdb_dump_obj S)) (keys : list S).
Implicit Types (t : list (action S)).

(** ** Dumping *)

(** What dumping leaves alone. *)
Definition dump_quiet t : Prop := unlinks t = [] ∧ val_frees t = [] ∧ delivered [] t = [] ∧ pending_after [] t = [].

Lemma dump_quiet_app t1 t2 : dump_quiet t1 -> dump_quiet t2 -> dump_quiet (t1 ++ t2).
Proof.
  intros (U1 & F1 & D1 & P1) (U2 & F2 & D2 & P2). unfold dump_quiet, unlinks, val_frees in *.
  by rewrite !omap_app, U1, U2, F1, F2, delivered_app, pending_app, D1, P1, D2, P2.
Qed.

Local Notation db := (detached_db (S := S) (Srv := Srv)).

Lemma dump_tasks_ok keys os order params w :
  Forall2 (dumps (w_srv w) db) keys os -> Forall (λ i, (i < length keys)%nat) order ->
  runs (dump_tasks keys order params) w (λ params' w' t, same w w' ∧ dump_quiet t ∧
    params' = foldl (λ l i, <[i := (1, os !! i)]> l) params order ∧
    val_news t = omap (λ i, ob_val <$> os !! i) order).
Proof.
  intros Hd Hin. revert params w Hd. induction Hin as [|i order Hi _ IH]; intros params w Hd; cbn [dump_tasks foldl].
  { run_step. split; [by split_and!|]. by split_and!. }
  destruct (lookup_lt_is_Some_2 keys i Hi) as [key Hk]. destruct (Forall2_lookup_l _ _ _ _ _ Hd Hk) as (o & Ho & Hdump).
  run_step. eapply runs_lift; [exact Hk|]. run_step. eapply runs_mono; [by apply dump_obj_ok|].
  intros x w1 t1 (-> & Hs1 & Hu1 & Hv1 & Hf1 & Hd1 & Hp1). cbn [app].
  eapply runs_mono.
  { apply (IH (<[i := (1, Some o)]> params) w1). eapply Forall2_impl; [exact Hd|]. intros k o' Hko.
    by apply (dumps_same (w_srv w) db k o' w). }
  intros params' w2 t2 (Hs2 & Hq2 & -> & Hv2). destruct Hs1 as (E1 & E2 & E3 & E4), Hs2 as (E5 & E6 & E7 & E8).
  split; [split_and!; congruence|]. split; [by apply dump_quiet_app|]. rewrite Ho. split; [done|].
  unfold val_news in *. rewrite omap_app, Hv1, Hv2. cbn. by rewrite Ho.
Qed.

Lemma count_codes_ones n j : count_codes (replicate n 1) j = j + Z.of_nat n.
Proof.
  revert j. induction n as [|n IH]; intros j; cbn [replicate count_codes]; [lia|].
  rewrite !decide_False by done. rewrite IH. lia.
Qed.

(** The pool that dumps, in whatever order it runs its tasks, returns what
    the loop returns in the database of a detached context: the number of objects
    and each object at the place of its key; it makes each value once and changes
    nothing else. *)
Theorem getRdbDumpObjsWithThreadPool_spec pool keys os w :
  Forall2 (dumps (w_srv w) db) keys os -> keys ≠ [] -> (pool (length keys)).*1 ≡ₚ seq 0 (length keys) ->
  runs (getRdbDumpObjsWithThreadPool pool keys) w (λ res w' t, same w w' ∧ dump_quiet t ∧
    val_news t ≡ₚ ob_val <$> os ∧
    runs (dump_loop db keys 0 []) w (λ res' _ t', res = res' ∧ val_news t ≡ₚ val_news t')).
Proof.
  intros Hd Hne Hp. pose proof (Forall2_length _ _ _ Hd) as Hlen. unfold getRdbDumpObjsWithThreadPool. cbv zeta.
  rewrite decide_False by by destruct keys. run_step. eapply runs_mono.
  { apply (dump_tasks_ok keys os); [done|]. rewrite Hp. apply Forall_forall. intros i. rewrite elem_of_seq. lia. }
  intros params w1 t1 (Hs & Hq & Eparams & Hv). run_step. rewrite app_nil_r.
  rewrite (insert_all _ _ _ (length keys)) in Eparams by (done || by rewrite length_replicate).
  assert (val_news t1 ≡ₚ ob_val <$> os) as Hnews by (by rewrite Hv, Hp, Hlen, omap_places).
  rewrite Hlen, (fmap_places (λ x, (1, x))) in Eparams. subst params. split; [done|]. split; [done|]. split; [done|].
  eapply runs_mono; [by apply dump_loop_ok|]. intros [r objs] w2 t2 (-> & -> & _ & _ & Hv2 & _).
  split; [|by rewrite Hnews, Hv2]. rewrite <- !list_fmap_compose. f_equal.
  change (compose fst (λ x : rdb_dump_obj S, (1, Some x))) with (λ _ : rdb_dump_obj S, 1).
  rewrite <- count_codes_ones. f_equal. apply list_eq. intros i. rewrite list_lookup_fmap.
  destruct (os !! i) as [o|] eqn:Eo; cbn.
  - by rewrite lookup_replicate_2 by by eapply lookup_lt_Some.
  - symmetry. apply lookup_ge_None. rewrite length_replicate. by apply lookup_ge_None.
Qed.

(** ** Restoring *)
Context `{HR : !RedisStringsOk S} `{HVok : !RedisServerOk S Srv}.

Lemma add_names_alter n xs kss :
  add_names n xs kss = alter (λ ks, list_to_set xs ∪ ks) (Z.to_nat n) kss.
Proof using Type.
  revert kss. induction xs as [|x xs IH]; intros kss; cbn [add_names foldl].
  - apply list_eq. intros i. destruct (decide (i = Z.to_nat n)) as [->|Hne].
    + rewrite list_lookup_alter_eq. destruct (kss !! Z.to_nat n); cbn; [|done]. by rewrite union_empty_l_L.
    + by rewrite list_lookup_alter_ne.
  - fold (add_names n xs (add_name n x kss)). rewrite IH. unfold add_name.
    apply list_eq. intros i. destruct (decide (i = Z.to_nat n)) as [->|Hne].
    + rewrite !list_lookup_alter_eq. destruct (kss !! Z.to_nat n); cbn; [|done]. f_equal.
      by rewrite (assoc_L (∪)), (comm_L (∪) (list_to_set xs)).
    + by rewrite !list_lookup_alter_ne.
Qed.

#[export] Instance add_names_proper n : Proper ((≡ₚ) ==> (=) ==> (=)) (add_names n).
Proof using Type.
  intros xs ys Hp kss ? <-. rewrite !add_names_alter. by rewrite (list_to_set_perm_L _ _ Hp).
Qed.

(** The objects of the tasks, in their order. *)
Definition task_objs os (order : list nat) : list (rdb_dump_obj S) := omap (λ i, os !! i) order.

Lemma restore_tasks_ok os objs order codes w :
  holds_objs objs os -> Forall (λ i, i < length os)%nat order -> NoDup order -> length codes = length os ->
  Forall (λ o, indexable db (key_name o)) os -> follows w -> valid_db (srv_spec (w_srv w)) db ->
  runs (restore_tasks objs order codes) w (λ codes' w' t, restoring db w w' t ∧
    restore_calls t = obj_restore <$> task_objs os order ∧ length codes' = length os ∧
    (∀ i, i ∉ order -> codes' !! i = codes !! i) ∧
    (restore_answers -> restored_names t = key_name <$> task_objs os order ∨
       ∃ i, i ∈ order ∧ codes' !! i = Some SLOTS_MGRT_ERR)).
Proof using HR.
  intros Hobjs Hin Hnd Hlen Hidx. revert codes w Hlen Hnd.
  induction Hin as [|i order Hi _ IH]; intros codes w Hlen Hnd Hw Hdb; cbn [restore_tasks].
  { run_step. split; [by apply restoring_nil|]. split_and!; try done. intros _. by left. }
  apply NoDup_cons in Hnd as [Hni Hnd]. destruct (lookup_lt_is_Some_2 os i Hi) as [o Ho].
  run_step. eapply runs_lift; [by rewrite (Hobjs i o Ho)|]. run_step. eapply runs_mono.
  { apply restore_one_ok; [done|done|]. apply (Forall_lookup_1 _ _ _ _ Hidx Ho). }
  intros r w1 t1 (Hres1 & Hcalls1 & Hr). pose proof Hres1 as (Hw1 & Hk1 & _). cbn [app].
  eapply runs_mono; [apply (IH (<[i := r]> codes) w1); [by rewrite length_insert|done|done|by eapply spec_keeps_db]|].
  intros codes' w2 t2 (Hres2 & Hcalls2 & Hlen2 & Hother & Hnames). split; [by eapply restoring_trans|].
  assert (task_objs os (i :: order) = o :: task_objs os order) as -> by (unfold task_objs; cbn; by rewrite Ho).
  split; [by rewrite restore_calls_app, Hcalls1, Hcalls2|]. split; [done|]. split.
  { intros j [Hji Hj]%not_elem_of_cons. by rewrite (Hother j Hj), list_lookup_insert_ne. }
  intros Ha. destruct (Hnames Ha) as [Hn|(j & Hj & Hc)]; [|right; exists j; split; [by right|done]].
  destruct Hr as [[-> Hn1]|[[-> |[-> []]] _]]; [| |done].
  - left. rewrite restored_names_app, Hn1, Hn. done.
  - right. exists i. split; [by left|]. rewrite (Hother i Hni), list_lookup_insert_eq by lia. done.
Qed.

(** The pool that restores, in whatever order it runs its tasks, gives RESTORE
    every object once, also after an error, in the database of a detached context;
    when none fails that database has the same keys as after the loop, and they
    are in the index. *)
Theorem restoreMutliWithThreadPool_spec os w :
  pool_order (w_srv w) (length os) ≡ₚ seq 0 (length os) ->
  Forall (λ o, indexable db (key_name o)) os -> follows w -> valid_db (srv_spec (w_srv w)) db ->
  runs (restoreMutliWithThreadPool (Some <$> os) (length os)) w (λ r w' t, restoring db w w' t ∧
    restore_calls t ≡ₚ obj_restore <$> os ∧ (r = SLOTS_MGRT_ERR ∨ r = Z.of_nat (length os)) ∧
    (r ≠ SLOTS_MGRT_ERR -> restore_answers ->
       sp_names (srv_spec (w_srv w')) = add_names db (key_name <$> os) (sp_names (srv_spec (w_srv w))))).
Proof using HR.
  intros Hp Hidx Hw Hdb. unfold restoreMutliWithThreadPool. do 2 run_step. run_step. eapply runs_mono.
  { apply (restore_tasks_ok os); [apply holds_written| |by rewrite Hp; apply NoDup_seq|
      by rewrite length_replicate|done|done|done].
    rewrite Hp. apply Forall_forall. intros i. rewrite elem_of_seq. lia. }
  intros codes w1 t1 (Hres & Hcalls & Hlen & _ & Hnames). run_step. rewrite app_nil_r. cbn [app].
  assert (task_objs os (pool_order (w_srv w) (length os)) ≡ₚ os) as Hos.
  { unfold task_objs. rewrite Hp. rewrite <- (list_fmap_id os) at 2. rewrite <- omap_places. apply reflexive_eq.
    apply list_omap_ext. clear. induction (seq 0 (length os)); constructor; [by destruct (os !! _)|done]. }
  split; [done|]. split; [by rewrite Hcalls, Hos|]. case_decide as He; (split; [auto|]); [done|].
  intros _ Ha. destruct (Hnames Ha) as [Hn|(i & _ & Hi)].
  - destruct Hres as (_ & _ & _ & _ & -> & _). by rewrite Hn, Hos.
  - by apply list_elem_of_lookup_2 in Hi.
Qed.
End pools.
