(* ===== verification/DelSlots.v ===== *)
(** * DelSlots: SLOTSDEL

    [SlotsMGRT_DelSlotKeys] of redisxslot.c deletes every key of some slots with
    UNLINK, one call of [m_dictScan] after the other, while the table changes
    under the scan; SLOTSDEL of module.c is the command. *)

From S2P Require Import Prelude.
From S2P Require Import KeySlot.
From S2P Require Import Numbers.
From S2P Require Import Dict.
From S2P Require Import DictScan.
From S2P Require Import AdList.
From S2P Require Import Slots.
From S2P Require Import Refinement.
From S2P Require Import Prog.
From S2P Require Import Server.
From S2P Require Import Commands.
From S2P Require Import Migrate.
From S2P Require Import TagKeys.
Local Open Scope Z_scope.

Definition REDISXSLOT_ERRORMSG_DEL : string := "ERR del error".

Section del.
Context {S Srv Net : Type} `{HS : RedisStrings S} `{HV : !RedisServer S Srv}.
Implicit Types (w : world S Srv Net) (l : alist S) (argv : list S).
Notation M := (prog (world S Srv Net)).
Notation lheap := (gmap lloc (m_listNode S)).

(** [while (1)]: deletes the keys of the list and empties it; [false] when the
    function has returned an error, with the nodes that are left. *)
Fixpoint drain_loop (fuel : nat) (db : Z) (h : lheap) l : M (bool * lheap * alist S) :=
  match fuel with
  | O => undefined
  | Datatypes.S fuel =>
    match l_head l with
    | None => mret (true, h, l)
    | Some head =>
      n ← lift (h !! head);
      r ← delKeys db [n_value n] 0;
      if decide (r = SLOTS_MGRT_ERR) then mret (false, h, l)
      else
        '(_, h, l) ← lift (m_listDelNode h l head);
        drain_loop fuel db h l
    end
  end.

(** [do ... while (cursor != 0)]. *)
Fixpoint sweep_loop (fuel : nat) (db slot cursor : Z) (h : lheap) l : M (bool * lheap * alist S) :=
  match fuel with
  | O => undefined
  | Datatypes.S fuel =>
    st ← get slots_of;
    d ← lift (table_of st db slot);
    '(cursor, evs) ← lift (m_dictScan d cursor false);
    '(h, l) ← lift (scan_keys (h, l) evs);
    '(ok, h, l) ← drain_loop (Datatypes.S (Z.to_nat (l_len l))) db h l;
    if negb ok then mret (false, h, l)
    else if decide (cursor = 0) then mret (true, h, l)
    else sweep_loop fuel db slot cursor h l
  end.

(** The list of a slot whose deletion fails is not released. *)
Fixpoint del_slots (fuel : nat) (db : Z) (slots : list Z) (h : lheap) : M (bool * lheap) :=
  match slots with
  | [] => mret (true, h)
  | slot :: slots =>
    st ← get slots_of;
    d ← lift (table_of st db slot);
    if decide (i32 (dictSize d) = 0) then del_slots fuel db slots h
    else
      '(ok, h, l) ← sweep_loop fuel db slot 0 h m_listCreate;
      if negb ok then mret (false, h)
      else
        '(_, h) ← lift (m_listRelease h l);
        del_slots fuel db slots h
  end.

Definition SlotsMGRT_DelSlotKeys (fuel : nat) (db : Z) (slots : list Z) (h : lheap) : M (Z * lheap) :=
  '(ok, h) ← del_slots fuel db slots h;
  mret (if ok : bool then Z.of_nat (length slots) else SLOTS_MGRT_ERR, h).

(** The slots of the arguments, each made an [int]. *)
Fixpoint parse_slots (args : list S) : option (list Z) :=
  match args with
  | [] => Some []
  | a :: args =>
    slot ← RedisModule_StringToLongLong a;
    slots ← parse_slots args;
    Some (i32 slot :: slots)
  end.

(** The replies with the sizes of the slots. *)
Fixpoint slot_replies (db : Z) (slots : list Z) : M (list (reply S)) :=
  match slots with
  | [] => mret []
  | slot :: slots =>
    st ← get slots_of;
    d ← lift (table_of st db slot);
    rest ← slot_replies db slots;
    mret (ReplyArray 2 :: ReplyLongLong slot :: ReplyLongLong (i64 (dictSize d)) :: rest)
  end.

Definition SlotsDel_RedisCommand (fuel : nat) (db : Z) (h : lheap) argv :
    M (list (reply S) * rm_status * lheap) :=
  if (length argv <? 2)%nat then mret ([ReplyWrongArity], REDISMODULE_OK, h)
  else
    match parse_slots (tail argv) with
    | None => mret ([ReplyError REDISXSLOT_ERRORMSG_SYNTAX], REDISMODULE_ERR, h)
    | Some slots =>
      '(r, h) ← SlotsMGRT_DelSlotKeys fuel db slots h;
      if decide (r = SLOTS_MGRT_ERR) then mret ([ReplyError REDISXSLOT_ERRORMSG_DEL], REDISMODULE_ERR, h)
      else
        rs ← slot_replies db slots;
        mret (ReplyArray (Z.of_nat (length argv) - 1) :: rs, REDISMODULE_OK, h)
    end.
End del.
