(* ===== verification/DelSlotsProps.v ===== *)
(** * DelSlotsProps: what SLOTSDEL deletes

    Every key the slot has when the function starts is given to UNLINK, though
    the table shrinks and is rehashed under the scan; the scan ends; the list is
    freed unless an UNLINK fails. *)

From S2P Require Import Prelude.
From S2P Require Import KeySlot.
From S2P Require Import Numbers.
From S2P Require Import SipHash.
From S2P Require Import Dict.
From S2P Require Import DictInv.
From S2P Require Import DictProps.
From S2P Require Import DictScan.
From S2P Require Import AdList.
From S2P Require Import AdListInv.
From S2P Require Import AdListProps.
From S2P Require Import Slots.
From S2P Require Import SlotsInv.
From S2P Require Import SlotsProps.
From S2P Require Import Events.
From S2P Require Import EventsProps.
From S2P Require Import Refinement.
From S2P Require Import Statics.
From S2P Require Import Prog.
From S2P Require Import Server.
From S2P Require Import ServerSpec.
From S2P Require Import Commands.
From S2P Require Import CommandsProps.
From S2P Require Import Migrate.
From S2P Require Import MigrateProps.
From S2P Require Import MigratePool.
From S2P Require Import MigrateSpec.
From S2P Require Import TagKeys.
From S2P Require Import TagKeysProps.
From S2P Require Import DelSlots.
Local Open Scope Z_scope.

Lemma unlinks_app {S} (t1 t2 : list (action S)) : unlinks (t1 ++ t2) = unlinks t1 ++ unlinks t2.
Proof. apply omap_app. Qed.
Lemma unlinked_app {S} (t1 t2 : list (action S)) : unlinked (t1 ++ t2) = unlinked t1 ++ unlinked t2.
Proof. apply omap_app. Qed.

Section del.
Context {S Srv Net : Type} `{HS : RedisStrings S} `{HV : !RedisServer S Srv} `{HN : !Hiredis Net}.
Context `{HR : !RedisStringsOk S} `{HVok : !RedisServerOk S Srv}.
Implicit Types (w : world S Srv Net) (key : S) (l : alist S) (ks : gset (list byte)).
Implicit Types (t : list (action S)) (h : gmap lloc (m_listNode S)) (ns : list (lloc * S)).

(** What deleting keeps and does. *)
Definition deleting (db : Z) w w' t : Prop :=
  follows w' ∧ spec_keeps (srv_spec (w_srv w)) (srv_spec (w_srv w')) ∧ conf_of (slots_of w') = conf_of (slots_of w) ∧
  sp_names (srv_spec (w_srv w')) = del_names db (unlinked t) (sp_names (srv_spec (w_srv w))).

Lemma deleting_nil db w : follows w -> deleting db w w [].
Proof. intros Hw. split; [done|]. by split; [split|]. Qed.

Lemma deleting_trans db w1 w2 w3 t1 t2 :
  deleting db w1 w2 t1 -> deleting db w2 w3 t2 -> deleting db w1 w3 (t1 ++ t2).
Proof.
  intros (_ & K1 & C1 & N1) (Hw & K2 & C2 & N2). split; [done|]. split; [by eapply spec_keeps_trans|].
  split; [congruence|]. rewrite unlinked_app, N2, N1. unfold del_names. by rewrite foldl_app.
Qed.

Lemma delete_one_ok db key w :
  follows w -> valid_db (srv_spec (w_srv w)) db ->
  runs (delKeys db [key] 0) w (λ r w' t, deleting db w w' t ∧ (r ≠ SLOTS_MGRT_ERR -> unlinks t = [key])).
Proof using HR.
  intros Hw Hdb. eapply runs_mono; [by apply del_keys_ok|].
  intros r w' t (Hw' & K & C & _ & _ & _ & _ & _ & _ & N & _ & Hr). split; [by split_and!|].
  intros Hne. destruct Hr as [?|[? _]]; done.
Qed.

(** Emptying the list. *)
Lemma drain_ok fuel db h l ns w :
  list_repr h l ns -> (length ns < fuel)%nat -> follows w -> valid_db (srv_spec (w_srv w)) db ->
  runs (drain_loop fuel db h l) w (λ '(ok, h', l') w' t, deleting db w w' t ∧
    (ok = true -> unlinks t = ns.*2 ∧ list_repr h' l' [] ∧ (∀ q, q ∉ ns.*1 -> h' !! q = h !! q) ∧
      dom h' = dom h ∖ list_to_set ns.*1)).
Proof using HR.
  revert h l ns w. induction fuel as [|fuel IH]; intros h l ns w Hl Hf Hw Hdb; [lia|]. cbn [drain_loop].
  rewrite (lr_head _ _ _ Hl). destruct ns as [|[p v] ns]; cbn [hd_or].
  { run_step. split; [by apply deleting_nil|]. intros _. split_and!; try done. cbn. by rewrite difference_empty_L. }
  cbn [length] in Hf. destruct (del_node_ok h l [] p v ns Hl) as (h1 & l1 & E1 & Hl1 & Hf1 & Hd1 & _).
  destruct (lr_seg _ _ _ Hl) as [Hp _]. run_step. eapply runs_lift; [exact Hp|]. cbn [n_value]. run_step.
  eapply runs_mono; [by apply delete_one_ok|]. intros r w1 t1 (Hdel1 & Hu1). cbn [app].
  case_decide as Hr; [run_step; rewrite app_nil_r; by split|].
  run_step. eapply runs_lift; [exact E1|]. cbv beta iota. pose proof Hdel1 as (Hw1 & K1 & _).
  eapply runs_mono; [apply (IH h1 l1 ns w1); [exact Hl1|lia|done|by eapply spec_keeps_db]|].
  intros [[ok h2] l2] w2 t2 (Hdel2 & Hok). cbn [app]. split; [by eapply deleting_trans|].
  intros ->. destruct (Hok eq_refl) as (Hu2 & Hl2 & Hf2 & Hd2).
  rewrite unlinks_app, (Hu1 Hr), Hu2. split_and!; [done|done| |].
  - intros q. rewrite fmap_cons, not_elem_of_cons. intros [Hq1 Hq2]. rewrite Hf2 by done. by apply Hf1.
  - rewrite Hd2, Hd1, fmap_cons. cbn [list_to_set fst]. by rewrite difference_difference_l_L.
Qed.

(** Where a name is on the reversed line of the hashes. *)
Definition name_pos (cf : index_conf) (x : list byte) : Z :=
  rev (default 0 (m_dictGenHashFunction (cf_seed cf) x)).

Lemma entry_pos w ks slot d e :
  table_repr (slots_of w) ks slot d -> hash_pos d e = name_pos (conf_of (slots_of w)) (content (de_key e)).
Proof. intros (_ & ET & _). unfold hash_pos, name_pos. by rewrite ET. Qed.

Lemma slot_names_conf w w' ks slot :
  conf_of (slots_of w') = conf_of (slots_of w) -> slot_names (slots_of w') ks slot = slot_names (slots_of w) ks slot.
Proof.
  intros Hc. apply set_eq. intros x. unfold slot_names. rewrite !elem_of_filter. unfold in_slot.
  by rewrite (name_slot_conf _ _ x Hc).
Qed.

(** A name that is left or has been deleted. *)
Lemma deleted_or_left db w w' t ks x :
  deleting db w w' t -> db_names w db ks -> x ∈ ks ->
  ∃ ks', db_names w' db ks' ∧ (x ∈ ks' ∨ x ∈ content <$> unlinks t).
Proof using Type.
  intros (_ & _ & _ & N) Hks Hx. pose proof (del_names_lookup db (unlinked t) _ _ Hks) as Hks'.
  rewrite <- N in Hks'. eexists. split; [exact Hks'|].
  destruct (decide (x ∈ content <$> unlinked t)) as [Hd|Hd].
  - right. apply list_elem_of_fmap in Hd as (k & -> & Hk). apply list_elem_of_fmap_2. by apply unlinked_unlinks.
  - left. apply elem_of_difference. split; [done|]. by rewrite elem_of_list_to_set.
Qed.

(** The scan from a cursor on: the names from its position on are unlinked. *)
Definition swept (db slot v : Z) ks w w' t : Prop :=
  ∀ x, x ∈ slot_names (slots_of w) ks slot -> rev v <= name_pos (conf_of (slots_of w)) x -> x ∈ content <$> unlinks t.

Lemma sweep_ok fuel db slot v h ks w :
  is_u64 v -> 2 ^ 64 - rev v <= Z.of_nat fuel -> follows w -> valid_db (srv_spec (w_srv w)) db ->
  db_names w db ks -> 0 <= slot < sp_size (srv_spec (w_srv w)) -> ∀ l, list_repr h l [] ->
  runs (sweep_loop fuel db slot v h l) w (λ '(ok, h', l') w' t, deleting db w w' t ∧
    (ok = true -> h' = h ∧ list_repr h l' [] ∧ swept db slot v ks w w' t)).
Proof using HR.
  revert v ks w. induction fuel as [|fuel IH]; intros v ks w Hv Hfuel Hw Hdb Hks Hslot l Hl;
    pose proof (rev_u64 v Hv) as Hrv; unfold is_u64 in Hrv; [lia|]. cbn [sweep_loop].
  destruct (world_table w db ks slot Hw Hdb Hks Hslot) as (d & Ed & Hd). pose proof (proj1 Hd) as Hwf.
  destruct (scan_step content false d v Hwf Hv) as (v1 & evs & hi & Escan & Hv1 & Hhi & _ & Hr1 & Hin & Hall).
  pose proof (scan_passed_length content false d v v1 evs Hwf Hv Escan) as Hlen.
  pose proof (wf_small _ _ Hwf) as Hsm. unfold MAX_ENTRIES in Hsm.
  destruct (scan_keys_ok evs h l [] Hl ltac:(cbn; lia)) as (h1 & l1 & ns & Ekeys & Hl1 & Hns & Hg & _).
  cbn [app] in Hl1. do 3 run_step. eapply runs_lift; [exact Ed|]. run_step. eapply runs_lift; [exact Escan|].
  cbv beta iota. run_step. eapply runs_lift; [exact Ekeys|]. cbv beta iota. run_step.
  eapply runs_mono; [apply (drain_ok _ db h1 l1 ns w); try done; rewrite (lr_len _ _ _ Hl1); lia|].
  intros [[ok h2] l2] w1 t1 (Hdel1 & Hok). cbn [app]. destruct ok; cbn [negb]; [|by run_step; rewrite app_nil_r].
  destruct (Hok eq_refl) as (Hu1 & Hl2 & Hf2 & Hd2).
  assert (h2 = h) as -> by (by apply (grown_undone h h1 h2 ns Hg)).
  pose proof Hdel1 as (Hw1 & K1 & C1 & _).
  assert (∀ x, x ∈ slot_names (slots_of w) ks slot -> rev v <= name_pos (conf_of (slots_of w)) x < hi ->
    x ∈ content <$> unlinks t1) as Hhere.
  { intros x Hx Hpos. assert (dom (dict_map content d) = slot_names (slots_of w) ks slot) as Hdom by apply Hd.
    rewrite <- Hdom in Hx. apply elem_of_dom in Hx as [kv Hx].
    apply dict_map_lookup in Hx as (e & He & [= Ex _]); [|apply (wf_nodup _ _ Hwf)]. unfold entry_id in Ex. subst x.
    rewrite Hu1, Hns. apply list_elem_of_fmap_2. unfold passed_keys. apply list_elem_of_fmap_2, elem_of_passed, Hall; [done|].
    by rewrite (entry_pos w ks _ d e Hd). }
  case_decide as Hz.
  - run_step. rewrite app_nil_r. split; [done|]. intros _. split; [done|]. split; [done|].
    intros x Hx Hpos. apply Hhere; [done|]. split; [done|].
    assert (hi = 2 ^ 64) as ->.
    { destruct (decide (hi = 2 ^ 64)); [done|]. rewrite Hz in Hr1. change (rev 0) with 0 in Hr1.
      rewrite u64_small in Hr1 by lia. lia. }
    unfold name_pos. apply rev_u64. unfold m_dictGenHashFunction.
    destruct (siphash x _) as [hx|] eqn:Eh; [by eapply siphash_is_u64|]. unfold is_u64. cbn. lia.
  - assert (hi ≠ 2 ^ 64) as Hne by (intros ->; by apply Hz, rev_zero). rewrite u64_small in Hr1 by lia.
    destruct (lookup_lt_is_Some_2 (sp_names (srv_spec (w_srv w1))) (Z.to_nat db)) as [ks1 Hks1].
    { pose proof (spec_keeps_db _ _ _ K1 Hdb) as Hdb1. unfold valid_db in Hdb1. lia. }
    eapply runs_mono.
    { apply (IH v1 ks1 w1 Hv1); try done; [lia|by eapply spec_keeps_db|by destruct K1 as [_ ->]]. }
    intros [[ok h3] l3] w2 t2 (Hdel2 & Hok2). split; [by eapply deleting_trans|].
    intros ->. destruct (Hok2 eq_refl) as (-> & Hl3 & Hsw). split; [done|]. split; [done|].
    intros x Hx Hpos. rewrite unlinks_app, fmap_app, elem_of_app. destruct (decide (name_pos (conf_of (slots_of w)) x < hi)) as [Hlt|Hge].
    + left. by apply Hhere.
    + pose proof Hx as [Hxs Hxk]%elem_of_filter.
      destruct (deleted_or_left db w w1 t1 ks x Hdel1 Hks Hxk) as (ks1' & Hks1' & [Hleft|Hdel]); [|by left].
      right. unfold db_names in Hks1'. rewrite Hks1 in Hks1'. injection Hks1' as <-. apply Hsw.
      * rewrite (slot_names_conf w w1 ks1 slot C1). by apply elem_of_filter.
      * rewrite C1, Hr1. lia.
Qed.

Lemma keeps_names w w' db ks :
  valid_db (srv_spec (w_srv w)) db -> spec_keeps (srv_spec (w_srv w)) (srv_spec (w_srv w')) -> ∃ ks', db_names w' db ks'.
Proof using Type.
  intros Hdb K. pose proof (spec_keeps_db _ _ _ K Hdb) as Hdb1. unfold valid_db in Hdb1.
  destruct (lookup_lt_is_Some_2 (sp_names (srv_spec (w_srv w'))) (Z.to_nat db)) as [ks1 Hks1]; [lia|by exists ks1].
Qed.

(** Every name of the slots is unlinked. *)
Definition all_unlinked (slots : list Z) ks w t : Prop :=
  ∀ slot x, slot ∈ slots -> x ∈ slot_names (slots_of w) ks slot -> x ∈ content <$> unlinks t.

Lemma del_slots_ok fuel db slots h ks w :
  2 ^ 64 <= Z.of_nat fuel -> follows w -> valid_db (srv_spec (w_srv w)) db -> db_names w db ks ->
  Forall (λ slot, 0 <= slot < sp_size (srv_spec (w_srv w))) slots ->
  runs (del_slots fuel db slots h) w (λ '(ok, h') w' t, deleting db w w' t ∧
    (ok = true -> h' = h ∧ all_unlinked slots ks w t)).
Proof using HR.
  intros Hfuel. revert ks w. induction slots as [|slot slots IH]; intros ks w Hw Hdb Hks Hslots; cbn [del_slots].
  { run_step. split; [by apply deleting_nil|]. intros _. split; [done|]. by intros slot x ?%elem_of_nil. }
  apply Forall_cons in Hslots as [Hslot Hslots].
  destruct (world_table w db ks slot Hw Hdb Hks Hslot) as (d & Ed & Hd).
  do 3 run_step. eapply runs_lift; [exact Ed|]. rewrite (table_size _ _ _ _ Hd). fold (slot_names (slots_of w) ks slot).
  pose proof (slot_names_small w ks slot (names_small w db ks Hks)) as Hsm. unfold i32. rewrite signed_small by lia.
  case_decide as Hz.
  { eapply runs_mono; [by apply (IH ks)|]. intros [ok h'] w1 t1 (Hdel & Hok). cbn [app]. split; [done|].
    intros ->. destruct (Hok eq_refl) as [-> Hall]. split; [done|].
    intros s x [->|Hs]%elem_of_cons Hx; [|by apply (Hall s)].
    assert (slot_names (slots_of w) ks slot = ∅) as He by (apply leibniz_equiv, size_empty_inv; lia).
    rewrite He in Hx. by apply elem_of_empty in Hx. }
  run_step. eapply runs_mono.
  { apply (sweep_ok fuel db slot 0 h ks w); try done. apply list_create_repr. }
  intros [[ok h1] l1] w1 t1 (Hdel1 & Hok1). cbn [app].
  destruct ok; cbn [negb]; [|by run_step; rewrite app_nil_r].
  destruct (Hok1 eq_refl) as (-> & Hl1 & Hsw). destruct (empty_ok h l1 [] Hl1) as (h2 & l2 & E2 & _ & Hf2 & Hd2).
  assert (h2 = h) as ->.
  { apply map_eq. intros q. apply Hf2. cbn. by apply not_elem_of_nil. }
  pose proof Hdel1 as (Hw1 & K1 & C1 & _). destruct (keeps_names w w1 db ks Hdb K1) as [ks1 Hks1].
  run_step. eapply runs_lift; [unfold m_listRelease; rewrite E2; reflexivity|]. cbv beta iota.
  eapply runs_mono.
  { apply (IH ks1 w1 Hw1 (spec_keeps_db _ _ _ K1 Hdb) Hks1). destruct K1 as [_ ->]. done. }
  intros [ok h'] w2 t2 (Hdel2 & Hok2). cbn [app]. split; [by eapply deleting_trans|].
  intros ->. destruct (Hok2 eq_refl) as [-> Hall]. split; [done|].
  intros s x Hs Hx. rewrite unlinks_app, fmap_app, elem_of_app.
  destruct (decide (s = slot)) as [->|Hne].
  - left. apply Hsw; [done|]. change (rev 0) with 0. unfold name_pos. apply rev_u64. unfold m_dictGenHashFunction.
    destruct (siphash x _) as [hx|] eqn:Eh; [by eapply siphash_is_u64|]. unfold is_u64. cbn. lia.
  - apply elem_of_cons in Hs as [?|Hs]; [done|]. pose proof Hx as [Hxs Hxk]%elem_of_filter.
    destruct (deleted_or_left db w w1 t1 ks x Hdel1 Hks Hxk) as (ks1' & Hks1' & [Hleft|Hdel]); [|by left].
    right. unfold db_names in *. rewrite Hks1 in Hks1'. injection Hks1' as <-. apply (Hall s); [done|].
    rewrite (slot_names_conf w w1 ks1 s C1). by apply elem_of_filter.
Qed.

(** When UNLINK always succeeds, the slots are empty. *)
Lemma all_gone slots ks db w w' t slot ks' :
  deleting db w w' t -> db_names w db ks -> db_names w' db ks' -> all_unlinked slots ks w t ->
  unlinks t = unlinked t -> slot ∈ slots -> slot_names (slots_of w') ks' slot = ∅.
Proof using Type.
  intros (_ & _ & C & N) Hks Hks' Hall Hu Hslot. rewrite (slot_names_conf w w' ks' slot C).
  pose proof (del_names_lookup db (unlinked t) _ _ Hks) as Hn. rewrite <- N in Hn.
  unfold db_names in Hks'. rewrite Hks' in Hn. injection Hn as ->.
  apply set_eq. intros x. split; [|by intros ?%elem_of_empty].
  intros [Hxs [Hxk Hxn]%elem_of_difference]%elem_of_filter. exfalso. apply Hxn, elem_of_list_to_set.
  rewrite <- Hu. apply (Hall slot); [done|]. by apply elem_of_filter.
Qed.

(** What SLOTSDEL replies about the slots. *)
Definition slot_reply w ks (slot : Z) : list (reply S) :=
  [ReplyArray 2; ReplyLongLong slot; ReplyLongLong (Z.of_nat (size (slot_names (slots_of w) ks slot)))].

Lemma slot_replies_ok db slots ks w :
  follows w -> valid_db (srv_spec (w_srv w)) db -> db_names w db ks ->
  Forall (λ slot, 0 <= slot < sp_size (srv_spec (w_srv w))) slots ->
  runs (slot_replies db slots) w (λ rs w' t, rs = (slots ≫= slot_reply w ks) ∧ w' = w ∧ t = []).
Proof using HR.
  intros Hw Hdb Hks. induction slots as [|slot slots IH]; intros Hslots; cbn [slot_replies]; [by run_step|].
  apply Forall_cons in Hslots as [Hslot Hslots].
  destruct (world_table w db ks slot Hw Hdb Hks Hslot) as (d & Ed & Hd).
  do 3 run_step. eapply runs_lift; [exact Ed|]. run_step. eapply runs_mono; [by apply IH|].
  intros rs w' t (-> & -> & ->). run_step. split_and!; try done. cbn [mbind list_bind slot_reply app].
  rewrite (table_size _ _ _ _ Hd). fold (slot_names (slots_of w) ks slot).
  pose proof (slot_names_small w ks slot (names_small w db ks Hks)) as Hsm. unfold i64. by rewrite signed_small by lia.
Qed.

Lemma del_slot_keys_ok fuel db slots h ks w :
  2 ^ 64 <= Z.of_nat fuel -> follows w -> valid_db (srv_spec (w_srv w)) db -> db_names w db ks ->
  Forall (λ slot, 0 <= slot < sp_size (srv_spec (w_srv w))) slots ->
  runs (SlotsMGRT_DelSlotKeys fuel db slots h) w (λ '(r, h') w' t, deleting db w w' t ∧
    (r = SLOTS_MGRT_ERR ∨
     r = Z.of_nat (length slots) ∧ h' = h ∧ all_unlinked slots ks w t ∧
     (unlinks t = unlinked t -> ∀ slot ks', slot ∈ slots -> db_names w' db ks' -> slot_names (slots_of w') ks' slot = ∅))).
Proof using HR.
  intros Hfuel Hw Hdb Hks Hslots. unfold SlotsMGRT_DelSlotKeys. run_step.
  eapply runs_mono; [by apply (del_slots_ok fuel db slots h ks)|]. intros [ok h'] w' t (Hdel & Hok). run_step.
  rewrite app_nil_r. split; [done|]. destruct ok; [right|by left]. destruct (Hok eq_refl) as [-> Hall].
  split_and!; try done. intros Hu slot ks' Hs Hks'. by apply (all_gone slots ks db w w' t).
Qed.

(** ** Properties *)

(** C6. [SlotsMGRT_DelSlotKeys] ends, though it deletes from the table it scans,
    and the table is rehashed meanwhile: it gives every key of its slots to
    UNLINK, keeps the index equal to the keyspace, releases its list, and leaves
    the slots empty when every UNLINK succeeds; or it stops at an error. *)
Theorem SlotsMGRT_DelSlotKeys_spec fuel db slots h ks w :
  2 ^ 64 <= Z.of_nat fuel -> follows w -> valid_db (srv_spec (w_srv w)) db -> db_names w db ks ->
  Forall (λ slot, 0 <= slot < sp_size (srv_spec (w_srv w))) slots ->
  runs (SlotsMGRT_DelSlotKeys fuel db slots h) w (λ '(r, h') w' t, deleting db w w' t ∧
    (r = SLOTS_MGRT_ERR ∨
     r = Z.of_nat (length slots) ∧ h' = h ∧ all_unlinked slots ks w t ∧
     (unlinks t = unlinked t -> ∀ slot ks', slot ∈ slots -> db_names w' db ks' -> slot_names (slots_of w') ks' slot = ∅))).
Proof using HR. apply del_slot_keys_ok. Qed.
End del.
