(* ===== verification/MgrtCommands.v ===== *)
(** * MgrtCommands: the commands that migrate

    SLOTSMGRTONE, SLOTSMGRTSLOT, SLOTSMGRTTAGONE and SLOTSMGRTTAGSLOT of
    module.c: host, port, timeout, a key or a slot, and the way to send.  With
    [async] they run in a thread that takes the server's lock for each call. *)

From S2P Require Import Prelude.
From S2P Require Import KeySlot.
From S2P Require Import Numbers.
From S2P Require Import Dict.
From S2P Require Import AdList.
From S2P Require Import Slots.
From S2P Require Import Refinement.
From S2P Require Import Prog.
From S2P Require Import Server.
From S2P Require Import Commands.
From S2P Require Import Migrate.
From S2P Require Import TagKeys.
From S2P Require Import Restore.
Local Open Scope Z_scope.

Section mgrt.
Context {S Srv Net : Type} `{HS : RedisStrings S} `{HV : !RedisServer S Srv} `{HN : !Hiredis Net}.
Implicit Types (w : world S Srv Net) (argv : list S).
Notation M := (prog (world S Srv Net)).
Notation lheap := (gmap lloc (m_listNode S)).

(** The stack of the call, the thread pool, the thread, the database. *)
Context (stack : list byte) (pool : nat -> list (nat * Z)) (tid db : Z).

Definition mgrt_arity argv : bool := (length argv =? 5)%nat || (length argv =? 6)%nat.

(** The host, the port and [argv\[4\]]. *)
Definition mgrt_target argv : option (list byte * list byte * S) :=
  host ← argv !! 1%nat;
  port ← argv !! 2%nat;
  arg ← argv !! 4%nat;
  Some (content host, content port, arg).

Definition mgrt_timeout argv : option Z := s ← argv !! 3%nat; RedisModule_StringToLongLong s.

(** [argv\[5\]] or [NULL]. *)
Definition mgrt_type argv : option (list byte) := content <$> argv !! 5%nat.

Definition reject (msg : string) : list (reply S) * rm_status := ([ReplyError msg], REDISMODULE_ERR).

Definition SlotsMGRTOne_RedisCommand argv : M (list (reply S) * rm_status) :=
  if negb (mgrt_arity argv) then mret ([ReplyWrongArity], REDISMODULE_OK)
  else
    '(host, port, key) ← lift (mgrt_target argv);
    match mgrt_timeout argv with
    | None => mret (reject REDISXSLOT_ERRORMSG_SYNTAX)
    | Some timeout =>
      r ← SlotsMGRT_OneKey stack pool tid db host port timeout key (mgrt_type argv);
      if decide (r = SLOTS_MGRT_ERR) then mret (reject REDISXSLOT_ERRORMSG_MGRT)
      else mret ([ReplyLongLong r], REDISMODULE_OK)
    end.

(** The checks of a slot: [slot >= hash_slots_size] on [long long]s. *)
Definition mgrt_slot w (arg : S) : option Z :=
  slot ← RedisModule_StringToLongLong arg;
  if hash_slots_size (g_slots_meta_info (slots_of w)) <=? slot then None else Some slot.

Definition slot_result (r : Z) (left : option Z) : list (reply S) * rm_status :=
  ([ReplyArray 2; ReplyLongLong r; ReplyLongLong (default 0 left)], REDISMODULE_OK).

Definition SlotsMGRTSlot_RedisCommand (fuel : nat) (random : nat -> Z) argv : M (list (reply S) * rm_status) :=
  if negb (mgrt_arity argv) then mret ([ReplyWrongArity], REDISMODULE_OK)
  else
    '(host, port, arg) ← lift (mgrt_target argv);
    slot ← get (λ w, mgrt_slot w arg);
    match mgrt_timeout argv, slot with
    | Some timeout, Some slot =>
      '(r, rest) ← SlotsMGRT_SlotOneKey fuel random stack pool tid db host port timeout (i32 slot) (mgrt_type argv) (Some 0);
      if decide (r = SLOTS_MGRT_ERR) then mret (reject REDISXSLOT_ERRORMSG_MGRT)
      else mret (slot_result r rest)
    | _, _ => mret (reject REDISXSLOT_ERRORMSG_SYNTAX)
    end.

Definition SlotsMGRTTagOne_RedisCommand (h : lheap) argv : M (list (reply S) * rm_status * lheap) :=
  if negb (mgrt_arity argv) then mret ([ReplyWrongArity], REDISMODULE_OK, h)
  else
    '(host, port, key) ← lift (mgrt_target argv);
    match mgrt_timeout argv with
    | None => mret (reject REDISXSLOT_ERRORMSG_SYNTAX, h)
    | Some timeout =>
      '(r, _, h) ← SlotsMGRT_TagKeys stack pool tid db h host port timeout key (mgrt_type argv) None;
      if decide (r = SLOTS_MGRT_ERR) then mret (reject REDISXSLOT_ERRORMSG_MGRT, h)
      else mret ([ReplyLongLong r], REDISMODULE_OK, h)
    end.

Definition SlotsMGRTTagSlot_RedisCommand (fuel : nat) (random : nat -> Z) (h : lheap) argv :
    M (list (reply S) * rm_status * lheap) :=
  if negb (mgrt_arity argv) then mret ([ReplyWrongArity], REDISMODULE_OK, h)
  else
    '(host, port, arg) ← lift (mgrt_target argv);
    slot ← get (λ w, mgrt_slot w arg);
    match mgrt_timeout argv, slot with
    | Some timeout, Some slot =>
      '(r, rest, h) ← SlotsMGRT_TagSlotKeys fuel random stack pool tid db h host port timeout (i32 slot)
        (mgrt_type argv) (Some 0);
      if decide (r = SLOTS_MGRT_ERR) then mret (reject REDISXSLOT_ERRORMSG_MGRT, h)
      else mret (slot_result r rest, h)
    | _, _ => mret (reject REDISXSLOT_ERRORMSG_SYNTAX, h)
    end.
End mgrt.
