(* ===== verification/MgrtCommandsProps.v ===== *)
(** * MgrtCommandsProps: the arguments of the commands that migrate

    SLOTSMGRTSLOT migrates a key of a slot in range and rejects a slot above;
    a negative slot is no slot of a table, and the code reads there. *)

From S2P Require Import Prelude.
From S2P Require Import KeySlot.
From S2P Require Import Numbers.
From S2P Require Import Dict.
From S2P Require Import Slots.
From S2P Require Import SlotsInv.
From S2P Require Import Events.
From S2P Require Import Refinement.
From S2P Require Import Statics.
From S2P Require Import Prog.
From S2P Require Import Server.
From S2P Require Import ServerSpec.
From S2P Require Import ConnCache.
From S2P Require Import Commands.
From S2P Require Import CommandsProps.
From S2P Require Import Migrate.
From S2P Require Import MigrateProps.
From S2P Require Import MigratePool.
From S2P Require Import MigrateSpec.
From S2P Require Import TagKeys.
From S2P Require Import TagKeysProps.
From S2P Require Import Restore.
From S2P Require Import MgrtCommands.
Local Open Scope Z_scope.

Section mgrt.
Context {S Srv Net : Type} `{HS : RedisStrings S} `{HV : !RedisServer S Srv} `{HN : !Hiredis Net}.
Context `{HR : !RedisStringsOk S} `{HVok : !RedisServerOk S Srv}.
Implicit Types (w : world S Srv Net) (argv : list S) (ks : gset (list byte)).

(** The arguments: five or six of them, host, port, timeout, and the rest. *)
Record mgrt_argv argv (host port : list byte) (timeout : Z) (arg : S) : Prop := {
  mv_arity : mgrt_arity argv = true;
  mv_target : mgrt_target argv = Some (host, port, arg);
  mv_timeout : mgrt_timeout argv = Some timeout
}.

(** The outcome of SLOTSMGRTSLOT on a slot that is one. *)
Definition slot_command (db : Z) ks w (slot : Z) (rs : list (reply S) * rm_status) w' (t : list (action S)) : Prop :=
  (rs = slot_result 0 (Some 0) ∧ w' = w ∧ t = [] ∧ slot_names (slots_of w) ks slot = ∅) ∨
  ∃ key o r ks', content key ∈ slot_names (slots_of w) ks slot ∧ dumps (w_srv w) db key o ∧
    migrated db [key] [o] w r w' t ∧ db_names w' db ks' ∧ ks' ⊆ ks ∧
    rs = if decide (r = SLOTS_MGRT_ERR) then reject REDISXSLOT_ERRORMSG_MGRT
         else slot_result r (Some (Z.of_nat (size (slot_names (slots_of w') ks' slot)))).

Lemma slot_rejected fuel random stack pool tid db argv host port timeout arg slot w :
  mgrt_argv argv host port timeout arg -> RedisModule_StringToLongLong arg = Some slot ->
  hash_slots_size (g_slots_meta_info (slots_of w)) <= slot ->
  runs (SlotsMGRTSlot_RedisCommand stack pool tid db fuel random argv) w
    (λ rs w' t, rs = reject REDISXSLOT_ERRORMSG_SYNTAX ∧ w' = w ∧ t = []).
Proof.
  intros [Ha Ht Hto] Hslot Hge. unfold SlotsMGRTSlot_RedisCommand. rewrite Ha, Hto. cbn [negb].
  run_step. eapply runs_lift; [exact Ht|]. cbv beta iota. do 2 run_step. unfold mgrt_slot. rewrite Hslot.
  cbn [mbind option_bind]. destruct (Z.leb_spec (hash_slots_size (g_slots_meta_info (slots_of w))) slot); [|lia].
  by run_step.
Qed.

Lemma slot_accepted random stack pool tid db argv host port timeout arg slot w ks :
  fair random -> mgrt_argv argv host port timeout arg -> RedisModule_StringToLongLong arg = Some slot ->
  0 <= slot < hash_slots_size (g_slots_meta_info (slots_of w)) ->
  follows w -> valid_db (srv_spec (w_srv w)) db -> cache_wf w -> mgrt_args stack host port pool tid ->
  db_names w db ks ->
  (∀ k, content k ∈ slot_names (slots_of w) ks slot -> ∃ o, dumps (w_srv w) db k o) ->
  ∃ fuel, runs (SlotsMGRTSlot_RedisCommand stack pool tid db fuel random argv) w (slot_command db ks w slot).
Proof using HR.
  intros Hf [Ha Ht Hto] Hslot Hr Hw Hdb Hc Hargs Hks Hd. pose proof (rep_size _ _ Hw) as Hsz.
  pose proof (sr_size _ _ (rep_slots _ _ Hw)) as Hmax. fold (slots_of w) in Hsz, Hmax.
  destruct (slot_one_key_ok random stack pool tid db host port timeout slot (mgrt_type argv) (Some 0) w ks)
    as [fuel Hrun]; try done; [lia|].
  exists fuel. unfold SlotsMGRTSlot_RedisCommand. rewrite Ha, Hto. cbn [negb].
  run_step. eapply runs_lift; [exact Ht|]. cbv beta iota. do 2 run_step. unfold mgrt_slot. rewrite Hslot.
  cbn [mbind option_bind]. destruct (Z.leb_spec (hash_slots_size (g_slots_meta_info (slots_of w))) slot); [lia|].
  run_step. rewrite i32_small by lia. eapply runs_mono; [exact Hrun|].
  intros [r rest] w1 t1 [(-> & -> & -> & -> & He)|(key & o & ks1 & Hkey & Ho & Hm & Hks1 & Hsub & ->)].
  { rewrite decide_False by done. run_step. by left. }
  cbn [app]. case_decide as Hre; run_step; rewrite app_nil_r; right; exists key, o, r, ks1; split_and!; try done.
  - by rewrite decide_True.
  - by rewrite decide_False.
Qed.

(** SLOTSMGRTSLOT migrates one key of its slot and replies with the number
    migrated and the number left, or with an error; an empty slot gives 0 and
    0.  A slot that is not below the number of slots is rejected, and nothing is
    done. *)
Theorem SlotsMGRTSlot_RedisCommand_spec random stack pool tid db argv host port timeout arg slot w ks :
  fair random -> mgrt_argv argv host port timeout arg -> RedisModule_StringToLongLong arg = Some slot -> 0 <= slot ->
  follows w -> valid_db (srv_spec (w_srv w)) db -> cache_wf w -> mgrt_args stack host port pool tid ->
  db_names w db ks ->
  (∀ k, content k ∈ slot_names (slots_of w) ks slot -> ∃ o, dumps (w_srv w) db k o) ->
  ∃ fuel, runs (SlotsMGRTSlot_RedisCommand stack pool tid db fuel random argv) w (λ rs w' t,
    if hash_slots_size (g_slots_meta_info (slots_of w)) <=? slot
    then rs = reject REDISXSLOT_ERRORMSG_SYNTAX ∧ w' = w ∧ t = []
    else slot_command db ks w slot rs w' t).
Proof using HR.
  intros Hf Hargv Hslot H0 Hw Hdb Hc Hargs Hks Hd.
  destruct (Z.leb_spec (hash_slots_size (g_slots_meta_info (slots_of w))) slot).
  - exists 0%nat. by eapply slot_rejected.
  - by eapply slot_accepted.
Qed.

(** C36. A negative slot is not rejected by SLOTSMGRTSLOT and SLOTSMGRTTAGSLOT:
    both read outside the tables. *)
Theorem negative_slot_undefined fuel random stack pool tid db h argv host port timeout arg slot w :
  mgrt_argv argv host port timeout arg -> RedisModule_StringToLongLong arg = Some slot -> - 2 ^ 31 <= slot < 0 ->
  0 <= hash_slots_size (g_slots_meta_info (slots_of w)) ->
  SlotsMGRTSlot_RedisCommand stack pool tid db fuel random argv w = None ∧
  SlotsMGRTTagSlot_RedisCommand stack pool tid db fuel random h argv w = None.
Proof.
  intros [Ha Ht Hto] Hslot Hneg Hsz.
  assert (∀ r, random_key r random db (i32 slot) w = None) as Hnone.
  { intros r. unfold random_key, mbind, prog_bind, get, lift, table_of. rewrite i32_small by lia.
    assert (db_index slot = None) as -> by (unfold db_index; by rewrite decide_False by lia).
    by destruct (db_index db). }
  assert (mgrt_slot w arg = Some slot) as Es.
  { unfold mgrt_slot. rewrite Hslot. cbn [mbind option_bind].
    by destruct (Z.leb_spec (hash_slots_size (g_slots_meta_info (slots_of w))) slot); [lia|]. }
  unfold SlotsMGRTSlot_RedisCommand, SlotsMGRTTagSlot_RedisCommand. rewrite Ha, Ht, Hto. cbn [negb].
  unfold lift, get, mbind at 1 3, prog_bind at 1 3. cbn [mbind option_bind]. unfold mbind, prog_bind. rewrite Es.
  unfold SlotsMGRT_SlotOneKey, SlotsMGRT_TagSlotKeys, mbind, prog_bind. by rewrite !Hnone.
Qed.
End mgrt.
