(* ===== verification/SlotSession.v ===== *)
(** * SlotSession: a slot is migrated by SLOTSMGRTSLOT after SLOTSMGRTSLOT

    The client repeats SLOTSMGRTSLOT while it replies that keys are left.  The
    replies count the slot down to nothing. *)

From S2P Require Import Prelude.
From S2P Require Import KeySlot.
From S2P Require Import Numbers.
From S2P Require Import Dict.
From S2P Require Import Slots.
From S2P Require Import SlotsInv.
From S2P Require Import Refinement.
From S2P Require Import Statics.
From S2P Require Import Prog.
From S2P Require Import Server.
From S2P Require Import ServerSpec.
From S2P Require Import ConnCache.
From S2P Require Import Commands.
From S2P Require Import CommandsProps.
From S2P Require Import Migrate.
From S2P Require Import MigrateProps.
From S2P Require Import MigratePool.
From S2P Require Import MigrateSpec.
From S2P Require Import TagKeys.
From S2P Require Import TagKeysProps.
From S2P Require Import Restore.
From S2P Require Import DelSlotsProps.
From S2P Require Import MgrtCommands.
From S2P Require Import MgrtCommandsProps.
Local Open Scope Z_scope.

(** ** Fuel

    [below m m']: what [m] returns, [m'] returns.  More fuel is above less. *)
Definition below {W A} (m m' : prog W A) : Prop := ∀ w r, m w = Some r -> m' w = Some r.

#[export] Instance below_refl W A : Reflexive (@below W A).
Proof. by intros m w r. Qed.

Lemma below_bind {W A B} (m m' : prog W A) (f f' : A -> prog W B) :
  below m m' -> (∀ a, below (f a) (f' a)) -> below (m ≫= f) (m' ≫= f').
Proof.
  intros Hm Hf w r. unfold mbind, prog_bind. destruct (m w) as [[a w1]|] eqn:E; [|done].
  rewrite (Hm _ _ E). apply Hf.
Qed.

Lemma below_lift {W A} (o o' : option A) : (∀ a, o = Some a -> o' = Some a) -> below (lift (W := W) o) (lift o').
Proof. intros Ho w r. unfold lift. destruct o as [a|]; [|done]. by rewrite (Ho a eq_refl). Qed.

Section fuel.
Context {K V : Type}.

Lemma pick_bucket_mono fuel fuel' (d : dict K V) random i r :
  (fuel <= fuel')%nat -> pick_bucket fuel d random i = Some r -> pick_bucket fuel' d random i = Some r.
Proof.
  revert fuel' i. induction fuel as [|fuel IH]; intros [|fuel'] i Hf; cbn [pick_bucket]; try done; [lia|].
  cbv zeta. destruct (if dictIsRehashing d then _ else _) as [[|e he]|]; cbn [mbind option_bind]; try done.
  apply IH. lia.
Qed.

Lemma random_entry_mono fuel fuel' (d : dict K V) random r :
  (fuel <= fuel')%nat -> m_dictGetRandomKey fuel d random = Some r -> m_dictGetRandomKey fuel' d random = Some r.
Proof.
  intros Hf. unfold m_dictGetRandomKey. case_decide; [done|]. destruct (rehash_step_if d) as [d1|]; [|done].
  cbn [mbind option_bind]. destruct (pick_bucket fuel d1 random 0) as [p|] eqn:E; [|done].
  by rewrite (pick_bucket_mono _ _ _ _ _ _ Hf E).
Qed.
End fuel.

Lemma size_without (X : gset (list byte)) x : x ∈ X -> Z.of_nat (size (X ∖ {[x]})) = Z.of_nat (size X) - 1.
Proof.
  intros Hx. assert ({[x]} ⊆ X) as Hsub by by apply singleton_subseteq_l.
  pose proof (subseteq_size _ _ Hsub) as Hle. rewrite size_difference, size_singleton in * by done. lia.
Qed.

Section session.
Context {S Srv Net : Type} `{HS : RedisStrings S} `{HV : !RedisServer S Srv} `{HN : !Hiredis Net}.
Context `{HR : !RedisStringsOk S} `{HVok : !RedisServerOk S Srv}.
Implicit Types (w : world S Srv Net) (ks : gset (list byte)) (t : list (action S)).

(** The command, its arguments and the law that a key which is there is
    dumped. *)
Context (stack : list byte) (pool : nat -> list (nat * Z)) (tid db : Z).
Context (argv : list S) (host port : list byte) (timeout : Z) (arg : S) (slot : Z).
Context (Hargv : mgrt_argv argv host port timeout arg) (Hslot : RedisModule_StringToLongLong arg = Some slot).
Context (Hargs : mgrt_args stack host port pool tid).
Context (Hdump : ∀ (srv : Srv) k ks, sp_names (srv_spec srv) !! Z.to_nat db = Some ks -> content k ∈ ks ->
  ∃ o, dumps srv db k o).

Notation command fuel random := (SlotsMGRTSlot_RedisCommand stack pool tid db fuel random argv).

Lemma command_mono fuel fuel' random : (fuel <= fuel')%nat ->
  below (W := world S Srv Net) (command fuel random) (command fuel' random).
Proof using Type.
  intros Hf. unfold SlotsMGRTSlot_RedisCommand. destruct (mgrt_arity argv); cbn [negb]; [|reflexivity].
  apply below_bind; [reflexivity|]. intros [[h p] a]. apply below_bind; [reflexivity|]. intros s.
  destruct (mgrt_timeout argv), s; try reflexivity.
  apply below_bind; [|reflexivity]. unfold SlotsMGRT_SlotOneKey, random_key.
  apply below_bind; [|reflexivity]. apply below_bind; [reflexivity|]. intros st.
  apply below_bind; [reflexivity|]. intros d. apply below_bind; [|reflexivity].
  apply below_lift. intros r. by apply random_entry_mono.
Qed.

(** A client's commands that migrated a key each, with the numbers of keys
    left that they replied. *)
Inductive slot_session : world S Srv Net -> list Z -> world S Srv Net -> Prop :=
  | session_start w : slot_session w [] w
  | session_more w w1 w2 fuel random left lefts :
      fair random -> command fuel random w = Some (slot_result 1 (Some left), w1) ->
      slot_session w1 lefts w2 -> slot_session w (left :: lefts) w2.

(** What the commands need of the world, and the names of the database. *)
Record ready w ks : Prop := {
  rd_follows : follows w;
  rd_db : valid_db (srv_spec (w_srv w)) db;
  rd_cache : cache_wf w;
  rd_names : db_names w db ks;
  rd_slot : 0 <= slot < sp_size (srv_spec (w_srv w))
}.

Lemma ready_accepted w ks random : ready w ks -> fair random ->
  ∃ fuel, runs (command fuel random) w (slot_command db ks w slot).
Proof using All.
  intros [Hw Hdb Hc Hks Hr] Hf. apply (slot_accepted random stack pool tid db argv host port timeout arg slot w ks); try done.
  - unfold slots_of. by rewrite (rep_size _ _ Hw).
  - intros k [_ Hk]%elem_of_filter. by apply (Hdump _ k ks).
Qed.

(** The slots are where they were. *)
Definition slots_stay w w' : Prop := ∀ x, name_slot (slots_of w') x = name_slot (slots_of w) x.

Lemma slot_names_stay w w' ks : slots_stay w w' -> slot_names (slots_of w') ks slot = slot_names (slots_of w) ks slot.
Proof using HS.
  intros Hx. apply set_eq. intros x. unfold slot_names. rewrite !elem_of_filter. unfold in_slot. by rewrite Hx.
Qed.

(** One command of a session. *)
Lemma session_step w ks fuel random left w1 :
  ready w ks -> fair random -> command fuel random w = Some (slot_result 1 (Some left), w1) ->
  ∃ k t, content k ∈ slot_names (slots_of w) ks slot ∧ ready w1 (ks ∖ {[content k]}) ∧ slots_stay w w1 ∧
    w_trace w1 = w_trace w ++ t ∧ unlinked t = [k] ∧
    left = Z.of_nat (size (slot_names (slots_of w) ks slot)) - 1.
Proof using All.
  intros Hready Hf E. destruct (ready_accepted w ks random Hready Hf) as (fuel' & rs & w2 & E2 & t & Et & Hout).
  pose proof (command_mono fuel (fuel `max` fuel') random (Nat.le_max_l _ _) _ _ E) as E1.
  rewrite (command_mono fuel' (fuel `max` fuel') random (Nat.le_max_r _ _) _ _ E2) in E1. simplify_eq E1. clear E2.
  intros -> ->. destruct Hready as [Hw Hdb Hc Hks Hr].
  destruct Hout as [(? & _)|(k & o & r & ks1 & Hk & Ho & Hm & Hks1 & _ & Hrs)]; [done|].
  case_decide as Hne; [done|]. injection Hrs as <- ->.
  destruct Hm as (Hw1 & Hc1 & Hkeep & Hstay & t1 & t2 & -> & Hu1 & _ & _ & Hn & Hcase).
  destruct Hcase as [[? _]|(_ & _ & [?|[Hu2 Hlen]])]; try done.
  assert (unlinked t2 = [k]) as Hu.
  { assert (∀ x, x ∈ unlinked t2 -> x = k) as Hx.
    { intros x ?%unlinked_unlinks. rewrite Hu2 in *. by apply list_elem_of_singleton. }
    destruct (unlinked t2) as [|x [|]]; cbn in Hlen; try lia. f_equal. apply Hx. by left. }
  assert (unlinked t1 = []) as Hu0.
  { destruct (unlinked t1) as [|x l] eqn:El; [done|].
    assert (x ∈ unlinks t1) as Hx by (apply unlinked_unlinks; rewrite El; by left).
    rewrite Hu1 in Hx. by apply elem_of_nil in Hx. }
  pose proof (del_names_lookup db (unlinked t2) _ _ Hks) as Hks'. rewrite <- Hn, Hu in Hks'.
  unfold db_names in Hks1. rewrite Hks' in Hks1. injection Hks1 as <-.
  cbn [fmap list_fmap list_to_set] in *. rewrite union_empty_r_L in *.
  exists k, (t1 ++ t2). split; [done|]. split.
  { split; [done|by eapply spec_keeps_db|done|done|]. by destruct Hkeep as [_ ->]. }
  split; [exact Hstay|]. split; [done|]. split; [by rewrite unlinked_app, Hu0, Hu|].
  rewrite (slot_names_stay w w1 _ Hstay). unfold slot_names in *. rewrite filter_del. by apply size_without.
Qed.

(** What a session has done. *)
Record session_done w ks (lefts : list Z) w' ks' (keys : list S) : Prop := {
  sd_ready : ready w' ks';
  sd_stay : slots_stay w w';
  sd_trace : ∃ t, w_trace w' = w_trace w ++ t ∧ unlinked t = keys;
  sd_nodup : NoDup (content <$> keys);
  sd_keys : ∀ k, k ∈ keys -> content k ∈ slot_names (slots_of w) ks slot;
  sd_names : ks' = ks ∖ list_to_set (content <$> keys);
  sd_count : length keys = length lefts;
  sd_left i left : lefts !! i = Some left ->
    left = Z.of_nat (size (slot_names (slots_of w) ks slot)) - 1 - Z.of_nat i
}.

Lemma session_done_ok w ks lefts w' : slot_session w lefts w' -> ready w ks ->
  ∃ ks' keys, session_done w ks lefts w' ks' keys.
Proof using All.
  intros Hs. revert ks. induction Hs as [w|w w1 w2 fuel random left lefts Hf E _ IH]; intros ks Hready.
  { exists ks, []. split; try done.
    - exists []. by rewrite app_nil_r.
    - apply NoDup_nil_2.
    - by intros k ?%elem_of_nil.
    - cbn. by rewrite difference_empty_L. }
  destruct (session_step w ks fuel random left w1 Hready Hf E) as (k & t & Hk & Hready1 & Hstay & Et & Hu & ->).
  destruct (IH _ Hready1) as (ks' & keys & [Hr2 Hs2 (t2 & Et2 & Hu2) Hnd Hkeys -> Hc Hl]).
  rewrite (slot_names_stay w w1 _ Hstay) in Hkeys, Hl. unfold slot_names in *. rewrite filter_del in Hkeys, Hl.
  eexists _, (k :: keys). split; try done.
  - intros x. by rewrite Hs2.
  - exists (t ++ t2). by rewrite Et2, Et, app_assoc, unlinked_app, Hu, Hu2.
  - cbn. apply NoDup_cons. split; [|done]. intros (k' & Ek & Hk')%list_elem_of_fmap. apply Hkeys in Hk'.
    rewrite <- Ek in Hk'. apply elem_of_difference in Hk' as [_ Hk']. by apply Hk', elem_of_singleton.
  - intros k' [->|Hk']%elem_of_cons; [done|]. by apply Hkeys, elem_of_difference in Hk' as [? _].
  - cbn. by rewrite difference_difference_l_L.
  - cbn. by rewrite Hc.
  - unfold slot_names. intros [|i] left; cbn [lookup list_lookup]; [intros [= <-]; lia|]. intros Hi. rewrite (Hl i left Hi).
    rewrite size_without by done. lia.
Qed.

Lemma session_size w ks lefts w' ks' keys : session_done w ks lefts w' ks' keys ->
  Z.of_nat (size (slot_names (slots_of w') ks' slot)) =
    Z.of_nat (size (slot_names (slots_of w) ks slot)) - Z.of_nat (length lefts).
Proof using HS.
  intros [_ Hstay _ Hnd Hkeys -> Hc _]. rewrite (slot_names_stay w w' _ Hstay), <- Hc.
  assert (slot_names (slots_of w) (ks ∖ list_to_set (content <$> keys)) slot =
    slot_names (slots_of w) ks slot ∖ list_to_set (content <$> keys)) as ->.
  { apply set_eq. intros x. unfold slot_names. rewrite elem_of_difference, !elem_of_filter, elem_of_difference. tauto. }
  assert (list_to_set (content <$> keys) ⊆ slot_names (slots_of w) ks slot) as Hsub.
  { intros x (k & -> & Hk)%elem_of_list_to_set%list_elem_of_fmap. by apply Hkeys. }
  pose proof (subseteq_size _ _ Hsub) as Hle. rewrite size_difference, size_list_to_set, length_fmap in * by done. lia.
Qed.

(** C7. A slot is emptied by as many SLOTSMGRTSLOT as it has keys: commands
    that migrate a key each reply with the numbers of keys left, counted down by
    one; they delete different keys of the slot and no other key; there are at
    most as many as the slot has keys, and the slot is empty after that many;
    before and after, the next command returns, with an error, or a key
    migrated, or with 0 and 0 when the slot is empty. *)
Theorem SlotsMGRTSlot_session_spec w ks lefts w' : ready w ks -> slot_session w lefts w' ->
  ∃ ks' keys, session_done w ks lefts w' ks' keys ∧
    (length lefts <= size (slot_names (slots_of w) ks slot))%nat ∧
    (length lefts = size (slot_names (slots_of w) ks slot) <-> slot_names (slots_of w') ks' slot = ∅) ∧
    ∀ random, fair random -> ∃ fuel, runs (command fuel random) w' (slot_command db ks' w' slot).
Proof using All.
  intros Hready Hs. destruct (session_done_ok w ks lefts w' Hs Hready) as (ks' & keys & Hdone).
  exists ks', keys. pose proof (session_size _ _ _ _ _ _ Hdone) as Hsz. split; [done|]. split; [lia|]. split.
  - split; [intros Hl; apply leibniz_equiv, size_empty_inv; lia|]. intros He. rewrite He, size_empty in Hsz. lia.
  - intros random Hf. apply (ready_accepted w' ks' random); [apply Hdone|done].
Qed.
End session.
