(* ===== verification/RestoreExamples.v ===== *)
(** * RestoreExamples: restoring, deleting and the commands, on the servers of
    MigrateExamples *)

From S2P Require Import Prelude.
From S2P Require Import KeySlot.
From S2P Require Import Numbers.
From S2P Require Import Slots.
From S2P Require Import SlotsInv.
From S2P Require Import Refinement.
From S2P Require Import RefinementExamples.
From S2P Require Import Statics.
From S2P Require Import Prog.
From S2P Require Import Server.
From S2P Require Import ServerSpec.
From S2P Require Import ConnCache.
From S2P Require Import Commands.
From S2P Require Import CommandsProps.
From S2P Require Import CommandsExamples.
From S2P Require Import Migrate.
From S2P Require Import MigrateProps.
From S2P Require Import MigratePool.
From S2P Require Import MigrateSpec.
From S2P Require Import TagKeys.
From S2P Require Import TagKeysProps.
From S2P Require Import MigrateExamples.
From S2P Require Import Restore.
From S2P Require Import RestoreProps.
From S2P Require Import DelSlots.
From S2P Require Import DelSlotsProps.
From S2P Require Import MgrtCommands.
From S2P Require Import MgrtCommandsProps.
Local Open Scope Z_scope.

(** ** Restoring *)
Lemma ex_indexable x : x00 ∉ x -> indexable (Srv := ex_server) 0 x.
Proof. intros Hx. split; [done|]. intros srv key _. cbn. by destruct (ex_has srv 0 key). Qed.

Definition ex_restore_args : list (list byte) := [ex_key "new"; bytes_of "1000"; ex_value; ex_key "{tag}1"; bytes_of "0"; ex_value].

Lemma ex_restore_indexable os :
  objs_of ex_restore_args = Some os -> Forall (λ o, indexable (Srv := ex_server) 0 (key_name o)) os.
Proof.
  intros E. vm_compute in E. injection E as <-. apply Forall_cons_2; [|apply Forall_cons_2; [|apply Forall_nil_2]];
    apply ex_indexable; by apply (bool_decide_unpack _); vm_compute.
Qed.

Lemma slotsRestoreCmd_spec_witness :
  runs (slotsRestoreCmd 0 (ex_key "slotsrestore" :: ex_restore_args)) ex_world (restore_outcome 0 ex_restore_args ex_world).
Proof.
  apply (slotsRestoreCmd_spec 0 (ex_key "slotsrestore") ex_restore_args 2 ex_world).
  - done.
  - exact ex_restore_indexable.
  - exact ex_follows.
  - exact ex_db.
Defined.

(** A new key and one that is there. *)
Example ex_restored :
  (λ '(_, w), es_names (w_srv w)) <$> SlotsRestore_RedisCommand 0 (ex_key "slotsrestore" :: ex_restore_args) ex_world =
  Some [{[ex_key "new"]} ∪ ex_db_names; ∅].
Proof. by apply (bool_decide_unpack _); vm_compute. Qed.

Lemma ex_objs_indexable : Forall (λ o, indexable (Srv := ex_server) 0 (key_name o)) ex_objs.
Proof.
  apply Forall_cons_2; [|apply Forall_cons_2; [|apply Forall_nil_2]];
    apply ex_indexable; by apply (bool_decide_unpack _); vm_compute.
Qed.

Lemma migrate_restore_roundtrip_witness :
  runs (MGRT (HN := ex_net) ex_buf ex_pool 7 0 ex_host ex_port 1000 (Some <$> ex_objs) 2 None) ex_world (λ r w' t,
    r ≠ SLOTS_MGRT_ERR -> ∀ argss : list (list (list byte)),
      Forall (λ args, ∃ n, length args = 3 * n)%nat argss -> triples (content <$> concat argss) = delivered [] t ->
      runs (serve 0 (ex_key "slotsrestore") argss) ex_world (λ rs w2' t2, follows w2' ∧ val_frees t2 = val_news t2 ∧
        (SLOTS_MGRT_ERR ∉ rs -> restore_calls t2 ≡ₚ obj_restore <$> ex_objs))).
Proof.
  apply (migrate_restore_roundtrip (HN := ex_net) ex_buf ex_pool 7 0 ex_host ex_port 1000 ex_objs None ex_world
    0 (ex_key "slotsrestore") ex_world).
  - apply ex_args. by left.
  - exact ex_cache.
  - exact ex_objs_ttl.
  - done.
  - exact ex_objs_indexable.
  - exact ex_follows.
  - exact ex_db.
Defined.

(** ** Deleting slots *)
Lemma SlotsMGRT_DelSlotKeys_spec_witness :
  ∃ fuel, runs (SlotsMGRT_DelSlotKeys fuel 0 [ex_tag_slot; 3] ∅) ex_world (λ '(r, h') w' t, deleting 0 ex_world w' t ∧
    (r = SLOTS_MGRT_ERR ∨
     r = 2 ∧ h' = ∅ ∧ all_unlinked [ex_tag_slot; 3] ex_db_names ex_world t ∧
     (unlinks t = unlinked t -> ∀ slot ks', slot ∈ [ex_tag_slot; 3] -> db_names w' 0 ks' ->
        slot_names (slots_of w') ks' slot = ∅))).
Proof.
  exists (Z.to_nat (2 ^ 64)).
  apply (SlotsMGRT_DelSlotKeys_spec (Z.to_nat (2 ^ 64)) 0 [ex_tag_slot; 3] ∅ ex_db_names ex_world).
  - by rewrite Z2Nat.id by lia.
  - exact ex_follows.
  - exact ex_db.
  - exact ex_world_names.
  - apply Forall_cons_2; [exact ex_tag_slot_range|apply Forall_cons_2; [|apply Forall_nil_2]].
    vm_compute. split; [discriminate|reflexivity].
Defined.

(** Four calls are enough here. *)
Example ex_deleted :
  (λ '((r, _), w), (r, es_names (w_srv w))) <$> SlotsMGRT_DelSlotKeys 4 0 [ex_tag_slot; 3] ∅ ex_world =
  Some (2, [{[ex_key "other"]}; ∅]).
Proof. by apply (bool_decide_unpack _); vm_compute. Qed.

(** ** Commands *)
Definition ex_slot_argv (slot : list byte) : list (list byte) :=
  [ex_key "slotsmgrtslot"; ex_host; ex_port; bytes_of "1000"; slot].

Lemma ex_slot_argv_ok slot : mgrt_argv (ex_slot_argv slot) ex_host ex_port 1000 slot.
Proof. split; reflexivity. Qed.

Lemma SlotsMGRTSlot_RedisCommand_spec_witness :
  ∃ fuel, runs (SlotsMGRTSlot_RedisCommand (HN := ex_net) ex_buf ex_pool 7 0 fuel Z.of_nat (ex_slot_argv ex_slot_arg)) ex_world
    (λ rs w' t, if hash_slots_size (g_slots_meta_info (slots_of ex_world)) <=? ex_slot
      then rs = reject REDISXSLOT_ERRORMSG_SYNTAX ∧ w' = ex_world ∧ t = []
      else slot_command 0 ex_db_names ex_world ex_slot rs w' t).
Proof.
  apply (SlotsMGRTSlot_RedisCommand_spec (HN := ex_net) Z.of_nat ex_buf ex_pool 7 0 (ex_slot_argv ex_slot_arg) ex_host ex_port
    1000 ex_slot_arg ex_slot ex_world ex_db_names).
  - exact ex_fair.
  - apply ex_slot_argv_ok.
  - exact ex_slot_ll.
  - apply ex_filled_slot.
  - exact ex_follows.
  - exact ex_db.
  - exact ex_cache.
  - apply ex_args. by left.
  - exact ex_world_names.
  - intros k [_ Hk]%elem_of_filter. by apply ex_any_dumps.
Defined.

Lemma negative_slot_undefined_witness :
  SlotsMGRTSlot_RedisCommand (HN := ex_net) ex_buf ex_pool 7 0 9 Z.of_nat (ex_slot_argv (bytes_of "-1")) ex_world = None ∧
  SlotsMGRTTagSlot_RedisCommand (HN := ex_net) ex_buf ex_pool 7 0 9 Z.of_nat ∅ (ex_slot_argv (bytes_of "-1")) ex_world = None.
Proof.
  apply (negative_slot_undefined (HN := ex_net) 9 Z.of_nat ex_buf ex_pool 7 0 ∅ (ex_slot_argv (bytes_of "-1")) ex_host ex_port
    1000 (bytes_of "-1") (-1) ex_world).
  - apply ex_slot_argv_ok.
  - vm_compute. reflexivity.
  - lia.
  - vm_compute. discriminate.
Defined.
