(* ===== verification/PoolsExamples.v ===== *)
(** * PoolsExamples: the pools of threads, on the server of MigrateExamples *)

From S2P Require Import Prelude.
From S2P Require Import KeySlot.
From S2P Require Import Numbers.
From S2P Require Import Slots.
From S2P Require Import SlotsInv.
From S2P Require Import Refinement.
From S2P Require Import RefinementExamples.
From S2P Require Import Statics.
From S2P Require Import Prog.
From S2P Require Import Server.
From S2P Require Import ServerSpec.
From S2P Require Import ConnCache.
From S2P Require Import Commands.
From S2P Require Import CommandsProps.
From S2P Require Import CommandsExamples.
From S2P Require Import Migrate.
From S2P Require Import MigrateProps.
From S2P Require Import MigratePool.
From S2P Require Import MigrateSpec.
From S2P Require Import TagKeys.
From S2P Require Import TagKeysProps.
From S2P Require Import MigrateExamples.
From S2P Require Import Restore.
From S2P Require Import RestoreProps.
From S2P Require Import DelSlots.
From S2P Require Import DelSlotsProps.
From S2P Require Import MgrtCommands.
From S2P Require Import MgrtCommandsProps.
From S2P Require Import RestoreExamples.
From S2P Require Import Pools.
Local Open Scope Z_scope.

(** Two threads that take the tasks from the last one on. *)
Definition ex_dump_pool (n : nat) : list (nat * Z) := (λ i, (i, 7 + Z.of_nat i mod 2)) <$> rev (seq 0 n).

Local Notation ex_detached := (detached_db (S := list byte) (Srv := ex_server)).

Lemma getRdbDumpObjsWithThreadPool_spec_witness :
  runs (Net := ()) (getRdbDumpObjsWithThreadPool ex_dump_pool ex_keys) ex_world (λ res w' t, same ex_world w' ∧ dump_quiet t ∧
    val_news t ≡ₚ ob_val <$> ex_objs ∧
    runs (dump_loop ex_detached ex_keys 0 []) ex_world (λ res' _ t', res = res' ∧ val_news t ≡ₚ val_news t')).
Proof.
  apply (getRdbDumpObjsWithThreadPool_spec ex_dump_pool ex_keys ex_objs ex_world).
  - exact ex_keys_dump.
  - done.
  - by apply (bool_decide_unpack _); vm_compute.
Defined.

Lemma restoreMutliWithThreadPool_spec_witness :
  runs (Net := ()) (restoreMutliWithThreadPool (Some <$> ex_objs) (length ex_objs)) ex_world (λ r w' t,
    restoring ex_detached ex_world w' t ∧ restore_calls t ≡ₚ obj_restore <$> ex_objs ∧
    (r = SLOTS_MGRT_ERR ∨ r = Z.of_nat (length ex_objs)) ∧
    (r ≠ SLOTS_MGRT_ERR -> restore_answers (S := list byte) (Srv := ex_server) ->
       sp_names (srv_spec (w_srv w')) = add_names ex_detached (key_name <$> ex_objs) (sp_names (srv_spec (w_srv ex_world))))).
Proof.
  apply (restoreMutliWithThreadPool_spec ex_objs ex_world).
  - by apply (bool_decide_unpack _); vm_compute.
  - exact ex_objs_indexable.
  - exact ex_follows.
  - exact ex_db.
Defined.

(** The pool and the loop restore the same keys. *)
Example ex_pool_restores :
  (λ '(r, w), (r, es_names (w_srv w))) <$> restoreMutliWithThreadPool (Some <$> ex_objs) 2 ex_world =
  (λ '(r, w), (r, es_names (w_srv w))) <$> restoreMutli 0 (Some <$> ex_objs) 2 ex_world.
Proof. by apply (bool_decide_unpack _); vm_compute. Qed.

(** For a client of database 1, which is empty, the loop finds no key; the pool
    looks in database 0 and dumps the two keys there. *)
Example ex_pool_database :
  (λ '(r, _), r.1) <$> dump_loop 1 ex_keys 0 [] ex_world = Some 0 ∧
  (λ '(r, _), r.1) <$> getRdbDumpObjsWithThreadPool ex_dump_pool ex_keys ex_world = Some 2.
Proof. split; by apply (bool_decide_unpack _); vm_compute. Qed.
