(* ===== verification/SlotSessionExamples.v ===== *)
(** * SlotSessionExamples: a slot of two keys is migrated, on the servers of
    MigrateExamples *)

From S2P Require Import Prelude.
From S2P Require Import KeySlot.
From S2P Require Import Numbers.
From S2P Require Import Slots.
From S2P Require Import SlotsInv.
From S2P Require Import Refinement.
From S2P Require Import RefinementExamples.
From S2P Require Import Statics.
From S2P Require Import Prog.
From S2P Require Import Server.
From S2P Require Import ServerSpec.
From S2P Require Import ConnCache.
From S2P Require Import Commands.
From S2P Require Import CommandsProps.
From S2P Require Import CommandsExamples.
From S2P Require Import Migrate.
From S2P Require Import MigrateProps.
From S2P Require Import MigratePool.
From S2P Require Import MigrateSpec.
From S2P Require Import TagKeys.
From S2P Require Import TagKeysProps.
From S2P Require Import MigrateExamples.
From S2P Require Import Restore.
From S2P Require Import RestoreProps.
From S2P Require Import DelSlots.
From S2P Require Import DelSlotsProps.
From S2P Require Import MgrtCommands.
From S2P Require Import MgrtCommandsProps.
From S2P Require Import SlotSession.
From S2P Require Import RestoreExamples.
Local Open Scope Z_scope.

Definition ex_slot_migrate (w : world (list byte) ex_server ()) : option (list (reply (list byte)) * rm_status * world (list byte) ex_server ()) :=
  SlotsMGRTSlot_RedisCommand (HN := ex_net) ex_buf ex_pool 7 0 9 Z.of_nat (ex_slot_argv ex_slot_arg) w.

Definition ex_next (w : world (list byte) ex_server ()) : world (list byte) ex_server () :=
  match ex_slot_migrate w with Some (_, w') => w' | None => w end.

Lemma ex_slot_step w rs : fst <$> ex_slot_migrate w = Some rs -> ex_slot_migrate w = Some (rs, ex_next w).
Proof. unfold ex_next. destruct (ex_slot_migrate w) as [[rs' w']|]; [|done]. by intros [= ->]. Qed.

Lemma ex_session : slot_session (HN := ex_net) ex_buf ex_pool 7 0 (ex_slot_argv ex_slot_arg) ex_world [1; 0]
  (ex_next (ex_next ex_world)).
Proof.
  apply (session_more _ _ _ _ _ _ (ex_next ex_world) _ 9 Z.of_nat); [exact ex_fair| |].
  { apply ex_slot_step. by vm_compute. }
  apply (session_more _ _ _ _ _ _ (ex_next (ex_next ex_world)) _ 9 Z.of_nat); [exact ex_fair| |constructor].
  apply ex_slot_step. by vm_compute.
Qed.

Lemma ex_ready : ready 0 ex_slot ex_world ex_db_names.
Proof.
  split; [exact ex_follows|exact ex_db|exact ex_cache|exact ex_world_names|].
  vm_compute. split; [discriminate|reflexivity].
Qed.

Lemma SlotsMGRTSlot_session_spec_witness :
  ∃ ks' keys, session_done 0 ex_slot ex_world ex_db_names [1; 0] (ex_next (ex_next ex_world)) ks' keys ∧
    (2 <= size (slot_names (slots_of ex_world) ex_db_names ex_slot))%nat ∧
    (2%nat = size (slot_names (slots_of ex_world) ex_db_names ex_slot) <->
     slot_names (slots_of (ex_next (ex_next ex_world))) ks' ex_slot = ∅) ∧
    ∀ random, fair random -> ∃ fuel,
      runs (SlotsMGRTSlot_RedisCommand (HN := ex_net) ex_buf ex_pool 7 0 fuel random (ex_slot_argv ex_slot_arg))
        (ex_next (ex_next ex_world)) (slot_command 0 ks' (ex_next (ex_next ex_world)) ex_slot).
Proof.
  apply (SlotsMGRTSlot_session_spec (HN := ex_net) ex_buf ex_pool 7 0 (ex_slot_argv ex_slot_arg) ex_host ex_port 1000
    ex_slot_arg ex_slot).
  - apply ex_slot_argv_ok.
  - exact ex_slot_ll.
  - apply ex_args. by left.
  - intros srv k ks Hks Hk. eexists. apply ex_dumps. by apply (ex_has_in srv 0 ks).
  - exact ex_ready.
  - exact ex_session.
Defined.

(** The third command finds the slot empty. *)
Example ex_session_over : fst <$> ex_slot_migrate (ex_next (ex_next ex_world)) = Some (slot_result 0 (Some 0)).
Proof. by vm_compute. Qed.
