(* ===== verification/Async.v ===== *)
(** * Async: which handler runs a command, and in which thread

    [SlotsDispatchRedisCommand] and [dispatchCmd] of module.c, and the commands
    that block their client: they take references to the arguments, start a
    thread, and the thread runs the command and unblocks the client.  The thread
    of a command that migrates runs [dispatchCmd], the thread of SLOTSRESTORE
    runs [slotsRestoreCmd] and leaves its result to the reply callback.

    A thread is a program on the world; Busy lets other clients run between its
    calls.  [created] is whether [pthread_create] succeeds. *)

From S2P Require Import Prelude.
From S2P Require Import KeySlot.
From S2P Require Import Numbers.
From S2P Require Import Dict.
From S2P Require Import AdList.
From S2P Require Import Slots.
From S2P Require Import Refinement.
From S2P Require Import Prog.
From S2P Require Import Server.
From S2P Require Import Commands.
From S2P Require Import Migrate.
From S2P Require Import TagKeys.
From S2P Require Import Restore.
From S2P Require Import DelSlots.
From S2P Require Import MgrtCommands.
Local Open Scope Z_scope.

(** The arguments of a thread; its blocked client is the caller's. *)
Record bg_call_params (S : Type) := BgCall { bg_argv : list S }.
Arguments BgCall {S} _.
Arguments bg_argv {S} _.

Definition REDISXSLOT_ERRORMSG_CLI_DISCONN : string := "ERR client disconnected error".

Definition cannot_start : string := "-ERR Can't start thread".

Section async.
Context {S Srv Net : Type} `{HS : RedisStrings S} `{HV : !RedisServer S Srv} `{HN : !Hiredis Net}.
Implicit Types (w : world S Srv Net) (argv : list S).
Notation M := (prog (world S Srv Net)).
Notation lheap := (gmap lloc (m_listNode S)).

(** ** The arguments *)
Definition copy_args argv : list (str_event S) * bg_call_params S :=
  (argv ≫= λ s, (takeAndRef s).1, BgCall (map (λ s, (takeAndRef s).2) argv)).

Definition free_args (params : bg_call_params S) : list (str_event S) := map Freed (bg_argv params).

(** ** SLOTSRESTORE *)

(** The strings, the replies, and the thread's arguments when it has started. *)
Definition SlotsRestoreAsyncBlock_RedisCommand (created : bool) argv :
    list (str_event S) * (list (reply S) * rm_status) * option (bg_call_params S) :=
  let argc := Z.of_nat (length argv) in
  if (argc <? 4) || negb (Z.rem (argc - 1) 3 =? 0) then ([], ([ReplyWrongArity], REDISMODULE_OK), None)
  else
    let '(evs, arg) := copy_args argv in
    if created then (evs, ([], REDISMODULE_OK), Some arg)
    else (evs ++ free_args arg, ([ReplyError cannot_start], REDISMODULE_OK), None).

(** The private data of the blocked client. *)
Definition SlotsRestoreAsyncBlock_ThreadMain (db : Z) (params : bg_call_params S) : M (Z * list (str_event S)) :=
  r ← slotsRestoreCmd db (bg_argv params);
  mret (r, free_args params).

Definition SlotsRestoreAsyncBlock_Reply (res : Z) : list (reply S) := [ReplyLongLong res].

Definition SlotsRestoreAsyncBlock_Timeout : list (reply S) := [ReplySimpleString "Request timedout"].

Definition SlotsRestoreAsyncBlock_Disconnected : list (reply S) := [ReplyError REDISXSLOT_ERRORMSG_CLI_DISCONN].

(** How the block of the client ends: the thread unblocks it with its result, its
    time is up (it has none: it is blocked with a timeout of 0), it is gone. *)
Inductive block_end := Unblocked (res : Z) | TimedOut | Disconnected.

Definition block_reply (e : block_end) : list (reply S) :=
  match e with
  | Unblocked res => SlotsRestoreAsyncBlock_Reply res
  | TimedOut => SlotsRestoreAsyncBlock_Timeout
  | Disconnected => SlotsRestoreAsyncBlock_Disconnected
  end.

(** All the client of SLOTSRESTORE is told, with [async] and without. *)
Definition restore_replies (async created : bool) (db : Z) argv : M (list (reply S)) :=
  if async then
    let '(_, (rs, _), job) := SlotsRestoreAsyncBlock_RedisCommand created argv in
    match job with
    | None => mret rs
    | Some params =>
      '(r, _) ← SlotsRestoreAsyncBlock_ThreadMain db params;
      mret (rs ++ block_reply (Unblocked r))
    end
  else
    '(rs, _) ← SlotsRestore_RedisCommand db argv;
    mret rs.

(** ** The commands that migrate or delete *)
Context (stack : list byte) (pool : nat -> list (nat * Z)) (tid db : Z).
Context (fuel : nat) (random : nat -> Z).

(** Ten seconds later. *)
Definition SlotsTest_RedisCommand : list (reply S) * rm_status := ([ReplyNull], REDISMODULE_OK).

Definition dispatchCmd (h : lheap) argv : M (list (reply S) * rm_status * lheap) :=
  name ← lift (argv !! 0%nat);
  let named s := strcasecmp_eq (content name) (bytes_of s) in
  if named "slotsmgrttagslot" then SlotsMGRTTagSlot_RedisCommand stack pool tid db fuel random h argv
  else if named "slotsmgrttagone" then SlotsMGRTTagOne_RedisCommand stack pool tid db h argv
  else if named "slotsmgrtslot" then
    r ← SlotsMGRTSlot_RedisCommand stack pool tid db fuel random argv; mret (r, h)
  else if named "slotsmgrtone" then
    r ← SlotsMGRTOne_RedisCommand stack pool tid db argv; mret (r, h)
  else if named "slotsdel" then SlotsDel_RedisCommand fuel db h argv
  else if named "slotstest" then mret (SlotsTest_RedisCommand, h)
  else mret ([], REDISMODULE_OK, h).

(** When no thread starts, [arg->bc] is read after [arg] is freed. *)
Definition SlotsMGRTAsyncBlock_RedisCommand (created : bool) argv :
    option (list (str_event S) * (list (reply S) * rm_status) * bg_call_params S) :=
  let '(evs, arg) := copy_args argv in
  if created then Some (evs, ([], REDISMODULE_OK), arg) else None.

Definition SlotsMGRTAsyncBlock_ThreadMain (h : lheap) (params : bg_call_params S) :
    M (list (reply S) * list (str_event S) * lheap) :=
  '(rs, _, h) ← dispatchCmd h (bg_argv params);
  mret (rs, free_args params, h).

(** The command with the thread it starts: the replies, with the strings taken
    and freed. *)
Definition SlotsDispatchRedisCommand (created : bool) (h : lheap) argv :
    M (list (reply S) * list (str_event S) * lheap) :=
  mi ← get meta_info;
  if async mi then
    '(evs, (rs, _), params) ← lift (SlotsMGRTAsyncBlock_RedisCommand created argv);
    '(rs', freed, h) ← SlotsMGRTAsyncBlock_ThreadMain h params;
    mret (rs ++ rs', evs ++ freed, h)
  else
    '(rs, _, h) ← dispatchCmd h argv;
    mret (rs, [], h).
End async.
