(* ===== verification/BusyProps.v ===== *)
(** * BusyProps: the threads of the module beside other clients

    Migrating and restoring on a [busy] server, with keys that the thread holds: its
    arguments.  The index stays the keyspace whatever the others do between two
    calls, and no key is deleted before all objects are acknowledged; among several
    keys one that another client deletes before its DUMP leaves a hole in the array
    of the objects.  Between RESTORE and
    its notification the key is in the keyspace and not in the index; the others
    may delete, rename or write it then.  The notification, which looks at the key
    again under the lock, makes the index the keyspace. *)

From S2P Require Import Prelude.
From S2P Require Import KeySlot.
From S2P Require Import Numbers.
From S2P Require Import AdList.
From S2P Require Import Slots.
From S2P Require Import SlotsInv.
From S2P Require Import Events.
From S2P Require Import EventsProps.
From S2P Require Import Refinement.
From S2P Require Import Commands.
From S2P Require Import Statics.
From S2P Require Import Prog.
From S2P Require Import Server.
From S2P Require Import ServerSpec.
From S2P Require Import Busy.
From S2P Require Import ConnCache.
From S2P Require Import Migrate.
From S2P Require Import MigrateProps.
From S2P Require Import MigratePool.
From S2P Require Import MigrateSpec.
From S2P Require Import Restore.
From S2P Require Import RestoreProps.
From S2P Require Import MgrtCommands.
From S2P Require Import MgrtCommandsProps.
From S2P Require Import Async.
Local Open Scope Z_scope.

Section migrate.
Context {S Srv Net : Type} `{HS : RedisStrings S} `{HV : !RedisServer S Srv} `{HO : !OtherClients S Srv}.
Context `{HN : !Hiredis Net}.
Context `{HR : !RedisStringsOk S} `{HVok : !RedisServerOk S Srv} `{HOok : !OtherClientsOk S Srv}.
Implicit Types (w : world S (busy Srv) Net) (o : rdb_dump_obj S) (os : list (rdb_dump_obj S)).
Implicit Types (key : S) (keys : list S) (t : list (action S)) (objs : list (option (rdb_dump_obj S))).

Lemma beside_same w0 w w' : beside w0 w -> w_srv w' = w_srv w -> w_mod w' = w_mod w -> beside w0 w'.
Proof. unfold beside, busy_follows, busy_spec. by intros Hb -> ->. Qed.

Lemma aside_trans w1 w2 w3 : aside w1 w2 -> aside w2 w3 -> aside w1 w3.
Proof. intros [] []. split; congruence. Qed.

Lemma aside_cache w w' : aside w w' -> cache_wf w -> cache_wf w'.
Proof. intros (E1 & E2) [H1 H2]. split; rewrite ?E1, ?E2; done. Qed.

(** A part that deletes and sends nothing. *)
Definition harmless t : Prop := unlinks t = [] ∧ delivered [] t = [] ∧ pending_after [] t = [].

Lemma harmless_app t1 t2 : harmless t1 -> harmless t2 -> harmless (t1 ++ t2).
Proof.
  intros (U1 & D1 & P1) (U2 & D2 & P2). unfold harmless, unlinks in *.
  by rewrite omap_app, U1, U2, delivered_app, D1, P1, D2, pending_app, P1, P2.
Qed.

(** The answer a value was taken from. *)
Definition dumped (db : Z) o t : Prop :=
  Called db (DUMP (ob_key o)) (Some (REDISMODULE_REPLY_STRING (ob_val o))) ∈ t ∧ is_i64 (ob_ttlms o).

Lemma dumped_mono db o t1 t2 t3 : dumped db o t2 -> dumped db o (t1 ++ t2 ++ t3).
Proof. intros [H ?]. split; [|done]. rewrite !elem_of_app. auto. Qed.

(** What an element of the array is for its key: no object when the key is gone. *)
Definition elem_ok (db : Z) t key (x : option (rdb_dump_obj S)) : Prop :=
  ∀ o, x = Some o -> ob_key o = key ∧ dumped db o t.

Lemma dump_obj_busy db key w :
  busy_follows w -> valid_db (busy_spec w) db ->
  runs (dumpObj db key) w (λ '(r, x) w' t, beside w w' ∧ aside w w' ∧ harmless t ∧ elem_ok db t key x ∧
    match x with
    | Some _ => r = 1
    | None => r = SLOTS_MGRT_NOTHING ∨ r = SLOTS_MGRT_ERR
    end).
Proof using HR HOok.
  intros Hw Hdb. unfold dumpObj. run_step. apply runs_busy_call; [done..|]. intros r w1 B1 A1 _.
  destruct r as [[|val| | | |]|]; try (run_step; by split_and!; auto).
  do 2 run_step. run_step. pose proof (beside_db _ _ db B1 Hdb) as Hdb1.
  apply (runs_busy_call db (PTTL key) (log (ValCreated val) w1)); [done|apply B1|done|].
  intros r w2 B2 A2 Hi. pose proof (beside_trans _ _ _ B1 B2) as B. pose proof (aside_trans _ _ _ A1 A2) as A.
  destruct r as [[| | |ttlms| |]|]; run_step; cbn [app]; try (by split_and!; auto).
  split; [done|]. split; [done|]. split; [done|]. split; [|done]. intros o [= <-].
  split; [done|]. split; [by left|]. by apply Hi.
Qed.

(** The array of [dump_loop], when there was no error: an element for each key. *)
Definition loop_dumped (db : Z) keys (j : Z) objs w (res : Z * list (option (rdb_dump_obj S))) w' t : Prop :=
  beside w w' ∧ aside w w' ∧ harmless t ∧
  (res.1 = SLOTS_MGRT_ERR ∨
   ∃ xs, res.2 = objs ++ xs ∧ res.1 = j + Z.of_nat (length (omap id xs)) ∧ Forall2 (elem_ok db t) keys xs).

Lemma dump_loop_busy db keys j objs w :
  busy_follows w -> valid_db (busy_spec w) db ->
  runs (dump_loop db keys j objs) w (loop_dumped db keys j objs w).
Proof using HR HOok.
  revert j objs w. induction keys as [|key keys IH]; intros j objs w Hw Hdb; cbn [dump_loop].
  { run_step. split; [by apply beside_refl|]. split_and!; try done. right. exists []. rewrite app_nil_r.
    split_and!; [done|cbn; lia|constructor]. }
  run_step. eapply runs_mono; [by apply dump_obj_busy|]. intros [r x] w1 t1 (B1 & A1 & H1 & Hx & Hr). cbv beta iota zeta.
  assert (∀ j', j' = j + Z.of_nat (length (omap id [x])) -> runs (dump_loop db keys j' (objs ++ [x])) w1
    (λ res w' t, loop_dumped db (key :: keys) j objs w res w' (t1 ++ t))) as Hrest.
  { intros j' ->. eapply runs_mono; [apply IH; [apply B1|by eapply beside_db]|].
    intros res w2 t2 (B2 & A2 & H2 & Hres). split; [by eapply beside_trans|]. split; [by eapply aside_trans|].
    split; [by apply harmless_app|]. destruct Hres as [?|(xs & -> & -> & Hxs)]; [by left|right]. exists (x :: xs).
    split; [by rewrite <- app_assoc|]. split; [destruct x; cbn; lia|]. constructor.
    - intros o Ho. destruct (Hx o Ho) as [? Hd]. split; [done|]. by apply (dumped_mono db o []).
    - eapply Forall2_impl; [exact Hxs|]. intros k y Hy o Ho. destruct (Hy o Ho) as [? Hd]. split; [done|].
      rewrite <- (app_nil_r t2). by apply dumped_mono. }
  destruct x as [o|]; [subst r|destruct Hr as [->| ->]].
  - rewrite !decide_False by done. apply Hrest. cbn. lia.
  - rewrite decide_True by done. apply Hrest. cbn. lia.
  - rewrite decide_False, decide_True by done. run_step. rewrite app_nil_r. split; [done|]. split_and!; auto.
Qed.

Lemma del_keys_busy db keys ret w :
  busy_follows w -> valid_db (busy_spec w) db ->
  runs (delKeys db keys ret) w (λ r w' t, beside w w' ∧ aside w w' ∧ unlinks t `prefix_of` keys ∧
    (r = SLOTS_MGRT_ERR ∨ unlinks t = keys ∧ r = ret + Z.of_nat (length (unlinked t)))).
Proof using HR HOok.
  revert ret w. induction keys as [|key keys IH]; intros ret w Hw Hdb; cbn [delKeys].
  { run_step. split; [by apply beside_refl|]. split_and!; try done. right. cbn. split; [done|lia]. }
  run_step. apply runs_busy_call; [done..|]. intros r w1 B1 A1 _.
  assert (∀ ret', ret' = ret + Z.of_nat (length (unlinked [Called db (UNLINK key) r])) ->
    runs (delKeys db keys ret') w1 (λ b w2 t2, beside w w2 ∧ aside w w2 ∧
      unlinks ([Called db (UNLINK key) r] ++ t2) `prefix_of` key :: keys ∧
      (b = SLOTS_MGRT_ERR ∨ unlinks ([Called db (UNLINK key) r] ++ t2) = key :: keys ∧
        b = ret + Z.of_nat (length (unlinked ([Called db (UNLINK key) r] ++ t2)))))) as Hrest.
  { intros ret' ->. eapply runs_mono; [apply IH; [apply B1|by eapply beside_db]|].
    intros b w2 t2 (B2 & A2 & Hp & Hb). split; [by eapply beside_trans|]. split; [by eapply aside_trans|].
    split; [cbn; by apply prefix_cons|]. destruct Hb as [?|[Hu ->]]; [by left|right]. split; [cbn; by f_equal|].
    unfold unlinked. rewrite omap_app, length_app. lia. }
  destruct r as [[]|]; try (apply Hrest; cbn; lia);
    run_step; (split; [done|]; split; [done|]; split; [by apply prefix_cons, prefix_nil|by left]).
Qed.

(** ** Elements that are missing *)
Lemma free_hole_undefined objs i n w :
  Exists (.= None) (take n (drop i objs)) -> FreeDumpObjs objs i n w = None.
Proof.
  revert i w. induction n as [|n IH]; intros i w He; [by apply Exists_nil in He|]. cbn [FreeDumpObjs].
  destruct (objs !! i) as [x|] eqn:Ex; [|by rewrite drop_ge in He by (by apply lookup_ge_None); inversion He].
  rewrite (drop_S _ _ _ Ex) in He. cbn [take] in He. apply Exists_cons in He as [->|He]; [by cbn|].
  unfold mbind, prog_bind, lift. destruct x as [o|]; [|done]. cbn. by apply IH.
Qed.

Lemma no_hole n objs :
  Forall is_Some (take n objs) -> (n <= length objs)%nat ->
  ∃ os, length os = n ∧ holds_objs objs os ∧ take n objs = Some <$> os.
Proof.
  intros Hf Hn. assert (∃ os, take n objs = Some <$> os) as [os Hos].
  { induction Hf as [|x l [o ->] _ [os IH]]; [by exists []|]. exists (o :: os). cbn. by f_equal. }
  exists os. split; [|split; [|done]].
  - apply (f_equal length) in Hos. rewrite length_take, length_fmap in Hos. lia.
  - intros i o Ho. assert (take n objs !! i = Some (Some o)) as Ht by by rewrite Hos, list_lookup_fmap, Ho.
    by apply lookup_take_Some in Ht as [? _].
Qed.

Lemma omap_id_length objs : (length (omap id objs) <= length objs)%nat.
Proof. induction objs as [|[] objs IH]; cbn; lia. Qed.

(** ** A migration beside other clients *)

(** The objects sent are the values DUMP gave for the first keys; the keys are
    deleted when all of these are acknowledged. *)
Definition migrated_beside (db : Z) keys w (r : Z) w' t : Prop :=
  beside w w' ∧ cache_wf w' ∧ ∃ t1 t2, t = t1 ++ t2 ∧ unlinks t1 = [] ∧
    ((r = 0 ∨ r = SLOTS_MGRT_ERR) ∧ t2 = [] ∨
     ∃ os, os ≠ [] ∧ ob_key <$> os = take (length os) keys ∧ Forall (λ o, dumped db o t1) os ∧
       delivered [] t1 ≡ₚ obj_item <$> os ∧ unlinks t2 `prefix_of` keys ∧
       (r = SLOTS_MGRT_ERR ∨ unlinks t2 = keys ∧ r = Z.of_nat (length (unlinked t2)))).

Context (stack : list byte) (pool : nat -> list (nat * Z)) (tid db : Z) (host port : list byte) (timeoutMS : Z).
Context (mgrtType : option (list byte)) (Hargs : mgrt_args (Net := Net) stack host port pool tid).
Notation migrate keys := (migrateKeys stack pool tid db host port timeoutMS keys mgrtType).

(** What follows the dump. *)
Lemma migrate_dumped_busy keys os objs w w1 t1 :
  keys ≠ [] -> busy_follows w -> valid_db (busy_spec w) db -> cache_wf w ->
  getRdbDumpObjs pool db keys w = Some ((Z.of_nat (length os), objs), w1) -> w_trace w1 = w_trace w ++ t1 ->
  beside w w1 -> aside w w1 -> harmless t1 ->
  holds_objs objs os -> ob_key <$> os = take (length os) keys -> Forall (λ o, dumped db o t1) os ->
  runs (migrate keys) w (migrated_beside db keys w).
Proof using HR HOok Hargs.
  intros Hne Hw Hdb Hc E Et B1 A1 (U1 & D1 & P1) Hobjs Hkeys Hos. unfold migrateKeys. rewrite decide_False by done.
  run_step. exists (Z.of_nat (length os), objs), w1. split; [done|]. exists t1. split; [done|]. cbv beta iota zeta.
  pose proof (aside_cache _ _ A1 Hc) as Hc1. rewrite Nat2Z.id.
  destruct os as [|o0 os0]; [|set (os := o0 :: os0) in *].
  { rewrite decide_True by done. cbn. run_step. run_step. run_step. split; [done|]. split; [done|]. exists t1, [].
    rewrite !app_nil_r. split_and!; try done. left. split; [by left|done]. }
  rewrite !decide_False by (unfold SLOTS_MGRT_NOTHING, SLOTS_MGRT_ERR; cbn; lia).
  run_step. eapply runs_mono; [apply (mgrt_ok stack pool tid db host port timeoutMS _ os); try done|].
  { eapply Forall_impl; [exact Hos|]. by intros o [_ ?]. }
  intros r w2 t2 ((E5 & E6 & Hc2) & Hnet & Hsent). destruct (net_trace_quiet _ Hnet) as (U2 & _ & _).
  pose proof (beside_same _ _ w2 B1 E5 E6) as B2.
  assert (∀ (P : () -> world S (busy Srv) Net -> list (action S) -> Prop),
    (∀ w3 t3, beside w w3 -> cache_wf w3 -> harmless t3 -> P () w3 t3) ->
    runs (FreeDumpObjs objs 0 (length os)) w2 P) as Hfree.
  { intros P HP. eapply runs_mono; [apply (free_objs_ok _ os); [done|lia]|].
    intros [] w3 t3 ((E7 & E8 & E9 & E10) & _ & U3 & _ & _ & D3 & P3). apply HP; [by eapply beside_same| |by split_and!].
    destruct Hc2 as [Ha Hb]. split; rewrite ?E9, ?E10; done. }
  assert (∀ t3, harmless t3 -> unlinks (t1 ++ t2 ++ t3) = []) as Hun.
  { intros t3 (U3 & _ & _). unfold unlinks in *. by rewrite !omap_app, U1, U2, U3. }
  case_decide as Hr.
  { run_step. apply Hfree. intros w3 t3 B3 Hc3 H3. run_step. rewrite !app_nil_r. split; [done|]. split; [done|].
    exists (t1 ++ t2 ++ t3), []. rewrite app_nil_r. split; [done|]. split; [by apply Hun|]. left. auto. }
  destruct Hsent as [?|(-> & P2 & D2)]; [done|]. rewrite decide_False by (cbn; lia).
  run_step. apply Hfree. intros w3 t3 B3 Hc3 H3. pose proof H3 as (U3 & D3 & P3).
  eapply runs_mono; [apply del_keys_busy; [apply B3|by eapply beside_db]|].
  intros r w4 t4 (B4 & A4 & Hpre & Hr4). split; [by eapply beside_trans|]. split; [by eapply aside_cache|].
  exists (t1 ++ t2 ++ t3), t4. split; [by rewrite <- !app_assoc|]. split; [by apply Hun|]. right. exists os.
  split; [done|]. split; [done|]. split.
  { eapply Forall_impl; [exact Hos|]. intros o Ho. by apply (dumped_mono db o []). }
  split; [|by split]. by rewrite !delivered_app, D1, P1, P2, D3, app_nil_r.
Qed.

(** The values of the first keys. *)
Lemma elems_dumped keys xs os t :
  Forall2 (elem_ok db t) keys xs -> take (length os) xs = Some <$> os ->
  ob_key <$> os = take (length os) keys ∧ Forall (λ o, dumped db o t) os.
Proof using Type.
  intros Hxs. revert os. induction Hxs as [|key x keys xs Hx _ IH]; intros [|o os] E; try done.
  cbn in E. injection E as -> E. destruct (IH os E) as [IH1 IH2]. destruct (Hx o eq_refl) as [Ek Hd].
  cbn. rewrite Ek, IH1. split; [done|by constructor].
Qed.

(** Beside other clients a migration of keys that the caller holds is undefined
    exactly when an element that counts was not written. *)
Lemma migrate_keys_busy keys w :
  keys ≠ [] -> busy_follows w -> valid_db (busy_spec w) db -> cache_wf w ->
  ∃ r objs w1, getRdbDumpObjs pool db keys w = Some ((r, objs), w1) ∧ beside w w1 ∧
    (Exists (.= None) (take (Z.to_nat r) objs) ∧ migrate keys w = None ∨
     Forall is_Some (take (Z.to_nat r) objs) ∧ runs (migrate keys) w (migrated_beside db keys w)).
Proof using HR HOok Hargs.
  intros Hne Hw Hdb Hc.
  destruct (dump_loop_busy db keys 0 [] w Hw Hdb) as ([r objs] & w1 & E & t1 & Et & B1 & A1 & H1 & Hres).
  cbn [fst snd] in Hres. rewrite <- (dump_alone pool) in E by (by try apply (rep_pools _ _ Hw)).
  exists r, objs, w1. split; [done|]. split; [done|]. destruct Hres as [->|(xs & -> & -> & Hxs)].
  { right. split; [constructor|]. unfold migrateKeys. rewrite decide_False by done. run_step.
    exists (SLOTS_MGRT_ERR, objs), w1. split; [done|]. exists t1. split; [done|]. cbv beta iota zeta.
    rewrite decide_False, decide_True by done. run_step.
    change (Z.to_nat SLOTS_MGRT_ERR) with 0%nat. cbn [FreeDumpObjs]. run_step. run_step.
    rewrite !app_nil_r. split; [done|]. split; [by eapply aside_cache|]. exists t1, [].
    rewrite app_nil_r. split; [done|]. split; [apply H1|]. left. split; [by right|done]. }
  cbn [app] in *. set (n := length (omap id xs)) in *. change (0 + Z.of_nat n) with (Z.of_nat n) in *. rewrite Nat2Z.id.
  destruct (decide (Forall is_Some (take n xs))) as [Hall|Hhole].
  - right. split; [done|]. destruct (no_hole n xs Hall (omap_id_length xs)) as (os & Hn & Hobjs & Ht).
    rewrite <- Hn in Ht, E. destruct (elems_dumped keys xs os t1 Hxs Ht) as [Hk Hd].
    by apply (migrate_dumped_busy keys os xs w w1 t1).
  - left. assert (Exists (.= None) (take n xs)) as He.
    { apply not_Forall_Exists in Hhole; [|apply _]. eapply Exists_impl; [exact Hhole|].
      intros [o|] Hx; [by destruct Hx; eexists|done]. }
    split; [done|]. unfold migrateKeys. rewrite decide_False by done. unfold mbind at 1, prog_bind at 1. rewrite E.
    assert (n ≠ 0%nat) as Hpos by (intros E0; rewrite E0 in He; by apply Exists_nil in He).
    rewrite !decide_False by (unfold SLOTS_MGRT_NOTHING, SLOTS_MGRT_ERR; lia). rewrite Nat2Z.id.
    unfold mbind, prog_bind. destruct (MGRT _ _ _ _ _ _ _ _ _ _ w1) as [[m w2]|]; [|done].
    repeat case_decide; by rewrite (free_hole_undefined xs 0 n w2) by by rewrite drop_0.
Qed.

(** One key at a time is always defined. *)
Lemma one_key_busy key w :
  busy_follows w -> valid_db (busy_spec w) db -> cache_wf w ->
  runs (SlotsMGRT_OneKey stack pool tid db host port timeoutMS key mgrtType) w (migrated_beside db [key] w).
Proof using HR HOok Hargs.
  intros Hw Hdb Hc. destruct (migrate_keys_busy [key] w) as (r & objs & w1 & E & _ & [[He _]|[_ H]]); try done.
  exfalso. destruct (dump_loop_busy db [key] 0 [] w Hw Hdb) as ([r' objs'] & w1' & E' & t1 & _ & _ & _ & _ & Hres).
  rewrite <- (dump_alone pool) in E' by (by try apply (rep_pools _ _ Hw)). rewrite E in E'. injection E' as <- <- _.
  cbn [fst snd] in Hres. destruct Hres as [->|(xs & -> & -> & Hxs)]; [by apply Exists_nil in He|].
  apply Forall2_cons_inv_l in Hxs as (x & xs' & _ & ->%Forall2_nil_inv_l & ->).
  destruct x as [o|]; [change (Exists (.= None) [Some o]) in He|change (Exists (.= None) ([] : list (option (rdb_dump_obj S)))) in He;
    by apply Exists_nil in He].
  apply Exists_cons in He as [?|He]; [done|by apply Exists_nil in He].
Qed.
End migrate.

(** ** SLOTSRESTORE *)
Lemma add_name_there (db : Z) (x : list byte) (ks : gset (list byte)) kss :
  kss !! Z.to_nat db = Some ks -> x ∈ ks -> add_name db x kss = kss.
Proof.
  intros Hks Hx. apply list_eq. intros i. unfold add_name. destruct (decide (i = Z.to_nat db)) as [->|].
  - rewrite list_lookup_alter_eq, Hks. cbn. f_equal. by apply subseteq_union_1_L, singleton_subseteq_l.
  - by rewrite list_lookup_alter_ne.
Qed.

Section restore.
Context {S Srv Net : Type} `{HS : RedisStrings S} `{HV : !RedisServer S Srv} `{HO : !OtherClients S Srv}.
Context `{HR : !RedisStringsOk S} `{HVok : !RedisServerOk S Srv} `{HOok : !OtherClientsOk S Srv}.
Implicit Types (w : world S (busy Srv) Net) (o : rdb_dump_obj S) (os : list (rdb_dump_obj S)) (key : S).
Implicit Types (t : list (action S)) (sp : spec_state).

(** The notification closes the gap. *)
Lemma notify_one_busy db sp key w :
  indexable (Srv := Srv) db (content key) -> valid_db sp db ->
  represents (w_mod w) sp -> lags db (content key) sp (busy_spec w) ->
  runs (notifyOne db key) w (λ _ w' t, busy_follows w' ∧ w_srv w' = w_srv w ∧ aside w w' ∧
    conf_of (m_slots (w_mod w')) = conf_of (m_slots (w_mod w)) ∧ (t = [] ∨ t = [Notified db key])).
Proof using HR HOok.
  intros [_ Hty] Hdb Hr Hlag. unfold notifyOne. do 2 run_step.
  destruct (Hty (quiet_server (w_srv w)) key eq_refl) as [Hm Hs].
  pose proof (proj2 (lags_valid _ _ _ _ db Hlag) Hdb) as (ks & Hks & _)%db_lookup.
  assert (content key ∉ ks -> busy_follows w) as Hgone.
  { intros Hn. unfold busy_follows. destruct Hlag as [->|E]; [done|]. exfalso. apply Hn.
    destruct (added_name sp db (content key) Hdb) as (ks' & Hks' & Hin). rewrite <- E, Hks in Hks'. by simplify_eq. }
  assert (content key ∈ ks -> busy_spec w = spec_add sp db (content key)) as Hthere.
  { intros Hin. destruct Hlag as [E|E]; [|done]. rewrite E in Hks |- *. unfold spec_add.
    rewrite (add_name_there _ _ ks) by done. by destruct sp. }
  change (RedisModule_KeyType (w_srv w) db key) with (RedisModule_KeyType (quiet_server (w_srv w)) db key).
  destruct (decide (content key ∈ ks)) as [Hin|Hn].
  2: { rewrite (key_type_missing _ _ _ _ Hks Hn). run_step. split_and!; auto. done. }
  pose proof (key_type_there _ _ _ _ Hks Hin) as He.
  assert (runs (notify db key) w (λ _ w' t, busy_follows w' ∧ w_srv w' = w_srv w ∧ aside w w' ∧
    conf_of (m_slots (w_mod w')) = conf_of (m_slots (w_mod w)) ∧ ([] ++ t = [] ∨ [] ++ t = [Notified db key]))) as Hnotify;
    [|by destruct (RedisModule_KeyType (quiet_server (w_srv w)) db key)].
  pose proof (srv_draws (quiet_server (w_srv w))) as Hdraws.
  destruct (random_draws (quiet_server (w_srv w))) as [fuel rand] eqn:Ed.
  assert (trace_ok sp [TypeChange fuel rand db key]) as Hok.
  { split; [|done]. split; [|by split]. eapply lags_small; [exact Hlag|]. apply srv_small. }
  destruct (run_ok _ _ _ Hr Hok) as (refs & ms & E & Hms). pose proof (run_conf _ _ _ _ E) as Hcf.
  cbn [run] in E. destruct (handle (w_mod w) (TypeChange fuel rand db key)) as [[refs' ms']|] eqn:Eh; [|done].
  cbn in E. injection E as _ ->.
  exists (), (log (Notified db key) (set_server w (w_srv w) ms)).
  split; [unfold notify; cbn [random_draws busy_server]; by rewrite Ed, Eh|]. eexists [_]. split; [done|].
  split; [|by split_and!; auto]. unfold busy_follows. change (busy_spec _) with (busy_spec w). rewrite (Hthere Hin). exact Hms.
Qed.

(** A part of SLOTSRESTORE: the index follows, and the RESTOREs so far. *)
Definition restoring_beside w w' t : Prop := beside w w' ∧ aside w w' ∧ val_news t = [] ∧ val_frees t = [].

Lemma restoring_beside_trans w1 w2 w3 t1 t2 :
  restoring_beside w1 w2 t1 -> restoring_beside w2 w3 t2 -> restoring_beside w1 w3 (t1 ++ t2).
Proof.
  intros (B1 & A1 & V1 & F1) (B2 & A2 & V2 & F2). split; [by eapply beside_trans|]. split; [by eapply aside_trans|].
  unfold val_news, val_frees in *. by rewrite !omap_app, V1, V2, F1, F2.
Qed.

Definition one_restored_beside o w (r : Z) w' t : Prop :=
  restoring_beside w w' t ∧ restore_calls t = [obj_restore o] ∧
  (r = 1 ∧ restored_names t = [key_name o] ∨ (r = SLOTS_MGRT_ERR ∨ r = 0) ∧ restored_names t = []).

Lemma restore_one_busy db o w :
  busy_follows w -> valid_db (busy_spec w) db -> indexable (Srv := Srv) db (key_name o) ->
  runs (restoreOneWithReplace db o) w (one_restored_beside o w).
Proof using HR HOok.
  intros Hw Hdb Hidx. unfold restoreOneWithReplace. pose proof Hidx as [Hnul _].
  assert ((if ob_ttlms o <? 0 then 0 else ob_ttlms o) = Z.max 0 (ob_ttlms o)) as ->
    by (destruct (Z.ltb_spec (ob_ttlms o) 0); lia).
  run_step. apply runs_busy_restore; [done|done|]. intros r w1 sp Hr Hsp K1 Ksp C1 A1.
  set (c := Called db (RESTORE _ _ _) r). unfold key_name in Hnul, Hidx. rewrite (c_str_no_nul _ Hnul) in Hsp.
  assert (restored r = false -> ∀ b, b = SLOTS_MGRT_ERR ∨ b = 0 -> one_restored_beside o w b w1 [c]) as Hno.
  { intros Hres b Hb. rewrite Hres in Hsp. split; [|split; [done|]].
    - split; [|done]. split; [by rewrite <- Hsp in Hr|done].
    - right. split; [done|]. unfold restored_names. cbn. by rewrite Hres. }
  assert (restored r = true -> runs (notifyOne db (ob_key o) ≫= (λ _ : (), mret 1)) w1
    (λ b w2 t2, one_restored_beside o w b w2 ([c] ++ t2))) as Hyes.
  { intros Hres. rewrite Hres in Hsp. run_step.
    eapply runs_mono; [apply (notify_one_busy db sp); [done|by eapply spec_keeps_db|done|done]|].
    intros _ w2 t2 (Hw2 & E2 & A2 & C2 & Ht2). run_step. rewrite app_nil_r.
    assert (val_news t2 = [] ∧ val_frees t2 = [] ∧ restore_calls t2 = [] ∧ restored_names t2 = []) as (V & F & R & N)
      by by destruct Ht2 as [->| ->].
    split; [|split].
    - split; [|split; [by eapply aside_trans|by split]]. split; [done|]. unfold busy_spec in *. rewrite E2. split; [done|congruence].
    - by rewrite restore_calls_app, R.
    - left. split; [done|]. rewrite restored_names_app, N. unfold restored_names. cbn. rewrite Hres.
      by rewrite (c_str_no_nul _ Hnul). }
  destruct r as [[]|]; first [by apply Hyes|run_step; rewrite app_nil_r; apply Hno; auto].
Qed.

(** The loop: the objects before the first error. *)
Lemma restore_loop_busy db objs os i n w :
  holds_objs objs os -> (i + n = length os)%nat -> Forall (λ o, indexable (Srv := Srv) db (key_name o)) os ->
  busy_follows w -> valid_db (busy_spec w) db ->
  runs (restore_loop db objs i n) w (λ ok w' t, restoring_beside w w' t ∧
    restored_names t `sublist_of` (key_name <$> drop i os) ∧
    if ok : bool then restore_calls t = obj_restore <$> drop i os
    else ∃ k, restore_calls t = obj_restore <$> take k (drop i os)).
Proof using HR HOok.
  intros Hobjs. revert i w. induction n as [|n IH]; intros i w Hi Hidx Hw Hdb; cbn [restore_loop].
  { run_step. rewrite drop_ge by lia. split; [|done]. split; [by apply beside_refl|by split_and!]. }
  destruct (lookup_lt_is_Some_2 os i) as [o Ho]; [lia|]. rewrite (drop_S os o i Ho).
  run_step. eapply runs_lift; [by rewrite (Hobjs i o Ho)|]. run_step.
  eapply runs_mono; [apply restore_one_busy; [done|done|apply (Forall_lookup_1 _ _ _ _ Hidx Ho)]|].
  intros r w1 t1 (R1 & C1 & Hr). cbn [app].
  assert (restored_names t1 `sublist_of` [key_name o]) as Hsub1.
  { destruct Hr as [[_ ->]|[_ ->]]; [done|apply sublist_nil_l]. }
  case_decide as Herr.
  - run_step. rewrite app_nil_r. split; [done|]. cbn [fmap list_fmap]. split.
    + by apply (sublist_inserts_r (key_name <$> drop (Datatypes.S i) os)) in Hsub1.
    + exists 1%nat. by rewrite C1.
  - eapply runs_mono; [apply IH; [lia|done|apply R1|eapply beside_db; [apply R1|done]]|].
    intros ok w2 t2 (R2 & Hsub2 & C2). split; [by eapply restoring_beside_trans|].
    split; [rewrite restored_names_app; by apply (sublist_app _ [_])|]. rewrite restore_calls_app, C1.
    destruct ok; [by rewrite C2|]. destruct C2 as [k ->]. by exists (Datatypes.S k).
Qed.

(** What SLOTSRESTORE does beside other clients. *)
Definition restored_beside (args : list S) w (r : Z) w' t : Prop :=
  beside w w' ∧ aside w w' ∧ val_frees t = val_news t ∧
  match objs_of args with
  | None => r = SLOTS_MGRT_ERR ∧ restore_calls t = []
  | Some os => restored_names t `sublist_of` (key_name <$> os) ∧
      (r = Z.of_nat (length os) ∧ restore_calls t = obj_restore <$> os ∨
       r = SLOTS_MGRT_ERR ∧ ∃ k, restore_calls t = obj_restore <$> take k os)
  end.

Lemma slots_restore_busy db cmd (args : list S) n w :
  length args = (3 * n)%nat ->
  (∀ os, objs_of args = Some os -> Forall (λ o, indexable (Srv := Srv) db (key_name o)) os) ->
  busy_follows w -> valid_db (busy_spec w) db ->
  runs (slotsRestoreCmd db (cmd :: args)) w (restored_beside args w).
Proof using HR HOok.
  intros Hlen Hidx Hw Hdb. unfold slotsRestoreCmd.
  assert (Z.to_nat (Z.quot (Z.of_nat (length (cmd :: args)) - 1) 3) = n) as ->.
  { cbn [length]. rewrite Hlen. replace (Z.of_nat (Datatypes.S (3 * n)) - 1) with (Z.of_nat n * 3) by lia.
    rewrite Z.quot_mul by done. lia. }
  run_step. eapply runs_mono; [by apply (parse_objs_ok cmd args 0 n [])|].
  intros [ok objs] w1 t1 (((E1 & E2 & E3 & E4) & Hf1 & Hc1 & Hn1) & os & -> & Hv1 & Ho). rewrite drop_0 in Ho.
  pose proof (beside_same _ _ w1 (beside_refl w Hw) E1 E2) as B1. unfold restored_beside. rewrite Ho. cbn [app].
  assert (∀ w2 t2 (b : Z) (Q : list (action S) -> Prop), restoring_beside w1 w2 t2 ->
    (∀ t3, restore_calls t3 = restore_calls t2 -> restored_names t3 = restored_names t2 -> Q t3) ->
    runs (FreeDumpObjs (Some <$> os) 0 (length ((Some <$> os) : list (option (rdb_dump_obj S)))) ≫= (λ _ : (), mret b)) w2
      (λ r w3 t3, beside w w3 ∧ aside w w3 ∧ val_frees (t1 ++ t2 ++ t3) = val_news (t1 ++ t2 ++ t3) ∧ r = b ∧
         Q (t1 ++ t2 ++ t3))) as Hfree.
  { intros w2 t2 b Q (B2 & A2 & V2 & F2) HQ. run_step. eapply runs_mono; [apply free_written_ok|].
    intros _ w3 t3 ((E5 & E6 & E7 & E8) & V3 & F3 & C3 & N3). run_step. rewrite app_nil_r.
    split; [eapply beside_same; [by eapply beside_trans|done|done]|]. destruct A2 as [A2 A2'].
    split; [split; congruence|]. split; [|split; [done|apply HQ]].
    - unfold val_news, val_frees in *. by rewrite !omap_app, Hv1, V2, V3, Hf1, F2, F3, !app_nil_r.
    - by rewrite !restore_calls_app, Hc1, C3, app_nil_r.
    - by rewrite !restored_names_app, Hn1, N3, app_nil_r. }
  destruct ok; cbn [negb].
  - run_step. apply runs_restore_alone; [by apply (rep_pools _ _ (proj1 B1))|]. unfold restoreMutli. run_step.
    eapply runs_mono.
    { apply (restore_loop_busy db _ os 0); [apply holds_written|by rewrite length_fmap|by apply Hidx|apply B1|].
      by eapply beside_db. }
    intros ok w2 t2 (R2 & Hs2 & C2). rewrite drop_0 in Hs2, C2. run_step. cbn [app].
    eapply runs_mono; [apply (Hfree w2 t2 _ (λ t, restored_names t `sublist_of` (key_name <$> os) ∧
      if ok then restore_calls t = obj_restore <$> os else ∃ k, restore_calls t = obj_restore <$> take k os)); [done|]|].
    { by intros t3 -> ->. }
    intros r w3 t3 (B3 & A3 & V3 & -> & Hs3 & C3). rewrite app_nil_r. split; [done|]. split; [done|]. split; [done|]. split; [done|].
    destruct ok; [left|by right]. by rewrite length_fmap.
  - eapply runs_mono; [apply (Hfree w1 [] _ (λ t, restore_calls t = [])); [|by intros t3 -> _]|].
    { split; [apply beside_refl, B1|by split_and!]. }
    intros r w3 t3 (B3 & A3 & V3 & -> & C3). by split_and!.
Qed.
End restore.

(** ** Properties of the threads *)
Section threads.
Context {S Srv Net : Type} `{HS : RedisStrings S} `{HV : !RedisServer S Srv} `{HO : !OtherClients S Srv}.
Context `{HN : !Hiredis Net}.
Context `{HR : !RedisStringsOk S} `{HVok : !RedisServerOk S Srv} `{HOok : !OtherClientsOk S Srv}.
Implicit Types (w : world S (busy Srv) Net) (argv : list S).

(** C8. The thread of SLOTSMGRTONE beside other clients: whatever these do before
    and after each of its calls under the lock, the index stays the keyspace, what
    the thread sends is the value that DUMP gave it for its key, and the key is
    deleted when that has been acknowledged and not otherwise; the client gets the
    number of keys that were deleted, or an error, and every reference to an
    argument is dropped, once, at the end.  The key is an argument, which the thread
    holds until then; its connection is not swept meanwhile. *)
Theorem SlotsMGRTOne_thread_busy stack pool tid db fuel random h argv host port timeout key w :
  content <$> argv !! 0%nat = Some (bytes_of "slotsmgrtone") -> mgrt_argv argv host port timeout key ->
  mgrt_args (Net := Net) stack host port pool tid ->
  busy_follows w -> valid_db (busy_spec w) db -> cache_wf w ->
  runs (SlotsMGRTAsyncBlock_ThreadMain stack pool tid db fuel random h (BgCall argv)) w (λ '(rs, freed, h') w' t,
    h' = h ∧ freed = map Freed argv ∧ ∃ r, migrated_beside db [key] w r w' t ∧
      rs = (if decide (r = SLOTS_MGRT_ERR) then [ReplyError REDISXSLOT_ERRORMSG_MGRT] else [ReplyLongLong r])).
Proof using HR HOok.
  intros Hname [Ha Ht Hto] Hargs Hw Hdb Hc. apply fmap_Some in Hname as (name & E0 & En).
  unfold SlotsMGRTAsyncBlock_ThreadMain, dispatchCmd. cbn [bg_argv]. run_step. run_step.
  eapply runs_lift; [exact E0|]. cbv zeta. rewrite <- En.
  repeat match goal with |- context [strcasecmp_eq ?a ?b] =>
    let v := eval vm_compute in (strcasecmp_eq a b) in change (strcasecmp_eq a b) with v end.
  cbv iota. run_step. unfold SlotsMGRTOne_RedisCommand. rewrite Ha, Hto. cbn [negb].
  run_step. eapply runs_lift; [exact Ht|]. cbv beta iota. run_step.
  eapply runs_mono; [by apply one_key_busy|]. intros r w1 t1 Hr. cbn [app].
  case_decide; repeat (run_step; unfold reject; cbv beta iota); rewrite !app_nil_r;
    (split; [done|]; split; [done|]; exists r; split; [done|]); [by rewrite decide_True|by rewrite decide_False].
Qed.

(** C17. The thread of SLOTSRESTORE beside other clients: it restores the objects
    of its arguments in their order until the first error, frees every value once
    and drops every argument, and the index is the keyspace when it is done,
    though a restored key is in the one and not in the other until it is notified
    and the other clients may delete, rename or write it before that.  The names
    have no NUL, and the values are no streams and none of a module. *)
Theorem SlotsRestore_thread_busy db cmd (args : list S) n w :
  length args = (3 * n)%nat ->
  (∀ os, objs_of args = Some os -> Forall (λ o, indexable (Srv := Srv) db (key_name o)) os) ->
  busy_follows w -> valid_db (busy_spec w) db ->
  runs (SlotsRestoreAsyncBlock_ThreadMain db (BgCall (cmd :: args))) w (λ '(r, freed) w' t,
    freed = map Freed (cmd :: args) ∧ restored_beside args w r w' t).
Proof using HR HOok.
  intros Hlen Hidx Hw Hdb. unfold SlotsRestoreAsyncBlock_ThreadMain. cbn [bg_argv]. run_step.
  eapply runs_mono; [by apply (slots_restore_busy db cmd args n)|]. intros r w1 t1 Hr. run_step.
  by rewrite app_nil_r.
Qed.
End threads.
