(* ===== verification/BusyExamples.v ===== *)
(** * BusyExamples: a server with other clients

    The server of MigrateExamples with values and a script of what the other
    clients do in each turn.  A value written between DUMP and UNLINK is lost, and
    a key deleted between the choice of the keys and its DUMP makes the migration
    undefined. *)

From S2P Require Import Prelude.
From S2P Require Import KeySlot.
From S2P Require Import Numbers.
From S2P Require Import SkipList.
From S2P Require Import SkipListExamples.
From S2P Require Import Slots.
From S2P Require Import SlotsInv.
From S2P Require Import Events.
From S2P Require Import EventsProps.
From S2P Require Import Refinement.
From S2P Require Import RefinementExamples.
From S2P Require Import Prog.
From S2P Require Import Server.
From S2P Require Import ServerSpec.
From S2P Require Import Busy.
From S2P Require Import ConnCache.
From S2P Require Import Commands.
From S2P Require Import CommandsProps.
From S2P Require Import CommandsExamples.
From S2P Require Import Migrate.
From S2P Require Import MigrateProps.
From S2P Require Import MigratePool.
From S2P Require Import MigrateSpec.
From S2P Require Import MigrateExamples.
From S2P Require Import Restore.
From S2P Require Import RestoreProps.
From S2P Require Import RestoreExamples.
From S2P Require Import Async.
From S2P Require Import BusyProps.
Local Open Scope Z_scope.

Inductive client_command := ClientSet (key val : list byte) | ClientDel (key : list byte).

(** The values that are not [ex_value], and the turns to come. *)
Record script := Script {
  sc_server : ex_server;
  sc_vals : gmap (list byte) (list byte);
  sc_turns : list (list client_command)
}.

(** A client's command on database 0. *)
Definition client_step (c : client_command) (srv : script) : list (module_event (list byte)) * script :=
  if decide (es_names (sc_server srv) = []) then ([], srv)
  else
    match c with
    | ClientSet key val =>
      match ex_with (sc_server srv) (add_name 0 key (es_names (sc_server srv))) with
      | Some s => ([TypeChange 5 ex_rand 0 key], Script s (<[key := val]> (sc_vals srv)) (sc_turns srv))
      | None => ([], srv)
      end
    | ClientDel key =>
      match ex_with (sc_server srv) (del_name 0 key (es_names (sc_server srv))) with
      | Some s => ([Generic 5 ex_rand 0 "del" key], Script s (delete key (sc_vals srv)) (sc_turns srv))
      | None => ([], srv)
      end
    end.

Fixpoint client_steps (cs : list client_command) (srv : script) : list (module_event (list byte)) * script :=
  match cs with
  | [] => ([], srv)
  | c :: cs =>
    let '(evs, srv) := client_step c srv in
    let '(evs', srv) := client_steps cs srv in
    (evs ++ evs', srv)
  end.

#[export] Instance script_clients : OtherClients (list byte) script := λ srv,
  client_steps (default [] (head (sc_turns srv))) (Script (sc_server srv) (sc_vals srv) (tail (sc_turns srv))).

Definition script_vals (c : redis_command (list byte)) (vals : gmap (list byte) (list byte)) :
    gmap (list byte) (list byte) :=
  match c with UNLINK key => delete key vals | RESTORE key _ val => <[key := val]> vals | _ => vals end.

Definition script_reply (c : redis_command (list byte)) (vals : gmap (list byte) (list byte))
    (r : option (call_reply (list byte))) : option (call_reply (list byte)) :=
  match c, r with
  | DUMP key, Some (REDISMODULE_REPLY_STRING _) => Some (REDISMODULE_REPLY_STRING (default ex_value (vals !! key)))
  | _, _ => r
  end.

#[export] Instance script_redis : RedisServer (list byte) script := {
  RedisModule_Call srv db c :=
    let '(r, evs, s) := ex_call (sc_server srv) db c in
    (script_reply c (sc_vals srv) r, evs, Script s (script_vals c (sc_vals srv)) (sc_turns srv));
  RedisModule_KeyType srv db key := RedisModule_KeyType (sc_server srv) db key;
  RedisModule_Milliseconds _ := 1700000000000;
  random_draws _ := (5%nat, ex_rand);
  pool_order _ n := seq 0 n;
  detached_db := 0
}.

#[export] Instance script_redis_ok : RedisServerOk (list byte) script.
Proof.
  refine {| srv_spec srv := ex_spec (sc_server srv) |}.
  - intros srv. apply es_small.
  - intros srv. apply ex_draw.
  - intros srv db c r evs srv' E Hc Hdb. cbn [RedisModule_Call script_redis] in E.
    destruct (ex_call (sc_server srv) db c) as [[r0 evs0] s0] eqn:E0. injection E as _ <- <-.
    change (RedisModule_Call (sc_server srv) db c = (r0, evs0, s0)) in E0. change (valid_db (srv_spec (sc_server srv)) db) in Hdb.
    exact (call_notifies (Srv := ex_server) _ _ _ _ _ _ E0 Hc Hdb).
  - intros srv db key r evs srv' E Hdb. cbn [RedisModule_Call script_redis] in E.
    destruct (ex_call (sc_server srv) db (UNLINK key)) as [[r0 evs0] s0] eqn:E0. injection E as <- _ <-.
    change (RedisModule_Call (sc_server srv) db (UNLINK key) = (r0, evs0, s0)) in E0. change (valid_db (srv_spec (sc_server srv)) db) in Hdb.
    exact (unlink_names (Srv := ex_server) _ _ _ _ _ _ E0 Hdb).
  - intros srv db k ttlms val r evs srv' E Hdb. cbn [RedisModule_Call script_redis] in E.
    destruct (ex_call (sc_server srv) db (RESTORE k ttlms val)) as [[r0 evs0] s0] eqn:E0. injection E as <- <- <-.
    change (RedisModule_Call (sc_server srv) db (RESTORE k ttlms val) = (r0, evs0, s0)) in E0. change (valid_db (srv_spec (sc_server srv)) db) in Hdb.
    exact (restore_adds (Srv := ex_server) _ _ _ _ _ _ _ _ E0 Hdb).
  - intros srv db key ks Hks Hin. by apply (key_type_there (sc_server srv) db key ks).
Defined.

Lemma client_steps_ok cs srv evs srv' :
  client_steps cs srv = (evs, srv') ->
  trace_ok (srv_spec srv) evs ∧ srv_spec srv' = spec_run (srv_spec srv) evs.
Proof.
  revert srv evs srv'. induction cs as [|c cs IH]; intros srv evs srv' E; cbn [client_steps] in E; [by injection E as <- <-|].
  destruct (client_step c srv) as [evs1 srv1] eqn:E1. destruct (client_steps cs srv1) as [evs2 srv2] eqn:E2.
  injection E as <- <-. destruct (IH _ _ _ E2) as [Hok2 Hsp2]. rewrite trace_ok_app, spec_run_app.
  assert (trace_ok (srv_spec srv) evs1 ∧ srv_spec srv1 = spec_run (srv_spec srv) evs1) as [Hok1 Hsp1]; [|by rewrite <- Hsp1].
  clear IH E2 Hok2 Hsp2. unfold client_step in E1. case_decide as Hn; [by injection E1 as <- <-|].
  assert (valid_db (srv_spec srv) 0) as Hdb.
  { unfold valid_db. change (sp_names (srv_spec srv)) with (es_names (sc_server srv)).
    destruct (es_names (sc_server srv)); [done|cbn; lia]. }
  destruct c as [key val|key]; destruct (ex_with _ _) as [s|] eqn:Ew; injection E1 as <- <-; try done; apply ex_with_names in Ew.
  - split; [|by cbn; unfold ex_spec; rewrite Ew]. split; [|done]. split; [apply es_small|]. split; [done|apply ex_draw].
  - split; [by apply ex_generic_ok|by cbn; unfold ex_spec; rewrite Ew].
Qed.

Lemma ex_has_missing srv db ks key : es_names srv !! Z.to_nat db = Some ks -> key ∉ ks -> ex_has srv db key = false.
Proof. unfold ex_has. intros -> Hk. by apply bool_decide_eq_false_2. Qed.

#[export] Instance script_clients_ok : OtherClientsOk (list byte) script.
Proof.
  split.
  - intros srv evs srv' E. by apply client_steps_ok in E.
  - intros srv db c i evs srv' E. cbn [RedisModule_Call script_redis] in E.
    destruct (ex_call (sc_server srv) db c) as [[r0 evs0] s0] eqn:E0. injection E as Er _ _. unfold ex_call in E0.
    destruct c; cbn [script_reply] in Er; repeat case_match; simplify_eq; done.
  - intros srv db key ks Hks Hn. cbn [RedisModule_KeyType script_redis ex_redis].
    by rewrite (ex_has_missing (sc_server srv) db ks key Hks Hn).
Defined.

(** ** Worlds *)
Definition busy_world (turns : list (list client_command)) : world (list byte) (busy script) () :=
  World (Busy (Script ex_full_server ∅ turns)) ex_full_module () ∅ ∅ [].

Lemma busy_world_follows turns : busy_follows (busy_world turns).
Proof. exact ex_full_represents. Qed.

Lemma busy_world_db turns : valid_db (busy_spec (busy_world turns)) 0.
Proof. exact ex_db. Qed.

Lemma busy_world_cache turns : cache_wf (busy_world turns).
Proof. split; cbn [busy_world w_cache]; intros *; by rewrite lookup_empty. Qed.

(** A client writes the key after DUMP and before UNLINK. *)
Definition ex_written : list (list client_command) := [[]; []; []; [ClientSet (ex_key "{tag}1") (bytes_of "new")]].

(** A client deletes the first key before anything is dumped. *)
Definition ex_deleted_first : list (list client_command) := [[ClientDel (ex_key "{tag}1")]].

(** SLOTSMGRTONE of a key that is written meanwhile. *)
Definition ex_one_argv : list (list byte) :=
  [ex_key "slotsmgrtone"; ex_host; ex_port; bytes_of "1000"; ex_key "{tag}1"].

Lemma SlotsMGRTOne_thread_busy_witness :
  runs (SlotsMGRTAsyncBlock_ThreadMain (HN := ex_net) ex_buf ex_pool 7 0 0 Z.of_nat ∅ (BgCall ex_one_argv))
    (busy_world ex_written) (λ '(rs, freed, h') w' t,
      h' = ∅ ∧ freed = map Freed ex_one_argv ∧ ∃ r, migrated_beside 0 [ex_key "{tag}1"] (busy_world ex_written) r w' t ∧
        rs = (if decide (r = SLOTS_MGRT_ERR) then [ReplyError REDISXSLOT_ERRORMSG_MGRT] else [ReplyLongLong r])).
Proof.
  apply (SlotsMGRTOne_thread_busy (HN := ex_net) ex_buf ex_pool 7 0 0 Z.of_nat ∅ ex_one_argv ex_host ex_port 1000
    (ex_key "{tag}1") (busy_world ex_written)).
  - reflexivity.
  - split; vm_compute; reflexivity.
  - apply ex_args. by left.
  - apply busy_world_follows.
  - apply busy_world_db.
  - apply busy_world_cache.
Defined.

(** The other server has the old value, this one has none: the write is lost. *)
Example ex_lost_write :
  (λ '(r, w), (r, delivered [] (w_trace w), es_names (sc_server (quiet_server (w_srv w))))) <$>
    SlotsMGRT_OneKey (HN := ex_net) ex_buf ex_pool 7 0 ex_host ex_port 1000 (ex_key "{tag}1") None (busy_world ex_written) =
  Some (1, [(ex_key "{tag}1", Some 0, ex_value)], [{[ex_key "{tag}2"; ex_key "other"]}; ∅]).
Proof. by apply (bool_decide_unpack _); vm_compute. Qed.

Example ex_hole_undefined :
  migrateKeys (HN := ex_net) ex_buf ex_pool 7 0 ex_host ex_port 1000 ex_keys None (busy_world ex_deleted_first) = None.
Proof. vm_compute. reflexivity. Qed.

(** ** Restoring *)
Lemma script_indexable x : x00 ∉ x -> indexable (Srv := script) 0 x.
Proof. intros Hx. split; [done|]. intros srv key _. cbn. by destruct (ex_has (sc_server srv) 0 key). Qed.

(** A client deletes the new key before its notification. *)
Definition ex_deleted_meanwhile : list (list client_command) := [[]; [ClientDel (ex_key "new")]].

Lemma SlotsRestore_thread_busy_witness :
  runs (SlotsRestoreAsyncBlock_ThreadMain 0 (BgCall (ex_key "slotsrestore" :: ex_restore_args)))
    (busy_world ex_deleted_meanwhile) (λ '(r, freed) w' t,
      freed = map Freed (ex_key "slotsrestore" :: ex_restore_args) ∧
      restored_beside ex_restore_args (busy_world ex_deleted_meanwhile) r w' t).
Proof.
  apply (SlotsRestore_thread_busy 0 (ex_key "slotsrestore") ex_restore_args 2 (busy_world ex_deleted_meanwhile)).
  - done.
  - intros os E. vm_compute in E. injection E as <-. apply Forall_cons_2; [|apply Forall_cons_2; [|apply Forall_nil_2]];
      apply script_indexable; by apply (bool_decide_unpack _); vm_compute.
  - apply busy_world_follows.
  - apply busy_world_db.
Defined.

Example ex_restored_meanwhile :
  (λ '((r, _), w), (r, es_names (sc_server (quiet_server (w_srv w))))) <$>
    SlotsRestoreAsyncBlock_ThreadMain 0 (BgCall (ex_key "slotsrestore" :: ex_restore_args)) (busy_world ex_deleted_meanwhile) =
  Some (2, ex_full_names).
Proof. by apply (bool_decide_unpack _); vm_compute. Qed.
