(* ===== verification/TwoServers.v ===== *)
(** * TwoServers: a network whose other end is another instance of the module

    [target] is the server a migration sends to, with the module loaded: the
    world of that server, and what a connection to it has selected and queued.
    [target_net] is hiredis connected to it: a SLOTSRESTORE runs the handler of
    Restore, or the one that blocks its client, and its reply says what the
    sender reads: [async] is the other server's own, its flag of the module.
    [tg_lost] are the faults of the network, one for each exchange: a connection
    that is not made, a command that does not arrive, a reply that does not arrive
    after the command has run. *)

From S2P Require Import Prelude.
From S2P Require Import KeySlot.
From S2P Require Import Numbers.
From S2P Require Import Slots.
From S2P Require Import Refinement.
From S2P Require Import Prog.
From S2P Require Import Server.
From S2P Require Import Commands.
From S2P Require Import Migrate.
From S2P Require Import Restore.
From S2P Require Import Async.
Local Open Scope Z_scope.

Inductive fault := Delivered | LostCommand | LostReply.

Record target (S Srv Net : Type) := Target {
  tg_world : world S Srv Net;
  tg_next : nat;
  tg_db : gmap nat Z;
  tg_queue : gmap nat (list pipeline_args);
  tg_lost : list fault
}.
Arguments Target {S Srv Net} _ _ _ _ _.
Arguments tg_world {S Srv Net} _.
Arguments tg_next {S Srv Net} _.
Arguments tg_db {S Srv Net} _.
Arguments tg_queue {S Srv Net} _.
Arguments tg_lost {S Srv Net} _.

Section two.
Context {S Srv Net : Type} `{HS : RedisStrings S} `{HV : !RedisServer S Srv}.
Implicit Types (tg : target S Srv Net).

(** The string the server makes of an argument. *)
Context (make : list byte -> S).

(** What a client reads of the replies. *)
Definition reply_type (rs : list (reply S)) : redis_reply :=
  match rs with
  | ReplyError _ :: _ | ReplyWrongArity :: _ => REDIS_REPLY_ERROR
  | _ => REDIS_REPLY_OTHER
  end.

(** What becomes of the next exchange. *)
Definition arrives tg : fault * target S Srv Net :=
  match tg_lost tg with
  | [] => (Delivered, tg)
  | f :: rest => (f, Target (tg_world tg) (tg_next tg) (tg_db tg) (tg_queue tg) rest)
  end.

Definition tg_queued tg (ctx : nat) : list pipeline_args := default [] (tg_queue tg !! ctx).

Definition tg_set_queue tg (ctx : nat) (q : list pipeline_args) : target S Srv Net :=
  Target (tg_world tg) (tg_next tg) (tg_db tg) (<[ctx := q]> (tg_queue tg)) (tg_lost tg).

(** The server runs the command, when it has come, and answers; one that is
    undefined there ends the server. *)
Definition tg_run (async : bool) tg (ctx : nat) (argv : list (list byte)) :
    bool * option redis_reply * target S Srv Net :=
  let '(f, tg) := arrives tg in
  match f with
  | LostCommand => (true, None, tg)
  | _ =>
    match restore_replies async true (default 0 (tg_db tg !! ctx)) (make <$> argv) (tg_world tg) with
    | None => (true, None, tg)
    | Some (rs, w) =>
      let tg := Target w (tg_next tg) (tg_db tg) (tg_queue tg) (tg_lost tg) in
      if f is LostReply then (true, None, tg) else (false, Some (reply_type rs), tg)
    end
  end.

(** ["SLOTSRESTORE %b %ld %b"]. *)
Definition long_text (v : Z) : list byte :=
  match m_ll2string (replicate REDIS_LONGSTR_SIZE x00) v with
  | Some (len, buf) => take (Z.to_nat len) (c_str buf)
  | None => []
  end.

Definition pipeline_argv (a : pipeline_args) : list (list byte) :=
  [bytes_of "SLOTSRESTORE"; pa_key a; long_text (pa_ttl a); pa_val a].

Definition target_net (async : bool) : Hiredis (target S Srv Net) := {|
  redisConnect tg host port :=
    let '(f, tg) := arrives tg in
    let c := tg_next tg in
    if f is Delivered
    then (c, None, Target (tg_world tg) (Datatypes.S c) (<[c := 0]> (tg_db tg)) (delete c (tg_queue tg)) (tg_lost tg))
    else (c, Some (bytes_of "Connection timed out"), Target (tg_world tg) (Datatypes.S c) (tg_db tg) (tg_queue tg) (tg_lost tg));
  redisSelect tg ctx db :=
    let '(f, tg) := arrives tg in
    if f is LostCommand then (None, tg)
    else if (0 <=? db) && (db <? databases (meta_info (tg_world tg)))
    then (if f is LostReply then None else Some REDIS_REPLY_OTHER,
          Target (tg_world tg) (tg_next tg) (<[ctx := db]> (tg_db tg)) (tg_queue tg) (tg_lost tg))
    else (if f is LostReply then None else Some REDIS_REPLY_ERROR, tg);
  redisCommandArgv := tg_run async;
  redisAppendCommand tg ctx a := tg_set_queue tg ctx (tg_queued tg ctx ++ [a]);
  redisGetReply tg ctx :=
    match tg_queued tg ctx with
    | [] => (true, None, tg)
    | a :: q => tg_run async (tg_set_queue tg ctx q) ctx (pipeline_argv a)
    end;
  redisFree tg ctx := Target (tg_world tg) (tg_next tg) (delete ctx (tg_db tg)) (delete ctx (tg_queue tg)) (tg_lost tg)
|}.
End two.
