(* ===== verification/TwoServersProps.v ===== *)
(** * TwoServersProps: a migration between two servers loses no key

    [linked] relates the trace of the sender to the other server: what the trace
    calls delivered has been restored there.  Every part of the migration keeps
    it, whatever faults the network has, so a key that is deleted here is a name
    of the index there. *)

From S2P Require Import Prelude.
From S2P Require Import KeySlot.
From S2P Require Import Numbers.
From S2P Require Import Slots.
From S2P Require Import SlotsInv.
From S2P Require Import Events.
From S2P Require Import Refinement.
From S2P Require Import Statics.
From S2P Require Import Prog.
From S2P Require Import Server.
From S2P Require Import ServerSpec.
From S2P Require Import ConnCache.
From S2P Require Import Commands.
From S2P Require Import CommandsProps.
From S2P Require Import Migrate.
From S2P Require Import MigrateProps.
From S2P Require Import MigratePool.
From S2P Require Import MigrateSpec.
From S2P Require Import TagKeysProps.
From S2P Require Import Restore.
From S2P Require Import RestoreProps.
From S2P Require Import Async.
From S2P Require Import TwoServers.
Local Open Scope Z_scope.

Notation item := (list byte * option Z * list byte)%type (only parsing).

Section two.
Context {S Srv Srv2 Net2 : Type} `{HS : RedisStrings S} `{HV : !RedisServer S Srv} `{HV2 : !RedisServer S Srv2}.
Context `{HR : !RedisStringsOk S} `{HVok2 : !RedisServerOk S Srv2}.
Context (make : list byte -> S) (make_content : ∀ b, content (make b) = b).
Context (answers : restore_answers (Srv := Srv2)).

(** RESTORE of the names [allowed] does not fail on the other server, from the states [P]
    it stays in.  With [async] an error there is not told, so that what is restored
    is known under this condition only. *)
Definition never_refuses (allowed : list (list byte)) (P : Srv2 -> Prop) : Prop :=
  ∀ srv db k ttlms val r evs srv', P srv -> k ∈ allowed ->
    RedisModule_Call (S := S) srv db (RESTORE k ttlms val) = (r, evs, srv') ->
    r ≠ Some REDISMODULE_REPLY_ERROR ∧ P srv'.

Context (asy : bool) (allowed : list (list byte)) (P : Srv2 -> Prop) (tells : asy = false ∨ never_refuses allowed P).
Context (db : Z).
Implicit Types (tg : target S Srv2 Net2) (w : world S Srv (target S Srv2 Net2)) (x : item).
Implicit Types (t : list (action S)).
Notation tspec tg := (srv_spec (w_srv (tg_world tg))).
Notation W := (world S Srv (target S Srv2 Net2)).
Notation M := (prog W).
Implicit Types (I : W -> Prop).

(** ** The other server *)

(** An argument triple that the other server can restore and index. *)
Definition good x : Prop := is_Some x.1.2 ∧ indexable (Srv := Srv2) db x.1.1 ∧ x.1.1 ∈ allowed.

(** The other server after [t2]: all the items of [xs] are restored. *)
Definition tg_after tg0 (xs : list item) tg : Prop :=
  ∃ t2, w_trace (tg_world tg) = w_trace (tg_world tg0) ++ t2 ∧
    follows (tg_world tg) ∧ valid_db (tspec tg) db ∧ (asy = true -> P (w_srv (tg_world tg))) ∧
    sp_names (tspec tg) = add_names db (restored_names t2) (sp_names (tspec tg0)) ∧
    Forall (λ x, item_restore x ∈ restore_calls t2 ∧ x.1.1 ∈ restored_names t2) xs.

Lemma tg_after_trans tg0 tg1 tg2 xs ys :
  tg_after tg0 xs tg1 -> tg_after tg1 ys tg2 -> tg_after tg0 (xs ++ ys) tg2.
Proof.
  intros (t1 & E1 & _ & _ & _ & N1 & F1) (t2 & E2 & Hw & Hdb & HP & N2 & F2). exists (t1 ++ t2). split_and!; try done.
  - by rewrite E2, E1, app_assoc.
  - rewrite N2, N1, restored_names_app. unfold add_names. by rewrite foldl_app.
  - rewrite restore_calls_app, restored_names_app. apply Forall_app_2; (eapply Forall_impl; [eassumption|]);
      intros x [? ?]; rewrite !elem_of_app; auto.
Qed.

Lemma tg_after_same tg0 xs tg tg' : tg_world tg' = tg_world tg -> tg_after tg0 xs tg -> tg_after tg0 xs tg'.
Proof. intros E. unfold tg_after. by rewrite E. Qed.

Lemma arrives_frame tg :
  ∃ f rest, arrives tg = (f, Target (tg_world tg) (tg_next tg) (tg_db tg) (tg_queue tg) rest).
Proof. unfold arrives. destruct tg as [? ? ? ? [|f rest]]; by eexists _, _. Qed.

Notation W2 := (world S Srv2 Net2).
Implicit Types (u : W2).

(** A server that never refuses restores all objects. *)
Definition granted_obj (o : rdb_dump_obj S) : Prop := c_str (content (ob_key o)) ∈ allowed.

Lemma restore_one_granted db' o u :
  never_refuses allowed P -> P (w_srv u) -> granted_obj o ->
  only (restoreOneWithReplace db' o) u (λ r u', r ≠ SLOTS_MGRT_ERR ∧ P (w_srv u')).
Proof using Type.
  intros Hn Hu Ho. unfold restoreOneWithReplace. apply only_bind. intros r u1 E.
  assert (r ≠ Some REDISMODULE_REPLY_ERROR ∧ P (w_srv u1)) as [Hr Hu1].
  { revert E. unfold call.
    destruct (RedisModule_Call (w_srv u) db' _) as [[r0 evs] srv] eqn:Ec. destruct (run (w_mod u) evs) as [[refs ms]|]; [|done].
    cbn. intros [= -> <-]. cbn. by eapply Hn. }
  assert (∀ r0, r0 ≠ SLOTS_MGRT_ERR -> only (mret r0) u1 (λ r u', r ≠ SLOTS_MGRT_ERR ∧ P (w_srv u'))) as Hret
    by (intros r0 H0; by apply only_ret).
  assert (only (notifyOne db' (ob_key o) ≫= (λ _ : (), mret 1)) u1 (λ r u', r ≠ SLOTS_MGRT_ERR ∧ P (w_srv u'))) as Hnot.
  { unfold notifyOne. apply only_bind, only_bind, only_get.
    assert (only (notify db' (ob_key o)) u1 (λ _ u', w_srv u' = w_srv u1)) as Hnt.
    { intros [] u2. unfold notify. destruct (random_draws _) as [fuel rand]. destruct (handle _ _) as [[refs ms]|]; [|done].
      cbn. by intros [= <-]. }
    assert (∀ m : prog W2 (), only m u1 (λ _ u', w_srv u' = w_srv u1) ->
      only m u1 (λ _ u', only (mret 1) u' (λ r u', r ≠ SLOTS_MGRT_ERR ∧ P (w_srv u')))) as Hm.
    { intros m H. eapply only_mono; [exact H|]. intros [] u2 E2. apply only_ret. by rewrite E2. }
    destruct (RedisModule_KeyType _ _ _); apply Hm; first [exact Hnt|by apply only_ret]. }
  destruct r as [[]|]; first [exact Hnot|by apply Hret|done].
Qed.

Lemma restore_loop_granted db' os n : ∀ i u,
  never_refuses allowed P -> P (w_srv u) -> Forall granted_obj os ->
  only (restore_loop db' (Some <$> os) i n) u (λ ok u', ok = true ∧ P (w_srv u')).
Proof using Type.
  induction n as [|n IH]; intros i u Hn Hu Hos; cbn [restore_loop]; [by apply only_ret|].
  apply only_bind, only_lift. intros o Ho. apply only_bind.
  assert (granted_obj o) as Hg.
  { rewrite list_lookup_fmap in Ho. destruct (os !! i) as [o'|] eqn:E; [|done]. cbn in Ho. injection Ho as ->.
    by eapply Forall_lookup_1. }
  eapply only_mono; [by apply restore_one_granted|]. intros r u1 [Hr Hu1]. rewrite decide_False by done. by apply IH.
Qed.

Lemma slots_restore_granted db' cmd (args : list S) os n u :
  length args = (3 * n)%nat -> objs_of args = Some os -> Forall granted_obj os ->
  slots_restore_threads (meta_info u) = 0 -> never_refuses allowed P -> P (w_srv u) ->
  only (slotsRestoreCmd db' (cmd :: args)) u (λ r u', r ≠ SLOTS_MGRT_ERR ∧ P (w_srv u')).
Proof using Type.
  intros Hlen Eo Hos Hth Hn Hu. unfold slotsRestoreCmd.
  assert (Z.to_nat (Z.quot (Z.of_nat (length (cmd :: args)) - 1) 3) = n) as ->.
  { cbn [length]. rewrite Hlen. replace (Z.of_nat (Datatypes.S (3 * n)) - 1) with (Z.of_nat n * 3) by lia.
    rewrite Z.quot_mul by done. lia. }
  destruct (parse_objs_ok cmd args 0 n [] u) as ([ok objs] & u1 & E & t & _ & Hsame & os' & Eobjs & _ & Ho); [done|].
  apply only_bind. intros a u' E'. rewrite E in E'. injection E' as <- <-. rewrite drop_0, Eo in Ho.
  destruct ok; [|done]. injection Ho as <-. cbn [app] in Eobjs. subst objs.
  cbn [negb]. apply only_bind. unfold SlotsMGRT_Restore. apply only_bind, only_get.
  destruct Hsame as ((Hs & Hm & _) & _). unfold meta_info in *. rewrite Hm, Hth. cbn [Z.ltb Z.compare]. unfold restoreMutli.
  apply only_bind. eapply only_mono; [apply restore_loop_granted; [done|by rewrite Hs|done]|]. intros ok u2 [-> Hu2].
  apply only_ret, only_bind. destruct (free_written_ok os u2) as (a & u3 & E3 & t3 & _ & (Es & _) & _).
  intros a' u' E'. rewrite E3 in E'. injection E' as _ <-. apply only_ret. split; [unfold SLOTS_MGRT_ERR; lia|by rewrite Es].
Qed.

(** What a list of arguments leaves there, when the reply [good_reply] says so. *)
Definition served (xs : list item) (good_reply : Prop) u u' : Prop :=
  ∃ t2, w_trace u' = w_trace u ++ t2 ∧ follows u' ∧ valid_db (srv_spec (w_srv u')) db ∧
    (asy = true -> P (w_srv u')) ∧
    sp_names (srv_spec (w_srv u')) = add_names db (restored_names t2) (sp_names (srv_spec (w_srv u))) ∧
    (good_reply -> Forall (λ x, item_restore x ∈ restore_calls t2 ∧ x.1.1 ∈ restored_names t2) xs).

(** The arguments as the handler has them: the strings that were made of them, or
    references to those. *)
Lemma restore_args_ok cmd args (ss : list S) u n :
  content <$> ss = args -> length args = (3 * n)%nat -> follows u -> valid_db (srv_spec (w_srv u)) db ->
  (asy = true -> P (w_srv u)) -> Forall good (triples args) ->
  ∃ r u', slotsRestoreCmd db (cmd :: ss) u = Some (r, u') ∧ served (triples args) (r ≠ SLOTS_MGRT_ERR) u u' ∧
    (asy = true -> r ≠ SLOTS_MGRT_ERR).
Proof using HR answers tells.
  intros <- Hlen Hw Hdb HP Hgood. rewrite length_fmap in Hlen.
  destruct (objs_of_triples ss) as (os & Eo & Hos).
  { eapply Forall_impl; [exact Hgood|]. by intros x [? _]. }
  rewrite <- Hos in Hgood |- *. apply (Forall_fmap recv_item) in Hgood.
  destruct (slots_restore_ok db cmd ss n u) as (r & u' & E & t2 & T2 & Hout); [done| |done|done|].
  { rewrite Eo. intros ? [= <-]. eapply Forall_impl; [exact Hgood|]. by intros o (_ & ? & _). }
  assert (asy = true -> r ≠ SLOTS_MGRT_ERR ∧ P (w_srv u')) as Hasy.
  { intros Hasy. destruct tells as [?|Hn]; [congruence|].
    eapply (slots_restore_granted db cmd ss os n u); [done|done| |exact (proj2 (rep_pools _ _ Hw))|done|by apply HP|exact E].
    eapply Forall_impl; [exact Hgood|]. intros o (_ & [Hnul _] & Ho). unfold granted_obj.
    cbn in Hnul, Ho. unfold key_name in Hnul, Ho. by rewrite (c_str_no_nul _ Hnul). }
  exists r, u'. split; [done|]. split; [|by intros [? _]%Hasy].
  destruct Hout as (Hw2 & K2 & _ & _ & N2 & _ & Hr). rewrite Eo in Hr. destruct Hr as [_ Hr].
  exists t2. split; [done|]. split; [done|]. split; [by eapply spec_keeps_db|]. split; [by intros [_ ?]%Hasy|]. split; [done|].
  intros Hr0. destruct Hr as [(_ & Hc & Hnames)|[? _]]; [|done]. rewrite Hc, (Hnames answers).
  apply Forall_forall. intros x Hx. split.
  - assert (obj_restore <$> os = item_restore <$> (recv_item <$> os)) as -> by (by rewrite <- list_fmap_compose).
    by apply list_elem_of_fmap_2.
  - assert (key_name <$> os = (λ y : item, y.1.1) <$> (recv_item <$> os)) as -> by (by rewrite <- list_fmap_compose).
    by apply (list_elem_of_fmap_2 (λ y : item, y.1.1)).
Qed.

(** The handlers, with [async] and without. *)
Lemma restore_replies_ok cmd args n u :
  length args = (3 * n)%nat -> (0 < n)%nat -> follows u -> valid_db (srv_spec (w_srv u)) db ->
  (asy = true -> P (w_srv u)) -> Forall good (triples args) ->
  ∃ rs u', restore_replies asy true db (make <$> cmd :: args) u = Some (rs, u') ∧
    served (triples args) (reply_type rs = REDIS_REPLY_OTHER) u u'.
Proof using HR make_content answers tells.
  intros Hlen Hn Hw Hdb HP Hgood. cbn [fmap list_fmap].
  assert (content <$> (make <$> args) = args) as Ec.
  { rewrite <- list_fmap_compose. rewrite <- (list_fmap_id args) at 2. apply list_fmap_ext.
    intros i b _. apply make_content. }
  assert ((Z.of_nat (length (make cmd :: (make <$> args))) <? 4)
    || negb (Z.rem (Z.of_nat (length (make cmd :: (make <$> args))) - 1) 3 =? 0) = false) as Har.
  { rewrite length_cons, length_fmap, Hlen.
    replace (Z.of_nat (Datatypes.S (3 * n)) - 1) with (Z.of_nat n * 3) by lia. rewrite Z.rem_mul by done.
    by rewrite (proj2 (Z.ltb_ge _ _)) by lia. }
  unfold restore_replies. assert (asy = true ∨ asy = false) as [Ea|Ea] by (clear; destruct asy; auto); rewrite Ea.
  - unfold SlotsRestoreAsyncBlock_RedisCommand. rewrite Har. cbn [copy_args]. unfold SlotsRestoreAsyncBlock_ThreadMain.
    cbn [bg_argv map].
    destruct (restore_args_ok (takeAndRef (make cmd)).2 args (map (λ s, (takeAndRef s).2) (make <$> args)) u n)
      as (r & u' & E & Hs & Hr); [|done..|].
    { rewrite <- Ec at 2. change (map ?f ?l) with (f <$> l). rewrite <- !list_fmap_compose. apply list_fmap_ext.
      intros i b _. cbn. apply take_content. }
    unfold mbind, prog_bind. rewrite E. eexists _, u'. split; [reflexivity|].
    destruct Hs as (t2 & ? & ? & ? & ? & ? & Hall). exists t2. split_and!; try done. intros _. by apply Hall, Hr, Ea.
  - unfold SlotsRestore_RedisCommand. rewrite Har.
    destruct (restore_args_ok (make cmd) args (make <$> args) u n Ec Hlen Hw Hdb HP Hgood) as (r & u' & E & Hs & _).
    unfold mbind, prog_bind. rewrite E. case_decide as Hr; (eexists _, u'; split; [reflexivity|]);
      destruct Hs as (t2 & ? & ? & ? & ? & ? & Hall); exists t2; split_and!; auto.
Qed.

Lemma tg_run_ok tg ctx cmd args n :
  length args = (3 * n)%nat -> (0 < n)%nat -> tg_db tg !! ctx = Some db ->
  follows (tg_world tg) -> valid_db (tspec tg) db -> (asy = true -> P (w_srv (tg_world tg))) -> Forall good (triples args) ->
  ∃ err r tg', tg_run make asy tg ctx (cmd :: args) = (err, r, tg') ∧
    tg_after tg (if negb err && reply_ok r then triples args else []) tg' ∧
    tg_db tg' = tg_db tg ∧ tg_queue tg' = tg_queue tg.
Proof using HR make_content answers tells.
  intros Hlen Hn Hsel Hw Hdb HP Hgood. unfold tg_run. destruct (arrives_frame tg) as (f & rest & ->).
  destruct (restore_replies_ok cmd args n (tg_world tg) Hlen Hn Hw Hdb HP Hgood) as (rs & u' & E & t2 & T2 & Hw2 & Hdb2 & HP2 & N2 & Hall).
  cbn [tg_db tg_world tg_next tg_queue tg_lost]. rewrite Hsel. change (default 0 (Some db)) with db. rewrite E.
  assert (∀ xs, (xs = [] ∨ xs = triples args ∧ reply_type rs = REDIS_REPLY_OTHER) ->
    tg_after tg xs (Target u' (tg_next tg) (tg_db tg) (tg_queue tg) rest)) as Hafter.
  { intros xs [-> | [-> Hr]]; exists t2; split_and!; try done. by apply Hall. }
  destruct f; (do 3 eexists); (split; [reflexivity|]); (split; [|done]); cbn [negb andb reply_ok].
  - destruct (reply_type rs) eqn:Er; cbn [reply_ok]; apply Hafter; auto.
  - exists []. rewrite app_nil_r. by split_and!.
  - apply Hafter. by left.
Qed.

(** ** The invariant *)
Context (w0 : world S Srv (target S Srv2 Net2)).

(** Since [w0]: [p] are the commands of a pipeline without a reply, and the
    commands with a good reply have been served. *)
Definition linked (p : list item) w : Prop :=
  ∃ t, w_trace w = w_trace w0 ++ t ∧ pending_after [] t = p ∧ tg_after (w_net w0) (delivered [] t) (w_net w).

(** No pipeline on any connection. *)
Definition idle w : Prop := linked [] w ∧ tg_queue (w_net w) = ∅.

(** No pipeline, and the connection [ctx] has selected the database. *)
Definition sending (ctx : nat) w : Prop := idle w ∧ tg_db (w_net w) !! ctx = Some db.

(** The pipeline is the queue of [ctx]. *)
Definition piping (ctx : nat) w : Prop :=
  linked (pipeline_item <$> tg_queued (w_net w) ctx) w ∧ tg_db (w_net w) !! ctx = Some db ∧
  Forall (λ a, is_i64 (pa_ttl a) ∧ good (pipeline_item a)) (tg_queued (w_net w) ctx).

(** The actions that are no part of an exchange with the other server. *)
Definition neutral (a : action S) : Prop :=
  match a with Sent _ _ _ | Appended _ _ | GotReply _ _ => False | _ => True end.

(** What holds of the network and the trace, whatever the sender does. *)
Definition local I : Prop :=
  ∀ w w', I w -> w_net w' = w_net w ->
    (w_trace w' = w_trace w ∨ ∃ a, neutral a ∧ w_trace w' = w_trace w ++ [a]) -> I w'.

Lemma linked_step p w w' :
  linked p w -> tg_world (w_net w') = tg_world (w_net w) ->
  (w_trace w' = w_trace w ∨ ∃ a, neutral a ∧ w_trace w' = w_trace w ++ [a]) -> linked p w'.
Proof using Type.
  intros (t & E & Hp & Ht) En [Et|(a & Ha & Et)]; unfold linked; rewrite Et.
  - exists t. split_and!; [done|done|by eapply tg_after_same].
  - exists (t ++ [a]). rewrite E, app_assoc. split; [done|].
    rewrite pending_app, delivered_app, Hp.
    assert (delivered p [a] = []) as -> by (by destruct a). rewrite app_nil_r.
    split; [by destruct a|by eapply tg_after_same].
Qed.

Lemma linked_local p : local (linked p).
Proof using Type. intros w w' Hw En Et. eapply linked_step; [exact Hw|by rewrite En|done]. Qed.

Lemma idle_local : local idle.
Proof using Type. intros w w' [H1 H2] En Et. split; [by eapply linked_local|by rewrite En]. Qed.

Lemma sending_local ctx : local (sending ctx).
Proof using Type. intros w w' [H1 H2] En Et. split; [by eapply idle_local|by rewrite En]. Qed.

(** ** What the parts of a migration keep *)
Definition keeps {A} I (m : M A) : Prop :=
  ∀ w, I w -> only m w (λ _ w', I w').

Lemma keeps_bind {A B} I (m : M A) (f : A -> M B) :
  keeps I m -> (∀ a, keeps I (f a)) -> keeps I (m ≫= f).
Proof using Type.
  intros Hm Hf w Hw. apply only_bind. eapply only_mono; [by apply Hm|]. intros a w' Hw'. by apply Hf.
Qed.

Lemma keeps_ret {A} I (a : A) : keeps I (mret a : M A).
Proof using Type. intros w Hw. by apply only_ret. Qed.

Lemma keeps_get {A} I (f : W -> A) : keeps I (get f : M A).
Proof using Type. intros w Hw. by apply only_get. Qed.

Lemma keeps_lift {A} I (o : option A) : keeps I (lift o : M A).
Proof using Type. intros w Hw. by apply only_lift. Qed.

Lemma keeps_did I a : local I -> neutral a -> keeps I (did a).
Proof using Type. intros HI Ha w Hw. apply only_modify. eapply HI; [done|done|]. right. by exists a. Qed.

Lemma keeps_call I db' c : local I -> keeps I (call db' c).
Proof using Type.
  intros HI w Hw r w'. unfold call. destruct (RedisModule_Call (w_srv w) db' c) as [[r' evs] srv].
  destruct (run (w_mod w) evs) as [[refs ms]|]; [|done]. cbn. intros [= <- <-].
  eapply HI; [done|done|]. right. exists (Called db' c r'). by split.
Qed.

Lemma keeps_conn_at I p : keeps I (conn_at p).
Proof using Type. intros w Hw c w'. unfold conn_at. destruct (w_conns w !! p); [|done]. by intros [= _ <-]. Qed.

Lemma keeps_conns I (f : W -> gmap nat db_slot_mgrt_connect * gmap (list byte) nat) :
  local I -> keeps I (modify (λ w, set_conns w (f w).1 (f w).2)).
Proof using Type. intros HI w Hw. apply only_modify. eapply HI; [done|done|]. by left. Qed.

Lemma keeps_store_conn I p c : local I -> keeps I (store_conn p c).
Proof using Type. intros HI. exact (keeps_conns I (λ w, (<[p := c]> (w_conns w), w_cache w)) HI). Qed.

Lemma keeps_cache_set I name p : local I -> keeps I (cache_set name p).
Proof using Type. intros HI. exact (keeps_conns I (λ w, (w_conns w, <[name := p]> (w_cache w))) HI). Qed.

Lemma keeps_cache_del I name : local I -> keeps I (cache_del name).
Proof using Type. intros HI. exact (keeps_conns I (λ w, (w_conns w, delete name (w_cache w))) HI). Qed.

Lemma keeps_free_conn I p : local I -> keeps I (free_conn p).
Proof using Type. intros HI. exact (keeps_conns I (λ w, (delete p (w_conns w), w_cache w)) HI). Qed.
End two.

Create HintDb keeps.
#[export] Hint Resolve linked_local idle_local sending_local : keeps.
#[export] Hint Extern 1 (neutral _) => exact I : keeps.
#[export] Hint Resolve keeps_ret keeps_get keeps_lift keeps_conn_at : keeps.
#[export] Hint Resolve keeps_did keeps_call keeps_store_conn keeps_cache_set keeps_cache_del keeps_free_conn : keeps.

(** Goes through a program whose parts keep the invariant. *)
Ltac keeps_step :=
  match goal with
  | |- ∀ _, keeps _ _ => intros ?
  | |- keeps _ (_ ≫= _) => apply keeps_bind; [|intros ?]
  | |- keeps _ (match ?x with _ => _ end) => destruct x
  | |- keeps _ (let '(_, _) := ?x in _) => destruct x
  | |- keeps _ (if ?b then _ else _) => destruct b
  | |- keeps _ _ => solve [eauto with keeps]
  end; cbv beta.
