(* ===== verification/TwoServersSpec.v ===== *)
(** * TwoServersSpec: a migration to a server with the module loses no key

    The parts of a migration on [target_net] keep the invariants of
    TwoServersProps, down to the theorem on the names of both servers. *)

From S2P Require Import Prelude.
From S2P Require Import KeySlot.
From S2P Require Import Numbers.
From S2P Require Import Slots.
From S2P Require Import SlotsInv.
From S2P Require Import Events.
From S2P Require Import Refinement.
From S2P Require Import Statics.
From S2P Require Import Prog.
From S2P Require Import Server.
From S2P Require Import ServerSpec.
From S2P Require Import ConnCache.
From S2P Require Import Commands.
From S2P Require Import CommandsProps.
From S2P Require Import Migrate.
From S2P Require Import MigrateProps.
From S2P Require Import MigratePool.
From S2P Require Import MigrateSpec.
From S2P Require Import TagKeysProps.
From S2P Require Import Restore.
From S2P Require Import RestoreProps.
From S2P Require Import Async.
From S2P Require Import TwoServers.
From S2P Require Import TwoServersProps.
Local Open Scope Z_scope.

Section two.
Context {S Srv Srv2 Net2 : Type} `{HS : RedisStrings S} `{HV : !RedisServer S Srv} `{HV2 : !RedisServer S Srv2}.
Context `{HR : !RedisStringsOk S} `{HVok2 : !RedisServerOk S Srv2}.
Context (make : list byte -> S) (make_content : ∀ b, content (make b) = b).
Context (answers : restore_answers (Srv := Srv2)).
Context (asy : bool) (allowed : list (list byte)) (P : Srv2 -> Prop) (tells : asy = false ∨ never_refuses (S := S) allowed P).
Context (db : Z).
Notation W := (world S Srv (target S Srv2 Net2)).
Notation M := (prog W).
Notation objs_array := (list (option (rdb_dump_obj S))) (only parsing).
Notation good := (good (S := S) (Srv2 := Srv2) allowed db).
Implicit Types (w : W) (I : W -> Prop).
Context (w0 : W).
Notation linked := (linked asy P db w0).
Notation idle := (idle asy P db w0).
Notation sending := (sending asy P db w0).
Notation piping := (piping asy allowed P db w0).

#[local] Instance other_end : Hiredis (target S Srv2 Net2) := target_net make asy.

(** ** Exchanges *)
Lemma keeps_undefined {A} I : keeps I (undefined : M A).
Proof using Type. intros w Hw a w'. done. Qed.

Lemma only_keeps {A} I I' (m : M A) w :
  keeps I m -> I w -> (∀ w', I w' -> I' w') -> only m w (λ _ w', I' w').
Proof using Type. intros Hm Hw HI. eapply only_mono; [by apply Hm|]. auto. Qed.

Lemma only_conn_at p w : only (conn_at p) w (λ c w', w' = w ∧ w_conns w !! p = Some c).
Proof using Type.
  intros c w'. unfold conn_at. destruct (w_conns w !! p) as [c'|] eqn:E; [|done]. by intros [= <- <-].
Qed.

Lemma only_select ctx w :
  idle w -> only (select ctx db) w (λ rr w', idle w' ∧ w_conns w' = w_conns w ∧
    (reply_ok rr = true -> sending ctx w')).
Proof using Type.
  intros [Hl Hq] rr w'. unfold select. cbn [redisSelect other_end target_net].
  destruct (arrives_frame (w_net w)) as (f & rest & ->).
  assert (∀ rr' tg, tg_world tg = tg_world (w_net w) -> tg_queue tg = tg_queue (w_net w) ->
    idle (log (Selected ctx db rr') (set_net w tg))) as Hidle.
  { intros rr' tg Ew Eq. split; [|by cbn; rewrite Eq]. eapply linked_step; [exact Hl|done|].
    right. by exists (Selected ctx db rr'). }
  destruct f; [destruct (_ && _)| |destruct (_ && _)]; intros [= <- <-]; (split; [by apply Hidle|]); (split; [done|]); try done.
  intros _. split; [by apply Hidle|]. cbn. by rewrite lookup_insert_eq.
Qed.

Lemma keeps_select ctx : keeps idle (select ctx db).
Proof using Type. intros w Hw. eapply only_mono; [by apply only_select|]. by intros rr w' [? _]. Qed.

Lemma keeps_connect host port : keeps idle (connect host port).
Proof using Type.
  intros w [Hl Hq] r w'. unfold connect. cbn [redisConnect other_end target_net].
  destruct (arrives_frame (w_net w)) as (f & rest & ->).
  destruct f; intros [= <- <-]; (split; [eapply linked_step; [exact Hl|done|by left]|]); cbn; rewrite Hq; [apply delete_empty|done..].
Qed.

Lemma linked_free_ctx p c : keeps (linked p) (free_ctx c).
Proof using Type. intros w Hl. apply only_modify. eapply linked_step; [exact Hl|done|by left]. Qed.

Lemma idle_free_ctx c : keeps idle (free_ctx c).
Proof using Type.
  intros w [Hl Hq]. apply only_modify. split; [eapply linked_step; [exact Hl|done|by left]|].
  cbn. by rewrite Hq, delete_empty.
Qed.

(** A command that runs on the other server. *)
Lemma linked_served p p' xs w w' a :
  linked p w -> tg_after asy P db (w_net w) xs (w_net w') -> w_trace w' = w_trace w ++ [a] ->
  pending_after p [a] = p' -> delivered p [a] = xs -> linked p' w'.
Proof using Type.
  intros (t & E & Hp & Ht) Hxs Et Hp' Hd. exists (t ++ [a]). split; [by rewrite Et, E, app_assoc|].
  rewrite pending_app, delivered_app, Hp, Hd. split; [done|]. by eapply tg_after_trans.
Qed.

Lemma linked_target p w : linked p w ->
  follows (tg_world (w_net w)) ∧ valid_db (srv_spec (w_srv (tg_world (w_net w)))) db ∧
  (asy = true -> P (w_srv (tg_world (w_net w)))).
Proof using Type. by intros (t & _ & _ & t2 & _ & ? & ? & ? & _). Qed.

Lemma keeps_command ctx cmd args n :
  length args = (3 * n)%nat -> (0 < n)%nat -> Forall good (triples args) ->
  keeps (sending ctx) (command_argv ctx (cmd :: args)).
Proof using HR make_content answers tells.
  intros Hlen Hn Hgood w [[Hl Hq] Hsel] r w'. unfold command_argv. cbn [redisCommandArgv other_end target_net].
  destruct (linked_target [] w Hl) as (Hw & Hdb & HP).
  destruct (tg_run_ok make make_content answers asy allowed P tells db (w_net w) ctx cmd args n) as (err & rr & tg' & -> & Haft & Edb & Eq);
    try done.
  intros [= <- <-]. split; [split|].
  - eapply (linked_served [] [] _ _ _ (Sent ctx (cmd :: args) (negb err && reply_ok rr))); [done|exact Haft|done|done|].
    cbn [delivered]. destruct (negb err && reply_ok rr); [by rewrite app_nil_r|done].
  - cbn. by rewrite Eq.
  - cbn. by rewrite Edb.
Qed.

(** ** In batches *)
Notation restore_arg := (list byte * list byte * list byte)%type (only parsing).
Implicit Types (argv : list restore_arg) (objs : objs_array).
#[local] Hint Resolve keeps_undefined : keeps.

(** The objects of an array can be restored on the other server. *)
Definition good_objs objs : Prop := ∀ i o, objs !! i = Some (Some o) -> is_i64 (ob_ttlms o) ∧ good (obj_item o).

Lemma good_obj objs i o : good_objs objs -> mjoin (objs !! i) = Some o -> is_i64 (ob_ttlms o) ∧ good (obj_item o).
Proof using Type. intros Hg E. apply (Hg i). by destruct (objs !! i) as [[o'|]|] eqn:Ei; cbn in E; simplify_eq. Qed.

Lemma length_arg_lists argv : length (argv ≫= arg_list) = (3 * length argv)%nat.
Proof using Type. induction argv as [|a argv IH]; [done|]. cbn. cbn in IH. lia. Qed.

Lemma keeps_split ctx argv s e :
  Forall (λ a, good (arg_item a)) argv -> keeps (sending ctx) (doSplitRestoreCommand ctx argv s e).
Proof using HR make_content answers tells.
  intros Hg. unfold doSplitRestoreCommand. destruct (Z.leb_spec (Z.of_nat e - Z.of_nat s) 0) as [|He]; [apply keeps_ret|].
  case_decide as Hlen; [apply keeps_undefined|]. apply keeps_bind.
  - assert (length (take (e - s) (drop s argv)) = e - s)%nat as Hl by (rewrite length_take, length_drop; lia).
    apply (keeps_command _ _ _ (e - s)); [by rewrite length_arg_lists, Hl|lia|]. rewrite triples_args.
    apply Forall_fmap. apply Forall_take, Forall_drop. exact Hg.
  - intros [err rr]. repeat keeps_step.
Qed.

Lemma keeps_free_args I argv i n : local I -> keeps I (freeHiRedisSlotsRestoreArgs argv i n).
Proof using Type.
  intros HI. revert i. induction n as [|n IH]; intros i; cbn [freeHiRedisSlotsRestoreArgs]; [apply keeps_ret|].
  repeat keeps_step.
Qed.
#[local] Hint Resolve keeps_free_args keeps_split : keeps.

Lemma keeps_flush ctx i argv cmd_size s :
  Forall (λ a, good (arg_item a)) argv -> keeps (sending ctx) (batch_flush ctx i argv cmd_size s).
Proof using HR make_content answers tells. intros Hg. unfold batch_flush. repeat keeps_step. Qed.

Lemma only_batch_loop ctx n i objs argv cmd_size s stack w :
  good_objs objs -> length stack = REDIS_LONGSTR_SIZE -> Forall (λ a, good (arg_item a)) argv -> sending ctx w ->
  only (batch_loop ctx n i objs argv cmd_size s stack) w (λ r w', sending ctx w' ∧
    if r is Some (argv', _) then Forall (λ a, good (arg_item a)) argv' else True).
Proof using HR make_content answers tells.
  intros Hg. revert i argv cmd_size s stack w. induction n as [|n IH];
    intros i argv cmd_size s stack w Hst Hargv Hw; cbn [batch_loop]; [by apply only_ret|].
  prog_bind. eapply only_mono; [by apply keeps_flush|]. intros [[cmd_size' s']|] w1 Hw1; [|by apply only_ret].
  prog_bind. apply only_lift. intros o Ho. destruct (good_obj objs i o Hg Ho) as [Ht Hgo].
  destruct (restore_triple_ok stack o Hst Ht) as (a & stack' & E & Hst' & Ha). rewrite E.
  prog_bind. apply only_ret. prog_bind. eapply only_mono; [by apply (keeps_did (sending ctx)); auto with keeps|].
  intros ? w2 Hw2. apply IH; [done| |done]. apply Forall_app_2; [done|]. apply Forall_singleton. by rewrite Ha.
Qed.

Lemma only_batch_send stack conn c objs n w :
  good_objs objs -> length stack = REDIS_LONGSTR_SIZE -> w_conns w !! conn = Some c -> sending (cn_ctx c) w ->
  only (BatchSend_SlotsRestore stack conn objs n) w (λ _ w', idle w').
Proof using HR make_content answers tells.
  intros Hg Hst Hc Hw. unfold BatchSend_SlotsRestore. prog_bind. eapply only_mono; [apply only_conn_at|].
  intros c' w1 [-> Hc']. simplify_eq. prog_bind. eapply only_mono; [by apply only_batch_loop|].
  intros [[argv s]|] w2 [Hw2 Hargv]; [|apply only_ret; by destruct Hw2]. prog_bind.
  eapply only_mono; [by apply keeps_split|]. intros r w3 [Hw3 _].
  eapply (only_keeps idle idle); [|exact Hw3|done]. unfold get_unixtime. repeat keeps_step.
Qed.

(** ** Pipelined *)
Lemma long_text_parse v : is_i64 v -> m_string2ll (long_text v) = Some v.
Proof using Type.
  intros Hv. unfold long_text.
  destruct (ll2string_buffer (replicate REDIS_LONGSTR_SIZE x00) v Hv) as (s & stack' & -> & _ & -> & Hs & _);
    [apply length_replicate|]. by rewrite Nat2Z.id, take_ge by lia.
Qed.

Lemma tg_queued_set (tg : target S Srv2 Net2) ctx q : tg_queued (tg_set_queue tg ctx q) ctx = q.
Proof using Type. unfold tg_queued. cbn. by rewrite lookup_insert_eq. Qed.

Lemma keeps_append ctx a :
  is_i64 (pa_ttl a) -> good (pipeline_item a) -> keeps (piping ctx) (append_command ctx a).
Proof using Type.
  intros Ht Ha w (Hl & Hsel & Hq) [] w'. unfold append_command. cbn [redisAppendCommand other_end target_net].
  intros [= <-]. split_and!; [|done|].
  - cbn [log set_net w_net]. rewrite tg_queued_set, fmap_app. eapply (linked_served _ _ [] w _ (Appended ctx a)); [exact Hl| |done|done|done].
    destruct (linked_target _ w Hl) as (? & ? & ?). exists []. cbn. rewrite app_nil_r. by split_and!.
  - cbn [log set_net w_net]. rewrite tg_queued_set. apply Forall_app_2; [exact Hq|]. by apply Forall_singleton.
Qed.

Lemma keeps_get_reply ctx : keeps (piping ctx) (get_reply ctx).
Proof using HR make_content answers tells.
  intros w (Hl & Hsel & Hq) r w'. unfold get_reply. cbn [redisGetReply other_end target_net].
  destruct (linked_target _ w Hl) as (Hw & Hdb & HP).
  destruct (tg_queued (w_net w) ctx) as [|a q] eqn:Eq.
  { intros [= <- <-]. cbn [negb andb]. unfold TwoServersProps.piping. cbn [log set_net w_net]. rewrite Eq.
    split_and!; [|done|done]. eapply (linked_served _ _ [] w _ (GotReply ctx false)); [exact Hl| |done|done|done].
    exists []. rewrite app_nil_r. by split_and!. }
  apply Forall_cons in Hq as [[Ht Ha] Hq].
  destruct (tg_run_ok make make_content answers asy allowed P tells db (tg_set_queue (w_net w) ctx q) ctx (bytes_of "SLOTSRESTORE")
    [pa_key a; long_text (pa_ttl a); pa_val a] 1) as (err & rr & tg' & E & Haft & Edb & Eq'); try done; [lia| |].
  { cbn [triples]. rewrite long_text_parse by done. by apply Forall_singleton. }
  unfold pipeline_argv. rewrite E. intros [= <- <-].
  assert (tg_queued tg' ctx = q) as Eq2 by (unfold tg_queued; rewrite Eq'; apply tg_queued_set).
  unfold TwoServersProps.piping. cbn [log set_net w_net]. rewrite Eq2, Edb. split_and!; [|done|done].
  eapply (linked_served _ _ _ w _ (GotReply ctx (negb err && reply_ok rr))); [exact Hl|exact Haft|done|done|].
  cbn [fmap list_fmap delivered triples]. rewrite long_text_parse by done. by rewrite app_nil_r.
Qed.
#[local] Hint Resolve keeps_get_reply : keeps.

Lemma keeps_replies ctx n : keeps (piping ctx) (get_replies ctx n).
Proof using HR make_content answers tells. induction n as [|n IH]; cbn [get_replies]; repeat keeps_step. Qed.
#[local] Hint Resolve keeps_replies : keeps.

Lemma keeps_pipeline_replies ctx s e : keeps (piping ctx) (doSplitPipelineGetReply ctx s e).
Proof using HR make_content answers tells. unfold doSplitPipelineGetReply. repeat keeps_step. Qed.
#[local] Hint Resolve keeps_pipeline_replies : keeps.

Lemma keeps_pipeline_loop ctx n i objs cmd_size s stack :
  good_objs objs -> keeps (piping ctx) (pipeline_loop ctx n i objs cmd_size s stack).
Proof using HR make_content answers tells.
  intros Hg. revert i cmd_size s stack. induction n as [|n IH]; intros i cmd_size s stack; cbn [pipeline_loop];
    [apply keeps_ret|]. apply keeps_bind; [repeat keeps_step|]. intros [[cmd_size' s']|]; [|apply keeps_ret].
  intros w Hw. prog_bind. apply only_lift. intros o Ho. destruct (good_obj objs i o Hg Ho) as [Ht Hgo].
  prog_bind. apply only_lift. intros [tsz stack'] _. prog_bind.
  eapply only_mono; [apply keeps_append; [|exact Hgo|exact Hw]|intros ? w1 Hw1; by apply IH].
  cbn [pa_ttl]. unfold obj_ttl, is_i64 in *. destruct (0 <? ob_ttlms o); lia.
Qed.

Lemma only_pipeline stack conn c objs n w :
  good_objs objs -> w_conns w !! conn = Some c -> sending (cn_ctx c) w ->
  only (Pipeline_SlotsRestore stack conn objs n) w (λ _ w', ∃ p, linked p w').
Proof using HR make_content answers tells.
  intros Hg Hc [[Hl Hq] Hsel]. unfold Pipeline_SlotsRestore. prog_bind. eapply only_mono; [apply only_conn_at|].
  intros c' w1 [-> Hc']. simplify_eq.
  assert (piping (cn_ctx c) w) as Hw.
  { unfold TwoServersProps.piping, tg_queued. rewrite Hq, lookup_empty. by split_and!. }
  apply (only_keeps (piping (cn_ctx c))); [|exact Hw|by intros w' [? _]; eexists].
  apply keeps_bind; [by apply keeps_pipeline_loop|]. intros [s|]; repeat keeps_step.
Qed.

(** ** Connections and threads *)
#[local] Hint Resolve keeps_connect idle_free_ctx linked_free_ctx : keeps.

Lemma keeps_get_conn stack tid meta : keeps idle (SlotsMGRT_GetConnCtx stack tid meta).
Proof using Type. unfold SlotsMGRT_GetConnCtx, get_unixtime. repeat keeps_step. Qed.

Lemma keeps_close_conn I stack tid meta :
  local I -> (∀ c, keeps I (free_ctx c)) -> keeps I (SlotsMGRT_CloseConn stack tid meta).
Proof using Type. intros HI Hf. unfold SlotsMGRT_CloseConn. repeat keeps_step. Qed.
#[local] Hint Resolve keeps_get_conn keeps_close_conn : keeps.

Lemma keeps_task stack meta tid argv s e :
  mt_db meta = db -> Forall (λ a, good (arg_item a)) argv ->
  keeps idle (doSplitRestoreCmdTask stack meta tid argv s e).
Proof using HR make_content answers tells.
  intros Hdb Hargv. unfold doSplitRestoreCmdTask. apply keeps_bind; [apply keeps_get_conn|].
  intros [conn|]; [|apply keeps_ret]. apply keeps_bind; [apply keeps_conn_at|]. intros c w Hw.
  rewrite Hdb. prog_bind. eapply only_mono; [by apply only_select|]. intros rr w1 (Hw1 & _ & Hsel).
  destruct (reply_ok rr); cbn [negb]; [|by apply only_ret]. prog_bind.
  eapply only_mono; [apply (keeps_split _ argv s e Hargv); auto|]. intros r w2 [Hw2 _].
  eapply (only_keeps idle idle); [|exact Hw2|done]. unfold get_unixtime. repeat keeps_step.
Qed.

Lemma keeps_tasks stack meta argv params sched :
  mt_db meta = db -> Forall (λ a, good (arg_item a)) argv -> keeps idle (run_tasks stack meta argv params sched).
Proof using HR make_content answers tells.
  intros Hdb Hargv. induction sched as [|[j tid] sched IH]; cbn [run_tasks]; [apply keeps_ret|].
  apply keeps_bind; [apply keeps_lift|]. intros [s e]. apply keeps_bind; [by apply keeps_task|]. repeat keeps_step.
Qed.

Lemma only_split_loop n i objs argv params cmd_size s stack w :
  good_objs objs -> length stack = REDIS_LONGSTR_SIZE -> Forall (λ a, good (arg_item a)) argv -> idle w ->
  only (split_loop n i objs argv params cmd_size s stack) w (λ r w', idle w' ∧ Forall (λ a, good (arg_item a)) r.1.1).
Proof using Type.
  intros Hg. revert i argv params cmd_size s stack w. induction n as [|n IH];
    intros i argv params cmd_size s stack w Hst Hargv Hw; cbn [split_loop]; [by apply only_ret|].
  destruct (if _ <? _ then _ else _) as [[params' cmd_size'] s']. prog_bind. apply only_lift. intros o Ho.
  destruct (good_obj objs i o Hg Ho) as [Ht Hgo].
  destruct (restore_triple_ok stack o Hst Ht) as (a & stack' & E & Hst' & Ha). rewrite E.
  prog_bind. apply only_ret. prog_bind. eapply only_mono; [by apply (keeps_did idle); auto with keeps|].
  intros ? w2 Hw2. apply IH; [done| |done]. apply Forall_app_2; [done|]. apply Forall_singleton. by rewrite Ha.
Qed.

Lemma keeps_pool stack pool meta objs n :
  mt_db meta = db -> good_objs objs -> length stack = REDIS_LONGSTR_SIZE ->
  keeps idle (BatchSendWithThreadPool_SlotsRestore stack pool meta objs n).
Proof using HR make_content answers tells.
  intros Hdb Hg Hst w Hw. unfold BatchSendWithThreadPool_SlotsRestore. prog_bind.
  eapply only_mono; [by apply only_split_loop|]. intros [[argv params] s] w1 [Hw1 Hargv]. cbn [fst] in Hargv.
  case_decide; [done|]. eapply (only_keeps idle idle); [|exact Hw1|done].
  apply keeps_bind; [by apply keeps_tasks|]. repeat keeps_step.
Qed.

Lemma only_mgrt stack pool tid host port timeoutMS objs n mgrtType w :
  good_objs objs -> length stack = REDIS_LONGSTR_SIZE -> idle w ->
  only (MGRT stack pool tid db host port timeoutMS objs n mgrtType) w (λ _ w', ∃ p, linked p w').
Proof using HR make_content answers tells.
  intros Hg Hst Hw. unfold MGRT. set (meta := ConnMeta _ _ _ _). prog_bind. apply only_get.
  assert (∀ w', idle w' -> ∃ p, linked p w') as Hidle by (intros w' [? _]; by eexists).
  destruct (0 <? slots_mgrt_threads (meta_info w)); [eapply (only_keeps idle); [by apply keeps_pool|done|done]|].
  prog_bind. eapply only_mono; [by apply keeps_get_conn|]. intros [conn|] w1 Hw1; [|apply only_ret; by apply Hidle].
  prog_bind. eapply only_mono; [apply only_conn_at|]. intros c w2 [-> Hc]. prog_bind.
  eapply only_mono; [by apply only_select|]. intros rr w3 (Hw3 & Hconns & Hsel). rewrite <- Hconns in Hc.
  destruct (reply_ok rr); cbn [negb].
  2: { eapply (only_keeps idle); [|done|done]. repeat keeps_step. }
  assert (∀ m : M Z, only m w3 (λ _ w', ∃ p, linked p w') ->
    only (ret ← m; _ ← SlotsMGRT_CloseConn stack tid meta; mret ret) w3 (λ _ w', ∃ p, linked p w')) as Hclose.
  { intros m Hm. prog_bind. eapply only_mono; [exact Hm|]. intros r w4 [p Hw4].
    eapply (only_keeps (linked p)); [|done|by eexists]. repeat keeps_step. }
  apply Hclose. specialize (Hsel eq_refl). destruct (_ && _).
  - by eapply only_pipeline.
  - eapply only_mono; [by eapply only_batch_send|]. auto.
Qed.

(** ** The whole migration *)
Lemma keeps_dump I key : local I -> keeps I (dumpObj db key).
Proof using Type. intros HI. unfold dumpObj. repeat keeps_step. Qed.

Lemma keeps_dumps I keys j objs : local I -> keeps I (dump_loop db keys j objs).
Proof using Type.
  intros HI. revert j objs. induction keys as [|key keys IH]; intros j objs; cbn [dump_loop]; [apply keeps_ret|].
  apply keeps_bind; [by apply keeps_dump|]. intros [r obj]. repeat keeps_step.
Qed.

Lemma keeps_free_objs I objs i n : local I -> keeps I (FreeDumpObjs objs i n).
Proof using Type.
  intros HI. revert i. induction n as [|n IH]; intros i; cbn [FreeDumpObjs]; repeat keeps_step.
Qed.

Lemma keeps_del_keys I keys ret : local I -> keeps I (delKeys db keys ret).
Proof using Type.
  intros HI. revert ret. induction keys as [|key keys IH]; intros ret; cbn [delKeys]; repeat keeps_step.
Qed.
#[local] Hint Resolve keeps_dumps keeps_free_objs keeps_del_keys : keeps.

(** What is proved of a defined run holds of the run. *)
Lemma runs_only {A} (m : M A) w Q :
  runs m w Q -> only m w (λ a w', ∃ t, w_trace w' = w_trace w ++ t ∧ Q a w' t).
Proof using Type. intros (a & w' & E & HP) a' w'' E'. rewrite E in E'. by injection E' as <- <-. Qed.

Lemma only_and {A} (m : M A) w (Q1 Q2 : A -> W -> Prop) : only m w Q1 -> only m w Q2 -> only m w (λ a w', Q1 a w' ∧ Q2 a w').
Proof using Type. intros H1 H2 a w' E. split; [by apply H1|by apply H2]. Qed.

Lemma only_migrate_keys stack pool tid host port timeoutMS keys os mgrtType w :
  Forall2 (dumps (w_srv w) db) keys os -> Forall (λ o, good (obj_item o)) os ->
  length stack = REDIS_LONGSTR_SIZE -> slots_dump_threads (meta_info w) = 0 -> idle w ->
  only (migrateKeys stack pool tid db host port timeoutMS keys mgrtType) w (λ _ w', ∃ p, linked p w').
Proof using HR make_content answers tells.
  intros Hd Hg Hst Hth Hw. unfold migrateKeys. case_decide as Hk; [apply only_ret; destruct Hw; by eexists|].
  prog_bind. eapply only_mono; [apply only_dump_alone; [done..|]; apply only_and; [apply runs_only; by apply dump_loop_ok|apply (keeps_dumps idle); auto with keeps]|].
  intros [r objs] w1 [(t1 & _ & -> & -> & _) Hw1]. cbn [app].
  assert (good_objs (Some <$> os)) as Hobjs.
  { intros i o Ho. apply list_lookup_fmap_Some in Ho as (o' & [= <-] & Ho). split.
    - apply Forall2_flip in Hd. by destruct (Forall2_lookup_l _ _ _ _ _ Hd Ho) as (k & _ & _ & _ & _ & ?).
    - by apply (Forall_lookup_1 _ _ _ _ Hg Ho). }
  assert (∀ w', idle w' -> ∃ p, linked p w') as Hidle by (intros w' [? _]; by eexists).
  case_decide; [eapply (only_keeps idle); [repeat keeps_step|done|done]|].
  case_decide; [eapply (only_keeps idle); [repeat keeps_step|done|done]|].
  prog_bind. eapply only_mono; [by apply only_mgrt|]. intros m w2 [p Hw2].
  eapply (only_keeps (linked p)); [repeat keeps_step|done|by eexists].
Qed.
End two.

(** ** The names of both servers *)
Lemma runs_and {S Srv Net A} (m : prog (world S Srv Net) A) w P (Q : A -> world S Srv Net -> Prop) :
  runs m w P -> only m w Q -> runs m w (λ a w' t, P a w' t ∧ Q a w').
Proof. intros (a & w' & E & t & Et & HP) HQ. exists a, w'. split; [done|]. exists t. auto. Qed.

Lemma add_names_lookup db xs kss ks :
  kss !! Z.to_nat db = Some ks -> add_names db xs kss !! Z.to_nat db = Some (list_to_set xs ∪ ks).
Proof.
  revert kss ks. induction xs as [|x xs IH]; intros kss ks Hks; cbn [add_names foldl list_to_set].
  - by rewrite union_empty_l_L.
  - unfold add_names in IH. rewrite (IH _ ({[x]} ∪ ks)); [by rewrite (assoc_L (∪)), (comm_L (∪) (list_to_set xs))|].
    unfold add_name. by rewrite list_lookup_alter_eq, Hks.
Qed.

Section safe.
Context {S Srv Srv2 Net2 : Type} `{HS : RedisStrings S} `{HV : !RedisServer S Srv} `{HV2 : !RedisServer S Srv2}.
Context `{HR : !RedisStringsOk S} `{HVok : !RedisServerOk S Srv} `{HVok2 : !RedisServerOk S Srv2}.
Context (make : list byte -> S) (make_content : ∀ b, content (make b) = b).
Implicit Types (w : world S Srv (target S Srv2 Net2)) (os : list (rdb_dump_obj S)).
Notation names w := (sp_names (srv_spec (w_srv w))).

(** The other server, connected and in order: its RESTORE always has a reply, it
    can index the keys, and either the module there does not block its clients
    ([asy]) or its RESTORE of these keys does not fail, now and later. *)
Record target_ok (asy : bool) (db : Z) os w : Prop := {
  to_answers : restore_answers (Srv := Srv2);
  to_tells : asy = false ∨ ∃ P : Srv2 -> Prop,
    P (w_srv (tg_world (w_net w))) ∧ never_refuses (S := S) (key_name <$> os) P;
  to_follows : follows (tg_world (w_net w));
  to_db : valid_db (srv_spec (w_srv (tg_world (w_net w)))) db;
  to_idle : tg_queue (w_net w) = ∅;
  to_index : Forall (λ o, indexable (Srv := Srv2) db (key_name o)) os
}.

(** Every key that was here is here or there; what has gone was restored there
    with its value. *)
Definition none_lost (db : Z) os w w' : Prop :=
  ∃ ks ks' ks2 t2, names w !! Z.to_nat db = Some ks ∧ names w' !! Z.to_nat db = Some ks' ∧
    names (tg_world (w_net w')) !! Z.to_nat db = Some ks2 ∧ ks ⊆ ks' ∪ ks2 ∧
    w_trace (tg_world (w_net w')) = w_trace (tg_world (w_net w)) ++ t2 ∧
    ∀ x, x ∈ ks -> x ∉ ks' -> ∃ o, o ∈ os ∧ key_name o = x ∧ obj_restore o ∈ restore_calls t2.

Lemma gone_was_restored asy (P : Srv2 -> Prop) db keys os w w' r t p :
  valid_db (srv_spec (w_srv w)) db -> Forall2 (dumps (w_srv w) db) keys os -> target_ok asy db os w ->
  w_trace w' = w_trace w ++ t -> migrated db keys os w r w' t -> linked (Srv2 := Srv2) asy P db w p w' ->
  none_lost db os w w'.
Proof using Type.
  intros (ks & Hks & _)%db_lookup Hd [_ _ Htf Htdb _ _] Et (_ & _ & _ & _ & t1 & t2 & -> & _ & _ & _ & Hn & Hcase)
    (t' & Et' & _ & u & Eu & _ & _ & _ & Nu & Hall).
  rewrite Et in Et'. apply app_inv_head in Et' as <-. apply db_lookup in Htdb as (ks2 & Hks2 & _).
  pose proof (del_names_lookup db (unlinked t2) _ _ Hks) as Hks'. rewrite <- Hn in Hks'.
  pose proof (add_names_lookup db (restored_names u) _ _ Hks2) as Hks2'. rewrite <- Nu in Hks2'.
  assert (∀ x, x ∈ ks -> x ∉ ks ∖ list_to_set (content <$> unlinked t2) ->
    ∃ o, o ∈ os ∧ key_name o = x ∧ obj_restore o ∈ restore_calls u ∧ x ∈ restored_names u) as Hgone.
  { intros x Hx Hx'. assert (x ∈ content <$> unlinked t2) as (k & -> & Hk)%list_elem_of_fmap.
    { destruct (decide (x ∈ content <$> unlinked t2)) as [|Hno]; [done|]. destruct Hx'.
      apply elem_of_difference. by rewrite elem_of_list_to_set. }
    apply unlinked_unlinks in Hk. destruct Hcase as [[_ ->]|(Hdel & [l ->] & _)]; [by apply not_elem_of_nil in Hk|].
    assert (k ∈ unlinks t2 ++ l) as [i Hi]%list_elem_of_lookup by (apply elem_of_app; by left).
    destruct (Forall2_lookup_l _ _ _ _ _ Hd Hi) as (o & Ho & _ & _ & <- & _). apply list_elem_of_lookup_2 in Ho.
    exists o. split; [done|]. split; [done|]. rewrite delivered_app in Hall. apply Forall_app in Hall as [Hall _].
    rewrite Hdel in Hall. rewrite restore_sent. apply (proj1 (Forall_forall _ _) Hall (obj_item o)).
    by apply list_elem_of_fmap_2. }
  eexists ks, _, _, u. split_and!; try done.
  - intros x Hx. destruct (decide (x ∈ ks ∖ list_to_set (content <$> unlinked t2))) as [|Hno];
      [by apply elem_of_union_l|]. destruct (Hgone x Hx Hno) as (_ & _ & _ & _ & ?).
    by apply elem_of_union_r, elem_of_union_l, elem_of_list_to_set.
  - intros x Hx Hno. destruct (Hgone x Hx Hno) as (o & ? & ? & ? & _). by exists o.
Qed.

(** C2. No key is lost between two servers with the module and no other client.
    The keys are such that DUMP and PTTL answer for them and the other server can
    index their names (no NUL in them, no stream or value of a module), and the
    module there does not block its clients, or if it does ([asy]) its RESTORE of
    these keys does not fail.  Then, whatever connections, commands and replies the network
    loses, and however the keys are sent, [migrateKeys] returns, each server's
    index follows its keyspace, and every key of the database is afterwards on the
    sender or on the other server; one that has gone from the sender was restored
    there with its value.  (With [asy] and a RESTORE that fails a key can be on
    neither: C39.) *)
Theorem migration_loses_nothing asy stack pool tid db host port timeoutMS keys os mgrtType w :
  follows w -> valid_db (srv_spec (w_srv w)) db -> cache_wf w ->
  mgrt_args (HN := target_net (Srv := Srv2) (Net := Net2) make asy) stack host port pool tid ->
  keys ≠ [] -> Forall2 (dumps (w_srv w) db) keys os -> target_ok asy db os w ->
  runs (migrateKeys (HN := target_net make asy) stack pool tid db host port timeoutMS keys mgrtType) w (λ _ w' _,
    follows w' ∧ follows (tg_world (w_net w')) ∧ none_lost db os w w').
Proof using HR make_content.
  intros Hw Hdb Hc Hargs Hne Hd Hok. pose proof Hok as [Ha Hto Htf Htdb Hq Hidx].
  assert (∃ P : Srv2 -> Prop, (asy = true -> P (w_srv (tg_world (w_net w)))) ∧
    (asy = false ∨ never_refuses (S := S) (key_name <$> os) P)) as (P & HP & Htells).
  { destruct Hto as [->|(P & HP & Hn)]; [exists (λ _, True); auto|exists P; auto]. }
  assert (Forall (λ o, good (S := S) (Srv2 := Srv2) (key_name <$> os) db (obj_item o)) os) as Hg.
  { apply Forall_forall. intros o Ho. split_and!; [done|by apply (proj1 (Forall_forall _ _) Hidx)|].
    by apply (list_elem_of_fmap_2 key_name). }
  assert (idle (Srv2 := Srv2) asy P db w w) as Hidle.
  { split; [|done]. exists []. rewrite app_nil_r. split_and!; [done|done|]. exists []. rewrite app_nil_r. by split_and!. }
  destruct (runs_and _ _ _ _ (migrate_keys_ok (HN := target_net make asy) stack pool tid db host port timeoutMS
      keys os mgrtType w Hw Hdb Hc Hargs Hne Hd)
    (only_migrate_keys make make_content Ha asy (key_name <$> os) P Htells db w stack pool tid host port timeoutMS keys
      os mgrtType w Hd Hg (ma_stack _ _ _ _ _ Hargs) (proj1 (rep_pools _ _ Hw)) Hidle)) as (r & w' & E & t & Et & Hm & p & Hp).
  exists r, w'. split; [done|]. exists t. split_and!; [done|by destruct Hm|by destruct (linked_target asy P db w p w' Hp)|].
  by eapply gone_was_restored.
Qed.
End safe.
