(* ===== verification/AsyncProps.v ===== *)
(** * AsyncProps: a blocked client is not told of an error

    SLOTSRESTORE with [async] replies with the number its thread leaves, and the
    number is -1 after an error: an integer, which the sender takes for
    success. *)

From S2P Require Import Prelude.
From S2P Require Import KeySlot.
From S2P Require Import Numbers.
From S2P Require Import Slots.
From S2P Require Import Refinement.
From S2P Require Import Prog.
From S2P Require Import Server.
From S2P Require Import Commands.
From S2P Require Import Migrate.
From S2P Require Import MigrateProps.
From S2P Require Import Restore.
From S2P Require Import Async.
From S2P Require Import TwoServers.
From S2P Require Import TwoServersSpec.
Local Open Scope Z_scope.

Section async.
Context {S Srv Net : Type} `{HS : RedisStrings S} `{HV : !RedisServer S Srv}.
Implicit Types (w : world S Srv Net) (argv : list S).

Definition restore_arity argv : Prop := (4 <= length argv)%nat ∧ Z.rem (Z.of_nat (length argv) - 1) 3 = 0.

Lemma restore_arity_ok argv :
  restore_arity argv -> (Z.of_nat (length argv) <? 4) || negb (Z.rem (Z.of_nat (length argv) - 1) 3 =? 0) = false.
Proof. intros [Hl ->]. rewrite (proj2 (Z.ltb_ge _ _)) by lia. done. Qed.

Lemma restore_args_arity argv n cmd : length argv = (3 * n)%nat -> (0 < n)%nat -> restore_arity (cmd :: argv).
Proof.
  intros Hl Hn. unfold restore_arity. rewrite length_cons, Hl. split; [lia|].
  replace (Z.of_nat (Datatypes.S (3 * n)) - 1) with (Z.of_nat n * 3) by lia. by rewrite Z.rem_mul.
Qed.

(** The replies to a SLOTSRESTORE that fails. *)
Lemma sync_replies db argv w w' :
  restore_arity argv -> slotsRestoreCmd db argv w = Some (SLOTS_MGRT_ERR, w') ->
  restore_replies false true db argv w = Some ([ReplyError REDISXSLOT_ERRORMSG_MGRT], w').
Proof.
  intros Ha E. unfold restore_replies, SlotsRestore_RedisCommand. rewrite restore_arity_ok by done.
  unfold mbind, prog_bind. by rewrite E.
Qed.

Lemma async_replies db argv w w' :
  restore_arity argv -> slotsRestoreCmd db (map (λ s, (takeAndRef s).2) argv) w = Some (SLOTS_MGRT_ERR, w') ->
  restore_replies true true db argv w = Some ([ReplyLongLong (-1)], w').
Proof.
  intros Ha E. unfold restore_replies, SlotsRestoreAsyncBlock_RedisCommand. rewrite restore_arity_ok by done.
  cbn [copy_args]. unfold SlotsRestoreAsyncBlock_ThreadMain. cbn [bg_argv]. unfold mbind, prog_bind. by rewrite E.
Qed.
End async.

Section sender.
Context {S Srv Srv2 Net2 : Type} `{HS : RedisStrings S} `{HV2 : !RedisServer S Srv2}.
Context (make : list byte -> S).
Implicit Types (w : world S Srv (target S Srv2 Net2)) (argv : list (list byte * list byte * list byte)).

(** The arguments the other server gets. *)
Definition split_argv argv (s e : nat) : list S :=
  make <$> bytes_of "SLOTSRESTORE" :: (take (e - s) (drop s argv) ≫= arg_list).

Lemma split_argv_arity argv s e : (s < e <= length argv)%nat -> restore_arity (split_argv argv s e).
Proof.
  intros He. unfold split_argv. cbn [fmap list_fmap]. apply (restore_args_arity _ (e - s)); [|lia].
  rewrite length_fmap, length_arg_lists, length_take, length_drop. lia.
Qed.

(** What a command of a migration gives with the other server's answer. *)
Lemma split_answer asy ctx db argv s e w rs u :
  (s < e <= length argv)%nat -> tg_db (w_net w) !! ctx = Some db -> tg_lost (w_net w) = [] ->
  restore_replies asy true db (split_argv argv s e) (tg_world (w_net w)) = Some (rs, u) ->
  ∃ w', doSplitRestoreCommand (HN := target_net make asy) ctx argv s e w =
    Some (match reply_type rs with REDIS_REPLY_ERROR => SLOTS_MGRT_ERR | REDIS_REPLY_OTHER => Z.of_nat e - Z.of_nat s end, w') ∧
    tg_world (w_net w') = u.
Proof.
  intros He Hdb Hlost E. unfold doSplitRestoreCommand. rewrite (proj2 (Z.leb_gt _ _)) by lia.
  rewrite decide_False by lia. unfold split_argv in E. set (args := take (e - s) (drop s argv) ≫= arg_list) in *.
  unfold mbind, prog_bind, command_argv. cbn [redisCommandArgv target_net].
  unfold tg_run, arrives. rewrite Hlost, Hdb. change (default 0 (Some db)) with db. rewrite E. destruct (reply_type rs); by eexists.
Qed.

(** C39. An error on the other server is taken for success when that server
    blocks its clients: when SLOTSRESTORE fails there, the sender gets an error
    if the server does not have [async], and with [async] the reply is an
    integer, and the command counts all its objects as sent; the keys are deleted
    then. *)
Theorem async_error_acknowledged ctx db argv s e w u u' :
  (s < e <= length argv)%nat -> tg_db (w_net w) !! ctx = Some db -> tg_lost (w_net w) = [] ->
  slotsRestoreCmd db (split_argv argv s e) (tg_world (w_net w)) = Some (SLOTS_MGRT_ERR, u) ->
  slotsRestoreCmd db (map (λ s, (takeAndRef s).2) (split_argv argv s e)) (tg_world (w_net w)) = Some (SLOTS_MGRT_ERR, u') ->
  (∃ w', doSplitRestoreCommand (HN := target_net make false) ctx argv s e w = Some (SLOTS_MGRT_ERR, w')) ∧
  (∃ w', doSplitRestoreCommand (HN := target_net make true) ctx argv s e w = Some (Z.of_nat (e - s), w') ∧
    tg_world (w_net w') = u').
Proof.
  intros He Hdb Hlost E1 E2. pose proof (split_argv_arity argv s e He) as Ha. split.
  - destruct (split_answer false ctx db argv s e w _ _ He Hdb Hlost (sync_replies db _ _ _ Ha E1)) as (w' & E & _).
    by exists w'.
  - destruct (split_answer true ctx db argv s e w _ _ He Hdb Hlost (async_replies db _ _ _ Ha E2)) as (w' & E & Hw').
    exists w'. split; [|done]. rewrite E. cbn [reply_type]. by rewrite Nat2Z.inj_sub by lia.
Qed.
End sender.
