(* ===== verification/TwoServersExamples.v ===== *)
(** * TwoServersExamples: two servers with the module

    The sender of MigrateExamples and an empty server, in sync and with [async],
    and a server that refuses every RESTORE: with [async] a key is lost. *)

From S2P Require Import Prelude.
From S2P Require Import KeySlot.
From S2P Require Import Numbers.
From S2P Require Import Slots.
From S2P Require Import SlotsInv.
From S2P Require Import Events.
From S2P Require Import EventsProps.
From S2P Require Import Refinement.
From S2P Require Import SkipListExamples.
From S2P Require Import RefinementExamples.
From S2P Require Import Prog.
From S2P Require Import Server.
From S2P Require Import ServerSpec.
From S2P Require Import ConnCache.
From S2P Require Import Commands.
From S2P Require Import CommandsExamples.
From S2P Require Import Migrate.
From S2P Require Import MigrateProps.
From S2P Require Import MigratePool.
From S2P Require Import MigrateSpec.
From S2P Require Import MigrateExamples.
From S2P Require Import Restore.
From S2P Require Import RestoreProps.
From S2P Require Import RestoreExamples.
From S2P Require Import Async.
From S2P Require Import TwoServers.
From S2P Require Import TwoServersProps.
From S2P Require Import TwoServersSpec.
From S2P Require Import AsyncProps.
Local Open Scope Z_scope.

(** ** A server with no key *)
Lemma ex_empty_small : small (sp_names (spec_init 1024 2)).
Proof. by apply (bool_decide_unpack (small _)); vm_compute. Qed.

Definition ex_empty_world : world (list byte) ex_server () :=
  World (ExServer (sp_names (spec_init 1024 2)) ex_empty_small) ex_module () ∅ ∅ [].

(** The sender, connected to it; the first reply to a command is lost. *)
Definition ex_pair : world (list byte) ex_server (target (list byte) ex_server ()) :=
  World ex_full_server ex_full_module (Target ex_empty_world 1 ∅ ∅ [Delivered; Delivered; LostReply]) ∅ ∅ [].

Lemma ex_answers : restore_answers (S := list byte) (Srv := ex_server).
Proof. intros srv db k ttlms val. cbn. by destruct (ex_with srv _). Qed.

(** The empty server has room for the keys: no others come. *)
Definition ex_room (srv : ex_server) : Prop := Forall (λ ks, ks ⊆ list_to_set ex_keys) (es_names srv).

Lemma ex_room_small (names : list (gset (list byte))) : Forall (λ ks, ks ⊆ list_to_set ex_keys) names -> small names.
Proof.
  intros H. eapply Forall_impl; [exact H|]. intros ks Hks. apply subseteq_size in Hks.
  assert (size (list_to_set ex_keys : gset (list byte)) = 2%nat) as E by (vm_compute; reflexivity).
  rewrite E in Hks. eapply Z.le_lt_trans; [exact (inj_le _ _ Hks)|done].
Qed.

Lemma ex_never_refuses : never_refuses (S := list byte) (key_name <$> ex_objs) ex_room.
Proof.
  intros srv db k ttlms val r evs srv' Hsrv Hk E. cbn in E.
  assert (Forall (λ ks, ks ⊆ list_to_set ex_keys) (add_name db k (es_names srv))) as Hnames.
  { unfold add_name. apply Forall_alter; [done|]. intros ks _ Hks. apply union_subseteq. split; [|done].
    apply singleton_subseteq_l, elem_of_list_to_set. exact Hk. }
  destruct (ex_with srv _) as [srv1|] eqn:Ew.
  - injection E as <- _ <-. split; [done|]. unfold ex_room. by rewrite (ex_with_names _ _ _ Ew).
  - unfold ex_with in Ew. destruct (decide _) as [|Hno]; [done|]. by destruct Hno; apply ex_room_small.
Qed.

Lemma ex_pair_ok asy : target_ok asy 0 ex_objs ex_pair.
Proof.
  split.
  - exact ex_answers.
  - right. exists ex_room. split; [|exact ex_never_refuses]. by apply (bool_decide_unpack _); vm_compute.
  - apply (init_represents ex_seed [] 1024 2 0 true false); lia.
  - apply ex_valid; [vm_compute; reflexivity|lia].
  - done.
  - exact ex_objs_indexable.
Qed.

Lemma ex_pair_args asy :
  mgrt_args (HN := target_net (Srv := ex_server) (Net := ()) (λ b : list byte, b) asy) ex_buf ex_host ex_port ex_pool 7.
Proof.
  split; [done| |apply ex_pool_ok|done]. split; [vm_compute; by eexists|].
  intros net h p c errstr net' E. cbn in E. destruct (arrives net) as [[] tg]; [done|..]. all: injection E as _ <- _; vm_compute; lia.
Qed.

Lemma ex_make_content (b : list byte) : content b = b.
Proof. done. Qed.

Lemma ex_pair_dump : Forall2 (dumps (w_srv ex_pair) 0) ex_keys ex_objs.
Proof. constructor; [|constructor; [|constructor]]; apply ex_dumps; vm_compute; reflexivity. Qed.

Lemma ex_pair_wf : cache_wf ex_pair.
Proof. split; cbn [ex_pair w_cache]; intros *; by rewrite lookup_empty. Qed.

Lemma ex_pair_db : valid_db (srv_spec (w_srv ex_pair)) 0.
Proof. apply ex_valid; [vm_compute; reflexivity|lia]. Qed.

(** With a server that does not block its clients and with one that does. *)
Lemma migration_loses_nothing_witness :
  runs (migrateKeys (HN := target_net (λ b : list byte, b) false) ex_buf ex_pool 7 0 ex_host ex_port 1000 ex_keys None) ex_pair
    (λ _ w' _, follows w' ∧ follows (tg_world (w_net w')) ∧ none_lost 0 ex_objs ex_pair w') ∧
  runs (migrateKeys (HN := target_net (λ b : list byte, b) true) ex_buf ex_pool 7 0 ex_host ex_port 1000 ex_keys None) ex_pair
    (λ _ w' _, follows w' ∧ follows (tg_world (w_net w')) ∧ none_lost 0 ex_objs ex_pair w').
Proof.
  split.
  - apply (migration_loses_nothing (λ b : list byte, b) ex_make_content false ex_buf ex_pool 7 0 ex_host ex_port 1000
      ex_keys ex_objs None ex_pair);
      [exact ex_full_represents|exact ex_pair_db|exact ex_pair_wf|exact (ex_pair_args false)|done|exact ex_pair_dump|exact (ex_pair_ok false)].
  - apply (migration_loses_nothing (λ b : list byte, b) ex_make_content true ex_buf ex_pool 7 0 ex_host ex_port 1000
      ex_keys ex_objs None ex_pair);
      [exact ex_full_represents|exact ex_pair_db|exact ex_pair_wf|exact (ex_pair_args true)|done|exact ex_pair_dump|exact (ex_pair_ok true)].
Defined.

Definition ex_both {Srv} (names : Srv -> list (gset (list byte)))
    (o : option (Z * world (list byte) ex_server (target (list byte) Srv ()))) :=
  (λ '(r, w), (r, es_names (w_srv w), names (w_srv (tg_world (w_net w))))) <$> o.

(** The keys are on both servers when the reply is lost, and move otherwise. *)
Example ex_reply_lost :
  ex_both es_names (migrateKeys (HN := target_net (λ b : list byte, b) false) ex_buf ex_pool 7 0 ex_host ex_port 1000 ex_keys None ex_pair) =
  Some (SLOTS_MGRT_ERR, ex_full_names, [list_to_set ex_keys; ∅]).
Proof. by apply (bool_decide_unpack _); vm_compute. Qed.

(** A command that is lost changes nothing on either server. *)
Definition ex_pair_down : world (list byte) ex_server (target (list byte) ex_server ()) :=
  World ex_full_server ex_full_module (Target ex_empty_world 1 ∅ ∅ [Delivered; Delivered; LostCommand]) ∅ ∅ [].

Example ex_command_lost :
  ex_both es_names (migrateKeys (HN := target_net (λ b : list byte, b) false) ex_buf ex_pool 7 0 ex_host ex_port 1000 ex_keys None ex_pair_down) =
  Some (SLOTS_MGRT_ERR, ex_full_names, [∅; ∅]).
Proof. by apply (bool_decide_unpack _); vm_compute. Qed.

Definition ex_pair_up : world (list byte) ex_server (target (list byte) ex_server ()) :=
  World ex_full_server ex_full_module (Target ex_empty_world 1 ∅ ∅ []) ∅ ∅ [].

Example ex_moved :
  ex_both es_names (migrateKeys (HN := target_net (λ b : list byte, b) false) ex_buf ex_pool 7 0 ex_host ex_port 1000 ex_keys
    (Some (bytes_of "withpipeline")) ex_pair_up) =
  Some (2, [{[ex_key "{tag}2"]}; ∅], [list_to_set ex_keys; ∅]).
Proof. by apply (bool_decide_unpack _); vm_compute. Qed.

(** ** A server that refuses RESTORE *)
Record ex_refusing := Refusing { rf_names : list (gset (list byte)) }.

#[export] Instance ex_refusing_server : RedisServer (list byte) ex_refusing := {
  RedisModule_Call srv db c :=
    (match c with RESTORE _ _ _ => Some REDISMODULE_REPLY_ERROR | _ => Some REDISMODULE_REPLY_NULL end, [], srv);
  RedisModule_KeyType srv db key := KEYTYPE_EMPTY;
  RedisModule_Milliseconds _ := 1700000000000;
  random_draws _ := (5%nat, ex_rand);
  pool_order _ n := rev (seq 0 n);
  detached_db := 0
}.

Definition ex_refused : world (list byte) ex_server (target (list byte) ex_refusing ()) :=
  World ex_full_server ex_full_module
    (Target (World (Refusing [∅; ∅]) ex_module () ∅ ∅ []) 2 {[1%nat := 0]} ∅ []) ∅ ∅ [].

Definition ex_argv : list (list byte * list byte * list byte) := [(ex_key "other", bytes_of "0", ex_value)].

Lemma ex_result {A B} (o : option (A * B)) a b : fst <$> o = Some a -> o = Some (a, default b (snd <$> o)).
Proof. by destruct o as [[]|]; intros [= ->]. Qed.

Lemma ex_restore_refused :
  slotsRestoreCmd 0 (split_argv (λ b : list byte, b) ex_argv 0 1) (tg_world (w_net ex_refused)) =
  Some (SLOTS_MGRT_ERR, default (tg_world (w_net ex_refused))
    (snd <$> slotsRestoreCmd 0 (split_argv (λ b : list byte, b) ex_argv 0 1) (tg_world (w_net ex_refused)))).
Proof. apply ex_result. vm_compute. reflexivity. Qed.

Lemma async_error_acknowledged_witness :
  (∃ w', doSplitRestoreCommand (HN := target_net (λ b : list byte, b) false) 1 ex_argv 0 1 ex_refused = Some (SLOTS_MGRT_ERR, w')) ∧
  (∃ w', doSplitRestoreCommand (HN := target_net (λ b : list byte, b) true) 1 ex_argv 0 1 ex_refused = Some (1, w') ∧
    tg_world (w_net w') = default (tg_world (w_net ex_refused))
      (snd <$> slotsRestoreCmd 0 (split_argv (λ b : list byte, b) ex_argv 0 1) (tg_world (w_net ex_refused)))).
Proof.
  eapply (async_error_acknowledged (λ b : list byte, b) 1 0 ex_argv 0 1 ex_refused).
  - cbn. lia.
  - reflexivity.
  - reflexivity.
  - exact ex_restore_refused.
  - exact ex_restore_refused.
Defined.

(** The sender keeps its keys when the refusal is an error, and deletes them when
    the server has [async]: they are on neither server. *)
Example ex_refusal :
  ex_both rf_names (migrateKeys (HN := target_net (λ b : list byte, b) false) ex_buf ex_pool 7 0 ex_host ex_port 1000 ex_keys None ex_refused) =
  Some (SLOTS_MGRT_ERR, ex_full_names, [∅; ∅]).
Proof. by apply (bool_decide_unpack _); vm_compute. Qed.

Example ex_keys_lost :
  ex_both rf_names (migrateKeys (HN := target_net (λ b : list byte, b) true) ex_buf ex_pool 7 0 ex_host ex_port 1000 ex_keys None ex_refused) =
  Some (2, [{[ex_key "{tag}2"]}; ∅], [∅; ∅]).
Proof. by apply (bool_decide_unpack _); vm_compute. Qed.
