(* ===== verification/ModuleInit.v ===== *)
(** * ModuleInit: loading the module

    [redisModule_SlotsInit] and [RedisModule_OnLoad] of module.c: the
    configuration of the server, the arguments of the module with their bounds,
    the index, and the commands.  [config] is what CONFIG GET replies with, item
    by item; the handlers of the events, which are subscribed to here, are
    Events. *)

From S2P Require Import Prelude.
From S2P Require Import KeySlot.
From S2P Require Import Numbers.
From S2P Require Import Slots.
From S2P Require Import SlotsInv.
From S2P Require Import Events.
From S2P Require Import Refinement.
From S2P Require Import Prog.
From S2P Require Import Server.
From S2P Require Import Commands.
From S2P Require Import MgrtCommands.
From S2P Require Import Async.
Local Open Scope Z_scope.

Definition DEFAULT_HASH_SLOTS_SIZE : Z := 0x3ff + 1.
Definition MAX_HASH_SLOTS_SIZE : Z := 0xffff + 1.
Definition MAX_NUM_THREADS : Z := 128.

(** The functions of the commands. *)
Inductive command_func :=
  | SlotsHashKey | SlotsInfo | SlotsScan | SlotsDispatch | SlotsRestore.

Section load.
Context {S : Type} `{HS : RedisStrings S}.
Implicit Types (argv : list S) (config : string -> list S).

(** [NULL] unless the reply has two items. *)
Definition redisModule_GetConfigItem config (name : string) : option S :=
  match config name with [_; v] => Some v | _ => None end.

(** The arguments as the bounds let them pass. *)
Definition slots_size_arg argv : option Z :=
  size ← arg_ll argv 0 DEFAULT_HASH_SLOTS_SIZE;
  if size <=? 0 then None else if MAX_HASH_SLOTS_SIZE <? size then None else Some size.

Definition num_threads_arg argv : option Z :=
  n ← arg_ll argv 1 0;
  if n <? 0 then None else if MAX_NUM_THREADS <? n then None else Some n.

Definition async_arg argv : bool :=
  match argv !! 2%nat with Some s => strcasecmp_eq (content s) (bytes_of "async") | None => false end.

(** A missing item is freed as [NULL]; a negative number of databases is no size
    of an array.  With the index there is the list of CPUs, or [NULL]. *)
Definition redisModule_SlotsInit (seed : list byte) (tab0 : list Z) config argv :
    option (rm_status * option (slots_state S * option (list byte))) :=
  str ← redisModule_GetConfigItem config "databases";
  let databases := default 0 (RedisModule_StringToLongLong str) in
  str ← redisModule_GetConfigItem config "activerehashing";
  let activerehashing := strcasecmp_eq (content str) (bytes_of "yes") in
  match slots_size_arg argv with
  | None => Some (REDISMODULE_ERR, None)
  | Some size =>
    match num_threads_arg argv with
    | None => Some (REDISMODULE_ERR, None)
    | Some threads =>
      if i32 databases <? 0 then None
      else
        let st := Slots_Init seed tab0 (u32 size) (i32 databases) (i32 threads) activerehashing (async_arg argv) in
        Some (REDISMODULE_OK, Some (st, content <$> argv !! 3%nat))
    end
  end.

(** Name, flags and function of each command. *)
Definition commands : list (string * string * command_func) :=
  let readonly := "readonly"%string in
  let write := "write deny-oom"%string in
  [("slotshashkey"%string, readonly, SlotsHashKey);
   ("slotsinfo"%string, readonly, SlotsInfo);
   ("slotsscan"%string, readonly, SlotsScan);
   ("slotsmgrtone"%string, write, SlotsDispatch);
   ("slotsmgrtslot"%string, write, SlotsDispatch);
   ("slotsmgrttagone"%string, write, SlotsDispatch);
   ("slotsmgrttagslot"%string, write, SlotsDispatch);
   ("slotsrestore"%string, write, SlotsRestore);
   ("slotsdel"%string, write, SlotsDispatch)].

(** The commands created before the first that cannot be. *)
Fixpoint create_commands (create : string -> bool) (cmds : list (string * string * command_func)) :
    bool * list (string * string * command_func) :=
  match cmds with
  | [] => (true, [])
  | cmd :: cmds =>
    if create cmd.1.1 then
      let '(ok, created) := create_commands create cmds in (ok, cmd :: created)
    else (false, [])
  end.

(** [registered]: what [RedisModule_Init] says; [create]: the names the server
    has no command of.  The state that is there when a command cannot be created
    stays. *)
Definition RedisModule_OnLoad (registered : bool) (create : string -> bool) (seed : list byte) (tab0 : list Z)
    config argv : option (rm_status * option (module_state S) * list (string * string * command_func)) :=
  if negb registered then Some (REDISMODULE_ERR, None, [])
  else
    '(status, st) ← redisModule_SlotsInit seed tab0 config argv;
    match status, st with
    | REDISMODULE_OK, Some (st, _) =>
      let '(ok, created) := create_commands create commands in
      Some (if ok then REDISMODULE_OK else REDISMODULE_ERR,
            Some (Module st notify_init (Cron 0 0 0)), created)
    | _, _ => Some (REDISMODULE_ERR, None, [])
    end.

Definition RedisModule_OnUnload (st : slots_state S) : option (list (str_event S) * slots_state S) := Slots_Free st.
End load.

(** ** What loading gives *)
Section props.
Context {S : Type} `{HS : RedisStrings S} `{HR : !RedisStringsOk S}.
Implicit Types (argv : list S) (config : string -> list S).

(** The arguments the module takes. *)
Definition accepts argv (size threads : Z) : Prop :=
  arg_ll argv 0 DEFAULT_HASH_SLOTS_SIZE = Some size ∧ 1 <= size <= 65536 ∧
  arg_ll argv 1 0 = Some threads ∧ 0 <= threads <= 128.

(** The configuration of a server with [dbs] databases. *)
Record configured config (dbs : Z) : Prop := {
  cf_databases : ∃ k v, config "databases"%string = [k; v] ∧ RedisModule_StringToLongLong v = Some dbs;
  cf_rehashing : ∃ k v, config "activerehashing"%string = [k; v];
  cf_range : 0 < dbs < 2 ^ 31
}.

Lemma slots_size_arg_iff argv size :
  slots_size_arg argv = Some size <-> arg_ll argv 0 DEFAULT_HASH_SLOTS_SIZE = Some size ∧ 1 <= size <= 65536.
Proof.
  unfold slots_size_arg, MAX_HASH_SLOTS_SIZE. destruct (arg_ll argv 0 DEFAULT_HASH_SLOTS_SIZE) as [n|]; cbn [mbind option_bind].
  2: { by split; [|intros [? _]]. }
  destruct (Z.leb_spec n 0); [split; [done|]; intros [[= ->] ?]; lia|].
  destruct (Z.ltb_spec (0xffff + 1) n); (split; [intros [= ->]|intros [[= ->] ?]]); [lia|split; [done|lia]|done].
Qed.

Lemma num_threads_arg_iff argv n :
  num_threads_arg argv = Some n <-> arg_ll argv 1 0 = Some n ∧ 0 <= n <= 128.
Proof.
  unfold num_threads_arg, MAX_NUM_THREADS. destruct (arg_ll argv 1 0) as [m|]; cbn [mbind option_bind].
  2: { by split; [|intros [? _]]. }
  destruct (Z.ltb_spec m 0); [split; [done|]; intros [[= ->] ?]; lia|].
  destruct (Z.ltb_spec 128 m); (split; [intros [= ->]|intros [[= ->] ?]]); [lia|split; [done|lia]|done].
Qed.

Lemma create_all create cmds : (∀ name, create name = true) -> create_commands create cmds = (true, cmds).
Proof. intros Hc. induction cmds as [|cmd cmds IH]; [done|]. cbn. by rewrite Hc, IH. Qed.

(** C18. Loading accepts exactly a number of slots from 1 to 65536 and a number of
    threads from 0 to 128, or their defaults, and creates nothing otherwise; the
    module it loads represents empty databases, follows every run of events that
    can come, and has every command. *)
Theorem RedisModule_OnLoad_spec create seed tab0 config argv dbs :
  configured config dbs -> (∀ name, create name = true) ->
  (∀ size threads, accepts argv size threads -> ∃ ms,
     RedisModule_OnLoad true create seed tab0 config argv = Some (REDISMODULE_OK, Some ms, commands) ∧
     represents ms (spec_init size dbs) ∧ slots_mgrt_threads (g_slots_meta_info (m_slots ms)) = threads ∧
     async (g_slots_meta_info (m_slots ms)) = async_arg argv ∧
     ∀ evs, trace_ok (spec_init size dbs) evs ->
       ∃ refs ms', run ms evs = Some (refs, ms') ∧ represents ms' (spec_run (spec_init size dbs) evs)) ∧
  ((¬ ∃ size threads, accepts argv size threads) ->
     RedisModule_OnLoad true create seed tab0 config argv = Some (REDISMODULE_ERR, None, [])).
Proof using HR.
  intros [(k1 & v1 & E1 & Edbs) (k2 & v2 & E2) Hdbs] Hcreate.
  unfold RedisModule_OnLoad, redisModule_SlotsInit, redisModule_GetConfigItem. cbn [negb].
  rewrite E1, E2, create_all by done. cbn [mbind option_bind]. rewrite Edbs. cbn [from_option id].
  rewrite (i32_small dbs) by lia.
  rewrite (proj2 (Z.ltb_ge _ _)) by lia. split.
  - intros size threads (Hs & Hsr & Ht & Htr).
    rewrite (proj2 (slots_size_arg_iff argv size)), (proj2 (num_threads_arg_iff argv threads)) by done.
    eexists. split; [reflexivity|].
    assert (u32 size = size) as -> by (unfold u32; apply Z.mod_small; lia). rewrite (i32_small threads) by lia.
    pose proof (init_represents seed tab0 size dbs threads (strcasecmp_eq (content v2) (bytes_of "yes")) (async_arg argv) Hsr Hdbs) as Hr.
    split_and!; [exact Hr|done|done|]. intros evs Hevs. by eapply run_ok.
  - intros Hno. destruct (slots_size_arg argv) as [size|] eqn:Es; [|done].
    destruct (num_threads_arg argv) as [threads|] eqn:Et; [|done]. destruct Hno. exists size, threads.
    apply slots_size_arg_iff in Es as []. by apply num_threads_arg_iff in Et as [].
Qed.
End props.

(** ** Every command that is dispatched has a handler *)
Section dispatch.
Context {S Srv Net : Type} `{HS : RedisStrings S} `{HV : !RedisServer S Srv} `{HN : !Hiredis Net}.

Lemma strcasecmp_trans a b c :
  strcasecmp_eq a b = true -> strcasecmp_eq a c = strcasecmp_eq b c.
Proof. unfold strcasecmp_eq. intros E%bool_decide_eq_true. by rewrite E. Qed.

(** "use this func, must check whether add cmd handler in dispatchCmd": in
    whatever case its name is written, a command registered with
    [SlotsDispatchRedisCommand] reaches a handler; with no argument the handler
    rejects the arity. *)
Lemma registered_dispatched stack pool tid db fuel random h name flags (argv0 : S) (w : world S Srv Net) :
  (name, flags, SlotsDispatch) ∈ commands -> strcasecmp_eq (content argv0) (bytes_of name) = true ->
  dispatchCmd stack pool tid db fuel random h [argv0] w = Some (([ReplyWrongArity], REDISMODULE_OK, h), w).
Proof.
  intros Hin Hname. unfold dispatchCmd. cbn [lookup list_lookup lift]. unfold mbind, prog_bind, lift. cbn beta iota.
  unfold mbind, option_bind. rewrite !(strcasecmp_trans _ _ _ Hname).
  assert (name = "slotsmgrtone" ∨ name = "slotsmgrtslot" ∨ name = "slotsmgrttagone" ∨ name = "slotsmgrttagslot" ∨
    name = "slotsdel")%string as Hn.
  { unfold commands in Hin. repeat (apply elem_of_cons in Hin as [E|Hin]; [first [discriminate E|injection E as -> _; auto 10]|]).
    by apply not_elem_of_nil in Hin. }
  destruct Hn as [->|[->|[->|[->| ->]]]]; reflexivity.
Qed.
End dispatch.
