(* ===== verification/LoadExamples.v ===== *)
(** * LoadExamples: loading the module on a server with 16 databases *)

From S2P Require Import Prelude.
From S2P Require Import Slots.
From S2P Require Import SlotsInv.
From S2P Require Import Events.
From S2P Require Import Refinement.
From S2P Require Import RefinementExamples.
From S2P Require Import Commands.
From S2P Require Import ModuleInit.
Local Open Scope Z_scope.

Definition ex_config (name : string) : list (list byte) :=
  if decide (name = "databases"%string) then [bytes_of "databases"; bytes_of "16"]
  else if decide (name = "activerehashing"%string) then [bytes_of "activerehashing"; bytes_of "yes"]
  else [].

Lemma ex_configured : configured ex_config 16.
Proof. split; [by eexists _, _|by eexists _, _|lia]. Qed.

Definition ex_load_args : list (list byte) := [bytes_of "65536"; bytes_of "128"; bytes_of "ASYNC"; bytes_of "0-3"].

Lemma RedisModule_OnLoad_spec_witness :
  (∀ size threads, accepts ex_load_args size threads -> ∃ ms,
     RedisModule_OnLoad true (λ _, true) ex_seed [] ex_config ex_load_args = Some (REDISMODULE_OK, Some ms, commands) ∧
     represents ms (spec_init size 16) ∧ slots_mgrt_threads (g_slots_meta_info (m_slots ms)) = threads ∧
     async (g_slots_meta_info (m_slots ms)) = async_arg ex_load_args ∧
     ∀ evs, trace_ok (spec_init size 16) evs ->
       ∃ refs ms', run ms evs = Some (refs, ms') ∧ represents ms' (spec_run (spec_init size 16) evs)) ∧
  ((¬ ∃ size threads, accepts ex_load_args size threads) ->
     RedisModule_OnLoad true (λ _, true) ex_seed [] ex_config ex_load_args = Some (REDISMODULE_ERR, None, [])).
Proof.
  apply (RedisModule_OnLoad_spec (λ _, true) ex_seed [] ex_config ex_load_args 16).
  - exact ex_configured.
  - done.
Defined.

(** The arguments above are accepted; one slot too many, and a thread too many,
    are not. *)
Example ex_accepted : accepts ex_load_args 65536 128.
Proof. split_and!; done. Qed.

Definition ex_status (argv : list (list byte)) : option rm_status :=
  (λ '(status, _, _), status) <$> RedisModule_OnLoad true (λ _, true) ex_seed [] ex_config argv.

Example ex_too_many_slots : ex_status [bytes_of "65537"] = Some REDISMODULE_ERR.
Proof. reflexivity. Qed.

Example ex_too_many_threads : ex_status [bytes_of "1024"; bytes_of "129"] = Some REDISMODULE_ERR.
Proof. reflexivity. Qed.

Example ex_no_slots : ex_status [bytes_of "0"] = Some REDISMODULE_ERR.
Proof. reflexivity. Qed.
