(* ===== verification/CpuAffinity.v ===== *)
(** * CpuAffinity: the list of CPUs of the threads that block a client

    setcpuaffinity.c on Linux: [next_token], [next_num] and [setcpuaffinity].  A
    pointer into the string is the rest of the string from there, [NULL] is
    [None], and of two pointers the one with the longer rest is the smaller.
    The set is the argument of [sched_setaffinity]. *)

From S2P Require Import Prelude.
From S2P Require Import Numbers.
From S2P Require Import ConnCache.
Local Open Scope Z_scope.

Fixpoint strchr (s : list byte) (c : byte) : option (list byte) :=
  match s with
  | [] => None
  | b :: s' => if decide (b = c) then Some s else strchr s' c
  end.

Definition next_token (q : option (list byte)) (sep : byte) : option (list byte) :=
  s ← q; t ← strchr s sep; Some (tail t).

Fixpoint skip_digits (s : list byte) : list byte :=
  match s with
  | c :: s' => if isdigit c then skip_digits s' else s
  | [] => []
  end.

Definition ULONG_MAX : Z := 2 ^ 64 - 1.

(** [strtoul] on a digit, converted to [int], and the end of the number. *)
Definition next_num (str : option (list byte)) : option (Z * list byte) :=
  s ← str;
  match s with
  | [] => None
  | c :: _ => if isdigit c then Some (i32 (Z.min (read_digits s 0) ULONG_MAX), skip_digits s) else None
  end.

(** [c1 != NULL && (c2 == NULL || c1 < c2)]. *)
Definition comes_before (c1 c2 : option (list byte)) : bool :=
  match c1, c2 with
  | None, _ => false
  | Some _, None => true
  | Some s1, Some s2 => (length s2 <? length s1)%nat
  end.

Definition CPU_SETSIZE : Z := 1024.

(** [CPU_SET] of a number out of range does nothing. *)
Definition CPU_SET (cpu : Z) (cpuset : gset Z) : gset Z :=
  if (0 <=? cpu) && (cpu <? CPU_SETSIZE) then {[cpu]} ∪ cpuset else cpuset.

(** [while (a <= b)]; the overflow of [a += s] is undefined, and without fuel a
    negative [s] has led to one. *)
Fixpoint set_range (fuel : nat) (a b s : Z) (cpuset : gset Z) : option (gset Z) :=
  if a <=? b then
    match fuel with
    | O => None
    | S fuel =>
      let cpuset := CPU_SET a cpuset in
      if decide (- 2 ^ 31 <= a + s < 2 ^ 31) then set_range fuel (a + s) b s cpuset else None
    end
  else Some cpuset.

(** The range behind the first number [a]: [b], [s] and [end], or nothing when the
    function returns. *)
Definition range_rest (a : Z) (p : list byte) : option (Z * Z * list byte) :=
  let c1 := next_token (Some p) "-" in
  let c2 := next_token (Some p) "," in
  if comes_before c1 c2 then
    '(b, e) ← next_num c1;
    let c1 := match e with [] => None | _ => next_token (Some e) ":" end in
    if comes_before c1 c2 then
      '(s, e) ← next_num c1;
      if decide (s = 0) then None else Some (b, s, e)
    else Some (b, 1, e)
  else Some (a, 1, p).

(** The loop over the list and the end of the function: the set that is given to
    the kernel, if one is. *)
Fixpoint cpu_loop (fuel : nat) (q endp : option (list byte)) (cpuset : gset Z) : option (option (gset Z)) :=
  match q with
  | None =>
    match endp with
    | Some (_ :: _) => Some None
    | _ => Some (Some cpuset)
    end
  | Some p =>
    match fuel with
    | O => None
    | S fuel =>
      let q := next_token (Some p) "," in
      match next_num (Some p) with
      | None => Some None
      | Some (a, e) =>
        match range_rest a e with
        | None => Some None
        | Some (b, s, e) =>
          if b <? a then Some None
          else
            cpuset ← set_range (S (Z.to_nat (b - a))) a b s cpuset;
            cpu_loop fuel q (Some e) cpuset
        end
      end
    end
  end.

Definition setcpuaffinity (cpulist : option (list byte)) : option (option (gset Z)) :=
  match cpulist with
  | None => Some None
  | Some s => cpu_loop (S (length (c_str s))) (Some (c_str s)) None ∅
  end.

(** ** The lists of CPUs *)

(** [a], [a-b] and [a-b:s]. *)
Inductive cpu_item := CpuItem (a b s : Z).

Definition digits_of (ds : list byte) (v : Z) : Prop :=
  ds ≠ [] ∧ Forall (λ b, isdigit b = true) ds ∧ read_digits ds 0 = v.

Inductive item_text : list byte -> cpu_item -> Prop :=
  | text_one d1 a : digits_of d1 a -> item_text d1 (CpuItem a a 1)
  | text_range d1 a d2 b : digits_of d1 a -> digits_of d2 b ->
      item_text (d1 ++ "-"%byte :: d2) (CpuItem a b 1)
  | text_stride d1 a d2 b d3 s : digits_of d1 a -> digits_of d2 b -> digits_of d3 s ->
      item_text (d1 ++ "-"%byte :: d2 ++ ":"%byte :: d3) (CpuItem a b s).

Inductive list_text : list byte -> list cpu_item -> Prop :=
  | text_last t x : item_text t x -> list_text t [x]
  | text_more t x r xs : item_text t x -> list_text r xs -> list_text (t ++ ","%byte :: r) (x :: xs).

(** A range that is not empty, and does not end next to the largest [int]. *)
Definition item_ok (x : cpu_item) : Prop :=
  match x with CpuItem a b s => a <= b ∧ 1 <= s ∧ b + s < 2 ^ 31 end.

Definition item_cpu (x : cpu_item) (cpu : Z) : Prop :=
  match x with CpuItem a b s => a <= cpu <= b ∧ (s | cpu - a) end.

(** ** Numbers and separators *)
Lemma strchr_skip s r c : c ∉ s -> strchr (s ++ r) c = strchr r c.
Proof.
  induction s as [|b s IH]; intros Hc; [done|]. apply not_elem_of_cons in Hc as [Hb Hc]. cbn [app strchr].
  rewrite decide_False by done. by apply IH.
Qed.

Lemma strchr_suffix s c t : strchr s c = Some t -> (length t <= length s)%nat ∧ (0 < length t)%nat.
Proof.
  induction s as [|b s IH]; cbn [strchr]; [done|]. case_decide; [intros [= <-]; cbn; lia|]. intros [? ?]%IH. cbn. lia.
Qed.

Lemma digits_sep ds v c : digits_of ds v -> isdigit c = false -> c ∉ ds.
Proof. intros (_ & Hd & _) Hc Hin. rewrite Forall_forall in Hd. by rewrite (Hd c Hin) in Hc. Qed.

(** The rest behind a number: no digit comes first. *)
Definition stops (r : list byte) : Prop := match r with [] => True | c :: _ => isdigit c = false end.

Lemma read_digits_app ds r acc :
  Forall (λ b, isdigit b = true) ds -> stops r -> read_digits (ds ++ r) acc = read_digits ds acc ∧ skip_digits (ds ++ r) = r.
Proof.
  intros Hd Hr. revert acc. induction Hd as [|c ds Hc _ IH]; intros acc; cbn [app read_digits skip_digits].
  - destruct r as [|c r]; [done|]. cbn [stops] in Hr. cbn. by rewrite Hr.
  - rewrite Hc. apply IH.
Qed.

Lemma read_digits_grow ds acc : 0 <= acc -> 0 <= read_digits ds acc.
Proof.
  revert acc. induction ds as [|c ds IH]; intros acc Ha; cbn [read_digits]; [done|].
  destruct (isdigit c) eqn:Ec; [|done]. apply IH. apply isdigit_digit in Ec as [? _]. lia.
Qed.

Lemma next_num_digits ds v r :
  digits_of ds v -> v < 2 ^ 31 -> stops r -> next_num (Some (ds ++ r)) = Some (v, r) ∧ 0 <= v.
Proof.
  intros (Hne & Hd & Hv) Hb Hr. destruct ds as [|c ds]; [done|]. inversion Hd as [|? ? Hc _]; subst.
  pose proof (read_digits_grow (c :: ds) 0 ltac:(lia)) as H0. split; [|done].
  unfold next_num. cbn [mbind option_bind app]. rewrite Hc.
  destruct (read_digits_app (c :: ds) r 0 Hd Hr) as [E1 E2]. cbn [app] in E1, E2. rewrite E1, E2.
  unfold ULONG_MAX. rewrite Z.min_l by lia. by rewrite i32_small by lia.
Qed.

Lemma next_token_at s r c : c ∉ s -> next_token (Some (s ++ c :: r)) c = Some r.
Proof. intros Hc. unfold next_token. cbn [mbind option_bind]. rewrite strchr_skip by done. cbn. by rewrite decide_True. Qed.

Lemma next_token_here c r : next_token (Some (c :: r)) c = Some r.
Proof. apply (next_token_at []), not_elem_of_nil. Qed.

(** What follows an item: the end, or a comma. *)
Definition ends (r : list byte) : Prop := r = [] ∨ ∃ r', r = ","%byte :: r'.

Lemma ends_stops r : ends r -> stops r.
Proof. by intros [->|[r' ->]]. Qed.

(** A separator behind the item is not before its comma. *)
Lemma before_later r c : ends r -> c ≠ ","%byte -> comes_before (next_token (Some r) c) (next_token (Some r) ",") = false.
Proof.
  intros [->|[r' ->]] Hc; [done|]. unfold next_token. cbn [mbind option_bind strchr].
  rewrite decide_False by done. rewrite decide_True by done. cbn [mbind option_bind tail].
  destruct (strchr r' c) as [t|] eqn:E; [|done]. cbn [mbind option_bind comes_before].
  destruct (strchr_suffix _ _ _ E) as [H1 H2]. apply Nat.ltb_ge. destruct t; cbn in *; lia.
Qed.

(** One in the item is. *)
Lemma before_sooner d r : ends r -> comes_before (Some (d ++ r)) (next_token (Some r) ",") = true.
Proof.
  intros [->|[r' ->]]; [done|]. unfold next_token. cbn. rewrite decide_True by done. cbn.
  apply Nat.ltb_lt. rewrite length_app. cbn. lia.
Qed.

Lemma comma_skip s r : ","%byte ∉ s -> next_token (Some (s ++ r)) "," = next_token (Some r) ",".
Proof. intros Hs. unfold next_token. cbn [mbind option_bind]. by rewrite strchr_skip. Qed.

Lemma digits_no ds v c s : digits_of ds v -> isdigit c = false -> c ∉ s -> c ∉ ds ++ s.
Proof. intros Hd Hc Hs [Hin|Hin]%elem_of_app; [by eapply digits_sep|done]. Qed.

Lemma digits_no_only ds v c : digits_of ds v -> isdigit c = false -> c ∉ ds.
Proof. apply digits_sep. Qed.

Lemma not_in_cons (b c : byte) s : c ≠ b -> c ∉ s -> c ∉ b :: s.
Proof. rewrite not_elem_of_cons. auto. Qed.

Create HintDb cpu.
#[local] Hint Resolve digits_no digits_no_only not_in_cons ends_stops : cpu.
#[local] Hint Extern 1 (isdigit _ = false) => reflexivity : cpu.
#[local] Hint Extern 1 (_ ≠ _) => discriminate : cpu.

Lemma item_no_comma t x : item_text t x -> ","%byte ∉ t.
Proof. intros []; eauto 6 with cpu. Qed.

(** The number and the rest of an item. *)
Lemma item_parses t a b s r :
  item_text t (CpuItem a b s) -> item_ok (CpuItem a b s) -> ends r ->
  ∃ e, next_num (Some (t ++ r)) = Some (a, e) ∧ range_rest a e = Some (b, s, r) ∧ 0 <= a.
Proof.
  intros Ht (Hab & Hs & Hb) Hr.
  inversion Ht as [d1 ? H1|d1 ? d2 ? H1 H2|d1 ? d2 ? d3 ? H1 H2 H3]; subst.
  - destruct (next_num_digits t b r H1) as [E H0]; [lia|by apply ends_stops|]. exists r. rewrite E.
    unfold range_rest. by rewrite before_later.
  - rewrite <- app_assoc. destruct (next_num_digits d1 a (("-"%byte :: d2) ++ r) H1) as [E H0]; [lia|done|].
    destruct (next_num_digits d2 b r H2) as [E2 _]; [lia|by apply ends_stops|].
    eexists. split; [exact E|]. split; [|done]. unfold range_rest. rewrite comma_skip by eauto with cpu.
    cbn [app]. rewrite next_token_here, before_sooner, E2 by done.
    cbn [mbind option_bind]. assert (comes_before match r with [] => None | _ :: _ => next_token (Some r) ":" end
      (next_token (Some r) ",") = false) as -> by (destruct r; [done|by apply before_later]). done.
  - rewrite <- app_assoc. destruct (next_num_digits d1 a (("-"%byte :: d2 ++ ":"%byte :: d3) ++ r) H1) as [E H0]; [lia|done|].
    destruct (next_num_digits d2 b (":"%byte :: d3 ++ r) H2) as [E2 _]; [lia|done|].
    destruct (next_num_digits d3 s r H3) as [E3 _]; [lia|by apply ends_stops|].
    eexists. split; [exact E|]. split; [|done]. unfold range_rest. rewrite comma_skip by eauto 6 with cpu.
    cbn [app]. rewrite next_token_here. rewrite <- app_assoc. cbn [app].
    rewrite (app_assoc d2 (":"%byte :: d3) r : d2 ++ ":"%byte :: d3 ++ r = _).
    rewrite before_sooner by done. rewrite <- app_assoc. cbn [app]. rewrite E2. cbn [mbind option_bind].
    rewrite next_token_here, before_sooner, E3 by done. cbn [mbind option_bind].
    by rewrite decide_False by lia.
Qed.

(** ** The set *)
Lemma elem_of_CPU_SET cpu set x : x ∈ CPU_SET cpu set <-> x ∈ set ∨ x = cpu ∧ 0 <= x < CPU_SETSIZE.
Proof.
  unfold CPU_SET, CPU_SETSIZE. destruct (Z.leb_spec 0 cpu), (Z.ltb_spec cpu 1024); cbn [andb];
    rewrite ?elem_of_union, ?elem_of_singleton; intuition lia.
Qed.

Lemma set_range_ok fuel a b s set :
  0 <= a -> 1 <= s -> b + s < 2 ^ 31 -> b - a < Z.of_nat fuel ->
  ∃ set', set_range fuel a b s set = Some set' ∧
    ∀ x, x ∈ set' <-> x ∈ set ∨ 0 <= x < CPU_SETSIZE ∧ a <= x <= b ∧ (s | x - a).
Proof.
  intros Ha Hs Hb. revert a set Ha. induction fuel as [|fuel IH]; intros a set Ha Hfuel; cbn [set_range];
    destruct (Z.leb_spec a b) as [Hab|Hab]; try lia; try (eexists; split; [done|]; intros x; intuition lia).
  rewrite decide_True by lia. destruct (IH (a + s) (CPU_SET a set)) as (set' & -> & Hset'); [lia|lia|].
  eexists. split; [done|]. intros x. rewrite Hset', elem_of_CPU_SET. split.
  - intros [[?|[-> ?]]|(? & ? & Hd)]; [by left| |].
    + right. split_and!; try lia. rewrite Z.sub_diag. apply Z.divide_0_r.
    + right. split_and!; try lia. replace (x - a) with (x - (a + s) + s) by lia.
      by apply Z.divide_add_r, Z.divide_refl.
  - intros [?|(Hx & Hax & k & Hk)]; [by left; left|]. assert (0 <= k) as Hk0 by nia.
    destruct (decide (k = 0)) as [->|Hk1]; [left; right; lia|]. right. split_and!; [lia|lia|nia|lia|].
    exists (k - 1). lia.
Qed.

Lemma cpu_loop_ok t items : list_text t items -> Forall item_ok items -> ∀ fuel endp set, (length t < fuel)%nat ->
  ∃ set', cpu_loop fuel (Some t) endp set = Some (Some set') ∧
    ∀ x, x ∈ set' <-> x ∈ set ∨ 0 <= x < CPU_SETSIZE ∧ Exists (λ i, item_cpu i x) items.
Proof.
  induction 1 as [t [a b s] Ht|t [a b s] r xs Ht Hr IH]; intros Hok fuel endp set Hfuel;
    (destruct fuel as [|fuel]; [lia|]); apply Forall_cons in Hok as [Hi Hok]; cbn [cpu_loop].
  - destruct (item_parses t a b s [] Ht Hi) as (e & E1 & E2 & Ha); [by left|]. rewrite app_nil_r in E1. rewrite E1, E2.
    destruct Hi as (Hab & Hs & Hb). rewrite (proj2 (Z.ltb_ge _ _)) by done.
    destruct (set_range_ok (S (Z.to_nat (b - a))) a b s set) as (set' & -> & Hset'); [lia..|].
    assert (next_token (Some t) "," = next_token (Some []) ",") as ->.
    { rewrite <- (app_nil_r t) at 1. apply comma_skip. by eapply item_no_comma. }
    cbn [mbind option_bind]. exists set'. split; [by destruct fuel|]. intros x.
    rewrite Hset', Exists_cons, Exists_nil. unfold item_cpu. tauto.
  - destruct (item_parses t a b s (","%byte :: r) Ht Hi) as (e & E1 & E2 & Ha); [right; by eexists|]. rewrite E1, E2.
    destruct Hi as (Hab & Hs & Hb). rewrite (proj2 (Z.ltb_ge _ _)) by done.
    destruct (set_range_ok (S (Z.to_nat (b - a))) a b s set) as (set1 & -> & Hset1); [lia..|].
    rewrite comma_skip, next_token_here by (by eapply item_no_comma). cbn [mbind option_bind].
    rewrite length_app in Hfuel. cbn [length] in Hfuel.
    destruct (IH Hok fuel (Some (","%byte :: r)) set1) as (set' & -> & Hset'); [lia|].
    exists set'. split; [done|]. intros x. rewrite Hset', Hset1, Exists_cons. unfold item_cpu at 2. tauto.
Qed.

Lemma list_text_no_nul t items : list_text t items -> x00 ∉ t.
Proof.
  assert (∀ t x, item_text t x -> x00 ∉ t) as Hi by (intros ? ? []; eauto 6 with cpu).
  induction 1 as [t x Ht|t x r xs Ht _ IH]; [by eapply Hi|].
  rewrite elem_of_app, elem_of_cons. intros [?|[?|?]]; [by eapply (Hi t)|done|done].
Qed.

(** C40. [setcpuaffinity] reads every list of CPUs of the documented form, single
    numbers, ranges and ranges with a step, and gives the kernel exactly the CPUs
    of the list that a set can hold. *)
Theorem setcpuaffinity_spec t items :
  list_text t items -> Forall item_ok items ->
  ∃ set, setcpuaffinity (Some t) = Some (Some set) ∧
    ∀ x, x ∈ set <-> 0 <= x < CPU_SETSIZE ∧ Exists (λ i, item_cpu i x) items.
Proof.
  intros Ht Hok. unfold setcpuaffinity. rewrite (c_str_no_nul t) by (by eapply list_text_no_nul).
  destruct (cpu_loop_ok t items Ht Hok (S (length t)) None ∅) as (set & E & Hset); [lia|].
  exists set. split; [done|]. intros x. rewrite Hset. rewrite elem_of_empty. tauto.
Qed.

Lemma ex_digits s v :
  bytes_of s ≠ [] -> forallb isdigit (bytes_of s) = true -> read_digits (bytes_of s) 0 = v -> digits_of (bytes_of s) v.
Proof. intros H1 H2 H3. split_and!; [done| |done]. apply Forall_forall. intros b Hb. by apply (proj1 (forallb_forall _ _) H2), list_elem_of_In. Qed.

Definition ex_cpulist : list byte := bytes_of "0,2-3,8-20:4".
Definition ex_cpus : list cpu_item := [CpuItem 0 0 1; CpuItem 2 3 1; CpuItem 8 20 4].

Lemma setcpuaffinity_spec_witness :
  ∃ set, setcpuaffinity (Some ex_cpulist) = Some (Some set) ∧
    ∀ x, x ∈ set <-> 0 <= x < CPU_SETSIZE ∧ Exists (λ i, item_cpu i x) ex_cpus.
Proof.
  apply (setcpuaffinity_spec ex_cpulist ex_cpus).
  - apply (text_more (bytes_of "0") (CpuItem 0 0 1) (bytes_of "2-3,8-20:4")).
    + apply text_one. by apply ex_digits.
    + apply (text_more (bytes_of "2-3") (CpuItem 2 3 1) (bytes_of "8-20:4")).
      * apply (text_range (bytes_of "2") 2 (bytes_of "3") 3); by apply ex_digits.
      * apply text_last. apply (text_stride (bytes_of "8") 8 (bytes_of "20") 20 (bytes_of "4") 4); by apply ex_digits.
  - repeat constructor; lia.
Defined.

(** Text behind a number is passed over in every item but the last, and the
    largest [int] overflows. *)
Example ex_cpu_garbage : setcpuaffinity (Some (bytes_of "0x,1")) = Some (Some (CPU_SET 1 (CPU_SET 0 ∅))).
Proof. by apply (bool_decide_unpack _); vm_compute. Qed.
Example ex_cpu_garbage_last : setcpuaffinity (Some (bytes_of "1,0x")) = Some None.
Proof. by apply (bool_decide_unpack _); vm_compute. Qed.
Example ex_cpu_overflow : setcpuaffinity (Some (bytes_of "2147483647")) = None.
Proof. by apply (bool_decide_unpack _); vm_compute. Qed.
