(* ===== verification/Locks.v ===== *)
(** * Locks: threads with the locks of the module

    The module's threads and Redis's own share the index and the cached
    connections.  What they lock is modelled here on its own: a program is the
    sequence of the locks it takes and gives back and of the parts of the state it
    reads or writes, and the threads of a system run step by step in any order.

    [well_locked] is the discipline that makes programs safe: whoever writes a
    table, or frees the strings of its keys, holds Redis's lock and the table's,
    whoever reads it holds one of the two, the memory of a connection is used
    under Redis's lock, and a lock is taken only below the ones held already.  Programs that
    keep to it never race and never block each other for good. *)

From S2P Require Import Prelude.
Local Open Scope Z_scope.

(** Redis's own lock ([RedisModule_ThreadSafeContextLock], which the main thread
    holds while it runs commands and events), the locks of [db_slot_infos], and
    [slotsmgrt_cached_ctx_connects_lock]. *)
Inductive lock := GIL | TableLock (db slot : Z) | ListLock (db : Z) | ConnLock.

(** What threads share: a dict of [slotkey_tables] and the strings of its keys, a
    [tagged_key_list] and the strings of its members,
    [slotsmgrt_cached_ctx_connects], and the memory of a connection in it.  To give
    a string or a connection back is to write it. *)
Inductive area :=
  | Table (db slot : Z) | Keys (db slot : Z)
  | Tagged (db : Z) | Members (db : Z)
  | Conns | Conn (c : Z).

Inductive mode := Rd | Wr.

#[export] Instance lock_eq_dec : EqDecision lock.
Proof. solve_decision. Defined.
#[export] Instance area_eq_dec : EqDecision area.
Proof. solve_decision. Defined.
#[export] Instance mode_eq_dec : EqDecision mode.
Proof. solve_decision. Defined.

(** [pthread_rwlock_rdlock] is [Acquire Rd]; a mutex is taken with [Wr]. *)
Inductive instr := Acquire (m : mode) (l : lock) | Release (l : lock) | Touch (m : mode) (a : area).

Record thread := Thread { held : list (lock * mode); code : list instr }.

(** ** The steps of a system of threads *)
Definition compatible (m : mode) (l : lock) (h : list (lock * mode)) : Prop :=
  ∀ m', (l, m') ∈ h -> m = Rd ∧ m' = Rd.

Fixpoint drop_lock (l : lock) (h : list (lock * mode)) : list (lock * mode) :=
  match h with
  | [] => []
  | x :: h => if decide (x.1 = l) then h else x :: drop_lock l h
  end.

Inductive sys_step (s : list thread) : list thread -> Prop :=
  | step_acquire i h m l c :
      s !! i = Some (Thread h (Acquire m l :: c)) ->
      (∀ j th, s !! j = Some th -> compatible m l (held th)) ->
      sys_step s (<[i := Thread ((l, m) :: h) c]> s)
  | step_release i h l c :
      s !! i = Some (Thread h (Release l :: c)) -> sys_step s (<[i := Thread (drop_lock l h) c]> s)
  | step_touch i h m a c :
      s !! i = Some (Thread h (Touch m a :: c)) -> sys_step s (<[i := Thread h c]> s).

Notation sys_steps := (rtc sys_step).

(** Two threads about to access the same area, one of them to write it. *)
Definition race (s : list thread) : Prop :=
  ∃ i j h1 m1 c1 h2 m2 c2 a, i ≠ j ∧
    s !! i = Some (Thread h1 (Touch m1 a :: c1)) ∧ s !! j = Some (Thread h2 (Touch m2 a :: c2)) ∧
    (m1 = Wr ∨ m2 = Wr).

Definition finished (s : list thread) : Prop := Forall (λ th, code th = []) s.

Definition start (progs : list (list instr)) : list thread := Thread [] <$> progs.

(** ** The discipline *)

(** The lock that keeps an area.  No lock of the module keeps the memory of a
    connection, which is used and freed after [ConnLock] is given back: of the locks
    there are, only Redis's is held by all that the main thread does with it. *)
Definition lock_of (a : area) : lock :=
  match a with
  | Table db slot | Keys db slot => TableLock db slot
  | Tagged db | Members db => ListLock db
  | Conns => ConnLock
  | Conn _ => GIL
  end.

(** The index is written under Redis's lock and its own, and read under one of them. *)
Definition index_area (a : area) : bool :=
  match a with Table _ _ | Keys _ _ | Tagged _ | Members _ => true | _ => false end.

Definition holds (l : lock) (h : list (lock * mode)) : bool := bool_decide (l ∈ h.*1).
Definition holds_wr (l : lock) (h : list (lock * mode)) : bool := bool_decide ((l, Wr) ∈ h).

Definition protected (h : list (lock * mode)) (m : mode) (a : area) : bool :=
  match m with
  | Wr => holds_wr (lock_of a) h && (negb (index_area a) || holds_wr GIL h)
  | Rd => holds (lock_of a) h || (index_area a && holds_wr GIL h)
  end.

Definition below (l l' : lock) : bool := match l, l' with GIL, GIL => false | GIL, _ => true | _, _ => false end.

Fixpoint well_locked (h : list (lock * mode)) (c : list instr) : bool :=
  match c with
  | [] => bool_decide (h = [])
  | Acquire m l :: c => forallb (λ x, below x.1 l) h && well_locked ((l, m) :: h) c
  | Release l :: c =>
    match h with
    | (l', _) :: h' => bool_decide (l = l') && well_locked h' c
    | [] => false
    end
  | Touch m a :: c => protected h m a && well_locked h c
  end.

(** ** What the discipline gives *)
Record sys_ok (s : list thread) : Prop := {
  ok_code i th : s !! i = Some th -> well_locked (held th) (code th) = true;
  ok_excl i j th1 th2 l m1 m2 : i ≠ j -> s !! i = Some th1 -> s !! j = Some th2 ->
    (l, m1) ∈ held th1 -> (l, m2) ∈ held th2 -> m1 = Rd ∧ m2 = Rd
}.

Lemma start_ok progs : Forall (λ c, well_locked [] c = true) progs -> sys_ok (start progs).
Proof.
  intros Hp. unfold start. split.
  - intros i th Hi. apply list_lookup_fmap_Some in Hi as (c & -> & Hc). exact (Forall_lookup_1 _ _ _ _ Hp Hc).
  - intros i j th1 th2 l m1 m2 _ Hi _ Hl. apply list_lookup_fmap_Some in Hi as (c & -> & _). by apply elem_of_nil in Hl.
Qed.

(** One thread moves on, to locks that are compatible with the others'. *)
Lemma sys_ok_update s i th th' :
  sys_ok s -> s !! i = Some th -> well_locked (held th') (code th') = true ->
  (∀ l m, (l, m) ∈ held th' -> (l, m) ∈ held th ∨ ∀ j tj, s !! j = Some tj -> compatible m l (held tj)) ->
  sys_ok (<[i := th']> s).
Proof.
  intros [Hc He] Hi Hc' Hh. apply lookup_lt_Some in Hi as Hlt. split.
  - intros j tj [(<- & <- & _)|[_ Hj]]%list_lookup_insert_Some; [done|by eapply Hc].
  - assert (∀ k tk l m m2, k ≠ i -> s !! k = Some tk -> (l, m) ∈ held th' -> (l, m2) ∈ held tk -> m = Rd ∧ m2 = Rd) as Hx.
    { intros k tk l m m2 Hk Htk Hm Hm2. destruct (Hh l m Hm) as [Hold|Hnew]; [|by eapply Hnew].
      by eapply (He i k). }
    intros j k t1 t2 l m1 m2 Hjk Hj Hk Hm1 Hm2.
    apply list_lookup_insert_Some in Hj as [(<- & <- & _)|[Hj0 Hj]];
      apply list_lookup_insert_Some in Hk as [(Hk0 & <- & _)|[Hk0 Hk]].
    + by destruct Hjk.
    + by eapply (Hx k).
    + destruct (Hx j t1 l m2 m1) as [? ?]; [congruence|done..].
    + by eapply (He j k).
Qed.

Lemma step_ok s s' : sys_ok s -> sys_step s s' -> sys_ok s'.
Proof.
  intros Hok Hs. destruct Hs as [i h m l c Hi Hfree|i h l c Hi|i h m a c Hi];
    pose proof (ok_code s Hok _ _ Hi) as Hc; cbn [held code well_locked] in Hc.
  - apply andb_true_iff in Hc as [_ Hc]. eapply sys_ok_update; [done|exact Hi|exact Hc|].
    cbn [held]. intros l' m' [[= -> ->]|Hin]%elem_of_cons; [by right|by left].
  - destruct h as [|[l' m'] h]; [done|]. apply andb_true_iff in Hc as [<-%bool_decide_eq_true Hc].
    cbn [drop_lock fst]. rewrite decide_True by done. eapply sys_ok_update; [done|exact Hi|exact Hc|].
    cbn [held]. intros l2 m2 Hin. left. by right.
  - apply andb_true_iff in Hc as [_ Hc]. eapply sys_ok_update; [done|exact Hi|exact Hc|].
    cbn [held]. intros l2 m2 Hin. by left.
Qed.

Lemma steps_ok s s' : sys_ok s -> sys_steps s s' -> sys_ok s'.
Proof. intros Hok. induction 1 as [|s1 s2 s3 H1 _ IH]; [done|]. apply IH. by eapply step_ok. Qed.

Lemma holds_true l h : holds l h = true -> ∃ m, (l, m) ∈ h.
Proof. intros H%bool_decide_eq_true. apply list_elem_of_fmap in H as ([l' m] & -> & Hin). by exists m. Qed.

Lemma ok_no_race s : sys_ok s -> ¬ race s.
Proof.
  intros Hok.
  assert (∀ i j h1 c1 h2 m2 c2 a, i ≠ j -> s !! i = Some (Thread h1 (Touch Wr a :: c1)) ->
    s !! j = Some (Thread h2 (Touch m2 a :: c2)) -> False) as Hno.
  { intros i j h1 c1 h2 m2 c2 a Hne Hi Hj.
    pose proof (ok_code s Hok _ _ Hi) as H1. pose proof (ok_code s Hok _ _ Hj) as H2.
    cbn [held code well_locked] in H1, H2. apply andb_true_iff in H1 as [H1 _], H2 as [H2 _].
    assert (∀ l m, (l, Wr) ∈ h1 -> (l, m) ∈ h2 -> False) as Hex.
    { intros l m Hl1 Hl2. by destruct (ok_excl s Hok i j _ _ l Wr m Hne Hi Hj Hl1 Hl2). }
    cbn [protected] in H1. apply andb_true_iff in H1 as [Hw Hg]. apply bool_decide_eq_true in Hw.
    destruct m2; cbn [protected] in H2.
    - apply orb_true_iff in H2 as [[m Hm]%holds_true|[Ha Hg2]%andb_true_iff]; [by eapply Hex|].
      rewrite Ha in Hg. cbn in Hg. apply bool_decide_eq_true in Hg, Hg2. by eapply Hex.
    - apply andb_true_iff in H2 as [Hw2%bool_decide_eq_true _]. by eapply Hex. }
  intros (i & j & h1 & m1 & c1 & h2 & m2 & c2 & a & Hne & Hi & Hj & [-> | ->]); [by eapply Hno|].
  by eapply (Hno j i).
Qed.
(** ** No deadlock *)
Definition ready (th : thread) : bool :=
  match code th with Release _ :: _ | Touch _ _ :: _ => true | _ => false end.

Lemma ready_step s i th : s !! i = Some th -> ready th = true -> ∃ s', sys_step s s'.
Proof.
  destruct th as [h [|[m l|l|m a] c]]; unfold ready; cbn; try done; intros Hi _; eexists.
  - by eapply step_release.
  - by eapply step_touch.
Qed.

(** A thread that is not ready has ended or waits for a lock, and holds Redis's
    lock at most. *)
Lemma waiting_thread th :
  well_locked (held th) (code th) = true -> ready th = false ->
  (code th = [] ∧ held th = []) ∨
  ∃ m l c, code th = Acquire m l :: c ∧ ∀ l' m', (l', m') ∈ held th -> l' = GIL ∧ l ≠ GIL.
Proof.
  destruct th as [h [|[m l|l|m a] c]]; unfold ready; cbn; try done.
  - intros Hh%bool_decide_eq_true _. by left.
  - intros [Hb _]%andb_true_iff _. right. exists m, l, c. split; [done|]. intros l' m' Hin.
    rewrite forallb_forall in Hb. specialize (Hb (l', m') (proj1 (list_elem_of_In _ _) Hin)).
    by destruct l', l.
Qed.

Lemma ok_progress s : sys_ok s -> ¬ finished s -> ∃ s', sys_step s s'.
Proof.
  intros Hok Hnf.
  destruct (list_find (λ th, ready th = true) s) as [[i th]|] eqn:Er.
  { apply list_find_Some in Er as (Hi & Hr & _). by eapply ready_step. }
  apply list_find_None in Er. rewrite Forall_lookup in Er.
  assert (∀ j th, s !! j = Some th -> (code th = [] ∧ held th = []) ∨
    ∃ m l c, code th = Acquire m l :: c ∧ ∀ l' m', (l', m') ∈ held th -> l' = GIL ∧ l ≠ GIL) as Hw.
  { intros j th Hj. apply waiting_thread; [by eapply ok_code|]. apply not_true_is_false. by eapply Er. }
  assert (∀ j th l m, s !! j = Some th -> (l, m) ∈ held th -> l = GIL) as Hgil.
  { intros j th l m Hj Hin. destruct (Hw j th Hj) as [[_ E]|(m' & l' & c & _ & Hall)].
    - rewrite E in Hin. by apply elem_of_nil in Hin.
    - by apply (Hall l m). }
  destruct (list_find (λ th, held th ≠ []) s) as [[i th]|] eqn:Eh.
  - apply list_find_Some in Eh as (Hi & Hh & _). destruct (Hw i th Hi) as [[_ E]|(m & l & c & Ec & Hall)]; [done|].
    destruct th as [h c0]. cbn [held code] in *. subst c0. destruct h as [|[l1 m1] h]; [done|].
    destruct (Hall l1 m1) as [_ Hl]; [by left|]. eexists. eapply step_acquire; [exact Hi|].
    intros j tj Hj m' Hin. by apply (Hgil j tj) in Hin.
  - apply list_find_None in Eh. rewrite Forall_lookup in Eh.
    assert (∀ j th, s !! j = Some th -> held th = []) as Hnil.
    { intros j th Hj. specialize (Eh j th Hj). destruct (held th); [done|]. by exfalso; apply Eh. }
    unfold finished in Hnf. apply not_Forall_Exists in Hnf; [|apply _]. apply Exists_exists in Hnf as (th & Hin & Hne).
    apply list_elem_of_lookup in Hin as [i Hi]. destruct (Hw i th Hi) as [[E _]|(m & l & c & Ec & _)]; [done|].
    destruct th as [h c0]. cbn [code] in Ec. subst c0. eexists. eapply step_acquire; [exact Hi|].
    intros j tj Hj m' Hin'. rewrite (Hnil j tj Hj) in Hin'. by apply elem_of_nil in Hin'.
Qed.

Definition work (s : list thread) : nat := sum_list_with (λ th, length (code th)) s.

Lemma step_work s s' : sys_step s s' -> S (work s') = work s.
Proof.
  assert (∀ i th th', s !! i = Some th -> S (length (code th')) = length (code th) -> S (work (<[i := th']> s)) = work s) as Hx.
  { unfold work. clear s'. intros i th th'. revert i. induction s as [|t s IH]; intros [|i] Hi Hl; try done; cbn in Hi |- *.
    - injection Hi as ->. lia.
    - rewrite <- Nat.add_succ_r. f_equal. exact (IH i Hi Hl). }
  destruct 1 as [i h m l c Hi _|i h l c Hi|i h m a c Hi]; by eapply Hx.
Qed.

(** Every thread runs to its end from wherever the system has come to. *)
Lemma ok_completes s : sys_ok s -> ∃ s', sys_steps s s' ∧ finished s'.
Proof.
  remember (work s) as n eqn:Hn. revert s Hn. induction n as [n IH] using lt_wf_ind. intros s -> Hok.
  destruct (decide (finished s)) as [Hf|Hf]; [by exists s|].
  destruct (ok_progress s Hok Hf) as [s1 H1]. pose proof (step_work _ _ H1).
  destruct (IH (work s1)) with (s := s1) as (s' & Hs & Hfin); [lia|done|by eapply step_ok|].
  exists s'. split; [|done]. by eapply rtc_l.
Qed.

(** No run is longer than the programs. *)
Lemma steps_bounded n s s' : nsteps sys_step n s s' -> (n <= work s)%nat.
Proof.
  induction 1 as [|n s1 s2 s3 H1 _ IH]; [lia|]. pose proof (step_work _ _ H1). lia.
Qed.
