(* ===== verification/LockUse.v ===== *)
(** * LockUse: what each part of the module locks

    The stretches of code that take a lock or touch shared state, as programs of
    [Locks]: [piece_code] says for each what it locks and what it reads or writes.
    A command in a thread is a sequence of such pieces, some of them between
    [ASYNC_LOCK] and [ASYNC_UNLOCK]; what the main thread runs, commands,
    notifications and the cron loop, is under Redis's lock as a whole.

    The pieces include what is done after a lock is given back: the entry of a
    random key and the strings of keys and members that are read then, the
    connection that is used, stamped and freed.

    A piece is safe, with Redis's lock or without it, when the locks held protect
    what it touches.  Safe pieces never race, in any number of threads and any
    order, and every thread runs to its end; each other piece races with a safe
    one.  This is about races only: that a string taken from the index is still
    alive when it is used under a lock later is another matter, and not so.  The
    reference counts of strings are Redis's and not among the areas. *)

From S2P Require Import Prelude.
From S2P Require Import Dict.
From S2P Require Import SkipList.
From S2P Require Import KeySlot.
From S2P Require Import Slots.
From S2P Require Import Locks.
Local Open Scope Z_scope.

(** [pthread_rwlock_rdlock(l); ... pthread_rwlock_unlock(l)], or the mutex. *)
Definition under (m : mode) (l : lock) (body : list instr) : list instr := Acquire m l :: body ++ [Release l].

(** ** The index *)
Definition slots_add_code (db slot : Z) (added hastag : bool) : list instr :=
  under Wr (TableLock db slot) [Touch Wr (Table db slot)] ++
  (if added && hastag then under Wr (ListLock db) [Touch Wr (Tagged db)] else []).

(** A key that is deleted gives the strings of the index back, as its destructors do. *)
Definition slots_del_code (db slot : Z) (deleted hastag : bool) : list instr :=
  under Wr (TableLock db slot) (Touch Wr (Table db slot) :: (if deleted then [Touch Wr (Keys db slot)] else [])) ++
  (if deleted && hastag then under Wr (ListLock db) [Touch Wr (Tagged db); Touch Wr (Members db)] else []).

(** [m_dictGetRandomKey] moves a bucket when a dict that has keys is being
    rehashed.  The entry it returns is read by [dictGetKey] when the lock has been
    given back, and its string by the call that the key is passed to. *)
Definition random_key_code (db slot : Z) (rehashing found : bool) : list instr :=
  under Rd (TableLock db slot) [Touch (if rehashing && found then Wr else Rd) (Table db slot)] ++
  (if found then [Touch Rd (Table db slot); Touch Rd (Keys db slot)] else []).

(** [dictSize] of a table, for [*left] and before a table is read. *)
Definition size_code (db slot : Z) : list instr := under Rd (TableLock db slot) [Touch Rd (Table db slot)].

(** The members in the range are collected under the lock; [migrateKeys] reads
    them when it has been given back. *)
Definition tagged_code (db : Z) (found : bool) : list instr :=
  under Rd (ListLock db) [Touch Rd (Tagged db)] ++ (if found then [Touch Rd (Members db)] else []).

(** The lock around the pointer to the table, and [n] calls of [m_dictScan]. *)
Definition scan_code (db slot : Z) (n : nat) : list instr :=
  under Rd (TableLock db slot) [] ++
  mjoin (replicate n (under Rd (TableLock db slot) [Touch Rd (Table db slot)])).

(** A call of Redis with a key that a scan has collected. *)
Definition use_keys_code (db slot : Z) : list instr := [Touch Rd (Keys db slot)].

(** ** Without the locks of the index *)

(** [dictSize] for the replies of SLOTSINFO and SLOTSDEL. *)
Definition info_code (db slot : Z) : list instr := [Touch Rd (Table db slot)].

Definition resize_code (db slot : Z) (resized : bool) : list instr :=
  Touch Rd (Table db slot) :: (if resized then [Touch Wr (Table db slot)] else []).

Definition rehash_code (db slot : Z) (rehashing : bool) : list instr :=
  Touch Rd (Table db slot) :: (if rehashing then [Touch Wr (Table db slot)] else []).

Definition flush_code (db slot : Z) (empty : bool) : list instr :=
  Touch Rd (Table db slot) :: (if empty then [] else [Touch Wr (Table db slot); Touch Wr (Keys db slot)]).

Definition flush_tagged_code (db : Z) (empty : bool) : list instr :=
  Touch Rd (Tagged db) :: (if empty then [] else [Touch Wr (Tagged db); Touch Wr (Members db)]).

(** ** The cached connections *)

(** A connection that is not cached is made in memory of its own. *)
Definition get_conn_code (c : Z) (cached : bool) : list instr :=
  under Wr ConnLock [Touch Rd Conns] ++
  (if cached then [Touch Wr (Conn c)] else under Wr ConnLock [Touch Wr Conns]).

(** [conn->conn_ctx] for an exchange. *)
Definition use_conn_code (c : Z) : list instr := [Touch Rd (Conn c)].

(** [conn->last_time = get_unixtime()] after the commands are sent. *)
Definition stamp_code (c : Z) : list instr := [Touch Wr (Conn c)].

(** The name goes under the lock, the connection is freed when it has been given
    back. *)
Definition close_conn_code (c : Z) (found : bool) : list instr :=
  under Wr ConnLock [Touch Rd Conns] ++
  (if found then under Wr ConnLock [Touch Wr Conns] ++ [Touch Wr (Conn c)] else []).

(** The sweep of the connections, each with whether it is closed. *)
Definition sweep_code (conns : list (Z * bool)) : list instr :=
  under Wr ConnLock (conns ≫= λ '(c, closed),
    [Touch Rd Conns; Touch Rd (Conn c)] ++ (if closed : bool then [Touch Wr Conns; Touch Wr (Conn c)] else [])).

(** ** Pieces and jobs *)
Inductive piece :=
  | PAdd (db slot : Z) (added hastag : bool)
  | PDel (db slot : Z) (deleted hastag : bool)
  | PRandomKey (db slot : Z) (rehashing found : bool)
  | PSize (db slot : Z)
  | PTagged (db : Z) (found : bool)
  | PScan (db slot : Z) (n : nat)
  | PUseKeys (db slot : Z)
  | PInfo (db slot : Z)
  | PResize (db slot : Z) (resized : bool)
  | PRehash (db slot : Z) (rehashing : bool)
  | PFlush (db slot : Z) (empty : bool)
  | PFlushTagged (db : Z) (empty : bool)
  | PGetConn (c : Z) (cached : bool)
  | PUseConn (c : Z)
  | PStamp (c : Z)
  | PCloseConn (c : Z) (found : bool)
  | PSweep (conns : list (Z * bool)).

Definition piece_code (p : piece) : list instr :=
  match p with
  | PAdd db slot added hastag => slots_add_code db slot added hastag
  | PDel db slot deleted hastag => slots_del_code db slot deleted hastag
  | PRandomKey db slot rehashing found => random_key_code db slot rehashing found
  | PSize db slot => size_code db slot
  | PTagged db found => tagged_code db found
  | PScan db slot n => scan_code db slot n
  | PUseKeys db slot => use_keys_code db slot
  | PInfo db slot => info_code db slot
  | PResize db slot resized => resize_code db slot resized
  | PRehash db slot rehashing => rehash_code db slot rehashing
  | PFlush db slot empty => flush_code db slot empty
  | PFlushTagged db empty => flush_tagged_code db empty
  | PGetConn c cached => get_conn_code c cached
  | PUseConn c => use_conn_code c
  | PStamp c => stamp_code c
  | PCloseConn c found => close_conn_code c found
  | PSweep conns => sweep_code conns
  end.

(** Who runs which pieces when [async] is set: what a thread of a command, or of its
    pool, runs without Redis's lock, and what runs under it, in the main thread or
    in a call of Redis from a thread.  (Without [async] the pieces are all the main
    thread's, which holds the lock and waits for the threads of its pools.) *)
Definition in_thread (p : piece) : bool :=
  match p with
  | PRandomKey _ _ _ _ | PSize _ _ | PTagged _ _ | PScan _ _ _ | PInfo _ _
  | PGetConn _ _ | PUseConn _ | PStamp _ | PCloseConn _ _ => true
  | _ => false
  end.

Definition in_redis (p : piece) : bool :=
  match p with
  | PAdd _ _ _ _ | PDel _ _ _ _ | PScan _ _ _ | PUseKeys _ _ | PInfo _ _ | PResize _ _ _ | PRehash _ _ _
  | PFlush _ _ _ | PFlushTagged _ _ | PSweep _ => true
  | _ => false
  end.

(** A stretch of a thread on its own, or what runs while a thread holds Redis's
    lock. *)
Inductive job := Alone (p : piece) | WithRedis (ps : list piece).

Definition ASYNC_LOCKED (body : list instr) : list instr := under Wr GIL body.

Definition job_code (j : job) : list instr :=
  match j with
  | Alone p => piece_code p
  | WithRedis ps => ASYNC_LOCKED (ps ≫= piece_code)
  end.

Definition job_of (redis : bool) (p : piece) : job := if redis then WithRedis [p] else Alone p.

Definition thread_code (jobs : list job) : list instr := jobs ≫= job_code.

(** ** Safe pieces *)

(** With Redis's lock held. *)
Definition safe_redis (p : piece) : bool :=
  match p with
  | PRandomKey _ _ rehashing found => negb (rehashing && found)
  | PResize _ _ b | PRehash _ _ b => negb b
  | PFlush _ _ empty | PFlushTagged _ empty => empty
  | _ => true
  end.

(** Without it. *)
Definition safe_alone (p : piece) : bool :=
  match p with
  | PSize _ _ | PScan _ _ _ => true
  | PRandomKey _ _ _ found | PTagged _ found | PCloseConn _ found => negb found
  | PGetConn _ cached => negb cached
  | _ => false
  end.

Definition safe_job (j : job) : bool :=
  match j with
  | Alone p => safe_alone p
  | WithRedis ps => forallb safe_redis ps
  end.

(** A program that keeps to the discipline where [h] is held, and holds [h] at
    its end. *)
Definition safe_in (h : list (lock * mode)) (c : list instr) : Prop :=
  ∀ rest, well_locked h rest = true -> well_locked h (c ++ rest) = true.

Lemma safe_nil h : safe_in h [].
Proof. by intros rest. Qed.

Lemma safe_app h c1 c2 : safe_in h c1 -> safe_in h c2 -> safe_in h (c1 ++ c2).
Proof. intros H1 H2 rest Hr. rewrite <- app_assoc. by apply H1, H2. Qed.

Lemma safe_touch h m a c : protected h m a = true -> safe_in h c -> safe_in h (Touch m a :: c).
Proof. intros Hp Hc rest Hr. cbn. rewrite Hp. by apply Hc. Qed.

Lemma safe_under h m l body :
  forallb (λ x, below x.1 l) h = true -> safe_in ((l, m) :: h) body -> safe_in h (under m l body).
Proof.
  intros Hb Hbody rest Hr. unfold under. cbn [app well_locked]. rewrite Hb. cbn [andb]. rewrite <- app_assoc.
  apply Hbody. cbn. by rewrite bool_decide_eq_true_2.
Qed.

Lemma safe_bind {A} h (f : A -> list instr) xs : (∀ x, x ∈ xs -> safe_in h (f x)) -> safe_in h (xs ≫= f).
Proof.
  induction xs as [|x xs IH]; intros Hf; [apply safe_nil|]. cbn. apply safe_app; [apply Hf; by left|].
  apply IH. intros y Hy. apply Hf. by right.
Qed.

Lemma safe_repeat h c n : safe_in h c -> safe_in h (mjoin (replicate n c)).
Proof. intros Hc. induction n as [|n IH]; [apply safe_nil|]. cbn. by apply safe_app. Qed.

(** Locks held are seen at the head or below it. *)
Lemma holds_wr_head l h : holds_wr l ((l, Wr) :: h) = true.
Proof. apply bool_decide_eq_true_2. by left. Qed.

Lemma holds_wr_tail l x h : holds_wr l h = true -> holds_wr l (x :: h) = true.
Proof. intros H%bool_decide_eq_true. apply bool_decide_eq_true_2. by right. Qed.

Lemma holds_head l m h : holds l ((l, m) :: h) = true.
Proof. apply bool_decide_eq_true_2. by left. Qed.

Lemma protected_rd a m h : protected ((lock_of a, m) :: h) Rd a = true.
Proof. cbn [protected]. by rewrite holds_head. Qed.

Lemma protected_wr a h : index_area a = false ∨ holds_wr GIL h = true -> protected ((lock_of a, Wr) :: h) Wr a = true.
Proof.
  intros Hg. cbn [protected]. rewrite holds_wr_head. destruct Hg as [-> | Hg]; [done|].
  rewrite holds_wr_tail by done. apply orb_true_r.
Qed.

Lemma protected_redis a h : index_area a = true -> holds_wr GIL h = true -> protected h Rd a = true.
Proof. intros Ha Hg. cbn [protected]. rewrite Ha, Hg. apply orb_true_r. Qed.

Lemma protected_above m a x h : protected h m a = true -> protected (x :: h) m a = true.
Proof.
  assert (∀ l, holds l h = true -> holds l (x :: h) = true) as Hh.
  { intros l H%bool_decide_eq_true. apply bool_decide_eq_true_2. cbn. by right. }
  destruct m; cbn [protected]; intros H.
  - apply orb_true_iff in H as [H|[-> H]%andb_true_iff]; apply orb_true_iff; [left; by apply Hh|right].
    by apply holds_wr_tail.
  - apply andb_true_iff in H as [H1 H2]. rewrite holds_wr_tail by done.
    apply orb_true_iff in H2 as [-> | H2]; [done|]. rewrite holds_wr_tail by done. apply orb_true_r.
Qed.

(** The strings of a table are kept by the lock of the table, and so on. *)
Lemma protected_same m a a' h :
  lock_of a = lock_of a' -> index_area a = index_area a' -> protected h m a = true -> protected h m a' = true.
Proof. intros Hl Hi. destruct m; cbn [protected]; by rewrite Hl, Hi. Qed.

Lemma safe_alone_in p : safe_alone p = true -> safe_in [] (piece_code p).
Proof.
  destruct p as [| |? ? ? []|? ?|? []|? ? n| | | | | | |? []| | |? []|]; try done; intros _; cbn [piece_code];
    unfold random_key_code, size_code, tagged_code, scan_code, get_conn_code, close_conn_code; rewrite ?andb_false_r;
    repeat match goal with
      | |- safe_in _ [] => apply safe_nil
      | |- safe_in _ (_ ++ _) => apply safe_app
      | |- safe_in _ (under _ _ _) => apply safe_under; [reflexivity|]
      | |- safe_in _ (Touch _ _ :: _) => apply safe_touch
      | |- safe_in _ (mjoin _) => apply safe_repeat
      | |- protected _ Rd ?a = true => apply (protected_rd a)
      | |- protected _ Wr ?a = true => apply (protected_wr a); by left
      end.
Qed.

Lemma safe_redis_in p : safe_redis p = true -> safe_in [(GIL, Wr)] (piece_code p).
Proof.
  destruct p as [| |? ? [] []| | | | | |? ? []|? ? []|? ? []|? []|? []| | | |]; try done; intros _; cbn [piece_code];
    unfold slots_add_code, slots_del_code, random_key_code, size_code, tagged_code, scan_code, use_keys_code, info_code,
      resize_code, rehash_code, flush_code, flush_tagged_code, get_conn_code, use_conn_code, stamp_code,
      close_conn_code, sweep_code; cbn [andb];
    repeat match goal with
      | |- safe_in _ (if ?b then _ else _) => destruct b
      | |- safe_in _ [] => apply safe_nil
      | |- safe_in _ (_ ++ _) => apply safe_app
      | |- safe_in _ (under _ _ _) => apply safe_under; [reflexivity|]
      | |- safe_in _ (Touch _ _ :: _) => apply safe_touch
      | |- safe_in _ (mjoin _) => apply safe_repeat
      | |- safe_in _ (_ ≫= _) => apply safe_bind; intros [? []] _; cbn [app]
      | |- context [if ?b then _ else _] => destruct b
      | |- protected _ _ (Conn _) = true => reflexivity
      | |- protected _ Rd ?a = true => first [by apply (protected_redis a)|apply (protected_rd a)]
      | |- protected _ Wr ?a = true =>
        first [apply (protected_wr a); first [by left|by right]
              |eapply (protected_same Wr (Table _ _)); [reflexivity..|apply (protected_wr (Table _ _)); by right]
              |eapply (protected_same Wr (Tagged _)); [reflexivity..|apply (protected_wr (Tagged _)); by right]]
      end.
Qed.

Lemma safe_job_in j : safe_job j = true -> safe_in [] (job_code j).
Proof.
  destruct j as [p|ps]; cbn [safe_job job_code]; [apply safe_alone_in|].
  intros Hps. apply safe_under; [done|]. apply safe_bind. intros p Hin. apply safe_redis_in.
  rewrite forallb_forall in Hps. by apply Hps, list_elem_of_In.
Qed.

Lemma safe_thread_code jobs : forallb safe_job jobs = true -> well_locked [] (thread_code jobs) = true.
Proof.
  intros Hj. rewrite <- (app_nil_r (thread_code jobs)). unfold thread_code.
  apply (safe_bind [] job_code jobs); [|done]. intros j Hin. apply safe_job_in.
  rewrite forallb_forall in Hj. by apply Hj, list_elem_of_In.
Qed.

(** C9. Any number of threads, each any sequence of safe pieces of the module's
    code, alone or under Redis's lock, in any interleaving: no two of them are
    ever about to access the same table, list, strings, cache or connection with
    one of them writing or freeing it, what they do after a lock is given back
    included; whatever they have done so far, all of them can run to their ends;
    and no run is longer than their programs. *)
Theorem module_threads_safe threads s n :
  Forall (λ jobs, forallb safe_job jobs = true) threads ->
  nsteps sys_step n (start (thread_code <$> threads)) s ->
  ¬ race s ∧ (∃ s', sys_steps s s' ∧ finished s') ∧ (n <= sum_list_with (λ jobs, length (thread_code jobs)) threads)%nat.
Proof.
  intros Ht Hn. assert (sys_ok (start (thread_code <$> threads))) as Hok.
  { apply start_ok. rewrite Forall_fmap. eapply Forall_impl; [exact Ht|]. intros jobs Hj. by apply safe_thread_code. }
  assert (sys_ok s) as Hs by (eapply steps_ok; [exact Hok|]; by eapply rtc_nsteps_2).
  split; [by apply ok_no_race|]. split; [by apply ok_completes|].
  etrans; [by eapply steps_bounded|]. apply Nat.eq_le_incl. unfold work, start. clear.
  induction threads as [|jobs threads IH]; cbn; [done|]. by rewrite IH.
Qed.

(** ** Pieces that are not safe *)

(** The steps of one thread of two. *)
Local Ltac compat :=
  let Hin := fresh in
  intros [|[|j]] th E; cbn in E; [injection E as <-|injection E as <-|done]; cbn [held]; intros m' Hin;
    repeat (apply elem_of_cons in Hin as [Hin|Hin]; [by simplify_eq|]); by apply elem_of_nil in Hin.
Local Ltac acquires i := eapply rtc_l; [eapply (step_acquire _ i); [reflexivity|compat]|cbn].
Local Ltac releases i := eapply rtc_l; [eapply (step_release _ i); reflexivity|cbn; rewrite ?decide_True by done].
Local Ltac touches i := eapply rtc_l; [eapply (step_touch _ i); reflexivity|cbn].
Local Ltac racing := apply rtc_refl.

Definition two_jobs (j k : job) : list thread := start [job_code j; job_code k].

(** What an unsafe piece races with, under Redis's lock and without it. *)
Definition racing_job (redis : bool) (p : piece) : job :=
  if redis then
    match p with
    | PFlushTagged db _ => Alone (PTagged db false)
    | PResize db slot _ | PRehash db slot _ | PFlush db slot _ => Alone (PSize db slot)
    | _ => WithRedis []
    end
  else
    match p with
    | PRandomKey db slot _ _ | PInfo db slot => WithRedis [PAdd db slot true false]
    | PTagged db _ => WithRedis [PDel db 0 true true]
    | PUseConn c => WithRedis [PSweep [(c, true)]]
    | PGetConn c _ | PStamp c | PCloseConn c _ => WithRedis [PSweep [(c, false)]]
    | _ => WithRedis []
    end.

Lemma unsafe_redis_races p :
  in_redis p = true -> safe_redis p = false -> ∃ s, sys_steps (two_jobs (WithRedis [p]) (racing_job true p)) s ∧ race s.
Proof.
  intros Hi Hp. destruct p as [| | | | | | | |? ? []|? ? []|? ? []|? []| | | | |]; try done;
    (eexists; split; [unfold two_jobs, start; cbn; acquires 0%nat; touches 0%nat; acquires 1%nat; racing|]).
  all: exists 0%nat, 1%nat; do 7 eexists; (split_and!; [done|reflexivity|reflexivity|by left]).
Qed.

Lemma unsafe_alone_races p :
  in_thread p = true -> safe_alone p = false -> ∃ s, sys_steps (two_jobs (Alone p) (racing_job false p)) s ∧ race s.
Proof.
  intros Hi Hp. destruct p as [| |? ? ? []| |? []| | | | | | | |? []| | |? []|]; try done;
    (eexists; split; [unfold two_jobs, start; cbn|exists 0%nat, 1%nat; do 7 eexists]).
  - acquires 0%nat. touches 0%nat. releases 0%nat. acquires 1%nat. acquires 1%nat. racing.
  - split_and!; [done|reflexivity|reflexivity|by right].
  - acquires 0%nat. touches 0%nat. releases 0%nat. acquires 1%nat. acquires 1%nat. touches 1%nat. touches 1%nat.
    releases 1%nat. acquires 1%nat. touches 1%nat. racing.
  - split_and!; [done|reflexivity|reflexivity|by right].
  - acquires 1%nat. acquires 1%nat. racing.
  - split_and!; [done|reflexivity|reflexivity|by right].
  - acquires 0%nat. touches 0%nat. releases 0%nat. acquires 1%nat. acquires 1%nat. touches 1%nat. racing.
  - split_and!; [done|reflexivity|reflexivity|by left].
  - acquires 1%nat. acquires 1%nat. touches 1%nat. touches 1%nat. touches 1%nat. racing.
  - split_and!; [done|reflexivity|reflexivity|by right].
  - acquires 1%nat. acquires 1%nat. touches 1%nat. racing.
  - split_and!; [done|reflexivity|reflexivity|by left].
  - acquires 0%nat. touches 0%nat. releases 0%nat. acquires 0%nat. touches 0%nat. releases 0%nat.
    acquires 1%nat. acquires 1%nat. touches 1%nat. racing.
  - split_and!; [done|reflexivity|reflexivity|by left].
Qed.

Lemma racing_job_safe redis p : safe_job (racing_job redis p) = true.
Proof. by destruct redis, p. Qed.

(** Where a piece runs. *)
Definition runs (redis : bool) (p : piece) : bool := if redis then in_redis p else in_thread p.

Lemma unsafe_job_races redis p :
  runs redis p = true -> safe_job (job_of redis p) = false ->
  ∃ s, sys_steps (two_jobs (job_of redis p) (racing_job redis p)) s ∧ race s.
Proof.
  destruct redis; cbn; [rewrite andb_true_r; apply unsafe_redis_races|apply unsafe_alone_races].
Qed.

(** C22. The locks protect exactly the pieces that are safe.  With [async], beside
    any threads of safe pieces a safe piece takes part in no race, and each other
    piece that runs, with Redis's lock or without it, races with a safe one: the
    threads' reading of a random key's entry and string and of the members of a tag
    after the lock is given back, and of a table's size for the replies of SLOTSDEL
    without it; their use, stamp and freeing of a connection; and the resizing,
    rehashing and flushing of the main thread. *)
Theorem piece_race_free_iff redis p :
  runs redis p = true ->
  ((∀ threads s, Forall (λ jobs, forallb safe_job jobs = true) threads ->
      sys_steps (start (job_code (job_of redis p) :: (thread_code <$> threads))) s -> ¬ race s) <->
   safe_job (job_of redis p) = true).
Proof.
  intros Hruns. split.
  - intros Hno. destruct (safe_job (job_of redis p)) eqn:Hp; [done|].
    destruct (unsafe_job_races redis p Hruns Hp) as (s & Hs & Hr).
    exfalso. apply (Hno [[racing_job redis p]] s); [|cbn; by rewrite app_nil_r|done].
    constructor; [|done]. cbn. by rewrite racing_job_safe.
  - intros Hp threads s Ht Hs. apply ok_no_race. eapply steps_ok; [|exact Hs]. apply start_ok. constructor.
    + rewrite <- (app_nil_r (job_code _)). by apply (safe_thread_code [job_of redis p]); cbn; rewrite Hp.
    + rewrite Forall_fmap. eapply Forall_impl; [exact Ht|]. intros jobs Hj. by apply safe_thread_code.
Qed.

(** ** The model of the index touches what is locked *)
Section touches.
Context {S : Type} `{HS : RedisStrings S}.
Implicit Types (st : slots_state S).

Definition table_at_area st (db slot : nat) : option (dict S S) :=
  di ← db_slot_infos st !! db; slotkey_tables di !! slot.

Definition tagged_at_area st (db : nat) := tagged_key_list <$> db_slot_infos st !! db.

(** What differs between two states of the index is written in [c]. *)
Definition writes_cover (c : list instr) st st' : Prop :=
  (∀ db slot, table_at_area st' db slot = table_at_area st db slot ∨
     Touch Wr (Table (Z.of_nat db) (Z.of_nat slot)) ∈ c) ∧
  (∀ db, tagged_at_area st' db = tagged_at_area st db ∨ Touch Wr (Tagged (Z.of_nat db)) ∈ c).

(** The slot of a key as an area's. *)
Definition key_area st key : Z := Z.of_nat (Z.to_nat (si_slot (key_slot st key))).

Lemma set_info_cover st db di di' slot c :
  db_slot_infos st !! db = Some di ->
  (∀ j, j ≠ slot -> slotkey_tables di' !! j = slotkey_tables di !! j) ->
  Touch Wr (Table (Z.of_nat db) (Z.of_nat slot)) ∈ c ->
  tagged_key_list di' = tagged_key_list di ∨ Touch Wr (Tagged (Z.of_nat db)) ∈ c ->
  writes_cover c st (set_info st db di').
Proof.
  intros Hdi Hother Ht Hl. apply lookup_lt_Some in Hdi as Hlt. unfold set_info.
  split; [intros db' slot'|intros db']; unfold table_at_area, tagged_at_area; cbn [db_slot_infos];
    (destruct (decide (db' = db)) as [->|Hne]; [|left; by rewrite list_lookup_insert_ne]);
    rewrite list_lookup_insert_eq, Hdi by done; cbn.
  - destruct (decide (slot' = slot)) as [->|Hs]; [by right|left; by apply Hother].
  - destruct Hl as [-> | Hl]; [by left|by right].
Qed.

Lemma set_table_other (di : db_slot_info S) slot d j : j ≠ slot -> slotkey_tables (set_table di slot d) !! j = slotkey_tables di !! j.
Proof. intros Hj. cbn. by rewrite list_lookup_insert_ne. Qed.

(** The locks of [Slots_Add] and [Slots_Del] cover what they do: all that
    differs in the index after one of them is the table of the key's slot and,
    for a tagged key that was added or deleted, the list of its database, which
    the call writes under their locks; so the calls are safe pieces. *)
Theorem Slots_updates_locked fuel rand st st' db key evs :
  Slots_Add fuel rand st db key = Some (evs, st') ∨ Slots_Del st db key = Some (evs, st') ->
  ∃ p, (p = PAdd (Z.of_nat db) (key_area st key) true (si_hastag (key_slot st key)) ∨
        p = PDel (Z.of_nat db) (key_area st key) true (si_hastag (key_slot st key))) ∧
    writes_cover (piece_code p) st st' ∧ safe_redis p = true.
Proof.
  unfold Slots_Add, Slots_Del, key_area. set (n := key_slot st key). set (slot := Z.to_nat (si_slot n)).
  intros [E|E]; [exists (PAdd (Z.of_nat db) (Z.of_nat slot) true (si_hastag n))|exists (PDel (Z.of_nat db) (Z.of_nat slot) true (si_hastag n))];
    (split; [auto|]); (split; [|done]);
    (destruct (db_slot_infos st !! db) as [di|] eqn:Hdi; [|done]); cbn [mbind option_bind] in E;
    (destruct (slotkey_tables di !! slot) as [d|]; [|done]); cbn [mbind option_bind] in E.
  - destruct (takeAndRef key) as [ek k]. destruct (m_dictAdd _ _ _ _) as [[r d']|]; [|done]. cbn [mbind option_bind] in E.
    destruct (decide (r ≠ DICT_OK)); [injection E as <- <-|].
    { eapply set_info_cover; [exact Hdi|intros j; apply set_table_other|by cbn; right; left|by left]. }
    destruct (si_hastag n); [|injection E as <- <-].
    + destruct (m_zslInsert _ _ _ _ _ _) as [[z u]|]; [|done]. cbn [mbind option_bind] in E. injection E as <- <-.
      eapply set_info_cover; [exact Hdi|intros j; apply set_table_other|..].
      * cbn. by right; left.
      * right. cbn. do 4 right. left.
    + eapply set_info_cover; [exact Hdi|intros j; apply set_table_other|by cbn; right; left|by left].
  - destruct (m_dictDelete _ _) as [[[r freed] d']|]; [|done]. cbn [mbind option_bind] in E.
    destruct (decide (r ≠ DICT_OK)); [injection E as <- <-|].
    { eapply set_info_cover; [exact Hdi|intros j; apply set_table_other|by cbn; right; left|by left]. }
    destruct (si_hastag n); [|injection E as <- <-].
    + destruct (m_zslDelete _ _ _ _ _) as [[[[r2 freed'] u] z]|]; [|done]. cbn [mbind option_bind] in E. injection E as <- <-.
      eapply set_info_cover; [exact Hdi|intros j; apply set_table_other|..].
      * cbn. by right; left.
      * right. cbn. do 5 right. left.
    + eapply set_info_cover; [exact Hdi|intros j; apply set_table_other|by cbn; right; left|by left].
Qed.
End touches.

(** A random key of a dict that is not being rehashed only reads it. *)
Lemma random_key_reads {K V} `{EqDecision K} fuel (d d' : dict K V) random e :
  dictIsRehashing d = false -> m_dictGetRandomKey fuel d random = Some (e, d') -> d' = d.
Proof.
  intros Hr. unfold m_dictGetRandomKey, rehash_step_if. rewrite Hr. case_decide; [by intros [= _ <-]|].
  cbn [mbind option_bind]. destruct (pick_bucket fuel d random 0) as [[he i]|]; [|done]. cbn [mbind option_bind].
  destruct (he !! _); [|done]. by intros [= _ <-].
Qed.

(** ** Examples *)

(** The main thread adds a key with a tag, sweeps two connections and replies with a
    size while a thread deletes the keys of a slot and another connects and finds no
    member; the main thread has taken the lock of the table, the third thread the
    connections'. *)
Definition ex_threads : list (list job) :=
  [[WithRedis [PAdd 0 3 true true]; WithRedis [PSweep [(1, true); (2, false)]; PInfo 0 3]];
   [Alone (PSize 0 3); Alone (PScan 0 3 2); WithRedis [PUseKeys 0 3; PDel 0 3 true true]];
   [Alone (PGetConn 7 false); Alone (PCloseConn 8 false); Alone (PTagged 0 false)]].

Lemma ex_threads_run : ∃ s, nsteps sys_step 3 (start (thread_code <$> ex_threads)) s.
Proof.
  eexists. unfold start. cbn.
  eapply nsteps_l; [eapply (step_acquire _ 0%nat); [reflexivity|]|cbn].
  { intros [|[|[|]]] th E; cbn in E; try done; injection E as <-; by intros m' Hin%elem_of_nil. }
  eapply nsteps_l; [eapply (step_acquire _ 0%nat); [reflexivity|]|cbn].
  { intros [|[|[|]]] th E; cbn in E; try done; injection E as <-; cbn [held];
      intros m' Hin; repeat (apply elem_of_cons in Hin as [Hin|Hin]; [by simplify_eq|]); by apply elem_of_nil in Hin. }
  eapply nsteps_l; [eapply (step_acquire _ 2%nat); [reflexivity|]|cbn].
  { intros [|[|[|]]] th E; cbn in E; try done; injection E as <-; cbn [held];
      intros m' Hin; repeat (apply elem_of_cons in Hin as [Hin|Hin]; [by simplify_eq|]); by apply elem_of_nil in Hin. }
  apply nsteps_O.
Qed.

Lemma module_threads_safe_witness :
  ∃ s, nsteps sys_step 3 (start (thread_code <$> ex_threads)) s ∧
    ¬ race s ∧ (∃ s', sys_steps s s' ∧ finished s') ∧
    (3 <= sum_list_with (λ jobs, length (thread_code jobs)) ex_threads)%nat.
Proof.
  destruct ex_threads_run as [s Hs]. exists s. split; [exact Hs|].
  apply (module_threads_safe ex_threads s 3); [|exact Hs]. by apply (bool_decide_unpack _).
Defined.

Lemma piece_race_free_iff_witness :
  runs false (PRandomKey 0 3 false true) = true ∧
  ((∀ threads s, Forall (λ jobs, forallb safe_job jobs = true) threads ->
      sys_steps (start (job_code (job_of false (PRandomKey 0 3 false true)) :: (thread_code <$> threads))) s -> ¬ race s) <->
   safe_job (job_of false (PRandomKey 0 3 false true)) = true).
Proof. split; [reflexivity|]. by apply (piece_race_free_iff false (PRandomKey 0 3 false true)). Defined.

(** A random key of a table that is not being rehashed and a client's DEL. *)
Example ex_random_key_races :
  ∃ s, sys_steps (two_jobs (Alone (PRandomKey 0 3 false true)) (racing_job false (PRandomKey 0 3 false true))) s ∧ race s.
Proof. by apply (unsafe_job_races false (PRandomKey 0 3 false true)). Qed.

(** The cron loop's rehashing and a thread that reads the size of the table, and its
    sweep and a thread that closes its connection. *)
Example ex_rehash_races :
  ∃ s, sys_steps (two_jobs (WithRedis [PRehash 0 3 true]) (Alone (PSize 0 3))) s ∧ race s.
Proof. by apply (unsafe_job_races true (PRehash 0 3 true)). Qed.

Example ex_close_races :
  ∃ s, sys_steps (two_jobs (Alone (PCloseConn 7 true)) (WithRedis [PSweep [(7, false)]])) s ∧ race s.
Proof. by apply (unsafe_job_races false (PCloseConn 7 true)). Qed.
